(** * Related-file resolution engine of the Windows system mapper

    A shallow embedding of the scanner ([related_scanner.py], [scanner.py])
    and of the override layers of the controller ([main_controller.py]),
    with the properties of their specification.

    Conventions of the embedding.
    - Python [str] values are [string], read as ASCII text: lengths, blanks
      and case folding are those of the characters 0 to 127. The
      vocabularies of [source], [confidence] and [marked] stay free-form
      strings, as in the code.
    - A Python [dict] is an association list in insertion order: iteration
      order is observable (the order in which entries are appended).
    - [os.path.normcase (os.path.abspath p)] depends on the host; it is the
      parameter [os_norm] of the override layers and a field of the [Host]
      of the scanner (with the [OSError] fallback of the callers folded in,
      so that it is total). The other questions put to the file system are
      fields of [Host] and of [SizeScan.FsView].
    - [time.monotonic()] is a sequence of readings, [clock 0], [clock 1],
      ..., in the unit of the time budgets.
    - Objects mutated in place ([app.related_files = kept]) are modelled by
      rebuilding the list of applications; an application is identified by
      its position in that list. *)

From Stdlib Require Import List String Ascii ZArith Bool Arith Lia.
From Stdlib Require Import DecimalString.
Import ListNotations.

Set Implicit Arguments.
Unset Strict Implicit.

Local Open Scope string_scope.
Local Open Scope list_scope.

(** ** Python string helpers *)

Module PyStr.

(** Characters removed by [str.strip()] (the ASCII part of the set). *)
Definition is_space (c : ascii) : bool :=
  let n := nat_of_ascii c in
  ((9 <=? n)%nat && (n <=? 13)%nat) || ((28 <=? n)%nat && (n <=? 32)%nat).

Definition is_dquote (c : ascii) : bool := Ascii.eqb c (ascii_of_nat 34).

Fixpoint lstrip_by (p : ascii -> bool) (s : string) : string :=
  match s with
  | EmptyString => EmptyString
  | String c s' => if p c then lstrip_by p s' else s
  end.

Fixpoint rstrip_by (p : ascii -> bool) (s : string) : string :=
  match s with
  | EmptyString => EmptyString
  | String c s' =>
      let r := rstrip_by p s' in
      if p c && (r =? "") then EmptyString else String c r
  end.

Definition strip_by (p : ascii -> bool) (s : string) : string :=
  rstrip_by p (lstrip_by p s).

(** [s.strip()] and the stripping of surrounding double quotes. *)
Definition strip (s : string) : string := strip_by is_space s.
Definition strip_quotes (s : string) : string := strip_by is_dquote s.

(** Truthiness of a string. *)
Definition nonempty (s : string) : bool := negb (s =? "").

Definition mem (x : string) (l : list string) : bool :=
  existsb (String.eqb x) l.

Definition str_of_nat (n : nat) : string :=
  NilEmpty.string_of_uint (Nat.to_uint n).

(** ASCII case folding ([str.lower], [str.casefold]). *)
Definition lower_char (c : ascii) : ascii :=
  let n := nat_of_ascii c in
  if (65 <=? n)%nat && (n <=? 90)%nat then ascii_of_nat (n + 32) else c.

Fixpoint lower (s : string) : string :=
  match s with
  | EmptyString => EmptyString
  | String c s' => String (lower_char c) (lower s')
  end.

Definition is_alnum (c : ascii) : bool :=
  let n := nat_of_ascii c in
  ((48 <=? n)%nat && (n <=? 57)%nat) ||
  ((65 <=? n)%nat && (n <=? 90)%nat) ||
  ((97 <=? n)%nat && (n <=? 122)%nat).

Fixpoint startswith (pre s : string) : bool :=
  match pre, s with
  | EmptyString, _ => true
  | String _ _, EmptyString => false
  | String a pre', String b s' => Ascii.eqb a b && startswith pre' s'
  end.

(** [sub in s]. *)
Fixpoint contains (sub s : string) : bool :=
  startswith sub s ||
  match s with
  | EmptyString => false
  | String _ s' => contains sub s'
  end.

(** [s.find(sub)], with [None] for -1. *)
Fixpoint find (sub s : string) : option nat :=
  if startswith sub s then Some 0%nat
  else match s with
       | EmptyString => None
       | String _ s' => option_map S (find sub s')
       end.

Fixpoint endswith (suf s : string) : bool :=
  (s =? suf) ||
  match s with
  | EmptyString => false
  | String _ s' => endswith suf s'
  end.

Fixpoint count_char (c : ascii) (s : string) : nat :=
  match s with
  | EmptyString => 0
  | String a s' => (if Ascii.eqb a c then 1 else 0) + count_char c s'
  end.

(** [s.split()] for a string whose only blank is the space. *)
Fixpoint split_spaces_aux (cur : string) (s : string) : list string :=
  match s with
  | EmptyString => if cur =? "" then [] else [cur]
  | String c s' =>
      if Ascii.eqb c " "%char
      then (if cur =? "" then [] else [cur]) ++ split_spaces_aux "" s'
      else split_spaces_aux (cur ++ String c EmptyString) s'
  end.

Definition split_spaces (s : string) : list string := split_spaces_aux "" s.

(** [list(dict.fromkeys(l))]: first occurrences, in order. *)
Fixpoint unique (seen : list string) (l : list string) : list string :=
  match l with
  | [] => []
  | x :: l' => if mem x seen then unique seen l' else x :: unique (x :: seen) l'
  end.


End PyStr.

(** ** Python dictionaries in insertion order *)

Module PyDict.

Definition dict (V : Type) := list (string * V).

Fixpoint get {V} (d : dict V) (k : string) : option V :=
  match d with
  | [] => None
  | (k', v) :: d' => if k' =? k then Some v else get d' k
  end.

(** [d[k] = v]: an existing key keeps its position. *)
Fixpoint set {V} (d : dict V) (k : string) (v : V) : dict V :=
  match d with
  | [] => [(k, v)]
  | (k', v') :: d' =>
      if k' =? k then (k', v) :: d' else (k', v') :: set d' k v
  end.

Definition keys {V} (d : dict V) : list string := map fst d.

(** The representation invariant of a dictionary: no key twice. *)
Definition wf {V} (d : dict V) : Prop := NoDup (keys d).

End PyDict.

(** ** Data model ([models.py]) *)

Record RelatedFile := mkRelated {
  path : string;
  kind : string;
  source : string;
  confidence : string;
  marked : string;
  score : Z
}.

Record AppEntry := mkApp {
  name : string;
  version : string;
  publisher : string;
  install_location : string;
  related_files : list RelatedFile
}.

(** [AppEntry.key]: the lengths are rendered in decimal. *)
Definition key (a : AppEntry) : string :=
  PyStr.str_of_nat (String.length (name a)) ++ "|" ++ name a ++ "|" ++
  PyStr.str_of_nat (String.length (version a)) ++ "|" ++ version a.

(** [app.related_files = files]. *)
Definition set_related (a : AppEntry) (files : list RelatedFile) : AppEntry :=
  mkApp (name a) (version a) (publisher a) (install_location a) files.

Definition app_keys (apps : list AppEntry) : list string := map key apps.

(** One entry of [related_manual[app_key]]: a missing field reads as the
    empty string, which is what [entry.get(...) or ...] makes of it. *)
Record ManualItem := mkManual { m_path : string; m_kind : string }.

(** The owner recorded for a normalized path: (app_key, kind, raw path). *)
Definition manual_owner : Type := string * string * string.

(** The loop shared by the de-duplicating passes: entries failing [ok] are
    skipped before the [seen] test, entries whose norm was seen are skipped,
    the others are kept and their norm recorded. *)
Fixpoint collect (ok : RelatedFile -> bool) (nrm : RelatedFile -> string)
    (seen : list string) (l : list RelatedFile) : list RelatedFile :=
  match l with
  | [] => []
  | r :: l' =>
      if ok r then
        if PyStr.mem (nrm r) seen then collect ok nrm seen l'
        else r :: collect ok nrm (nrm r :: seen) l'
      else collect ok nrm seen l'
  end.

(** The application object that [app_by_key[k]] denotes is the last one of
    the list with key [k]; [update_last k f] mutates its related files. *)
Fixpoint update_last (k : string) (f : list RelatedFile -> list RelatedFile)
    (apps : list AppEntry) : list AppEntry :=
  match apps with
  | [] => []
  | a :: rest =>
      if PyStr.mem k (app_keys rest) then a :: update_last k f rest
      else if key a =? k then set_related a (f (related_files a)) :: rest
      else a :: rest
  end.

(** ** The override layers of the controller ([main_controller.py]) *)

Section Compositor.

(** [os.path.normcase (os.path.abspath p)], or the case-folded input when
    the resolution raises. *)
Variable os_norm : string -> string.

(** [_normalize_path_cached]: the memo table maps a cleaned string to the
    value computed below, so that reading it gives the same result. *)
Definition _normalize_related_path (p : string) : string :=
  let cleaned := PyStr.strip_quotes (PyStr.strip p) in
  if cleaned =? "" then "" else os_norm cleaned.

Definition norm_of (r : RelatedFile) : string := _normalize_related_path (path r).

(** *** Manual layer: [_apply_manual_related] *)

Definition manual_kind (entry : ManualItem) : string :=
  let k := PyStr.strip (if m_kind entry =? "" then "file" else m_kind entry) in
  if k =? "" then "file" else k.

Definition manual_record (app_key : string) (acc : PyDict.dict manual_owner)
    (entry : ManualItem) : PyDict.dict manual_owner :=
  let p := PyStr.strip (m_path entry) in
  if p =? "" then acc
  else
    let norm := _normalize_related_path p in
    if norm =? "" then acc
    else PyDict.set acc norm (app_key, manual_kind entry, p).

Definition build_manual_by_path (related_manual : PyDict.dict (list ManualItem))
    (known : list string) : PyDict.dict manual_owner :=
  fold_left
    (fun acc (rec : string * list ManualItem) =>
       if PyStr.mem (fst rec) known
       then fold_left (manual_record (fst rec)) (snd rec) acc
       else acc)
    related_manual [].

(** The entries that survive the first loop for the application [app_key]. *)
Definition manual_ok (mbp : PyDict.dict manual_owner) (app_key : string)
    (r : RelatedFile) : bool :=
  PyStr.nonempty (norm_of r) &&
  match PyDict.get mbp (norm_of r) with
  | Some (owner, _, _) => (owner =? app_key) && (source r =? "manual")
  | None => true
  end.

Definition manual_keep (mbp : PyDict.dict manual_owner) (a : AppEntry) : AppEntry :=
  set_related a (collect (manual_ok mbp (key a)) norm_of [] (related_files a)).

Definition manual_entry (o : manual_owner) : RelatedFile :=
  let '(_, knd, raw_path) := o in
  mkRelated raw_path knd "manual" "High" "keep" 0.

Definition manual_append (apps : list AppEntry) (item : string * manual_owner)
    : list AppEntry :=
  let '(norm, o) := item in
  let '(app_key, _, _) := o in
  update_last app_key
    (fun files =>
       if existsb (fun r => norm_of r =? norm) files then files
       else files ++ [manual_entry o])
    apps.

Definition _apply_manual_related (related_manual : PyDict.dict (list ManualItem))
    (apps : list AppEntry) : list AppEntry :=
  match related_manual, apps with
  | [], _ => apps
  | _, [] => apps
  | _, _ =>
      match build_manual_by_path related_manual (app_keys apps) with
      | [] => apps
      | mbp => fold_left manual_append mbp (map (manual_keep mbp) apps)
      end
  end.

(** *** Ignore and unassigned layers *)

Definition norm_set (items : list string) : list string :=
  map _normalize_related_path (filter PyStr.nonempty items).

Definition build_norm_sets (records : PyDict.dict (list string))
    : PyDict.dict (list string) :=
  fold_left
    (fun acc (rec : string * list string) =>
       match norm_set (snd rec) with
       | [] => acc
       | norms => PyDict.set acc (fst rec) norms
       end)
    records [].

Definition suppressed (norms : list string) (r : RelatedFile) : bool :=
  PyStr.nonempty (norm_of r) && PyStr.mem (norm_of r) norms &&
  negb (source r =? "manual").

Definition suppress_app (sets : PyDict.dict (list string)) (a : AppEntry) : AppEntry :=
  match PyDict.get sets (key a) with
  | None | Some [] => a
  | Some norms =>
      set_related a (filter (fun r => negb (suppressed norms r)) (related_files a))
  end.

Definition suppress (records : PyDict.dict (list string)) (apps : list AppEntry)
    : list AppEntry :=
  match records with
  | [] => apps
  | _ =>
      match build_norm_sets records with
      | [] => apps
      | sets => map (suppress_app sets) apps
      end
  end.

(** [_apply_related_ignores] and [_apply_related_unassigned] are the same
    loop, over [related_ignore] and over [related_unassigned]. *)
Definition _apply_related_ignores (related_ignore : PyDict.dict (list string)) :=
  suppress related_ignore.

Definition _apply_related_unassigned (related_unassigned : PyDict.dict (list string)) :=
  suppress related_unassigned.

(** *** Reassignment layer: [_apply_related_overrides] *)

(** [path_lookup]: the first record met for each non-empty norm. *)
Definition lookup_visit (d : PyDict.dict RelatedFile) (r : RelatedFile)
    : PyDict.dict RelatedFile :=
  if norm_of r =? "" then d
  else match PyDict.get d (norm_of r) with
       | Some _ => d
       | None => PyDict.set d (norm_of r) r
       end.

Definition build_path_lookup (apps : list AppEntry) : PyDict.dict RelatedFile :=
  fold_left (fun d a => fold_left lookup_visit (related_files a) d) apps [].

(** The two dictionaries [new_lists] and [seen_by_app], keyed by the
    application key; an application key met twice shares its entry. *)
Record Slots := mkSlots {
  new_lists : PyDict.dict (list RelatedFile);
  seen_by_app : PyDict.dict (list string)
}.

Definition slot_files (st : Slots) (k : string) : list RelatedFile :=
  match PyDict.get (new_lists st) k with Some l => l | None => [] end.

Definition slot_seen (st : Slots) (k : string) : list string :=
  match PyDict.get (seen_by_app st) k with Some l => l | None => [] end.

Definition init_slots (apps : list AppEntry) : Slots :=
  fold_left
    (fun st a => mkSlots (PyDict.set (new_lists st) (key a) [])
                         (PyDict.set (seen_by_app st) (key a) []))
    apps (mkSlots [] []).

(** [seen_by_app[k].add(norm); new_lists[k].append(r)]. *)
Definition slot_add (st : Slots) (k norm : string) (r : RelatedFile) : Slots :=
  mkSlots (PyDict.set (new_lists st) k (slot_files st k ++ [r]))
          (PyDict.set (seen_by_app st) k (norm :: slot_seen st k)).

(** [target_key and target_key != app_key]. *)
Definition redirected (related_overrides : PyDict.dict string)
    (app_key : string) (r : RelatedFile) : bool :=
  match PyDict.get related_overrides (norm_of r) with
  | Some target_key => PyStr.nonempty target_key && negb (target_key =? app_key)
  | None => false
  end.

Definition override_visit (related_overrides : PyDict.dict string)
    (app_key : string) (st : Slots) (r : RelatedFile) : Slots :=
  if norm_of r =? "" then st
  else if redirected related_overrides app_key r then st
  else if PyStr.mem (norm_of r) (slot_seen st app_key) then st
  else slot_add st app_key (norm_of r) r.

Definition override_attach (known : list string)
    (path_lookup : PyDict.dict RelatedFile) (st : Slots)
    (item : string * string) : Slots :=
  let '(norm, target_key) := item in
  if PyStr.mem target_key known then
    match PyDict.get path_lookup norm with
    | None => st
    | Some r =>
        if PyStr.mem norm (slot_seen st target_key) then st
        else slot_add st target_key norm r
    end
  else st.

Definition _apply_related_overrides (related_overrides : PyDict.dict string)
    (apps : list AppEntry) : list AppEntry :=
  match related_overrides, apps with
  | [], _ => apps
  | _, [] => apps
  | _, _ =>
      let path_lookup := build_path_lookup apps in
      let st1 :=
        fold_left
          (fun st a =>
             fold_left (override_visit related_overrides (key a))
                       (related_files a) st)
          apps (init_slots apps) in
      let st2 :=
        fold_left (override_attach (app_keys apps) path_lookup)
                  related_overrides st1 in
      map (fun a => set_related a (slot_files st2 (key a))) apps
  end.

(** *** The re-materialization sequence

    The override records of the controller, and the four calls as they
    stand in [_apply_scan_results], in the handlers of the manual additions
    and after each related-files scan. *)
Record Overrides := mkOverrides {
  related_manual : PyDict.dict (list ManualItem);
  related_ignore : PyDict.dict (list string);
  related_unassigned : PyDict.dict (list string);
  related_overrides : PyDict.dict string
}.

Definition rematerialize (o : Overrides) (all_apps : list AppEntry) : list AppEntry :=
  let apps1 := _apply_manual_related (related_manual o) all_apps in
  let apps2 := _apply_related_overrides (related_overrides o) apps1 in
  let apps3 := _apply_related_ignores (related_ignore o) apps2 in
  _apply_related_unassigned (related_unassigned o) apps3.

End Compositor.

(** ** Path functions of [os.path] (Windows flavour) *)

Module OsPath.

Definition sep : ascii := ascii_of_nat 92.
Definition altsep : ascii := "/"%char.
Definition dot : ascii := "."%char.

Definition is_sep (c : ascii) : bool := Ascii.eqb c sep || Ascii.eqb c altsep.

(** [os.path.basename] of a path without a bare drive prefix: what follows
    the last separator. *)
Fixpoint basename_aux (cur : string) (s : string) : string :=
  match s with
  | EmptyString => cur
  | String c s' =>
      if is_sep c then basename_aux "" s'
      else basename_aux (cur ++ String c EmptyString) s'
  end.

Definition basename (s : string) : string := basename_aux "" s.

(** The extension of a component: from its last dot, when a character
    other than a dot comes before it. *)
Fixpoint ext_aux (seen_nondot : bool) (s : string) : option string :=
  match s with
  | EmptyString => None
  | String c s' =>
      match ext_aux (seen_nondot || negb (Ascii.eqb c dot)) s' with
      | Some e => Some e
      | None => if Ascii.eqb c dot && seen_nondot then Some s else None
      end
  end.

(** [os.path.splitext(p)[1]]. *)
Definition splitext_ext (p : string) : string :=
  match ext_aux false (basename p) with Some e => e | None => "" end.

Fixpoint last_char (s : string) : option ascii :=
  match s with
  | EmptyString => None
  | String c EmptyString => Some c
  | String _ s' => last_char s'
  end.

(** [os.path.join(a, b)] for a relative component [b]. *)
Definition join (a b : string) : string :=
  match last_char a with
  | None => b
  | Some c =>
      if is_sep c || Ascii.eqb c ":"%char then a ++ b
      else a ++ String sep EmptyString ++ b
  end.

(** [p.count(os.sep)]. *)
Definition depth_of (p : string) : Z := Z.of_nat (PyStr.count_char sep p).

End OsPath.

(** ** Directory walks

    What [os.walk(root, topdown=True)] yields: the directory path, the
    names of its files, and its sub-directories in the order they are
    walked. *)

#[warnings="-register-all"] Inductive DirTree : Type :=
| DirNode (dirpath : string) (filenames : list string) (subdirs : list DirTree).

(** A loop body either goes on with a new state or returns from the
    enclosing function. *)
Inductive Flow (S R : Type) : Type :=
| Go (s : S)
| Halt (r : R).

Arguments Go {S R} s.
Arguments Halt {S R} r.

(** [for current, dirs, files in os.walk(t): body]; the body answers
    [Go (s, prune)], where [prune] stands for [dirs[:] = []]. *)
Fixpoint walk_fold {S R : Type}
    (body : S -> string -> list string -> Flow (S * bool) R)
    (t : DirTree) (s : S) {struct t} : Flow S R :=
  match t with
  | DirNode current files subs =>
      match body s current files with
      | Halt r => Halt r
      | Go (s1, prune) =>
          if prune then Go s1
          else
            (fix walk_all (l : list DirTree) (s : S) {struct l} : Flow S R :=
               match l with
               | [] => Go s
               | t' :: l' =>
                   match walk_fold body t' s with
                   | Halt r => Halt r
                   | Go s2 => walk_all l' s2
                   end
               end) subs s1
      end
  end.

Definition CONFIG_EXTENSIONS : list string :=
  [".cfg"; ".config"; ".dat"; ".db"; ".ini"; ".json"; ".sqlite"; ".xml";
   ".yaml"; ".yml"].

(** [re.sub(r"[^a-zA-Z0-9]+", " ", text)]: each maximal run of other
    characters becomes one space. *)
Fixpoint squeeze (in_run : bool) (s : string) : string :=
  match s with
  | EmptyString => EmptyString
  | String c s' =>
      if PyStr.is_alnum c then String c (squeeze false s')
      else if in_run then squeeze true s'
      else String " "%char (squeeze true s')
  end.

Definition _cleaned (text : string) : string :=
  PyStr.lower (PyStr.strip (squeeze false text)).

Definition _tokens (text : string) : list string :=
  let cleaned := _cleaned text in
  if cleaned =? "" then []
  else PyStr.unique []
         (cleaned :: filter (fun chunk => (3 <=? String.length chunk)%nat)
                            (PyStr.split_spaces cleaned)).

Definition _confidence_from_score (sc : Z) : string :=
  if (85 <=? sc)%Z then "High"
  else if (72 <=? sc)%Z then "Medium"
  else if (60 <=? sc)%Z then "Low"
  else "".

Definition source_score (src : string) : Z :=
  if src =? "install_location" then 100
  else if src =? "appdata" then 70
  else if src =? "localappdata" then 70
  else if src =? "localappdata_low" then 60
  else if src =? "programdata" then 60
  else if src =? "documents" then 50
  else if src =? "saved_games" then 50
  else if src =? "drive" then 40
  else 0.

Definition confidence_score (conf : string) : Z :=
  if conf =? "High" then 30
  else if conf =? "Medium" then 20
  else if conf =? "Low" then 10
  else 0.

Definition _score_related (src conf : string) (is_file : bool) : Z :=
  (source_score src + confidence_score conf - (if is_file then 5 else 0))%Z.

(** ** The related-file scanner ([related_scanner.py]) *)

(** What the scanner asks of the host. [list_dirs root] gives, for
    [os.scandir(root)], the (path, name) of the entries that are
    directories, up to the first [OSError] (none when the directory cannot
    be opened). [walk root] is the tree that [os.walk(root)] goes through,
    or [None] when it yields nothing. [default_roots] is the result of
    [_default_roots()]. [clock n] is the value of the [n]-th reading of
    [time.monotonic()], in the unit of the time budgets. *)
Record Host := mkHost {
  os_norm : string -> string;
  abspath : string -> string;
  isdir : string -> bool;
  isfile : string -> bool;
  dirname : string -> string;
  expandvars : string -> string;
  default_roots : list (string * string);
  list_dirs : string -> list (string * string);
  walk : string -> option DirTree;
  clock : nat -> Z
}.

(** The fields of a [RelatedFileScanner]; [enumerated] is not a field of
    the object: it records the roots handed to [os.scandir], latest first. *)
Record Scanner := mkScanner {
  max_dirs : Z;
  max_files : Z;
  max_depth : Z;
  _config_cache : PyDict.dict (list string);
  _root_index : list (string * string * string);
  _root_index_key : option (bool * list string);
  enumerated : list string
}.

Definition new_scanner (md mf mdepth : Z) : Scanner :=
  mkScanner md mf mdepth [] [] None [].

Definition len {A} (l : list A) : Z := Z.of_nat (List.length l).

Section RelatedScanner.

Variable host : Host.

(** [_normalize_path]. *)
Definition _normalize_path (p : string) : string := os_norm host p.

(** [_clean_path]. *)
Definition _clean_path (p : string) : string :=
  let text := PyStr.strip p in
  if text =? "" then "" else expandvars host (PyStr.strip_quotes text).

(** *** [build_root_index] *)

Definition existing_roots (extra_roots : list string) : list string :=
  flat_map
    (fun root =>
       if root =? "" then []
       else if isdir host (abspath host root) then [abspath host root] else [])
    extra_roots.

Definition index_key_eqb (k1 k2 : bool * list string) : bool :=
  Bool.eqb (fst k1) (fst k2) &&
  if list_eq_dec string_dec (snd k1) (snd k2) then true else false.

Definition index_of_root (root source_name : string) : list (string * string * string) :=
  map (fun e => (fst e, source_name, PyStr.lower (snd e))) (list_dirs host root).

Definition enumerate_roots (deep_scan : bool) (roots : list string)
    : list (string * string * string) :=
  (if deep_scan
   then flat_map (fun rs => index_of_root (fst rs) (snd rs)) (default_roots host)
   else []) ++
  flat_map (fun root => index_of_root root "drive") roots.

Definition scanned_roots (deep_scan : bool) (roots : list string) : list string :=
  (if deep_scan then map fst (default_roots host) else []) ++ roots.

Definition build_root_index (sc : Scanner) (deep_scan : bool)
    (extra_roots : list string) : list (string * string * string) * Scanner :=
  let roots := existing_roots extra_roots in
  let k := (deep_scan, roots) in
  let hit :=
    match _root_index sc, _root_index_key sc with
    | _ :: _, Some k0 => index_key_eqb k0 k
    | _, _ => false
    end in
  if hit then (_root_index sc, sc)
  else
    let index := enumerate_roots deep_scan roots in
    (index,
     mkScanner (max_dirs sc) (max_files sc) (max_depth sc) (_config_cache sc)
               index (Some k)
               (rev (scanned_roots deep_scan roots) ++ enumerated sc)).

(** *** [_scan_config_files] and its cache *)

Fixpoint config_files_loop (mf : Z) (current : string)
    (st : list string * list string) (files : list string)
    : Flow (list string * list string) (list string) :=
  match files with
  | [] => Go st
  | filename :: rest =>
      let '(results, seen) := st in
      if (mf <=? len results)%Z then Halt results
      else if negb (PyStr.mem (PyStr.lower (OsPath.splitext_ext filename))
                              CONFIG_EXTENSIONS)
      then config_files_loop mf current st rest
      else
        let p := OsPath.join current filename in
        let norm := _normalize_path p in
        if PyStr.mem norm seen then config_files_loop mf current st rest
        else config_files_loop mf current (results ++ [p], norm :: seen) rest
  end.

Definition config_body (mdepth mf root_depth : Z)
    (st : list string * list string) (current : string) (files : list string)
    : Flow ((list string * list string) * bool) (list string) :=
  let depth := (OsPath.depth_of (_normalize_path current) - root_depth)%Z in
  match config_files_loop mf current st files with
  | Halt r => Halt r
  | Go st' => Go (st', (mdepth <=? depth)%Z)
  end.

Definition _scan_config_files (root : string) (mdepth mf : Z) : list string :=
  let root_depth := OsPath.depth_of (_normalize_path root) in
  match walk host root with
  | None => []
  | Some t =>
      match walk_fold (config_body mdepth mf root_depth) t ([], []) with
      | Halt r => r
      | Go (results, _) => results
      end
  end.

Definition set_config_cache (sc : Scanner) (c : PyDict.dict (list string)) : Scanner :=
  mkScanner (max_dirs sc) (max_files sc) (max_depth sc) c
            (_root_index sc) (_root_index_key sc) (enumerated sc).

Definition _config_files_for_root (sc : Scanner) (root : string)
    : list string * Scanner :=
  let norm_root := _normalize_path root in
  match PyDict.get (_config_cache sc) norm_root with
  | Some cached => (cached, sc)
  | None =>
      let files := _scan_config_files root (max_depth sc) (max_files sc) in
      (files, set_config_cache sc (PyDict.set (_config_cache sc) norm_root files))
  end.

(** *** [scan_for_app] *)

(** The confidence of one entry of the root index, or [None] for the
    [continue] of the last branch. *)
Definition classify_root (cleaned_name cleaned_pub : string)
    (tokens_name tokens_pub : list string) (name_cf : string) : option string :=
  let name_clean := _cleaned name_cf in
  let exact_name := PyStr.nonempty cleaned_name && (name_clean =? cleaned_name) in
  let exact_pub := PyStr.nonempty cleaned_pub && (name_clean =? cleaned_pub) in
  if exact_name then Some "High"
  else if existsb (fun token => PyStr.contains token name_cf) tokens_name
  then Some "Medium"
  else if exact_pub || existsb (fun token => PyStr.contains token name_cf) tokens_pub
  then Some "Low"
  else None.

Definition Candidate : Type := string * string * string.

Fixpoint root_candidates (md : Z) (classify : string -> option string)
    (index : list (string * string * string))
    (candidates : list Candidate) (seen_dirs : list string) : list Candidate :=
  match index with
  | [] => candidates
  | (p, src, name_cf) :: rest =>
      match classify name_cf with
      | None => root_candidates md classify rest candidates seen_dirs
      | Some conf =>
          let norm := _normalize_path p in
          if PyStr.mem norm seen_dirs
          then root_candidates md classify rest candidates seen_dirs
          else
            let candidates' := candidates ++ [(p, src, conf)] in
            if (md <=? len candidates')%Z then candidates'
            else root_candidates md classify rest candidates' (norm :: seen_dirs)
      end
  end.

(** The files of one candidate directory: the inner [for] of the last
    loop; the answer carries the entries added and the new [seen_files]. *)
Fixpoint candidate_files (mf : Z) (src conf : string)
    (seen_files : list string) (files : list string)
    : list RelatedFile * list string :=
  match files with
  | [] => ([], seen_files)
  | file_path :: rest =>
      if (mf <=? len seen_files)%Z then ([], seen_files)
      else
        let norm := _normalize_path file_path in
        if PyStr.mem norm seen_files then candidate_files mf src conf seen_files rest
        else
          let file_confidence := if conf =? "High" then conf else "Medium" in
          let file_score := _score_related src file_confidence true in
          let '(more, seen') :=
            candidate_files mf src conf (norm :: seen_files) rest in
          (mkRelated file_path "file" "config_file" file_confidence "" file_score
             :: more, seen')
  end.

Fixpoint expand_candidates (include_files : bool) (sc : Scanner)
    (seen_files : list string) (candidates : list Candidate)
    : list RelatedFile * Scanner :=
  match candidates with
  | [] => ([], sc)
  | (p, src, conf) :: rest =>
      let dir_entry :=
        mkRelated p "dir" src conf "" (_score_related src conf false) in
      if negb include_files then
        let '(more, sc') := expand_candidates include_files sc seen_files rest in
        (dir_entry :: more, sc')
      else
        let '(files, sc1) := _config_files_for_root sc p in
        let '(found, seen') := candidate_files (max_files sc) src conf seen_files files in
        if (max_files sc <=? len seen')%Z then (dir_entry :: found, sc1)
        else
          let '(more, sc2) := expand_candidates include_files sc1 seen' rest in
          (dir_entry :: found ++ more, sc2)
  end.

Definition scan_for_app (sc : Scanner) (app : AppEntry)
    (deep_scan include_files : bool)
    (root_index : option (list (string * string * string)))
    (extra_roots : list string) : list RelatedFile * Scanner :=
  let tokens_name := _tokens (name app) in
  let tokens_pub := _tokens (publisher app) in
  let cleaned_name := _cleaned (name app) in
  let cleaned_pub := _cleaned (publisher app) in
  match tokens_name, tokens_pub with
  | [], [] => ([], sc)
  | _, _ =>
      let loc0 := _clean_path (install_location app) in
      let loc1 :=
        if PyStr.nonempty loc0 && isfile host loc0 then dirname host loc0 else loc0 in
      let declared := PyStr.nonempty loc1 && isdir host loc1 in
      let candidates0 :=
        if declared then [(loc1, "install_location", "High")] else [] in
      let seen_dirs0 := if declared then [_normalize_path loc1] else [] in
      let '(candidates, sc1) :=
        if deep_scan || negb (match extra_roots with [] => true | _ => false end)
        then
          let '(index, sc') :=
            match root_index with
            | Some index => (index, sc)
            | None => build_root_index sc deep_scan extra_roots
            end in
          (root_candidates (max_dirs sc)
             (classify_root cleaned_name cleaned_pub tokens_name tokens_pub)
             index candidates0 seen_dirs0, sc')
        else (candidates0, sc) in
      expand_candidates include_files sc1 [] candidates
  end.

(** *** [_dedupe_related_files] *)

(** [related.score or self._score_related(...)]. *)
Definition claim_score (r : RelatedFile) : Z :=
  if (score r =? 0)%Z
  then _score_related (source r) (confidence r) (negb (kind r =? "dir"))
  else score r.

Definition best_visit (app_key : string) (best : PyDict.dict (Z * string))
    (r : RelatedFile) : PyDict.dict (Z * string) :=
  if path r =? "" then best
  else
    let norm := _normalize_path (path r) in
    match PyDict.get best norm with
    | None => PyDict.set best norm (claim_score r, app_key)
    | Some (s0, _) =>
        if (s0 <? claim_score r)%Z
        then PyDict.set best norm (claim_score r, app_key)
        else best
    end.

Definition build_best_by_path (apps : list AppEntry) : PyDict.dict (Z * string) :=
  fold_left (fun best a => fold_left (best_visit (key a)) (related_files a) best)
            apps [].

Definition dedupe_ok (best : PyDict.dict (Z * string)) (app_key : string)
    (r : RelatedFile) : bool :=
  PyStr.nonempty (path r) &&
  match PyDict.get best (_normalize_path (path r)) with
  | Some (_, owner) => owner =? app_key
  | None => false
  end.

Definition _dedupe_related_files (apps : list AppEntry) : list AppEntry :=
  match build_best_by_path apps with
  | [] => apps
  | best =>
      map (fun a =>
             set_related a
               (collect (dedupe_ok best (key a))
                        (fun r => _normalize_path (path r)) []
                        (related_files a)))
          apps
  end.

(** *** [scan] *)

Fixpoint scan_each (sc : Scanner) (deep_scan include_files : bool)
    (root_index : list (string * string * string)) (extra_roots : list string)
    (apps : list AppEntry) : list AppEntry * Scanner :=
  match apps with
  | [] => ([], sc)
  | app :: rest =>
      let '(found, sc1) :=
        scan_for_app sc app deep_scan include_files (Some root_index) extra_roots in
      let '(rest', sc2) :=
        scan_each sc1 deep_scan include_files root_index extra_roots rest in
      (set_related app found :: rest', sc2)
  end.

Definition scan (sc : Scanner) (apps : list AppEntry)
    (deep_scan include_files : bool) (extra_roots : list string)
    : list AppEntry * Scanner :=
  let '(root_index, sc1) := build_root_index sc deep_scan extra_roots in
  let '(apps1, sc2) :=
    scan_each sc1 deep_scan include_files root_index extra_roots apps in
  (_dedupe_related_files apps1, sc2).

(** *** [deep_scan_for_app] *)

Record DeepScanLimits := mkDeepLimits {
  dl_max_dirs : Z;
  dl_max_files : Z;
  dl_max_depth : Z;
  dl_max_seconds : Z;
  dir_threshold : Z;
  file_threshold : Z
}.

Definition default_deep_limits : DeepScanLimits :=
  mkDeepLimits 2000 5000 5 8 68 72.

(** [_fuzzy_score] works on the floating-point ratio of [difflib]; the
    walk only compares its integer result with the thresholds, and takes
    it as given. *)
Variable _fuzzy_score :
  string -> string -> list string -> string -> list string -> Z.

(** The state of the walk: the results, the normalized paths seen, and
    the number of clock readings made so far. *)
Record DeepState := mkDeep {
  results : list RelatedFile;
  seen : list string;
  ticks : nat
}.

(** [deadline and time.monotonic() >= deadline]: the clock is read only
    when there is a non-zero deadline. *)
Definition past_deadline (deadline : option Z) (st : DeepState) : bool * DeepState :=
  match deadline with
  | None => (false, st)
  | Some d =>
      if (d =? 0)%Z then (false, st)
      else ((d <=? clock host (ticks st))%Z,
            mkDeep (results st) (seen st) (S (ticks st)))
  end.

Section DeepWalk.

Variable limits : DeepScanLimits.
Variables (cleaned_name cleaned_pub : string) (tokens_name tokens_pub : list string).
Variable ignored_set : list string.
Variable deadline : option Z.

Definition fuzzy (candidate : string) : Z :=
  _fuzzy_score candidate cleaned_name tokens_name cleaned_pub tokens_pub.

Fixpoint deep_files_loop (current : string) (st : DeepState)
    (files : list string) : Flow DeepState (list RelatedFile) :=
  match files with
  | [] => Go st
  | filename :: rest =>
      if (dl_max_files limits <=? len (results st))%Z then Halt (results st)
      else
        let ext := PyStr.lower (OsPath.splitext_ext filename) in
        if negb (PyStr.mem ext CONFIG_EXTENSIONS) && negb (ext =? ".exe")
        then deep_files_loop current st rest
        else
          let fscore := fuzzy (_cleaned filename) in
          if (fscore <? file_threshold limits)%Z
          then deep_files_loop current st rest
          else
            let p := OsPath.join current filename in
            let norm := _normalize_path p in
            if PyStr.mem norm ignored_set || PyStr.mem norm (seen st)
            then deep_files_loop current st rest
            else
              deep_files_loop current
                (mkDeep
                   (results st ++
                    [mkRelated p "file" "deep_scan"
                               (_confidence_from_score fscore) "" fscore])
                   (norm :: seen st) (ticks st))
                rest
  end.

Definition deep_body (root_depth : Z) (st0 : DeepState) (current : string)
    (files : list string) : Flow (DeepState * bool) (list RelatedFile) :=
  let '(late, st) := past_deadline deadline st0 in
  if late then Halt (results st)
  else
    let current_norm := _normalize_path current in
    if PyStr.mem current_norm ignored_set then Go (st, true)
    else
      let depth := (OsPath.depth_of current_norm - root_depth)%Z in
      let prune := (dl_max_depth limits <=? depth)%Z in
      let sc := fuzzy (_cleaned (OsPath.basename current)) in
      if (dir_threshold limits <=? sc)%Z then
        let recorded :=
          if PyStr.mem current_norm (seen st) then Go st
          else
            let st1 :=
              mkDeep
                (results st ++
                 [mkRelated current "dir" "deep_scan"
                            (_confidence_from_score sc) "" sc])
                (current_norm :: seen st) (ticks st) in
            if (dl_max_dirs limits <=? len (results st1))%Z
            then Halt (results st1) else Go st1 in
        match recorded with
        | Halt r => Halt r
        | Go st1 =>
            match deep_files_loop current st1 files with
            | Halt r => Halt r
            | Go st2 => Go (st2, prune)
            end
        end
      else Go (st, prune).

Fixpoint deep_roots (st : DeepState) (roots : list string) : list RelatedFile :=
  match roots with
  | [] => results st
  | root :: rest =>
      if (root =? "") || negb (isdir host root) then deep_roots st rest
      else
        let root_depth := OsPath.depth_of (_normalize_path root) in
        let walked :=
          match walk host root with
          | None => Go st
          | Some t => walk_fold (deep_body root_depth) t st
          end in
        match walked with
        | Halt r => r
        | Go st1 =>
            let '(late, st2) := past_deadline deadline st1 in
            if late then results st2 else deep_roots st2 rest
        end
  end.

End DeepWalk.

Definition deep_scan_for_app (app : AppEntry) (roots : list string)
    (limits : DeepScanLimits) (ignored : list string) : list RelatedFile :=
  match roots with
  | [] => []
  | _ =>
      let tokens_name := _tokens (name app) in
      let tokens_pub := _tokens (publisher app) in
      let cleaned_name := _cleaned (name app) in
      let cleaned_pub := _cleaned (publisher app) in
      match tokens_name, tokens_pub, cleaned_name =? "", cleaned_pub =? "" with
      | [], [], true, true => []
      | _, _, _, _ =>
          let ignored_set :=
            map _normalize_path (filter PyStr.nonempty ignored) in
          let deadline :=
            if (dl_max_seconds limits =? 0)%Z then None
            else Some (clock host 0 + dl_max_seconds limits)%Z in
          let first_tick := if (dl_max_seconds limits =? 0)%Z then 0%nat else 1%nat in
          deep_roots limits cleaned_name cleaned_pub tokens_name tokens_pub
                     ignored_set deadline (mkDeep [] [] first_tick) roots
      end
  end.

End RelatedScanner.

(** ** From the scan to the final lists

    [scan] ends with the de-duplication of the lists found for the
    applications; the controller then applies the override layers. *)
Definition resolve (host : Host) (o : Overrides) (scanned : list AppEntry)
    : list AppEntry :=
  rematerialize (os_norm host) o (_dedupe_related_files host scanned).

(** ** Install size ([scanner.py]) *)

Module SizeScan.

(** One entry met by [os.scandir]. [Broken] raises [OSError] when asked
    whether it is a link or a directory; a directory carries what
    [os.scandir] gives for it ([None] when it cannot be opened); a file
    carries its size ([None] when [stat] raises). *)
#[warnings="-register-all"] Inductive DirEntry : Type :=
| Broken
| Symlink
| SubDir (listing : option (list DirEntry))
| File (st_size : option Z).

Record SizeScanLimits := mkSizeLimits {
  max_files : Z;
  max_depth : Z;
  max_seconds : Z
}.

Definition default_size_limits : SizeScanLimits := mkSizeLimits 20000 6 2.

Record FsView := mkFs {
  path_exists : string -> bool;
  isfile : string -> bool;
  dirname : string -> string;
  getsize : string -> option Z;
  scandir : string -> option (list DirEntry);
  expand : string -> string;
  clock : nat -> Z
}.

(** The outcome of the sizing loop, with the number of directories handed
    to [os.scandir]. *)
Record Sized := mkSized { measured : option Z; opened : nat }.

Fixpoint entry_weight (e : DirEntry) : nat :=
  match e with
  | SubDir (Some l) => S (list_sum (map entry_weight l))
  | _ => 1
  end.

Definition listing_weight (l : option (list DirEntry)) : nat :=
  entry_weight (SubDir l).

Definition Frame : Type := option (list DirEntry) * Z.

Definition stack_weight (stack : list Frame) : nat :=
  fold_right (fun f n => listing_weight (fst f) + n)%nat 0%nat stack.

(** The state of the [while] loop. *)
Record Loop := mkLoop {
  stack : list Frame;
  file_count : Z;
  total : Z;
  ticks : nat;
  scans : nat
}.

Section Sizing.

Variable fs : FsView.
Variable limits : option SizeScanLimits.

Definition cap_files : option Z := option_map max_files limits.
Definition cap_depth : option Z := option_map max_depth limits.

(** The [for entry in entries] loop of one directory at depth [depth]:
    [None] is the [return None] of the file ceiling. *)
Fixpoint visit_entries (depth : Z) (entries : list DirEntry)
    (stk : list Frame) (count tot : Z) : option (list Frame * Z * Z) :=
  match entries with
  | [] => Some (stk, count, tot)
  | e :: rest =>
      match e with
      | Broken | Symlink => visit_entries depth rest stk count tot
      | SubDir l =>
          let child_depth := (depth + 1)%Z in
          match cap_depth with
          | Some md =>
              if (md <? child_depth)%Z
              then visit_entries depth rest stk count tot
              else visit_entries depth rest ((l, child_depth) :: stk) count tot
          | None => visit_entries depth rest ((l, child_depth) :: stk) count tot
          end
      | File sz =>
          let full :=
            match cap_files with
            | Some mf => (mf <=? count)%Z
            | None => false
            end in
          if full then None
          else
            match sz with
            | Some n => visit_entries depth rest stk (count + 1)%Z (tot + n)%Z
            | None => visit_entries depth rest stk (count + 1)%Z tot
            end
      end
  end.

Definition late (deadline : option Z) (t : nat) : bool * nat :=
  match deadline with
  | None => (false, t)
  | Some d => if (d =? 0)%Z then (false, t) else ((d <=? clock fs t)%Z, S t)
  end.

(** The [while stack] loop; the outer [None] says that the fuel ran out. *)
Fixpoint size_loop (fuel : nat) (deadline : option Z) (st : Loop)
    : option Sized :=
  match stack st with
  | [] => Some (mkSized (Some (total st)) (scans st))
  | (current, depth) :: stk =>
      match fuel with
      | O => None
      | S fuel' =>
          let '(is_late, t') := late deadline (ticks st) in
          if is_late then Some (mkSized None (scans st))
          else
            match current with
            | None =>
                size_loop fuel' deadline
                  (mkLoop stk (file_count st) (total st) t' (S (scans st)))
            | Some entries =>
                match visit_entries depth entries stk (file_count st) (total st) with
                | None => Some (mkSized None (S (scans st)))
                | Some (stk', count', tot') =>
                    size_loop fuel' deadline
                      (mkLoop stk' count' tot' t' (S (scans st)))
                end
            end
      end
  end.

Definition start_deadline : option Z * nat :=
  match limits with
  | Some l =>
      if (max_seconds l =? 0)%Z then (None, 0%nat)
      else (Some (clock fs 0 + max_seconds l)%Z, 1%nat)
  | None => (None, 0%nat)
  end.

(** [_dir_size_bytes]: the loop is given the weight of the tree under the
    root as fuel, which it cannot exhaust. *)
Definition _dir_size_bytes (root : string) : option Sized :=
  let '(deadline, t0) := start_deadline in
  let start := [(scandir fs root, 0%Z)] in
  size_loop (stack_weight start) deadline (mkLoop start 0 0 t0 0).

Definition INVALID_LOCATION_TOKENS : list string :=
  ["unknown"; "n/a"; "na"; "none"; "null"].

Definition _normalize_install_location (raw_path : string) : string :=
  let p := PyStr.strip_quotes (PyStr.strip raw_path) in
  if p =? "" then ""
  else
    let low := PyStr.lower p in
    if PyStr.mem low INVALID_LOCATION_TOKENS then ""
    else if PyStr.startswith "unknown" low then ""
    else
      let p1 :=
        match PyStr.find ".exe" low with
        | Some idx => PyStr.strip (String.substring 0 (idx + 4) p)
        | None => p
        end in
      expand fs p1.

Definition MiB : Z := 1024 * 1024.

Definition to_mb (bytes : Z) : Z := Z.max (bytes / MiB) 0.

(** [_compute_install_size_mb], with the number of directories opened. *)
Definition _compute_install_size_mb (raw_path : string) : option Sized :=
  let p := _normalize_install_location raw_path in
  let size_dir (d : string) :=
    match _dir_size_bytes d with
    | None => None
    | Some r => Some (mkSized (option_map to_mb (measured r)) (opened r))
    end in
  if (p =? "") || negb (path_exists fs p) then Some (mkSized None 0)
  else if isfile fs p then
    if PyStr.endswith ".exe" (PyStr.lower p) then
      let d := dirname fs p in
      if (d =? "") || negb (path_exists fs d) then Some (mkSized None 0)
      else size_dir d
    else Some (mkSized (option_map to_mb (getsize fs p)) 0)
  else size_dir p.

End Sizing.

End SizeScan.

(** * Properties *)

(** ** Strings and dictionaries *)

Module PyFacts.

Lemma mem_In x l : PyStr.mem x l = true <-> In x l.
Proof.
  unfold PyStr.mem. rewrite existsb_exists. split.
  - intros [y [Hin Heq]]. apply String.eqb_eq in Heq. now subst.
  - intros Hin. exists x. split; [assumption | apply String.eqb_refl].
Qed.

Lemma mem_false x l : PyStr.mem x l = false <-> ~ In x l.
Proof.
  rewrite <- mem_In. destruct (PyStr.mem x l); split; intros; congruence.
Qed.

Lemma nonempty_true s : PyStr.nonempty s = true <-> s <> "".
Proof.
  unfold PyStr.nonempty. rewrite negb_true_iff. apply String.eqb_neq.
Qed.

Lemma keys_set {V} (d : PyDict.dict V) k v :
  PyDict.keys (PyDict.set d k v) = if PyStr.mem k (PyDict.keys d) then PyDict.keys d else PyDict.keys d ++ [k].
Proof.
  unfold PyDict.keys. induction d as [|[k' v'] d IH]; simpl; [reflexivity|].
  rewrite (String.eqb_sym k k').
  destruct (k' =? k) eqn:E; simpl; [reflexivity|].
  rewrite IH. fold (PyStr.mem k (map fst d)).
  now destruct (PyStr.mem k (map fst d)).
Qed.

Lemma wf_set {V} (d : PyDict.dict V) k v : PyDict.wf d -> PyDict.wf (PyDict.set d k v).
Proof.
  unfold PyDict.wf. intros H. rewrite keys_set.
  destruct (PyStr.mem k (PyDict.keys d)) eqn:E; [assumption|].
  apply mem_false in E.
  apply NoDup_app; [assumption | repeat constructor; intros [] | ].
  intros x Hx [Hk|[]]. subst. contradiction.
Qed.

Lemma get_set_same {V} (d : PyDict.dict V) k v : PyDict.get (PyDict.set d k v) k = Some v.
Proof.
  induction d as [|[k' v'] d IH]; simpl.
  - now rewrite String.eqb_refl.
  - destruct (k' =? k) eqn:E; simpl; rewrite E; [reflexivity | exact IH].
Qed.

Lemma get_set_other {V} (d : PyDict.dict V) k k' v :
  k' <> k -> PyDict.get (PyDict.set d k v) k' = PyDict.get d k'.
Proof.
  intros Hne. induction d as [|[k0 v0] d IH]; simpl.
  - apply String.eqb_neq in Hne. rewrite String.eqb_sym in Hne. now rewrite Hne.
  - destruct (k0 =? k) eqn:E; simpl.
    + apply String.eqb_eq in E. subst k0.
      apply String.eqb_neq in Hne. rewrite String.eqb_sym in Hne. now rewrite Hne.
    + now rewrite IH.
Qed.

Lemma get_In {V} (d : PyDict.dict V) k v : PyDict.get d k = Some v -> In (k, v) d.
Proof.
  induction d as [|[k' v'] d IH]; simpl; [discriminate|].
  destruct (k' =? k) eqn:E.
  - intros [= ->]. apply String.eqb_eq in E. subst. now left.
  - intros H. right. auto.
Qed.

Lemma In_get {V} (d : PyDict.dict V) k v : PyDict.wf d -> In (k, v) d -> PyDict.get d k = Some v.
Proof.
  unfold PyDict.wf, PyDict.keys. induction d as [|[k' v'] d IH]; simpl; [intros _ []|].
  intros Hnd [Heq|Hin].
  - inversion Heq; subst. now rewrite String.eqb_refl.
  - inversion Hnd; subst. destruct (k' =? k) eqn:E.
    + apply String.eqb_eq in E. subst. exfalso. apply H1.
      now apply (in_map fst) in Hin.
    + auto.
Qed.

Lemma get_None_keys {V} (d : PyDict.dict V) k : PyDict.get d k = None <-> ~ In k (PyDict.keys d).
Proof.
  unfold PyDict.keys. induction d as [|[k' v'] d IH]; simpl.
  - split; [intros _ [] | reflexivity].
  - destruct (k' =? k) eqn:E.
    + apply String.eqb_eq in E. subst. split; [discriminate | intros H; exfalso; auto].
    + apply String.eqb_neq in E. rewrite IH. split; intros H; [intros [?|?]; auto | auto].
Qed.

Lemma in_set {V} (d : PyDict.dict V) k v x :
  In x (PyDict.set d k v) -> x = (k, v) \/ In x d.
Proof.
  induction d as [|[k' v'] d IH]; simpl.
  - intros [<-|[]]. now left.
  - destruct (k' =? k) eqn:E; simpl.
    + apply String.eqb_eq in E. subst. intros [<-|H]; auto.
    + intros [<-|H]; auto. destruct (IH H); auto.
Qed.

Lemma set_nonempty {V} (d : PyDict.dict V) k v : PyDict.set d k v <> [].
Proof. destruct d as [|[k' v'] d]; simpl; [|destruct (k' =? k)]; discriminate. Qed.

End PyFacts.

(** ** Applications and the shared loops *)

Import PyFacts.

Lemma key_nonempty a : key a <> "".
Proof.
  unfold key. generalize (PyStr.str_of_nat (String.length (name a))).
  intros s. destruct s; discriminate.
Qed.

Lemma key_set_related a l : key (set_related a l) = key a.
Proof. reflexivity. Qed.

Lemma related_set_related a l : related_files (set_related a l) = l.
Proof. reflexivity. Qed.

Lemma set_related_same a : set_related a (related_files a) = a.
Proof. now destruct a. Qed.

Lemma set_related_twice a l1 l2 : set_related (set_related a l1) l2 = set_related a l2.
Proof. reflexivity. Qed.

Lemma app_keys_refile (F : AppEntry -> list RelatedFile) apps :
  app_keys (map (fun a => set_related a (F a)) apps) = app_keys apps.
Proof. unfold app_keys. rewrite map_map. now apply map_ext. Qed.

Lemma refile_same (F : AppEntry -> list RelatedFile) apps :
  (forall a, In a apps -> F a = related_files a) ->
  map (fun a => set_related a (F a)) apps = apps.
Proof.
  intros H. rewrite <- (map_id apps) at 2. apply map_ext_in.
  intros a Ha. rewrite (H a Ha). apply set_related_same.
Qed.

(** With distinct keys the application of key [k] is the one that
    [update_last] mutates. *)
Lemma update_last_spec k f apps :
  NoDup (app_keys apps) ->
  update_last k f apps =
  map (fun a => if key a =? k then set_related a (f (related_files a)) else a) apps.
Proof.
  induction apps as [|a rest IH]; simpl; [reflexivity|].
  intros Hnd. inversion Hnd as [|? ? Hnotin Hnd']; subst.
  destruct (PyStr.mem k (app_keys rest)) eqn:Hmem.
  - apply mem_In in Hmem. rewrite IH by assumption.
    destruct (key a =? k) eqn:E; [|reflexivity].
    apply String.eqb_eq in E. subst k. contradiction.
  - apply mem_false in Hmem.
    assert (Hrest : map (fun a0 => if key a0 =? k
                                   then set_related a0 (f (related_files a0))
                                   else a0) rest = rest).
    { rewrite <- (map_id rest) at 2. apply map_ext_in. intros b Hb.
      destruct (key b =? k) eqn:E; [|reflexivity].
      apply String.eqb_eq in E. subst k. exfalso. apply Hmem.
      unfold app_keys. now apply in_map. }
    rewrite Hrest. now destruct (key a =? k).
Qed.

Section CollectFacts.

Variables (ok : RelatedFile -> bool) (nrm : RelatedFile -> string).

Lemma collect_In seen l r :
  In r (collect ok nrm seen l) ->
  In r l /\ ok r = true /\ ~ In (nrm r) seen.
Proof.
  revert seen. induction l as [|x l IH]; simpl; intros seen; [intros []|].
  destruct (ok x) eqn:Hok.
  - destruct (PyStr.mem (nrm x) seen) eqn:Hm.
    + intros H. destruct (IH _ H) as (? & ? & ?). auto.
    + apply mem_false in Hm. intros [<-|H]; [auto|].
      destruct (IH _ H) as (? & ? & Hn). repeat split; auto.
      intros Hin. apply Hn. now right.
  - intros H. destruct (IH _ H) as (? & ? & ?). auto.
Qed.

Lemma collect_NoDup seen l : NoDup (map nrm (collect ok nrm seen l)).
Proof.
  revert seen. induction l as [|x l IH]; simpl; intros seen; [constructor|].
  destruct (ok x); [|apply IH].
  destruct (PyStr.mem (nrm x) seen); [apply IH|].
  simpl. constructor; [|apply IH].
  intros Hin. apply in_map_iff in Hin. destruct Hin as (y & Heq & Hy).
  apply collect_In in Hy. destruct Hy as (_ & _ & Hn). apply Hn. now left.
Qed.

(** Every admissible entry is represented in the result by an entry of the
    same norm, unless that norm was seen before. *)
Lemma collect_covers seen l r :
  In r l -> ok r = true -> ~ In (nrm r) seen ->
  exists r', In r' (collect ok nrm seen l) /\ nrm r' = nrm r.
Proof.
  revert seen. induction l as [|x l IH]; simpl; intros seen; [intros []|].
  intros [->|Hin] Hok Hseen.
  - rewrite Hok. apply mem_false in Hseen. rewrite Hseen.
    exists r. split; [now left | reflexivity].
  - destruct (ok x) eqn:Hx; [|now apply IH].
    destruct (PyStr.mem (nrm x) seen) eqn:Hm; [now apply IH|].
    destruct (string_dec (nrm x) (nrm r)) as [Heq|Hne].
    + exists x. split; [now left | assumption].
    + destruct (IH (nrm x :: seen) Hin Hok) as (r' & Hr' & Heq).
      * intros [H|H]; [now apply Hne | contradiction].
      * exists r'. split; [now right | assumption].
Qed.

(** A list that the loop would keep entirely is left as it is. *)
Lemma collect_fixed seen l :
  (forall r, In r l -> ok r = true) ->
  (forall r, In r l -> ~ In (nrm r) seen) ->
  NoDup (map nrm l) ->
  collect ok nrm seen l = l.
Proof.
  revert seen. induction l as [|x l IH]; simpl; intros seen Hok Hseen Hnd;
    [reflexivity|].
  inversion Hnd as [|? ? Hx Hnd']; subst.
  rewrite (Hok x) by now left.
  assert (Hm : PyStr.mem (nrm x) seen = false).
  { apply mem_false. apply Hseen. now left. }
  rewrite Hm. f_equal. apply IH; auto.
  intros r Hr [Heq|Hin].
  - apply Hx. rewrite Heq. now apply in_map.
  - apply (Hseen r); auto.
Qed.

Lemma collect_idempotent l :
  collect ok nrm [] (collect ok nrm [] l) = collect ok nrm [] l.
Proof.
  apply collect_fixed.
  - intros r Hr. now apply collect_In in Hr.
  - intros r _ [].
  - apply collect_NoDup.
Qed.

End CollectFacts.

(** ** The manual layer *)

Section ManualFacts.

Variable os_norm : string -> string.

Local Abbreviation nrp := (_normalize_related_path os_norm).
Local Abbreviation nf := (norm_of os_norm).

(** What [manual_by_path] holds: each normalized path once, with an owner
    among the known applications and a raw path of that norm. *)
Definition mbp_sound (known : list string) (mbp : PyDict.dict manual_owner) : Prop :=
  PyDict.wf mbp /\
  forall n k kd p, In (n, (k, kd, p)) mbp -> nrp p = n /\ n <> "" /\ In k known.

Lemma manual_record_sound known k acc e :
  In k known -> mbp_sound known acc -> mbp_sound known (manual_record os_norm k acc e).
Proof.
  intros Hk [Hwf Hall]. unfold manual_record.
  destruct (PyStr.strip (m_path e) =? ""); [now split|].
  destruct (nrp (PyStr.strip (m_path e)) =? "") eqn:En; [now split|].
  apply String.eqb_neq in En. split; [now apply wf_set|].
  intros n k' kd p Hin. apply in_set in Hin. destruct Hin as [Heq|Hin].
  - inversion Heq; subst. auto.
  - eauto.
Qed.

Lemma build_manual_sound m known :
  mbp_sound known (build_manual_by_path os_norm m known).
Proof.
  unfold build_manual_by_path.
  assert (H0 : mbp_sound known []).
  { split; [constructor | intros ? ? ? ? []]. }
  revert H0. generalize (@nil (string * manual_owner)) as acc.
  induction m as [|[k items] m IH]; simpl; intros acc Hacc; [assumption|].
  apply IH. destruct (PyStr.mem k known) eqn:Hk; [|assumption].
  apply mem_In in Hk. revert acc Hacc.
  induction items as [|e items IHi]; simpl; intros acc Hacc; [assumption|].
  apply IHi. now apply manual_record_sound.
Qed.

(** The effect on the files of the application [k] of one turn of the
    second loop. *)
Definition manual_step (k : string) (files : list RelatedFile)
    (item : string * manual_owner) : list RelatedFile :=
  if fst (fst (snd item)) =? k then
    if existsb (fun r => nf r =? fst item) files then files
    else files ++ [manual_entry (snd item)]
  else files.

Definition manual_files (mbp : PyDict.dict manual_owner) (a : AppEntry)
    : list RelatedFile :=
  fold_left (manual_step (key a)) mbp
    (collect (manual_ok os_norm mbp (key a)) nf [] (related_files a)).

Lemma manual_append_spec apps item :
  NoDup (app_keys apps) ->
  manual_append os_norm apps item =
  map (fun a => set_related a (manual_step (key a) (related_files a) item)) apps.
Proof.
  intros Hnd. destruct item as [n [[k kd] p]]. unfold manual_append.
  rewrite update_last_spec by assumption. apply map_ext. intros a.
  unfold manual_step. simpl. destruct (key a =? k) eqn:E.
  - apply String.eqb_eq in E. rewrite <- E, String.eqb_refl. reflexivity.
  - rewrite String.eqb_sym, E. symmetry. apply set_related_same.
Qed.

Lemma fold_manual_append mbp apps :
  NoDup (app_keys apps) ->
  fold_left (manual_append os_norm) mbp apps =
  map (fun a => set_related a (fold_left (manual_step (key a)) mbp (related_files a)))
      apps.
Proof.
  revert apps. induction mbp as [|item mbp IH]; simpl; intros apps Hnd.
  - symmetry. now apply refile_same.
  - rewrite manual_append_spec by assumption.
    rewrite IH by (now rewrite app_keys_refile).
    rewrite map_map. apply map_ext. intros a. reflexivity.
Qed.

(** The manual layer, application by application. *)
Lemma apply_manual_cases m apps :
  NoDup (app_keys apps) ->
  let mbp := build_manual_by_path os_norm m (app_keys apps) in
  (_apply_manual_related os_norm m apps = apps /\ (m = [] \/ apps = [] \/ mbp = [])) \/
  (mbp <> [] /\
   _apply_manual_related os_norm m apps =
   map (fun a => set_related a (manual_files mbp a)) apps).
Proof.
  intros Hnd mbp. unfold _apply_manual_related.
  destruct m as [|rec m]; [left; auto|].
  destruct apps as [|a0 apps]; [left; auto|].
  fold mbp. destruct mbp as [|item mbp'] eqn:Embp; [left; auto|].
  right. split; [discriminate|].
  assert (Hk : app_keys (map (manual_keep os_norm (item :: mbp')) (a0 :: apps))
               = app_keys (a0 :: apps)).
  { unfold app_keys. rewrite map_map. now apply map_ext. }
  rewrite fold_manual_append by (now rewrite Hk).
  rewrite map_map. apply map_ext. intros a. reflexivity.
Qed.

Lemma apply_manual_keys m apps :
  NoDup (app_keys apps) ->
  app_keys (_apply_manual_related os_norm m apps) = app_keys apps.
Proof.
  intros Hnd. destruct (apply_manual_cases m Hnd) as [[-> _]|[_ ->]];
    [reflexivity | apply app_keys_refile].
Qed.

Lemma manual_entry_norm known mbp n k kd p :
  mbp_sound known mbp -> In (n, (k, kd, p)) mbp -> nf (manual_entry (k, kd, p)) = n.
Proof. intros [_ H] Hin. destruct (H _ _ _ _ Hin) as [Hn _]. exact Hn. Qed.

Lemma existsb_norm (files : list RelatedFile) n :
  existsb (fun r => nf r =? n) files = true <-> exists r, In r files /\ nf r = n.
Proof.
  rewrite existsb_exists. split; intros (r & Hr & E); exists r; split; auto.
  - now apply String.eqb_eq.
  - now apply String.eqb_eq.
Qed.

(** The second loop only appends manual entries of the application. *)
Lemma manual_steps_In k items files r :
  In r (fold_left (manual_step k) items files) ->
  In r files \/
  exists n kd p, In (n, (k, kd, p)) items /\ r = manual_entry (k, kd, p) /\
                 ~ (exists r0, In r0 files /\ nf r0 = n).
Proof.
  revert files. induction items as [|[n [[k' kd] p]] items IH]; simpl;
    intros files Hin; [now left|].
  apply IH in Hin. unfold manual_step in Hin. simpl in Hin.
  destruct (k' =? k) eqn:Ek.
  - apply String.eqb_eq in Ek. subst k'.
    destruct (existsb (fun r0 => nf r0 =? n) files) eqn:Ex.
    + destruct Hin as [Hin|(n' & kd' & p' & Hi & Hr & Hno)]; [now left|].
      right. exists n', kd', p'. auto.
    + assert (Hno : ~ exists r0, In r0 files /\ nf r0 = n).
      { intros H. apply existsb_norm in H. congruence. }
      destruct Hin as [Hin|(n' & kd' & p' & Hi & Hr & Hno')].
      * apply in_app_or in Hin. destruct Hin as [Hin|[<-|[]]]; [now left|].
        right. exists n, kd, p. auto.
      * right. exists n', kd', p'. repeat split; auto.
        intros (r0 & Hr0 & E). apply Hno'. exists r0. split; [|assumption].
        apply in_or_app. now left.
  - destruct Hin as [Hin|(n' & kd' & p' & Hi & Hr & Hno)]; [now left|].
    right. exists n', kd', p'. auto.
Qed.

Lemma manual_steps_prefix k items files r :
  In r files -> In r (fold_left (manual_step k) items files).
Proof.
  revert files. induction items as [|item items IH]; simpl; intros files Hin;
    [assumption|].
  apply IH. unfold manual_step. destruct (fst (fst (snd item)) =? k); [|assumption].
  destruct (existsb _ files); [assumption|]. apply in_or_app. now left.
Qed.

(** Every path owned by the application ends up in its list. *)
Lemma manual_steps_cover known k items files n kd p :
  mbp_sound known items -> In (n, (k, kd, p)) items ->
  exists r, In r (fold_left (manual_step k) items files) /\ nf r = n.
Proof.
  intros Hs Hin.
  assert (Hnorm : forall n k kd p, In (n, (k, kd, p)) items ->
                                   nf (manual_entry (k, kd, p)) = n).
  { intros. eapply manual_entry_norm; eauto. }
  clear Hs. revert files. induction items as [|item items IH]; simpl; intros files;
    [contradiction|].
  destruct Hin as [->|Hin].
  - unfold manual_step at 2. simpl. rewrite String.eqb_refl.
    destruct (existsb (fun r => nf r =? n) files) eqn:Ex.
    + apply existsb_norm in Ex. destruct Ex as (r & Hr & E).
      exists r. split; [now apply manual_steps_prefix | assumption].
    + exists (manual_entry (k, kd, p)). split.
      * apply manual_steps_prefix. apply in_or_app. right. now left.
      * apply Hnorm. now left.
  - apply IH; auto. intros. apply Hnorm. now right.
Qed.

Lemma manual_steps_fixed k items files :
  (forall n kd p, In (n, (k, kd, p)) items -> exists r, In r files /\ nf r = n) ->
  fold_left (manual_step k) items files = files.
Proof.
  induction items as [|[n [[k' kd] p]] items IH]; simpl; intros H; [reflexivity|].
  unfold manual_step at 2. simpl. destruct (k' =? k) eqn:Ek.
  - apply String.eqb_eq in Ek. subst k'.
    assert (Ex : existsb (fun r => nf r =? n) files = true).
    { apply existsb_norm. apply (H n kd p). now left. }
    rewrite Ex. apply IH. intros. eapply H. right. eassumption.
  - apply IH. intros. eapply H. right. eassumption.
Qed.

Lemma manual_steps_NoDup known k items files :
  mbp_sound known items ->
  NoDup (map nf files) ->
  NoDup (map nf (fold_left (manual_step k) items files)).
Proof.
  intros Hs.
  assert (Hnorm : forall n k kd p, In (n, (k, kd, p)) items ->
                                   nf (manual_entry (k, kd, p)) = n).
  { intros. eapply manual_entry_norm; eauto. }
  clear Hs. revert files. induction items as [|[n [[k' kd] p]] items IH]; simpl;
    intros files Hnd; [assumption|].
  apply IH; [intros; apply Hnorm; now right|].
  unfold manual_step. cbn [fst snd]. destruct (k' =? k); [|assumption].
  destruct (existsb (fun r => nf r =? n) files) eqn:Ex; [assumption|].
  assert (E : nf (manual_entry (k', kd, p)) = n) by (apply Hnorm; now left).
  rewrite map_app. cbn [map]. rewrite E.
  apply NoDup_app; [assumption | repeat constructor; intros []|].
  intros x Hx [Hx'|[]]. subst x. apply in_map_iff in Hx. destruct Hx as (r & Hr & Hin).
  assert (existsb (fun r => nf r =? n) files = true)
    by (apply existsb_norm; eauto).
  congruence.
Qed.

(** An application on which the manual layer has nothing left to do. *)
Definition manual_settled (mbp : PyDict.dict manual_owner) (a : AppEntry) : Prop :=
  (forall r, In r (related_files a) -> manual_ok os_norm mbp (key a) r = true) /\
  NoDup (map nf (related_files a)) /\
  (forall n kd p, In (n, (key a, kd, p)) mbp ->
                  exists r, In r (related_files a) /\ nf r = n).

Lemma manual_files_fixed mbp a :
  manual_settled mbp a -> manual_files mbp a = related_files a.
Proof.
  intros (Hok & Hnd & Hcov). unfold manual_files.
  rewrite collect_fixed; auto.
  now apply manual_steps_fixed.
Qed.

Lemma manual_ok_entry known mbp n k kd p :
  mbp_sound known mbp -> In (n, (k, kd, p)) mbp ->
  manual_ok os_norm mbp k (manual_entry (k, kd, p)) = true.
Proof.
  intros Hs Hin. unfold manual_ok.
  rewrite (manual_entry_norm Hs Hin).
  destruct Hs as [Hwf Hall]. destruct (Hall _ _ _ _ Hin) as (_ & Hne & _).
  rewrite (In_get Hwf Hin). simpl.
  apply nonempty_true in Hne. rewrite Hne, String.eqb_refl. reflexivity.
Qed.

Lemma manual_files_settled known mbp a :
  mbp_sound known mbp ->
  manual_settled mbp (set_related a (manual_files mbp a)).
Proof.
  intros Hs. unfold manual_settled. rewrite key_set_related, related_set_related.
  unfold manual_files. repeat split.
  - intros r Hr. apply manual_steps_In in Hr.
    destruct Hr as [Hr|(n & kd & p & Hin & -> & _)].
    + now apply collect_In in Hr.
    + eapply manual_ok_entry; eauto.
  - eapply manual_steps_NoDup; eauto. apply collect_NoDup.
  - intros n kd p Hin. eapply manual_steps_cover; eauto.
Qed.

Lemma apply_manual_fixed m apps :
  NoDup (app_keys apps) ->
  (forall a, In a apps ->
             manual_settled (build_manual_by_path os_norm m (app_keys apps)) a) ->
  _apply_manual_related os_norm m apps = apps.
Proof.
  intros Hnd Hset. destruct (apply_manual_cases m Hnd) as [[-> _]|[_ ->]];
    [reflexivity|].
  apply refile_same. intros a Ha. apply manual_files_fixed. auto.
Qed.

Lemma apply_manual_settles m apps :
  NoDup (app_keys apps) ->
  build_manual_by_path os_norm m (app_keys apps) <> [] -> m <> [] -> apps <> [] ->
  forall a, In a (_apply_manual_related os_norm m apps) ->
            manual_settled (build_manual_by_path os_norm m (app_keys apps)) a.
Proof.
  intros Hnd Hne Hm Happs a Ha.
  destruct (apply_manual_cases m Hnd) as [[_ [?|[?|?]]]|[_ E]]; try contradiction.
  rewrite E in Ha. apply in_map_iff in Ha. destruct Ha as (a0 & <- & _).
  eapply manual_files_settled. apply build_manual_sound.
Qed.

Lemma apply_manual_idempotent m apps :
  NoDup (app_keys apps) ->
  _apply_manual_related os_norm m (_apply_manual_related os_norm m apps) =
  _apply_manual_related os_norm m apps.
Proof.
  intros Hnd.
  destruct (apply_manual_cases m Hnd) as [[E _]|[Hne E]]; [now rewrite E|].
  apply apply_manual_fixed.
  - now rewrite apply_manual_keys.
  - rewrite apply_manual_keys by assumption. intros a Ha.
    rewrite E in Ha. apply in_map_iff in Ha. destruct Ha as (a0 & <- & _).
    eapply manual_files_settled. apply build_manual_sound.
Qed.

End ManualFacts.

(** ** The ignore and unassigned layers *)

Section SuppressFacts.

Variable os_norm : string -> string.

Local Abbreviation nf := (norm_of os_norm).

(** Whether the layer keeps the entry [r] of the application of key [k]. *)
Definition suppress_keep (records : PyDict.dict (list string)) (k : string)
    (r : RelatedFile) : bool :=
  match records with
  | [] => true
  | _ =>
      match PyDict.get (build_norm_sets os_norm records) k with
      | None | Some [] => true
      | Some norms => negb (suppressed os_norm norms r)
      end
  end.

Lemma filter_all {A} (l : list A) : filter (fun _ => true) l = l.
Proof. induction l; simpl; congruence. Qed.

Lemma filter_twice {A} (f : A -> bool) l : filter f (filter f l) = filter f l.
Proof.
  induction l as [|x l IH]; simpl; [reflexivity|].
  destruct (f x) eqn:E; simpl; [rewrite E|]; congruence.
Qed.

Lemma filter_swap {A} (f g : A -> bool) l :
  filter f (filter g l) = filter g (filter f l).
Proof.
  induction l as [|x l IH]; simpl; [reflexivity|].
  destruct (g x) eqn:Eg, (f x) eqn:Ef; simpl; rewrite ?Eg, ?Ef; congruence.
Qed.

Lemma suppress_spec records apps :
  suppress os_norm records apps =
  map (fun a => set_related a
                  (filter (suppress_keep records (key a)) (related_files a)))
      apps.
Proof.
  unfold suppress, suppress_keep.
  destruct records as [|rec records].
  - symmetry. apply refile_same. intros. apply filter_all.
  - destruct (build_norm_sets os_norm (rec :: records)) as [|s sets] eqn:E.
    + symmetry. apply refile_same. intros. apply filter_all.
    + apply map_ext. intros a. unfold suppress_app.
      destruct (PyDict.get (s :: sets) (key a)) as [[|n norms]|];
        try (rewrite filter_all; symmetry; apply set_related_same).
      reflexivity.
Qed.

Lemma suppress_keys records apps :
  app_keys (suppress os_norm records apps) = app_keys apps.
Proof. rewrite suppress_spec. apply app_keys_refile. Qed.

Lemma suppress_keep_manual records k r :
  source r = "manual" -> suppress_keep records k r = true.
Proof.
  intros Hs. unfold suppress_keep, suppressed.
  destruct records; [reflexivity|].
  destruct (PyDict.get _ k) as [[|n norms]|]; try reflexivity.
  rewrite Hs. simpl. now rewrite andb_false_r.
Qed.

Lemma suppress_idempotent records apps :
  suppress os_norm records (suppress os_norm records apps) =
  suppress os_norm records apps.
Proof.
  rewrite !suppress_spec, map_map. apply map_ext. intros a.
  rewrite key_set_related, related_set_related, filter_twice. reflexivity.
Qed.

Lemma suppress_commute rec1 rec2 apps :
  suppress os_norm rec1 (suppress os_norm rec2 apps) =
  suppress os_norm rec2 (suppress os_norm rec1 apps).
Proof.
  rewrite !suppress_spec, !map_map. apply map_ext. intros a.
  rewrite !key_set_related, !related_set_related, filter_swap. reflexivity.
Qed.

(** The layer only removes entries, and never a manual one. *)
Lemma suppress_In records apps a r :
  In a (suppress os_norm records apps) -> In r (related_files a) ->
  exists a0, In a0 apps /\ key a0 = key a /\ In r (related_files a0).
Proof.
  rewrite suppress_spec. intros Ha Hr. apply in_map_iff in Ha.
  destruct Ha as (a0 & <- & Ha0). rewrite related_set_related in Hr.
  apply filter_In in Hr. exists a0. tauto.
Qed.

Lemma suppress_keeps_manual records apps a0 r :
  In a0 apps -> In r (related_files a0) -> source r = "manual" ->
  exists a, In a (suppress os_norm records apps) /\ key a = key a0 /\
            In r (related_files a).
Proof.
  intros Ha Hr Hs. rewrite suppress_spec.
  exists (set_related a0 (filter (suppress_keep records (key a0)) (related_files a0))).
  repeat split.
  - apply in_map_iff. exists a0. auto.
  - rewrite related_set_related. apply filter_In. split; [assumption|].
    now apply suppress_keep_manual.
Qed.

End SuppressFacts.

(** ** The reassignment layer *)

Section ReassignFacts.

Variable os_norm : string -> string.

Local Abbreviation nf := (norm_of os_norm).

(** *** The two dictionaries, read at one key *)

Definition view (st : Slots) (k : string) : list RelatedFile * list string :=
  (slot_files st k, slot_seen st k).

Lemma view_add_same st k n r :
  view (slot_add st k n r) k = (fst (view st k) ++ [r], n :: snd (view st k)).
Proof.
  unfold view, slot_add, slot_files, slot_seen. simpl.
  now rewrite !get_set_same.
Qed.

Lemma view_add_other st k k' n r :
  k' <> k -> view (slot_add st k n r) k' = view st k'.
Proof.
  intros Hne. unfold view, slot_add, slot_files, slot_seen. simpl.
  now rewrite !get_set_other.
Qed.

Lemma view_init apps k : view (init_slots apps) k = ([], []).
Proof.
  unfold init_slots.
  assert (H0 : view (mkSlots [] []) k = ([], [])) by reflexivity.
  revert H0. generalize (mkSlots [] []) as st.
  induction apps as [|a apps IH]; simpl; intros st Hst; [assumption|].
  apply IH. unfold view, slot_files, slot_seen in *. simpl.
  destruct (string_dec k (key a)) as [->|Hne].
  - now rewrite !get_set_same.
  - rewrite !get_set_other by assumption. exact Hst.
Qed.

(** *** The first loop, on the entry of one application *)

Definition visit_pure (ov : PyDict.dict string) (k : string)
    (ls : list RelatedFile * list string) (r : RelatedFile)
    : list RelatedFile * list string :=
  if nf r =? "" then ls
  else if redirected os_norm ov k r then ls
  else if PyStr.mem (nf r) (snd ls) then ls
  else (fst ls ++ [r], nf r :: snd ls).

Lemma visit_view_same ov k st r :
  view (override_visit os_norm ov k st r) k = visit_pure ov k (view st k) r.
Proof.
  unfold override_visit, visit_pure.
  destruct (nf r =? ""); [reflexivity|].
  destruct (redirected os_norm ov k r); [reflexivity|].
  change (snd (view st k)) with (slot_seen st k).
  destruct (PyStr.mem (nf r) (slot_seen st k)); [reflexivity|].
  apply view_add_same.
Qed.

Lemma visit_view_other ov k k' st r :
  k' <> k -> view (override_visit os_norm ov k st r) k' = view st k'.
Proof.
  intros Hne. unfold override_visit.
  destruct (nf r =? ""); [reflexivity|].
  destruct (redirected os_norm ov k r); [reflexivity|].
  destruct (PyStr.mem (nf r) (slot_seen st k)); [reflexivity|].
  now apply view_add_other.
Qed.

Lemma visits_view_same ov k files st :
  view (fold_left (override_visit os_norm ov k) files st) k =
  fold_left (visit_pure ov k) files (view st k).
Proof.
  revert st. induction files as [|r files IH]; simpl; intros st; [reflexivity|].
  now rewrite IH, visit_view_same.
Qed.

Lemma visits_view_other ov k k' files st :
  k' <> k -> view (fold_left (override_visit os_norm ov k) files st) k' = view st k'.
Proof.
  intros Hne. revert st. induction files as [|r files IH]; simpl; intros st;
    [reflexivity|].
  now rewrite IH, visit_view_other.
Qed.

Definition visit_apps (ov : PyDict.dict string) (apps : list AppEntry) (st : Slots) :=
  fold_left
    (fun st a => fold_left (override_visit os_norm ov (key a)) (related_files a) st)
    apps st.

Lemma visit_apps_other ov apps st k :
  ~ In k (app_keys apps) -> view (visit_apps ov apps st) k = view st k.
Proof.
  unfold visit_apps. revert st. induction apps as [|a apps IH]; simpl; intros st Hk;
    [reflexivity|].
  rewrite IH by tauto. apply visits_view_other. intros ->. tauto.
Qed.

Lemma visit_apps_same ov apps st a :
  NoDup (app_keys apps) -> In a apps ->
  view (visit_apps ov apps st) (key a) =
  fold_left (visit_pure ov (key a)) (related_files a) (view st (key a)).
Proof.
  unfold visit_apps. revert st. induction apps as [|b apps IH]; simpl;
    intros st Hnd Ha; [contradiction|].
  inversion Hnd as [|? ? Hb Hnd']; subst.
  destruct Ha as [->|Ha].
  - fold (visit_apps ov apps
            (fold_left (override_visit os_norm ov (key a)) (related_files a) st)).
    rewrite visit_apps_other by assumption. apply visits_view_same.
  - rewrite IH by assumption. rewrite visits_view_other; [reflexivity|].
    intros E. apply Hb. rewrite <- E. unfold app_keys. now apply in_map.
Qed.

(** *** The second loop, on the entry of one application *)

Definition attach_pure (known : list string) (pl : PyDict.dict RelatedFile)
    (k : string) (ls : list RelatedFile * list string) (item : string * string)
    : list RelatedFile * list string :=
  if (snd item =? k) && PyStr.mem (snd item) known then
    match PyDict.get pl (fst item) with
    | None => ls
    | Some r =>
        if PyStr.mem (fst item) (snd ls) then ls
        else (fst ls ++ [r], fst item :: snd ls)
    end
  else ls.

Lemma attach_view known pl st item k :
  view (override_attach known pl st item) k =
  attach_pure known pl k (view st k) item.
Proof.
  destruct item as [n t]. unfold override_attach, attach_pure. simpl.
  destruct (PyStr.mem t known); [|now rewrite andb_false_r].
  rewrite andb_true_r.
  destruct (PyDict.get pl n) as [r|]; [|now destruct (t =? k)].
  destruct (t =? k) eqn:E.
  - apply String.eqb_eq in E. subst t.
    change (snd (view st k)) with (slot_seen st k).
    destruct (PyStr.mem n (slot_seen st k)); [reflexivity|].
    apply view_add_same.
  - apply String.eqb_neq in E.
    destruct (PyStr.mem n (slot_seen st t)); [reflexivity|].
    apply view_add_other. congruence.
Qed.

Lemma attaches_view known pl ov st k :
  view (fold_left (override_attach known pl) ov st) k =
  fold_left (attach_pure known pl k) ov (view st k).
Proof.
  revert st. induction ov as [|item ov IH]; simpl; intros st; [reflexivity|].
  now rewrite IH, attach_view.
Qed.

(** The files of one application after the layer. *)
Definition reassign_files (ov : PyDict.dict string) (known : list string)
    (pl : PyDict.dict RelatedFile) (k : string) (files : list RelatedFile)
    : list RelatedFile :=
  fst (fold_left (attach_pure known pl k) ov
         (fold_left (visit_pure ov k) files ([], []))).

Lemma apply_overrides_cases ov apps :
  NoDup (app_keys apps) ->
  (_apply_related_overrides os_norm ov apps = apps /\ (ov = [] \/ apps = [])) \/
  (ov <> [] /\ apps <> [] /\
   _apply_related_overrides os_norm ov apps =
   map (fun a => set_related a
                   (reassign_files ov (app_keys apps)
                      (build_path_lookup os_norm apps) (key a) (related_files a)))
       apps).
Proof.
  intros Hnd. unfold _apply_related_overrides.
  destruct ov as [|item ov]; [left; auto|].
  destruct apps as [|a0 apps]; [left; auto|].
  right. split; [discriminate|]. split; [discriminate|].
  apply map_ext_in. intros a Ha. f_equal.
  change (slot_files ?st (key a)) with (fst (view st (key a))).
  rewrite attaches_view. unfold reassign_files. f_equal. f_equal.
  change (fold_left _ (a0 :: apps) (init_slots (a0 :: apps)))
    with (visit_apps (item :: ov) (a0 :: apps) (init_slots (a0 :: apps))).
  rewrite visit_apps_same by assumption. now rewrite view_init.
Qed.

Lemma apply_overrides_keys ov apps :
  NoDup (app_keys apps) ->
  app_keys (_apply_related_overrides os_norm ov apps) = app_keys apps.
Proof.
  intros Hnd. destruct (apply_overrides_cases ov Hnd) as [[-> _]|(_ & _ & ->)];
    [reflexivity | apply app_keys_refile].
Qed.

(** *** The first loop is the shared de-duplicating loop *)

Definition reassign_ok (ov : PyDict.dict string) (k : string) (r : RelatedFile) : bool :=
  PyStr.nonempty (nf r) && negb (redirected os_norm ov k r).

Lemma visit_pure_ok ov k ls r :
  visit_pure ov k ls r =
  if reassign_ok ov k r
  then if PyStr.mem (nf r) (snd ls) then ls else (fst ls ++ [r], nf r :: snd ls)
  else ls.
Proof.
  unfold visit_pure, reassign_ok, PyStr.nonempty.
  destruct (nf r =? ""); simpl; [reflexivity|].
  now destruct (redirected os_norm ov k r).
Qed.

Lemma visits_collect ov k files l0 s0 :
  fold_left (visit_pure ov k) files (l0, s0) =
  (l0 ++ collect (reassign_ok ov k) nf s0 files,
   rev (map nf (collect (reassign_ok ov k) nf s0 files)) ++ s0).
Proof.
  revert l0 s0. induction files as [|r files IH]; intros l0 s0.
  - simpl. now rewrite app_nil_r.
  - cbn [fold_left collect]. rewrite visit_pure_ok. cbn [fst snd].
    destruct (reassign_ok ov k r); [|apply IH].
    destruct (PyStr.mem (nf r) s0); [apply IH|].
    rewrite IH. cbn [map rev]. now rewrite <- !app_assoc.
Qed.

(** *** The second loop *)

(** The norms seen are those of the list built so far. *)
Definition tracked (ls : list RelatedFile * list string) : Prop :=
  forall n, In n (snd ls) <-> In n (map nf (fst ls)).

Definition pl_sound (pl : PyDict.dict RelatedFile) : Prop :=
  forall n r, PyDict.get pl n = Some r -> nf r = n /\ n <> "".

Lemma tracked_collect ok files :
  tracked (collect ok nf [] files, rev (map nf (collect ok nf [] files)) ++ []).
Proof. intros n. simpl. rewrite app_nil_r. symmetry. apply in_rev. Qed.

Lemma attaches_In known pl k ov ls r :
  In r (fst (fold_left (attach_pure known pl k) ov ls)) ->
  In r (fst ls) \/
  exists n, In (n, k) ov /\ In k known /\ PyDict.get pl n = Some r.
Proof.
  revert ls. induction ov as [|[n t] ov IH]; simpl; intros ls Hin; [now left|].
  apply IH in Hin. destruct Hin as [Hin|(n' & Hi & Hk & Hg)].
  - unfold attach_pure in Hin. simpl in Hin.
    destruct ((t =? k) && PyStr.mem t known) eqn:E; [|now left].
    apply andb_true_iff in E. destruct E as [Et Hk].
    apply String.eqb_eq in Et. subst t. apply mem_In in Hk.
    destruct (PyDict.get pl n) as [r0|] eqn:Hg; [|now left].
    destruct (PyStr.mem n (snd ls)); [now left|].
    simpl in Hin. apply in_app_or in Hin. destruct Hin as [Hin|[<-|[]]]; [now left|].
    right. exists n. auto.
  - right. exists n'. auto.
Qed.

Lemma attaches_prefix known pl k ov ls r :
  In r (fst ls) -> In r (fst (fold_left (attach_pure known pl k) ov ls)).
Proof.
  revert ls. induction ov as [|item ov IH]; simpl; intros ls Hin; [assumption|].
  apply IH. unfold attach_pure.
  destruct ((snd item =? k) && PyStr.mem (snd item) known); [|assumption].
  destruct (PyDict.get pl (fst item)); [|assumption].
  destruct (PyStr.mem (fst item) (snd ls)); [assumption|].
  simpl. apply in_or_app. now left.
Qed.

Lemma attaches_NoDup known pl k ov ls :
  pl_sound pl -> tracked ls -> NoDup (map nf (fst ls)) ->
  NoDup (map nf (fst (fold_left (attach_pure known pl k) ov ls))).
Proof.
  intros Hpl. revert ls. induction ov as [|[n t] ov IH]; simpl; intros ls Htr Hnd;
    [assumption|].
  unfold attach_pure at 2. simpl.
  destruct ((t =? k) && PyStr.mem t known); [|now apply IH].
  destruct (PyDict.get pl n) as [r|] eqn:Hg; [|now apply IH].
  destruct (PyStr.mem n (snd ls)) eqn:Hm; [now apply IH|].
  apply mem_false in Hm. destruct (Hpl _ _ Hg) as [Hn _].
  apply IH.
  - intros x. simpl. rewrite map_app, in_app_iff. simpl. rewrite Hn.
    rewrite (Htr x). tauto.
  - simpl. rewrite map_app. simpl. rewrite Hn.
    apply NoDup_app; [assumption | repeat constructor; intros []|].
    intros x Hx [<-|[]]. apply Hm. now apply Htr.
Qed.

Lemma attaches_fixed known pl k ov ls :
  (forall n r, In (n, k) ov -> In k known -> PyDict.get pl n = Some r ->
               In n (snd ls)) ->
  fold_left (attach_pure known pl k) ov ls = ls.
Proof.
  induction ov as [|[n t] ov IH]; simpl; intros H; [reflexivity|].
  unfold attach_pure at 2. simpl.
  destruct ((t =? k) && PyStr.mem t known) eqn:E;
    [|apply IH; intros; eapply H; eauto].
  apply andb_true_iff in E. destruct E as [Et Hk].
  apply String.eqb_eq in Et. subst t. apply mem_In in Hk.
  destruct (PyDict.get pl n) as [r|] eqn:Hg; [|apply IH; intros; eapply H; eauto].
  assert (Hm : PyStr.mem n (snd ls) = true).
  { apply mem_In. eapply H; eauto. }
  rewrite Hm. apply IH. intros; eapply H; eauto.
Qed.

(** *** [path_lookup] *)

Lemma lookup_visits_sound files d n r :
  PyDict.get (fold_left (lookup_visit os_norm) files d) n = Some r ->
  PyDict.get d n = Some r \/ (In r files /\ nf r = n /\ n <> "").
Proof.
  revert d. induction files as [|x files IH]; simpl; intros d Hg; [now left|].
  apply IH in Hg. destruct Hg as [Hg|(Hin & Hn & Hne)]; [|right; auto].
  unfold lookup_visit in Hg. destruct (nf x =? "") eqn:Ex; [now left|].
  destruct (PyDict.get d (nf x)) eqn:Hd; [now left|].
  destruct (string_dec n (nf x)) as [->|Hneq].
  - rewrite get_set_same in Hg. inversion Hg; subst. right.
    apply String.eqb_neq in Ex. auto.
  - rewrite get_set_other in Hg by assumption. now left.
Qed.

Lemma path_lookup_sound apps n r :
  PyDict.get (build_path_lookup os_norm apps) n = Some r ->
  nf r = n /\ n <> "" /\ exists a, In a apps /\ In r (related_files a).
Proof.
  unfold build_path_lookup.
  assert (H : forall d,
             PyDict.get (fold_left
               (fun d a => fold_left (lookup_visit os_norm) (related_files a) d)
               apps d) n = Some r ->
             PyDict.get d n = Some r \/
             (nf r = n /\ n <> "" /\ exists a, In a apps /\ In r (related_files a))).
  { induction apps as [|a apps IH]; simpl; intros d Hg; [now left|].
    apply IH in Hg. destruct Hg as [Hg|(Hn & Hne & b & Hb & Hr)].
    - apply lookup_visits_sound in Hg. destruct Hg as [Hg|(Hin & Hn & Hne)];
        [now left|]. right. repeat split; auto. exists a. auto.
    - right. repeat split; auto. exists b. auto. }
  intros Hg. apply H in Hg. destruct Hg as [Hg|Hg]; [discriminate | exact Hg].
Qed.

(** *** Fixed points of the layer *)

Lemma same_key_same_app apps a b :
  NoDup (app_keys apps) -> In a apps -> In b apps -> key a = key b -> a = b.
Proof.
  induction apps as [|c apps IH]; simpl; intros Hnd Ha Hb E; [contradiction|].
  inversion Hnd as [|? ? Hc Hnd']; subst.
  destruct Ha as [->|Ha], Hb as [->|Hb]; auto.
  - exfalso. apply Hc. rewrite E. unfold app_keys. now apply in_map.
  - exfalso. apply Hc. rewrite <- E. unfold app_keys. now apply in_map.
Qed.

Lemma reassign_files_collect ov known pl k files :
  reassign_files ov known pl k files =
  fst (fold_left (attach_pure known pl k) ov
         (collect (reassign_ok ov k) nf [] files,
          rev (map nf (collect (reassign_ok ov k) nf [] files)) ++ [])).
Proof. unfold reassign_files. now rewrite visits_collect. Qed.

(** An application on which the reassignment layer has nothing to do. *)
Definition reassign_settled (ov : PyDict.dict string) (a : AppEntry) : Prop :=
  (forall r, In r (related_files a) -> reassign_ok ov (key a) r = true) /\
  NoDup (map nf (related_files a)).

Lemma reassign_ok_target ov k r t :
  reassign_ok ov k r = true -> PyDict.get ov (nf r) = Some t -> t = "" \/ t = k.
Proof.
  unfold reassign_ok, redirected. intros H Hg. rewrite Hg in H.
  apply andb_true_iff in H. destruct H as [_ H].
  apply negb_true_iff, andb_false_iff in H. destruct H as [H|H].
  - left. unfold PyStr.nonempty in H. apply negb_false_iff in H.
    now apply String.eqb_eq.
  - right. apply negb_false_iff in H. now apply String.eqb_eq.
Qed.

Lemma reassign_ok_attached ov k n r :
  PyDict.wf ov -> In (n, k) ov -> nf r = n -> n <> "" ->
  reassign_ok ov k r = true.
Proof.
  intros Hwf Hin Hn Hne. unfold reassign_ok, redirected.
  rewrite Hn, (In_get Hwf Hin), String.eqb_refl.
  apply nonempty_true in Hne. rewrite Hne. simpl. now rewrite andb_false_r.
Qed.

Lemma reassign_files_settled ov apps a :
  PyDict.wf ov ->
  reassign_settled ov
    (set_related a (reassign_files ov (app_keys apps)
                      (build_path_lookup os_norm apps) (key a) (related_files a))).
Proof.
  intros Hwf. unfold reassign_settled.
  rewrite key_set_related, related_set_related, reassign_files_collect. split.
  - intros r Hr. apply attaches_In in Hr. simpl in Hr.
    destruct Hr as [Hr|(n & Hin & _ & Hg)].
    + now apply collect_In in Hr.
    + apply path_lookup_sound in Hg. destruct Hg as (Hn & Hne & _).
      eapply reassign_ok_attached; eauto.
  - apply attaches_NoDup.
    + intros n r Hg. apply path_lookup_sound in Hg. tauto.
    + apply tracked_collect.
    + apply collect_NoDup.
Qed.

Lemma reassign_files_fixed ov apps a :
  NoDup (app_keys apps) -> PyDict.wf ov -> In a apps ->
  (forall b, In b apps -> reassign_settled ov b) ->
  reassign_files ov (app_keys apps) (build_path_lookup os_norm apps)
                 (key a) (related_files a) = related_files a.
Proof.
  intros Hnd Hwf Ha Hset. rewrite reassign_files_collect.
  destruct (Hset a Ha) as [Hok Hnodup].
  rewrite collect_fixed; auto. rewrite attaches_fixed; [reflexivity|].
  intros n r Hin _ Hg. simpl. rewrite app_nil_r. apply in_rev. rewrite rev_involutive.
  apply path_lookup_sound in Hg. destruct Hg as (Hn & Hne & b & Hb & Hr).
  destruct (Hset b Hb) as [Hokb _].
  assert (Hg : PyDict.get ov (nf r) = Some (key a)) by (rewrite Hn; now apply In_get).
  destruct (reassign_ok_target (Hokb r Hr) Hg) as [E|E].
  - exfalso. now apply (@key_nonempty a).
  - assert (a = b) by (eapply same_key_same_app; eauto). subst b.
    rewrite <- Hn. now apply in_map.
Qed.

Lemma apply_overrides_fixed ov apps :
  NoDup (app_keys apps) -> PyDict.wf ov ->
  (forall b, In b apps -> reassign_settled ov b) ->
  _apply_related_overrides os_norm ov apps = apps.
Proof.
  intros Hnd Hwf Hset.
  destruct (apply_overrides_cases ov Hnd) as [[-> _]|(_ & _ & ->)]; [reflexivity|].
  apply refile_same. intros a Ha. now apply reassign_files_fixed.
Qed.

Lemma apply_overrides_idempotent ov apps :
  NoDup (app_keys apps) -> PyDict.wf ov ->
  _apply_related_overrides os_norm ov (_apply_related_overrides os_norm ov apps) =
  _apply_related_overrides os_norm ov apps.
Proof.
  intros Hnd Hwf.
  destruct (apply_overrides_cases ov Hnd) as [[E _]|(_ & _ & E)]; [now rewrite E|].
  apply apply_overrides_fixed; [now rewrite apply_overrides_keys | assumption |].
  intros b Hb. rewrite E in Hb. apply in_map_iff in Hb.
  destruct Hb as (a & <- & _). now apply reassign_files_settled.
Qed.

End ReassignFacts.

(** ** The layers together *)

Section CompositeFacts.

Variable os_norm : string -> string.

Local Abbreviation nf := (norm_of os_norm).

Lemma NoDup_map_filter {A B} (f : A -> B) (p : A -> bool) l :
  NoDup (map f l) -> NoDup (map f (filter p l)).
Proof.
  induction l as [|x l IH]; simpl; intros Hnd; [constructor|].
  inversion Hnd as [|? ? Hx Hnd']; subst.
  destruct (p x); simpl; [|auto]. constructor; [|auto].
  intros Hin. apply Hx. apply in_map_iff in Hin. destruct Hin as (y & E & Hy).
  apply filter_In in Hy. rewrite <- E. apply in_map. tauto.
Qed.

Lemma app_keys_nil apps : app_keys apps = [] -> apps = [].
Proof. destruct apps; [reflexivity | discriminate]. Qed.

Lemma apply_manual_trivial m apps :
  m = [] \/ apps = [] \/ build_manual_by_path os_norm m (app_keys apps) = [] ->
  _apply_manual_related os_norm m apps = apps.
Proof.
  unfold _apply_manual_related. intros [->|[->|E]].
  - reflexivity.
  - now destruct m.
  - destruct m; [reflexivity|]. destruct apps; [reflexivity|]. now rewrite E.
Qed.

Lemma apply_overrides_trivial ov apps :
  ov = [] \/ apps = [] -> _apply_related_overrides os_norm ov apps = apps.
Proof.
  unfold _apply_related_overrides. intros [->| ->]; [reflexivity | now destruct ov].
Qed.

(** The manual records whose path a reassignment sends to another
    application than its manual owner. *)
Definition reassignment_respects_manual (mbp : PyDict.dict manual_owner)
    (ov : PyDict.dict string) : Prop :=
  forall n k kd p t,
    In (n, (k, kd, p)) mbp -> PyDict.get ov n = Some t -> t = "" \/ t = k.

Lemma manual_ok_owner mbp k r k' kd p :
  manual_ok os_norm mbp k r = true ->
  PyDict.get mbp (nf r) = Some (k', kd, p) ->
  k' = k /\ source r = "manual".
Proof.
  unfold manual_ok. intros H Hg. rewrite Hg in H.
  apply andb_true_iff in H. destruct H as [_ H].
  apply andb_true_iff in H. destruct H as [H1 H2].
  split; now apply String.eqb_eq.
Qed.

Lemma manual_ok_nonempty mbp k r :
  manual_ok os_norm mbp k r = true -> nf r <> "".
Proof.
  unfold manual_ok. intros H. apply andb_true_iff in H.
  destruct H as [H _]. now apply nonempty_true.
Qed.

Lemma manual_ok_other_key mbp k k' r :
  manual_ok os_norm mbp k r = true ->
  (forall o, PyDict.get mbp (nf r) = Some o -> fst (fst o) = k') ->
  manual_ok os_norm mbp k' r = true.
Proof.
  unfold manual_ok. intros H Ho.
  destruct (PyDict.get mbp (nf r)) as [[[o kd] p]|] eqn:Hg; [|assumption].
  apply andb_true_iff in H. destruct H as [Hn H].
  apply andb_true_iff in H. destruct H as [_ Hs].
  rewrite Hn, Hs. specialize (Ho _ eq_refl). simpl in Ho. subst o.
  now rewrite String.eqb_refl.
Qed.

(** The reassignment layer leaves the applications settled for the manual
    layer, when no reassignment takes a path from its manual owner. *)
Lemma reassign_keeps_manual_settled known mbp ov apps a :
  NoDup (app_keys apps) -> PyDict.wf ov -> mbp_sound os_norm known mbp ->
  reassignment_respects_manual mbp ov ->
  (forall b, In b apps -> manual_settled os_norm mbp b) ->
  In a apps ->
  manual_settled os_norm mbp
    (set_related a (reassign_files os_norm ov (app_keys apps)
                      (build_path_lookup os_norm apps) (key a) (related_files a))).
Proof.
  intros Hnd Hwf Hs Hresp Hall Ha.
  destruct (Hall a Ha) as (Hok & Hnodup & Hcov).
  unfold manual_settled. rewrite key_set_related, related_set_related.
  split; [|split].
  - intros r Hr. rewrite reassign_files_collect in Hr.
    apply attaches_In in Hr. simpl in Hr.
    destruct Hr as [Hr|(n & Hin & _ & Hg)].
    + apply collect_In in Hr. apply Hok. tauto.
    + apply path_lookup_sound in Hg. destruct Hg as (Hn & Hne & b & Hb & Hr).
      destruct (Hall b Hb) as (Hokb & _ & _).
      apply (manual_ok_other_key (Hokb r Hr)).
      intros [[o kd] p] Hgo. simpl.
      destruct (manual_ok_owner (Hokb r Hr) Hgo) as [-> _].
      apply get_In in Hgo. rewrite Hn in Hgo.
      destruct (Hresp _ _ _ _ (key a) Hgo (In_get Hwf Hin)) as [E|E];
        [now apply (@key_nonempty a) in E | now symmetry].
  - destruct (reassign_files_settled os_norm apps a Hwf) as [_ H]. exact H.
  - intros n kd p Hin. destruct (Hcov n kd p Hin) as (r0 & Hr0 & Hn0).
    assert (Hro : reassign_ok os_norm ov (key a) r0 = true).
    { unfold reassign_ok, redirected.
      pose proof (manual_ok_nonempty (Hok r0 Hr0)) as Hne.
      apply nonempty_true in Hne. rewrite Hne. simpl. rewrite Hn0.
      destruct (PyDict.get ov n) as [t|] eqn:Hg; [|reflexivity].
      destruct (Hresp _ _ _ _ t Hin Hg) as [->| ->]; simpl;
        [reflexivity | now rewrite String.eqb_refl, andb_false_r]. }
    destruct (@collect_covers (reassign_ok os_norm ov (key a)) nf [] _ r0 Hr0 Hro)
      as (r' & Hr' & E); [intros []|].
    exists r'. split; [|congruence].
    rewrite reassign_files_collect. now apply attaches_prefix.
Qed.

Lemma suppress_keeps_manual_settled known mbp records a :
  mbp_sound os_norm known mbp -> manual_settled os_norm mbp a ->
  manual_settled os_norm mbp
    (set_related a (filter (suppress_keep os_norm records (key a)) (related_files a))).
Proof.
  intros [Hwf _] (Hok & Hnodup & Hcov). unfold manual_settled.
  rewrite key_set_related, related_set_related. split; [|split].
  - intros r Hr. apply filter_In in Hr. apply Hok. tauto.
  - now apply NoDup_map_filter.
  - intros n kd p Hin. destruct (Hcov n kd p Hin) as (r & Hr & Hn).
    exists r. split; [|assumption]. apply filter_In. split; [assumption|].
    apply suppress_keep_manual.
    assert (Hg : PyDict.get mbp (nf r) = Some (key a, kd, p))
      by (rewrite Hn; now apply In_get).
    now destruct (manual_ok_owner (Hok r Hr) Hg).
Qed.

Lemma suppress_keeps_reassign_settled ov records a :
  reassign_settled os_norm ov a ->
  reassign_settled os_norm ov
    (set_related a (filter (suppress_keep os_norm records (key a)) (related_files a))).
Proof.
  intros [Hok Hnodup]. unfold reassign_settled.
  rewrite key_set_related, related_set_related. split.
  - intros r Hr. apply filter_In in Hr. apply Hok. tauto.
  - now apply NoDup_map_filter.
Qed.

Lemma overrides_keep_manual_settled known mbp ov apps :
  NoDup (app_keys apps) -> PyDict.wf ov -> mbp_sound os_norm known mbp ->
  reassignment_respects_manual mbp ov ->
  (forall b, In b apps -> manual_settled os_norm mbp b) ->
  forall b, In b (_apply_related_overrides os_norm ov apps) ->
            manual_settled os_norm mbp b.
Proof.
  intros Hnd Hwf Hs Hresp Hall b Hb.
  destruct (apply_overrides_cases os_norm ov Hnd) as [[E _]|(_ & _ & E)];
    rewrite E in Hb; [auto|].
  apply in_map_iff in Hb. destruct Hb as (a & <- & Ha).
  eapply reassign_keeps_manual_settled; eauto.
Qed.

Lemma suppress_all_manual_settled known mbp records apps :
  mbp_sound os_norm known mbp ->
  (forall b, In b apps -> manual_settled os_norm mbp b) ->
  forall b, In b (suppress os_norm records apps) -> manual_settled os_norm mbp b.
Proof.
  intros Hs Hall b Hb. rewrite suppress_spec in Hb.
  apply in_map_iff in Hb. destruct Hb as (a & <- & Ha).
  eapply suppress_keeps_manual_settled; eauto.
Qed.

Lemma suppress_all_reassign_settled ov records apps :
  (forall b, In b apps -> reassign_settled os_norm ov b) ->
  forall b, In b (suppress os_norm records apps) -> reassign_settled os_norm ov b.
Proof.
  intros Hall b Hb. rewrite suppress_spec in Hb.
  apply in_map_iff in Hb. destruct Hb as (a & <- & Ha).
  apply suppress_keeps_reassign_settled; auto.
Qed.

(** Re-running the four layers on their own output changes nothing, when
    no reassignment takes a path from its manual owner. *)
Lemma rematerialize_again o apps :
  NoDup (app_keys apps) ->
  PyDict.wf (related_overrides o) ->
  reassignment_respects_manual
    (build_manual_by_path os_norm (related_manual o) (app_keys apps))
    (related_overrides o) ->
  rematerialize os_norm o (rematerialize os_norm o apps) =
  rematerialize os_norm o apps.
Proof.
  intros Hnd Hwf Hresp. unfold rematerialize.
  unfold _apply_related_ignores, _apply_related_unassigned.
  destruct o as [m ig un ov]. simpl in *.
  set (mbp := build_manual_by_path os_norm m (app_keys apps)) in *.
  set (x1 := _apply_manual_related os_norm m apps).
  set (x2 := _apply_related_overrides os_norm ov x1).
  set (x3 := suppress os_norm ig x2).
  set (y := suppress os_norm un x3).
  assert (K1 : app_keys x1 = app_keys apps) by (now apply apply_manual_keys).
  assert (N1 : NoDup (app_keys x1)) by (now rewrite K1).
  assert (K2 : app_keys x2 = app_keys apps)
    by (unfold x2; now rewrite apply_overrides_keys).
  assert (Ky : app_keys y = app_keys apps)
    by (unfold y, x3; now rewrite !suppress_keys).
  assert (Ny : NoDup (app_keys y)) by (now rewrite Ky).
  assert (Hsound : mbp_sound os_norm (app_keys apps) mbp)
    by apply build_manual_sound.
  (* the manual layer *)
  assert (HA : _apply_manual_related os_norm m y = y).
  { destruct (apply_manual_cases os_norm m Hnd) as [[E Htriv]|[Hne E]].
    - apply apply_manual_trivial. rewrite Ky.
      destruct Htriv as [?|[?|?]]; auto.
      right. left. apply app_keys_nil. rewrite Ky. now subst apps.
    - apply apply_manual_fixed; [assumption|]. rewrite Ky. fold mbp.
      apply (suppress_all_manual_settled Hsound).
      apply (suppress_all_manual_settled Hsound).
      apply (overrides_keep_manual_settled N1 Hwf Hsound Hresp).
      intros b Hb. unfold x1 in Hb. rewrite E in Hb.
      apply in_map_iff in Hb. destruct Hb as (a & <- & _).
      eapply manual_files_settled; eauto. }
  rewrite HA.
  (* the reassignment layer *)
  assert (HB : _apply_related_overrides os_norm ov y = y).
  { destruct (apply_overrides_cases os_norm ov N1) as [[E Htriv]|(_ & _ & E)].
    - apply apply_overrides_trivial. destruct Htriv as [?|Hx]; [now left|].
      right. apply app_keys_nil. rewrite Ky, <- K1, Hx. reflexivity.
    - apply apply_overrides_fixed; [assumption | assumption |].
      apply suppress_all_reassign_settled. apply suppress_all_reassign_settled.
      intros b Hb. unfold x2 in Hb. rewrite E in Hb.
      apply in_map_iff in Hb. destruct Hb as (a & <- & _).
      now apply reassign_files_settled. }
  rewrite HB.
  (* the two suppression layers *)
  transitivity (suppress os_norm un (suppress os_norm ig (suppress os_norm un x3)));
    [reflexivity|].
  rewrite (suppress_commute os_norm ig un x3).
  rewrite suppress_idempotent.
  transitivity (suppress os_norm un (suppress os_norm ig (suppress os_norm ig x2)));
    [reflexivity|].
  now rewrite suppress_idempotent.
Qed.

End CompositeFacts.

(** ** Exclusive ownership *)

(** No two applications of different keys hold entries of the same norm. *)
Definition disjoint_apps (nrm : RelatedFile -> string) (apps : list AppEntry) : Prop :=
  forall a b ra rb,
    In a apps -> In b apps -> key a <> key b ->
    In ra (related_files a) -> In rb (related_files b) ->
    nrm ra <> nrm rb.

Section DedupeFacts.

Variable host : Host.

Definition scan_norm (r : RelatedFile) : string := _normalize_path host (path r).

Lemma best_visit_nonempty k best r :
  best <> [] \/ path r <> "" -> best_visit host k best r <> [].
Proof.
  unfold best_visit. intros H.
  destruct (path r =? "") eqn:E.
  - apply String.eqb_eq in E. destruct H as [H|H]; [assumption | contradiction].
  - destruct (PyDict.get best (_normalize_path host (path r))) as [[s0 o]|] eqn:Hg.
    + destruct (s0 <? claim_score r)%Z; [apply set_nonempty|].
      intros ->. discriminate.
    + apply set_nonempty.
Qed.

Lemma best_visits_nonempty k files best :
  best <> [] \/ (exists r, In r files /\ path r <> "") ->
  fold_left (best_visit host k) files best <> [].
Proof.
  revert best. induction files as [|x files IH]; simpl; intros best H.
  - destruct H as [H|(r & [] & _)]. assumption.
  - apply IH. destruct H as [H|(r & [->|Hr] & Hp)].
    + left. apply best_visit_nonempty. now left.
    + left. apply best_visit_nonempty. now right.
    + right. eauto.
Qed.

Lemma build_best_nonempty apps a r :
  In a apps -> In r (related_files a) -> path r <> "" ->
  build_best_by_path host apps <> [].
Proof.
  unfold build_best_by_path.
  assert (H : forall best,
             best <> [] \/ (exists a r, In a apps /\ In r (related_files a) /\
                                        path r <> "") ->
             fold_left (fun best a => fold_left (best_visit host (key a))
                                                (related_files a) best)
                       apps best <> []).
  { induction apps as [|b apps IH]; simpl; intros best Hb.
    - destruct Hb as [Hb|(? & ? & [] & _)]. assumption.
    - apply IH. destruct Hb as [Hb|(a' & r' & [->|Ha'] & Hr' & Hp)].
      + left. apply best_visits_nonempty. now left.
      + left. apply best_visits_nonempty. right. eauto.
      + right. eauto. }
  intros Ha Hr Hp. apply H. right. eauto.
Qed.

Lemma dedupe_In apps a r :
  In a (_dedupe_related_files host apps) -> In r (related_files a) ->
  exists a0, In a0 apps /\ key a0 = key a /\ In r (related_files a0).
Proof.
  unfold _dedupe_related_files.
  destruct (build_best_by_path host apps) as [|e best]; [eauto|].
  intros Ha Hr. apply in_map_iff in Ha. destruct Ha as (a0 & <- & Ha0).
  rewrite related_set_related in Hr. apply collect_In in Hr.
  exists a0. tauto.
Qed.

Lemma dedupe_keys apps : app_keys (_dedupe_related_files host apps) = app_keys apps.
Proof.
  unfold _dedupe_related_files.
  destruct (build_best_by_path host apps); [reflexivity | apply app_keys_refile].
Qed.

(** After the de-duplication a normalized path has one owner. *)
Lemma dedupe_disjoint apps :
  (forall a r, In a apps -> In r (related_files a) -> path r <> "") ->
  disjoint_apps scan_norm (_dedupe_related_files host apps).
Proof.
  intros Hpath a b ra rb Ha Hb Hk Hra Hrb E.
  unfold _dedupe_related_files in *.
  destruct (build_best_by_path host apps) as [|e best] eqn:Eb.
  - apply (build_best_nonempty Ha Hra (Hpath _ _ Ha Hra)). exact Eb.
  - apply in_map_iff in Ha. destruct Ha as (a0 & <- & _).
    apply in_map_iff in Hb. destruct Hb as (b0 & <- & _).
    rewrite related_set_related in Hra, Hrb. rewrite !key_set_related in Hk.
    apply collect_In in Hra. destruct Hra as (_ & Hoa & _).
    apply collect_In in Hrb. destruct Hrb as (_ & Hob & _).
    unfold dedupe_ok in Hoa, Hob. unfold scan_norm in E. rewrite E in Hoa.
    apply andb_true_iff in Hoa. destruct Hoa as [_ Hoa].
    apply andb_true_iff in Hob. destruct Hob as [_ Hob].
    destruct (PyDict.get (e :: best) (_normalize_path host (path rb)))
      as [[s0 o]|]; [|discriminate].
    apply String.eqb_eq in Hoa. apply String.eqb_eq in Hob. congruence.
Qed.

End DedupeFacts.

Section OwnershipFacts.

Variable os_norm : string -> string.

Local Abbreviation nf := (norm_of os_norm).

Lemma manual_keeps_disjoint m apps :
  NoDup (app_keys apps) ->
  disjoint_apps nf apps ->
  disjoint_apps nf (_apply_manual_related os_norm m apps).
Proof.
  intros Hnd Hdis.
  destruct (apply_manual_cases os_norm m Hnd) as [[-> _]|[_ ->]]; [assumption|].
  set (mbp := build_manual_by_path os_norm m (app_keys apps)).
  assert (Hs : mbp_sound os_norm (app_keys apps) mbp) by apply build_manual_sound.
  intros a' b' ra rb Ha Hb Hk Hra Hrb E.
  apply in_map_iff in Ha. destruct Ha as (a & <- & Ha).
  apply in_map_iff in Hb. destruct Hb as (b & <- & Hb).
  rewrite !key_set_related in Hk. rewrite related_set_related in Hra, Hrb.
  unfold manual_files in Hra, Hrb.
  apply manual_steps_In in Hra. apply manual_steps_In in Hrb.
  pose proof (proj1 Hs) as Hwf.
  destruct Hra as [Hra|(n & kd & p & Hin & -> & _)];
    destruct Hrb as [Hrb|(n' & kd' & p' & Hin' & -> & _)].
  - apply collect_In in Hra. apply collect_In in Hrb.
    apply (Hdis a b ra rb); tauto.
  - apply collect_In in Hra. destruct Hra as (_ & Hok & _).
    rewrite (manual_entry_norm Hs Hin') in E.
    assert (Hg : PyDict.get mbp (nf ra) = Some (key b, kd', p'))
      by (rewrite E; now apply In_get).
    destruct (manual_ok_owner Hok Hg) as [Hkb _]. congruence.
  - apply collect_In in Hrb. destruct Hrb as (_ & Hok & _).
    rewrite (manual_entry_norm Hs Hin) in E.
    assert (Hg : PyDict.get mbp (nf rb) = Some (key a, kd, p))
      by (rewrite <- E; now apply In_get).
    destruct (manual_ok_owner Hok Hg) as [Hka _]. congruence.
  - rewrite (manual_entry_norm Hs Hin), (manual_entry_norm Hs Hin') in E.
    subst n'.
    pose proof (In_get Hwf Hin) as G1. pose proof (In_get Hwf Hin') as G2.
    congruence.
Qed.

Lemma reassign_keeps_disjoint ov apps :
  NoDup (app_keys apps) -> PyDict.wf ov ->
  disjoint_apps nf apps ->
  disjoint_apps nf (_apply_related_overrides os_norm ov apps).
Proof.
  intros Hnd Hwf Hdis.
  destruct (apply_overrides_cases os_norm ov Hnd) as [[-> _]|(_ & _ & ->)];
    [assumption|].
  intros a' b' ra rb Ha Hb Hk Hra Hrb E.
  apply in_map_iff in Ha. destruct Ha as (a & <- & Ha).
  apply in_map_iff in Hb. destruct Hb as (b & <- & Hb).
  rewrite !key_set_related in Hk. rewrite related_set_related in Hra, Hrb.
  rewrite reassign_files_collect in Hra, Hrb.
  apply attaches_In in Hra. apply attaches_In in Hrb. simpl in Hra, Hrb.
  destruct Hra as [Hra|(n & Hin & _ & Hg)];
    destruct Hrb as [Hrb|(n' & Hin' & _ & Hg')].
  - apply collect_In in Hra. apply collect_In in Hrb.
    apply (Hdis a b ra rb); tauto.
  - apply collect_In in Hra. destruct Hra as (_ & Hok & _).
    apply path_lookup_sound in Hg'. destruct Hg' as (Hn' & _ & _).
    assert (G : PyDict.get ov (nf ra) = Some (key b))
      by (rewrite E, Hn'; now apply In_get).
    destruct (reassign_ok_target Hok G) as [H|H];
      [now apply (@key_nonempty b) | congruence].
  - apply collect_In in Hrb. destruct Hrb as (_ & Hok & _).
    apply path_lookup_sound in Hg. destruct Hg as (Hn & _ & _).
    assert (G : PyDict.get ov (nf rb) = Some (key a))
      by (rewrite <- E, Hn; now apply In_get).
    destruct (reassign_ok_target Hok G) as [H|H];
      [now apply (@key_nonempty a) | congruence].
  - apply path_lookup_sound in Hg. destruct Hg as (Hn & _ & _).
    apply path_lookup_sound in Hg'. destruct Hg' as (Hn' & _ & _).
    assert (n = n') by congruence. subst n'.
    pose proof (In_get Hwf Hin) as G1. pose proof (In_get Hwf Hin') as G2.
    congruence.
Qed.

Lemma suppress_keeps_disjoint records apps :
  disjoint_apps nf apps -> disjoint_apps nf (suppress os_norm records apps).
Proof.
  intros Hdis a b ra rb Ha Hb Hk Hra Hrb.
  destruct (suppress_In Ha Hra) as (a0 & Ha0 & Ka & Hra0).
  destruct (suppress_In Hb Hrb) as (b0 & Hb0 & Kb & Hrb0).
  apply (Hdis a0 b0); congruence.
Qed.

(** The manual owner of a path holds it after the manual layer. *)
Lemma manual_owner_holds m apps n k kd p :
  NoDup (app_keys apps) ->
  PyDict.get (build_manual_by_path os_norm m (app_keys apps)) n = Some (k, kd, p) ->
  exists a, In a (_apply_manual_related os_norm m apps) /\ key a = k /\
            manual_settled os_norm
              (build_manual_by_path os_norm m (app_keys apps)) a.
Proof.
  intros Hnd Hg.
  set (mbp := build_manual_by_path os_norm m (app_keys apps)) in *.
  assert (Hs : mbp_sound os_norm (app_keys apps) mbp) by apply build_manual_sound.
  pose proof (get_In Hg) as Hin.
  destruct (proj2 Hs _ _ _ _ Hin) as (_ & _ & Hk).
  unfold app_keys in Hk. apply in_map_iff in Hk. destruct Hk as (a & Ka & Ha).
  destruct (apply_manual_cases os_norm m Hnd) as [[_ Htriv]|[_ E]].
  - exfalso. fold mbp in Htriv. destruct Htriv as [->|[->|H]].
    + discriminate.
    + contradiction.
    + rewrite H in Hg. discriminate.
  - fold mbp in E. rewrite E.
    exists (set_related a (manual_files os_norm mbp a)). split; [|split].
    + apply in_map_iff. eauto.
    + now rewrite key_set_related.
    + eapply manual_files_settled; eauto.
Qed.

(** It still holds it after the reassignment layer, unless a reassignment
    sends the path elsewhere. *)
Lemma reassign_keeps_owner mbp ov apps a n kd p :
  NoDup (app_keys apps) ->
  PyDict.wf mbp ->
  In a apps -> manual_settled os_norm mbp a ->
  In (n, (key a, kd, p)) mbp ->
  (forall t, PyDict.get ov n = Some t -> t = "" \/ t = key a) ->
  exists a' r, In a' (_apply_related_overrides os_norm ov apps) /\
               key a' = key a /\ In r (related_files a') /\
               nf r = n /\ source r = "manual".
Proof.
  intros Hnd Hwf Ha (Hok & _ & Hcov) Hin Hnot.
  destruct (Hcov n kd p Hin) as (r0 & Hr0 & Hn0).
  assert (Hman : forall r, In r (related_files a) -> nf r = n -> source r = "manual").
  { intros r Hr Hn.
    assert (G : PyDict.get mbp (nf r) = Some (key a, kd, p))
      by (rewrite Hn; now apply In_get).
    now destruct (manual_ok_owner (Hok r Hr) G). }
  destruct (apply_overrides_cases os_norm ov Hnd) as [[E _]|(_ & _ & E)]; rewrite E.
  - exists a, r0. repeat split; auto.
  - assert (Hro : reassign_ok os_norm ov (key a) r0 = true).
    { unfold reassign_ok, redirected.
      pose proof (manual_ok_nonempty (Hok r0 Hr0)) as Hne.
      apply nonempty_true in Hne. rewrite Hne. simpl. rewrite Hn0.
      destruct (PyDict.get ov n) as [t|] eqn:Hg; [|reflexivity].
      destruct (Hnot t eq_refl) as [->| ->]; simpl;
        [reflexivity | now rewrite String.eqb_refl, andb_false_r]. }
    destruct (@collect_covers (reassign_ok os_norm ov (key a)) nf [] _ r0 Hr0 Hro)
      as (r' & Hr' & En); [intros []|].
    exists (set_related a (reassign_files os_norm ov (app_keys apps)
                             (build_path_lookup os_norm apps) (key a)
                             (related_files a))), r'.
    split; [apply in_map_iff; eauto|]. split; [reflexivity|].
    rewrite related_set_related, reassign_files_collect.
    split; [now apply attaches_prefix|].
    split; [congruence|].
    apply collect_In in Hr'. apply Hman; [tauto | congruence].
Qed.

End OwnershipFacts.

(** * The claims of the specification *)

(** ** Examples used below

    Paths are written in normalized form (absolute, lower case), on which
    [os.path.normcase (os.path.abspath p)] is the identity. *)

Module Examples.

Definition plain_norm (p : string) : string := p.

Definition app_a : AppEntry := mkApp "Alpha" "1.0" "" "" [].
Definition app_b : AppEntry := mkApp "Beta" "1.0" "" "" [].
Definition app_c : AppEntry := mkApp "Gamma" "1.0" "" "" [].

Definition found (p : string) : RelatedFile :=
  mkRelated p "file" "config_file" "Medium" "" 85.

Definition note : string := "c:\manual\note.txt".
Definition conf : string := "c:\data\tool.ini".

(** [note] is a manual entry of Alpha; [note] and [conf] are reassigned to
    Beta, in that order; Gamma found [conf]. *)
Definition moved_manual : Overrides :=
  mkOverrides [(key app_a, [mkManual note "file"])] [] []
              [(note, key app_b); (conf, key app_b)].

Definition moved_manual_apps : list AppEntry :=
  [app_a; app_b; set_related app_c [found conf]].

(** Alpha found [conf], which is reassigned to Beta and ignored for Beta. *)
Definition reassigned_then_ignored : Overrides :=
  mkOverrides [] [(key app_b, [conf])] [] [(conf, key app_b)].

Definition reassigned_then_ignored_apps : list AppEntry :=
  [set_related app_a [found conf]; app_b].

(** [note] is a manual entry of Alpha and stays there; [conf], found by
    Gamma, is reassigned to Beta. *)
Definition kept_manual : Overrides :=
  mkOverrides [(key app_a, [mkManual note "file"])] [(key app_c, [conf])] []
              [(conf, key app_b)].

(** A host on which the paths below are already normalized. *)
Definition plain_host : Host :=
  mkHost plain_norm plain_norm (fun _ => false) (fun _ => false)
         (fun p => p) (fun p => p) [] (fun _ => []) (fun _ => None) (fun _ => 0%Z).

(** Alpha and Beta both found [conf]; [note] is a manual entry of Alpha. *)
Definition contested : list AppEntry :=
  [set_related app_a [found conf]; set_related app_b [found conf; found note]].

Definition manual_note : Overrides :=
  mkOverrides [(key app_a, [mkManual note "file"])] [] [] [].

(** A manual record kept for an application that is not listed. *)
Definition orphan_manual : PyDict.dict (list ManualItem) :=
  [(key app_c, [mkManual conf "file"])].

End Examples.

(** ** C5: the order of the layers *)

(** The order in the words of the specification: manual additions,
    ignore lists, unassignment records, reassignments. *)
Definition rematerialize_as_specified (os_norm : string -> string)
    (o : Overrides) (all_apps : list AppEntry) : list AppEntry :=
  _apply_related_overrides os_norm (related_overrides o)
    (_apply_related_unassigned os_norm (related_unassigned o)
       (_apply_related_ignores os_norm (related_ignore o)
          (_apply_manual_related os_norm (related_manual o) all_apps))).

(** C5, as the code has it: the manual layer comes first, then the
    reassignments, then the ignore lists, then the unassignment records;
    the last two may be exchanged without changing the result. *)
Theorem rematerialize_order :
  forall (os_norm : string -> string) (o : Overrides) (apps : list AppEntry),
    rematerialize os_norm o apps =
    _apply_related_unassigned os_norm (related_unassigned o)
      (_apply_related_ignores os_norm (related_ignore o)
         (_apply_related_overrides os_norm (related_overrides o)
            (_apply_manual_related os_norm (related_manual o) apps)))
    /\
    rematerialize os_norm o apps =
    _apply_related_ignores os_norm (related_ignore o)
      (_apply_related_unassigned os_norm (related_unassigned o)
         (_apply_related_overrides os_norm (related_overrides o)
            (_apply_manual_related os_norm (related_manual o) apps))).
Proof.
  intros os_norm o apps. split; [reflexivity|].
  unfold rematerialize, _apply_related_unassigned, _apply_related_ignores.
  apply suppress_commute.
Qed.

(** C5, as stated, fails: with the reassignments last, a path reassigned to
    an application that ignores it would stay in its list; the code removes
    it. *)
Lemma rematerialize_order_counterexample :
  let o := Examples.reassigned_then_ignored in
  let apps := Examples.reassigned_then_ignored_apps in
  map related_files (rematerialize Examples.plain_norm o apps) = [[]; []] /\
  map related_files (rematerialize_as_specified Examples.plain_norm o apps) =
    [[]; [Examples.found Examples.conf]].
Proof. split; reflexivity. Qed.

(** ** C10: manual records of unknown applications *)



(** ** C2: re-running the layers *)




(** ** C1: exclusive ownership of a normalized path *)




(** ** C3: the confidence of configuration files *)

Section ScanFacts.

Variable host : Host.

(** What the code gives a file found under a directory of confidence
    [conf]. *)
Definition inherited_confidence (conf : string) : string :=
  if conf =? "High" then "High" else "Medium".

Definition file_entry (src conf fp : string) : RelatedFile :=
  mkRelated fp "file" "config_file" (inherited_confidence conf) ""
            (_score_related src (inherited_confidence conf) true).

Definition dir_entry (c : Candidate) : RelatedFile :=
  mkRelated (fst (fst c)) "dir" (snd (fst c)) (snd c) ""
            (_score_related (snd (fst c)) (snd c) false).

Lemma inherited_confidence_code conf :
  (if conf =? "High" then conf else "Medium") = inherited_confidence conf.
Proof.
  unfold inherited_confidence. destruct (conf =? "High") eqn:E; [|reflexivity].
  now apply String.eqb_eq in E.
Qed.

Lemma candidate_files_In mf src conf seen_files files r :
  In r (fst (candidate_files host mf src conf seen_files files)) ->
  exists fp, In fp files /\ r = file_entry src conf fp.
Proof.
  revert seen_files. induction files as [|fp files IH]; simpl; intros seen_files;
    [intros []|].
  destruct (mf <=? len seen_files)%Z; [intros []|].
  destruct (PyStr.mem (_normalize_path host fp) seen_files).
  - intros H. destruct (IH _ H) as (fp' & Hin & E). eauto.
  - destruct (candidate_files host mf src conf
                (_normalize_path host fp :: seen_files) files)
      as [more seen'] eqn:E.
    simpl. intros [<-|H].
    + exists fp. split; [now left|]. unfold file_entry.
      now rewrite inherited_confidence_code.
    + specialize (IH (_normalize_path host fp :: seen_files)).
      rewrite E in IH. destruct (IH H) as (fp' & Hin & E'). eauto.
Qed.

(** Each entry of the result is the entry of a candidate directory, or a
    file found under a candidate whose own entry is in the result too. *)
Lemma expand_candidates_In include_files sc seen_files candidates r :
  In r (fst (expand_candidates host include_files sc seen_files candidates)) ->
  exists c, In c candidates /\
    In (dir_entry c) (fst (expand_candidates host include_files sc seen_files
                                             candidates)) /\
    (r = dir_entry c \/
     exists sc' fp, In fp (fst (_config_files_for_root host sc' (fst (fst c)))) /\
                    r = file_entry (snd (fst c)) (snd c) fp).
Proof.
  revert sc seen_files.
  induction candidates as [|[[p src] conf] candidates IH]; simpl;
    intros sc seen_files; [intros []|].
  destruct include_files; simpl.
  - destruct (_config_files_for_root host sc p) as [files sc1] eqn:Ecf.
    destruct (candidate_files host (max_files sc) src conf seen_files files)
      as [found seen'] eqn:Efound.
    assert (Hfound : forall r, In r found ->
              exists fp, In fp (fst (_config_files_for_root host sc p)) /\
                         r = file_entry src conf fp).
    { intros r0 Hr0. rewrite Ecf. simpl.
      apply (@candidate_files_In (max_files sc) src conf seen_files files r0).
      now rewrite Efound. }
    destruct (max_files sc <=? len seen')%Z.
    + simpl. intros [<-|Hr].
      * exists (p, src, conf). split; [now left|]. split; [now left|]. now left.
      * exists (p, src, conf). split; [now left|]. split; [now left|].
        right. destruct (Hfound r Hr) as (fp & Hfp & E). eauto.
    + destruct (expand_candidates host true sc1 seen' candidates)
        as [more sc2] eqn:Emore.
      simpl. intros [<-|Hr].
      * exists (p, src, conf). split; [now left|]. split; [now left|]. now left.
      * apply in_app_or in Hr. destruct Hr as [Hr|Hr].
        -- exists (p, src, conf). split; [now left|]. split; [now left|].
           right. destruct (Hfound r Hr) as (fp & Hfp & E). eauto.
        -- specialize (IH sc1 seen'). rewrite Emore in IH. simpl in IH.
           destruct (IH Hr) as (c & Hc & Hd & Hcase).
           exists c. split; [now right|]. split; [|exact Hcase].
           right. apply in_or_app. now right.
  - destruct (expand_candidates host false sc seen_files candidates)
      as [more sc'] eqn:Emore.
    simpl. intros [<-|Hr].
    + exists (p, src, conf). split; [now left|]. split; [now left|]. now left.
    + specialize (IH sc seen_files). rewrite Emore in IH. simpl in IH.
      destruct (IH Hr) as (c & Hc & Hd & Hcase).
      exists c. split; [now right|]. split; [now right | exact Hcase].
Qed.

Lemma scan_for_app_expands sc app deep_scan include_files root_index extra_roots :
  fst (scan_for_app host sc app deep_scan include_files root_index extra_roots) = [] \/
  exists sc1 candidates,
    fst (scan_for_app host sc app deep_scan include_files root_index extra_roots) =
    fst (expand_candidates host include_files sc1 [] candidates).
Proof.
  unfold scan_for_app.
  destruct (_tokens (name app)) eqn:Et1, (_tokens (publisher app)) eqn:Et2;
    [now left| | |];
    right;
    match goal with
    | |- context [let '(c, s) := ?X in _] => destruct X as [cands sc1] eqn:E
    end; eauto.
Qed.

End ScanFacts.


Module ScanExamples.

Definition foo_dir : string := "C:\Apps\Foo".

(** A host where [foo_dir] is a directory holding [settings.ini] and
    [readme.txt]; normalization folds the case. *)
Definition foo_host : Host :=
  mkHost PyStr.lower (fun p => p) (fun p => p =? foo_dir) (fun _ => false)
         (fun p => p) (fun p => p) [] (fun _ => [])
         (fun root =>
            if root =? foo_dir
            then Some (DirNode foo_dir ["settings.ini"; "readme.txt"] [])
            else None)
         (fun _ => 0%Z).

Definition foo_app : AppEntry := mkApp "Foo" "1.0" "" foo_dir [].

Definition foo_found : list RelatedFile :=
  fst (scan_for_app foo_host (new_scanner 25 200 3) foo_app false true None []).

Definition foo_settings : RelatedFile :=
  mkRelated "C:\Apps\Foo\settings.ini" "file" "config_file" "High" "" 125.

End ScanExamples.



(** ** C6: the cache of the root index *)

Section RootIndexFacts.

Variable host : Host.

Lemma index_key_eqb_eq k1 k2 : index_key_eqb k1 k2 = true <-> k1 = k2.
Proof.
  destruct k1 as [b1 l1], k2 as [b2 l2]. unfold index_key_eqb. simpl.
  destruct (list_eq_dec string_dec l1 l2) as [->|Hne].
  - rewrite andb_true_r. rewrite Bool.eqb_true_iff.
    split; [now intros -> | now intros [= ->]].
  - rewrite andb_false_r. split; [discriminate | intros [= _ H]; contradiction].
Qed.

(** After a call the scanner holds the index returned, under the key of
    the call. *)
Lemma build_root_index_state sc deep_scan extra_roots :
  let out := build_root_index host sc deep_scan extra_roots in
  _root_index (snd out) = fst out /\
  _root_index_key (snd out) = Some (deep_scan, existing_roots host extra_roots).
Proof.
  unfold build_root_index.
  destruct (_root_index sc) as [|e idx] eqn:Ei; simpl; [split; auto|].
  destruct (_root_index_key sc) as [k0|] eqn:Ek; simpl; [|split; auto].
  destruct (index_key_eqb k0 (deep_scan, existing_roots host extra_roots)) eqn:E;
    simpl; [|split; auto].
  apply index_key_eqb_eq in E. subst k0. rewrite Ei. split; [reflexivity|auto].
Qed.

Lemma build_root_index_hit sc deep_scan extra_roots :
  _root_index sc <> [] ->
  _root_index_key sc = Some (deep_scan, existing_roots host extra_roots) ->
  build_root_index host sc deep_scan extra_roots = (_root_index sc, sc).
Proof.
  intros Hne Hk. unfold build_root_index. rewrite Hk.
  destruct (_root_index sc); [contradiction|].
  assert (E : index_key_eqb (deep_scan, existing_roots host extra_roots)
                            (deep_scan, existing_roots host extra_roots) = true)
    by now apply index_key_eqb_eq.
  now rewrite E.
Qed.

Lemma build_root_index_miss sc deep_scan extra_roots :
  _root_index_key sc <> Some (deep_scan, existing_roots host extra_roots) ->
  let out := build_root_index host sc deep_scan extra_roots in
  fst out = enumerate_roots host deep_scan (existing_roots host extra_roots) /\
  _root_index (snd out) = fst out /\
  _root_index_key (snd out) = Some (deep_scan, existing_roots host extra_roots) /\
  enumerated (snd out) =
    rev (scanned_roots host deep_scan (existing_roots host extra_roots))
    ++ enumerated sc.
Proof.
  intros Hk. unfold build_root_index.
  assert (Hmiss :
    match _root_index sc, _root_index_key sc with
    | _ :: _, Some k0 =>
        index_key_eqb k0 (deep_scan, existing_roots host extra_roots)
    | _, _ => false
    end = false).
  { destruct (_root_index sc); [reflexivity|].
    destruct (_root_index_key sc) as [k0|]; [|reflexivity].
    destruct (index_key_eqb k0 _) eqn:E; [|reflexivity].
    apply index_key_eqb_eq in E. subst k0. now contradiction Hk. }
  rewrite Hmiss. simpl. auto.
Qed.

End RootIndexFacts.

(** C6, as the code has it. The cache key is the flag with the sequence of
    the existing extra roots, in the order given. After a call that
    returned a non-empty index, a call with the same flag and the same
    sequence of existing roots returns that index and leaves the scanner,
    and so the record of enumerated directories, unchanged. A call whose
    flag or sequence differs enumerates the roots again and replaces the
    index and its key. *)
Theorem root_index_cache :
  forall (host : Host) (sc : Scanner) (deep_scan : bool)
         (extra_roots : list string),
    let first := build_root_index host sc deep_scan extra_roots in
    (forall again : list string,
        fst first <> [] ->
        existing_roots host again = existing_roots host extra_roots ->
        build_root_index host (snd first) deep_scan again = first) /\
    (forall (deep_scan' : bool) (other : list string),
        (deep_scan', existing_roots host other) <>
          (deep_scan, existing_roots host extra_roots) ->
        let second := build_root_index host (snd first) deep_scan' other in
        fst second = enumerate_roots host deep_scan' (existing_roots host other) /\
        _root_index (snd second) = fst second /\
        _root_index_key (snd second) = Some (deep_scan', existing_roots host other) /\
        enumerated (snd second) =
          rev (scanned_roots host deep_scan' (existing_roots host other))
          ++ enumerated (snd first)).
Proof.
  intros host sc deep_scan extra_roots first.
  destruct (build_root_index_state host sc deep_scan extra_roots) as [Hidx Hkey].
  fold first in Hidx, Hkey. split.
  - intros again Hne Hsame.
    rewrite build_root_index_hit.
    + rewrite Hidx. now destruct first.
    + now rewrite Hidx.
    + now rewrite Hsame.
  - intros deep_scan' other Hdiff.
    apply build_root_index_miss. rewrite Hkey. congruence.
Qed.

Module IndexExamples.

Definition drive_c : string := "c:\".
Definition drive_d : string := "d:\".

(** Two drives with one directory each. *)
Definition two_drives : Host :=
  mkHost (fun p => p) (fun p => p)
         (fun p => (p =? drive_c) || (p =? drive_d)) (fun _ => false)
         (fun p => p) (fun p => p) []
         (fun root =>
            if root =? drive_c then [("c:\apps", "Apps")]
            else if root =? drive_d then [("d:\games", "Games")]
            else [])
         (fun _ => None) (fun _ => 0%Z).

Definition first_call :=
  build_root_index two_drives (new_scanner 25 200 3) false [drive_c; drive_d].

Definition same_order :=
  build_root_index two_drives (snd first_call) false [drive_c; drive_d].

Definition other_order :=
  build_root_index two_drives (snd first_call) false [drive_d; drive_c].

End IndexExamples.

Lemma root_index_cache_witness :
  fst IndexExamples.first_call <> [] /\
  IndexExamples.same_order = IndexExamples.first_call /\
  enumerated (snd IndexExamples.same_order) =
    [IndexExamples.drive_d; IndexExamples.drive_c].
Proof.
  assert (Hne : fst IndexExamples.first_call <> []) by (vm_compute; discriminate).
  split; [exact Hne|].
  assert (E : IndexExamples.same_order = IndexExamples.first_call).
  { exact (proj1 (@root_index_cache IndexExamples.two_drives (new_scanner 25 200 3)
                    false [IndexExamples.drive_c; IndexExamples.drive_d])
                 [IndexExamples.drive_c; IndexExamples.drive_d] Hne eq_refl). }
  split; [exact E|]. rewrite E. reflexivity.
Defined.

(** C6, as stated, fails: the same two roots given in the other order miss
    the cache; both roots are enumerated again and the index comes back in
    another order. *)
Lemma root_index_cache_counterexample :
  fst IndexExamples.first_call =
    [("c:\apps", "drive", "apps"); ("d:\games", "drive", "games")] /\
  fst IndexExamples.other_order =
    [("d:\games", "drive", "games"); ("c:\apps", "drive", "apps")] /\
  enumerated (snd IndexExamples.first_call) =
    [IndexExamples.drive_d; IndexExamples.drive_c] /\
  enumerated (snd IndexExamples.other_order) =
    [IndexExamples.drive_c; IndexExamples.drive_d;
     IndexExamples.drive_d; IndexExamples.drive_c].
Proof. repeat split; reflexivity. Qed.


(** ** C7 and C8: the install size *)

Module SizeFacts.

Import SizeScan.

Section Reference.

Variable limits : option SizeScanLimits.

(** Whether a sub-directory at depth [child_depth] is entered. *)
Definition entered (child_depth : Z) : bool :=
  match cap_depth limits with
  | Some md => negb (md <? child_depth)%Z
  | None => true
  end.

(** The files that the traversal counts below an entry of a directory at
    depth [depth], and the sum of their sizes. *)
Fixpoint entry_count (depth : Z) (e : DirEntry) : nat :=
  match e with
  | File _ => 1
  | SubDir (Some l) =>
      if entered (depth + 1)
      then list_sum (map (entry_count (depth + 1)) l) else 0
  | _ => 0
  end.

Fixpoint entry_sum (depth : Z) (e : DirEntry) : Z :=
  match e with
  | File (Some n) => n
  | SubDir (Some l) =>
      if entered (depth + 1)
      then fold_right Z.add 0%Z (map (entry_sum (depth + 1)) l) else 0%Z
  | _ => 0%Z
  end.

Definition listing_count (depth : Z) (l : option (list DirEntry)) : nat :=
  match l with
  | Some es => list_sum (map (entry_count depth) es)
  | None => 0
  end.

Definition listing_sum (depth : Z) (l : option (list DirEntry)) : Z :=
  match l with
  | Some es => fold_right Z.add 0%Z (map (entry_sum depth) es)
  | None => 0%Z
  end.

Definition stack_count (stk : list Frame) : nat :=
  list_sum (map (fun f => listing_count (snd f) (fst f)) stk).

Definition stack_sum (stk : list Frame) : Z :=
  fold_right Z.add 0%Z (map (fun f => listing_sum (snd f) (fst f)) stk).

(** The file ceiling is passed when a file is met with the counter at the
    ceiling: with [files] files to come after [count]. *)
Definition over_cap (count : Z) (files : nat) : bool :=
  match cap_files limits with
  | Some mf => (0 <? files)%nat && (mf <? count + Z.of_nat files)%Z
  | None => false
  end.

Lemma over_cap_split count direct rest :
  over_cap count direct = false ->
  over_cap (count + Z.of_nat direct) rest = over_cap count (direct + rest).
Proof.
  unfold over_cap. destruct (cap_files limits) as [mf|]; [|reflexivity].
  intros H. apply andb_false_iff in H.
  destruct rest as [|rest].
  - rewrite Nat.add_0_r. simpl. symmetry. apply andb_false_iff. exact H.
  - replace (0 <? S rest)%nat with true by reflexivity.
    replace (0 <? direct + S rest)%nat with true
      by (symmetry; apply Nat.ltb_lt; lia).
    simpl. f_equal. lia.
Qed.

Lemma over_cap_more count direct rest :
  over_cap count direct = true -> over_cap count (direct + rest) = true.
Proof.
  unfold over_cap. destruct (cap_files limits) as [mf|]; [|discriminate].
  intros H. apply andb_true_iff in H. destruct H as [H1 H2].
  apply Nat.ltb_lt in H1. apply Z.ltb_lt in H2.
  apply andb_true_iff. split; [apply Nat.ltb_lt | apply Z.ltb_lt]; lia.
Qed.

(** The files and sub-directories listed directly in a directory. *)
Definition direct_files (es : list DirEntry) : nat :=
  list_sum (map (fun e => match e with File _ => 1 | _ => 0 end) es).

Definition direct_sum (es : list DirEntry) : Z :=
  fold_right Z.add 0%Z
    (map (fun e => match e with File (Some n) => n | _ => 0%Z end) es).

Fixpoint pushed (depth : Z) (es : list DirEntry) : list Frame :=
  match es with
  | [] => []
  | SubDir l :: es' =>
      if entered (depth + 1) then pushed depth es' ++ [(l, (depth + 1)%Z)]
      else pushed depth es'
  | _ :: es' => pushed depth es'
  end.

Ltac size_tuple :=
  match goal with
  | |- (?s, ?c1, ?t1) = (?s, ?c2, ?t2) =>
      replace c1 with c2 by lia; replace t1 with t2 by lia; reflexivity
  end.

Lemma visit_entries_spec depth es stk count tot :
  visit_entries limits depth es stk count tot =
  if over_cap count (direct_files es) then None
  else Some (pushed depth es ++ stk,
             (count + Z.of_nat (direct_files es))%Z,
             (tot + direct_sum es)%Z).
Proof.
  revert stk count tot. induction es as [|e es IH]; intros stk count tot.
  - unfold over_cap, direct_files, direct_sum. simpl.
    destruct (cap_files limits); simpl; now rewrite !Z.add_0_r.
  - destruct e as [| |l|sz]; cbn [visit_entries pushed].
    + rewrite IH. reflexivity.
    + rewrite IH. reflexivity.
    + unfold entered. destruct (cap_depth limits) as [md|].
      * destruct (md <? depth + 1)%Z; cbn [negb]; rewrite IH;
          [reflexivity|]. now rewrite <- app_assoc.
      * rewrite IH. now rewrite <- app_assoc.
    + assert (Hd : direct_files (File sz :: es) = S (direct_files es)) by reflexivity.
      assert (Hs : direct_sum (File sz :: es) =
                   (match sz with Some n => n | None => 0 end + direct_sum es)%Z)
        by reflexivity.
      rewrite Hd, Hs. unfold over_cap at 1.
      destruct (cap_files limits) as [mf|] eqn:Ecap.
      * cbn [Nat.ltb Nat.leb andb].
        destruct (mf <=? count)%Z eqn:Efull.
        -- apply Z.leb_le in Efull.
           replace (mf <? count + Z.of_nat (S (direct_files es)))%Z with true
             by (symmetry; apply Z.ltb_lt; lia).
           reflexivity.
        -- apply Z.leb_gt in Efull.
           assert (Hover : over_cap (count + 1) (direct_files es) =
                           (mf <? count + Z.of_nat (S (direct_files es)))%Z).
           { unfold over_cap. rewrite Ecap.
             destruct (direct_files es) as [|k].
             - simpl. symmetry. apply Z.ltb_ge. lia.
             - replace (0 <? S k)%nat with true by reflexivity. simpl.
               f_equal. lia. }
           destruct sz as [n|]; rewrite IH, Hover;
             destruct (mf <? count + Z.of_nat (S (direct_files es)))%Z;
             try reflexivity; apply f_equal; size_tuple.
      * assert (Hover : forall c k, over_cap c k = false)
          by (intros; unfold over_cap; now rewrite Ecap).
        destruct sz as [n|]; rewrite IH, Hover; apply f_equal; size_tuple.
Qed.

Lemma stack_count_app a b : stack_count (a ++ b) = stack_count a + stack_count b.
Proof. unfold stack_count. now rewrite map_app, list_sum_app. Qed.

Lemma fold_add_app (a b : list Z) :
  fold_right Z.add 0%Z (a ++ b) =
  (fold_right Z.add 0 a + fold_right Z.add 0 b)%Z.
Proof. induction a as [|x a IH]; simpl; [reflexivity | lia]. Qed.

Lemma stack_sum_app a b : stack_sum (a ++ b) = (stack_sum a + stack_sum b)%Z.
Proof. unfold stack_sum. now rewrite map_app, fold_add_app. Qed.

Lemma list_sum_cons (n : nat) l : list_sum (n :: l) = n + list_sum l.
Proof. reflexivity. Qed.

Lemma listing_count_cons depth e es :
  listing_count depth (Some (e :: es)) =
  entry_count depth e + listing_count depth (Some es).
Proof. reflexivity. Qed.

Lemma listing_sum_cons depth e es :
  listing_sum depth (Some (e :: es)) =
  (entry_sum depth e + listing_sum depth (Some es))%Z.
Proof. reflexivity. Qed.

Lemma stack_count_one l d : stack_count [(l, d)] = listing_count d l.
Proof. unfold stack_count. simpl. lia. Qed.

Lemma stack_sum_one l d : stack_sum [(l, d)] = listing_sum d l.
Proof. unfold stack_sum. simpl. lia. Qed.

Lemma entry_count_subdir depth l :
  entry_count depth (SubDir l) =
  if entered (depth + 1) then listing_count (depth + 1) l else 0.
Proof. destruct l; simpl; [reflexivity | now destruct (entered (depth + 1))]. Qed.

Lemma entry_sum_subdir depth l :
  entry_sum depth (SubDir l) =
  if entered (depth + 1) then listing_sum (depth + 1) l else 0%Z.
Proof. destruct l; simpl; [reflexivity | now destruct (entered (depth + 1))]. Qed.

Lemma direct_files_cons e es :
  direct_files (e :: es) =
  (match e with File _ => 1 | _ => 0 end) + direct_files es.
Proof. reflexivity. Qed.

Lemma direct_sum_cons e es :
  direct_sum (e :: es) =
  ((match e with File (Some n) => n | _ => 0 end) + direct_sum es)%Z.
Proof. reflexivity. Qed.

Lemma listing_count_split depth es :
  listing_count depth (Some es) = direct_files es + stack_count (pushed depth es).
Proof.
  induction es as [|e es IH]; [reflexivity|].
  rewrite listing_count_cons, direct_files_cons, IH.
  destruct e as [| |l|sz]; cbn [pushed]; try (simpl; lia).
  rewrite entry_count_subdir. destruct (entered (depth + 1)); [|lia].
  rewrite stack_count_app, stack_count_one. lia.
Qed.

Lemma listing_sum_split depth es :
  listing_sum depth (Some es) = (direct_sum es + stack_sum (pushed depth es))%Z.
Proof.
  induction es as [|e es IH]; [reflexivity|].
  rewrite listing_sum_cons, direct_sum_cons, IH.
  destruct e as [| |l|sz]; cbn [pushed]; try (simpl; lia).
  rewrite entry_sum_subdir. destruct (entered (depth + 1)); [|lia].
  rewrite stack_sum_app, stack_sum_one. lia.
Qed.

Lemma stack_weight_app a b :
  stack_weight (a ++ b) = stack_weight a + stack_weight b.
Proof.
  unfold stack_weight. induction a as [|f a IH]; simpl; [reflexivity | lia].
Qed.

Lemma pushed_weight depth es :
  stack_weight (pushed depth es) <= list_sum (map entry_weight es).
Proof.
  induction es as [|e es IH]; [apply Nat.le_refl|].
  change (list_sum (map entry_weight (e :: es)))
    with (entry_weight e + list_sum (map entry_weight es)).
  assert (1 <= entry_weight e) by (destruct e as [| |[l|]|]; simpl; lia).
  destruct e as [| |l|sz]; cbn [pushed]; try lia.
  destruct (entered (depth + 1)); [|lia].
  rewrite stack_weight_app.
  change (stack_weight [(l, (depth + 1)%Z)]) with (listing_weight l + 0).
  unfold listing_weight. lia.
Qed.

Lemma stack_weight_cons l d stk :
  stack_weight ((l, d) :: stk) = listing_weight l + stack_weight stk.
Proof. reflexivity. Qed.

Lemma stack_count_cons l d stk :
  stack_count ((l, d) :: stk) = listing_count d l + stack_count stk.
Proof. reflexivity. Qed.

Lemma stack_sum_cons l d stk :
  stack_sum ((l, d) :: stk) = (listing_sum d l + stack_sum stk)%Z.
Proof. reflexivity. Qed.

Variable fs : FsView.

Definition is_late (deadline : option Z) (t : nat) : bool :=
  fst (late fs deadline t).

Lemma late_ticks deadline t :
  snd (late fs deadline t) = S t \/
  (snd (late fs deadline t) = t /\ forall t', is_late deadline t' = false).
Proof.
  unfold is_late, late. destruct deadline as [d|]; [|right; auto].
  destruct (d =? 0)%Z; [right; auto | left; reflexivity].
Qed.

(** The loop, from any state whose stack fits in the fuel. *)
Lemma size_loop_spec fuel deadline st :
  stack_weight (stack st) <= fuel ->
  exists r,
    size_loop fs limits fuel deadline st = Some r /\
    (over_cap (file_count st) (stack_count (stack st)) = true ->
     measured r = None) /\
    (forall n, measured r = Some n ->
               n = (total st + stack_sum (stack st))%Z /\
               scans st <= opened r /\
               forall i, i < opened r - scans st ->
                         is_late deadline (ticks st + i) = false) /\
    ((forall t, is_late deadline t = false) ->
     over_cap (file_count st) (stack_count (stack st)) = false ->
     measured r = Some (total st + stack_sum (stack st))%Z).
Proof.
  revert st. induction fuel as [|fuel IH]; intros [stk count tot t sc] Hfuel;
    cbn [stack file_count total ticks scans] in *.
  - destruct stk as [|[l d] stk].
    + exists (mkSized (Some tot) sc). cbn. split; [reflexivity|].
      unfold over_cap. split; [destruct (cap_files limits); discriminate|].
      split; [|intros; f_equal; lia].
      intros n [= <-]. split; [lia|]. split; [lia|]. intros i Hi. lia.
    + rewrite stack_weight_cons in Hfuel. unfold listing_weight in Hfuel.
      destruct l; simpl in Hfuel; lia.
  - destruct stk as [|[l d] stk].
    + exists (mkSized (Some tot) sc). cbn. split; [reflexivity|].
      unfold over_cap. split; [destruct (cap_files limits); discriminate|].
      split; [|intros; f_equal; lia].
      intros n [= <-]. split; [lia|]. split; [lia|]. intros i Hi. lia.
    + cbn [size_loop stack file_count total ticks scans].
      pose proof (late_ticks deadline t) as Hticks.
      destruct (late fs deadline t) as [is_l t'] eqn:Elate. cbn [snd] in Hticks.
      assert (Hnow : is_late deadline t = is_l)
        by (unfold is_late; now rewrite Elate).
      destruct is_l.
      * exists (mkSized None sc). cbn. split; [reflexivity|].
        split; [reflexivity|]. split; [discriminate|].
        intros Hnever. rewrite Hnever in Hnow. discriminate.
      * rewrite stack_weight_cons in Hfuel.
        rewrite stack_count_cons, stack_sum_cons.
        destruct l as [es|].
        -- rewrite visit_entries_spec.
           rewrite listing_count_split, listing_sum_split.
           destruct (over_cap count (direct_files es)) eqn:Eover.
           ++ exists (mkSized None (S sc)). cbn. split; [reflexivity|].
              split; [reflexivity|]. split; [discriminate|].
              intros _ H. rewrite <- !Nat.add_assoc in H.
              rewrite (over_cap_more _ Eover) in H. discriminate.
           ++ destruct (IH (mkLoop (pushed d es ++ stk)
                              (count + Z.of_nat (direct_files es))
                              (tot + direct_sum es) t' (S sc)))
                as (r & Hr & Hcap & Hsome & Hfull).
              { cbn [stack]. rewrite stack_weight_app.
                pose proof (pushed_weight d es).
                unfold listing_weight in Hfuel. cbn [entry_weight] in Hfuel. lia. }
              cbn [stack file_count total ticks scans] in *.
              rewrite stack_count_app, stack_sum_app in *.
              rewrite (over_cap_split _ Eover) in Hcap, Hfull.
              rewrite <- !Nat.add_assoc.
              exists r. split; [exact Hr|]. split; [exact Hcap|].
              split; [|intros Hn Ho; rewrite (Hfull Hn Ho); f_equal; lia].
              intros n Hn. destruct (Hsome n Hn) as (-> & Hle & Hearly).
              split; [lia|]. split; [lia|].
              intros i Hi. destruct i as [|i]; [now rewrite Nat.add_0_r|].
              destruct Hticks as [->|[_ Hnever]]; [|apply Hnever].
              replace (t + S i) with (S t + i) by lia. apply Hearly. lia.
        -- destruct (IH (mkLoop stk count tot t' (S sc)))
             as (r & Hr & Hcap & Hsome & Hfull).
           { cbn [stack]. unfold listing_weight in Hfuel.
             cbn [entry_weight] in Hfuel. lia. }
           cbn [stack file_count total ticks scans listing_count listing_sum] in *.
           exists r. split; [exact Hr|]. split; [exact Hcap|].
           split; [|intros Hn Ho; rewrite (Hfull Hn Ho); f_equal; lia].
           intros n Hn. destruct (Hsome n Hn) as (-> & Hle & Hearly).
           split; [lia|]. split; [lia|].
           intros i Hi. destruct i as [|i]; [now rewrite Nat.add_0_r|].
           destruct Hticks as [->|[_ Hnever]]; [|apply Hnever].
           replace (t + S i) with (S t + i) by lia. apply Hearly. lia.
Qed.

End Reference.

End SizeFacts.

Module SizeExamples.

Import SizeScan.

Definition app_dir : string := "c:\app".

(** [app_dir] holds a file of 1 MiB and a file of 0.5 MiB. *)
Definition two_files : FsView :=
  mkFs (fun _ => true) (fun _ => false) (fun p => p) (fun _ => None)
       (fun p => if p =? app_dir
                 then Some [File (Some 1048576%Z); File (Some 524288%Z)]
                 else None)
       (fun p => p) (fun _ => 0%Z).

(** [app_dir] holds a file of 1 MiB and a directory with a file of 5 MiB. *)
Definition nested : FsView :=
  mkFs (fun _ => true) (fun _ => false) (fun p => p) (fun _ => None)
       (fun p => if p =? app_dir
                 then Some [File (Some 1048576%Z);
                            SubDir (Some [File (Some 5242880%Z)])]
                 else None)
       (fun p => p) (fun _ => 0%Z).

Definition exe_path : string := "c:\app\app.exe".
Definition data_path : string := "c:\app\notes.dat".

(** [app_dir] holds [app.exe], of 3 MiB, and [notes.dat], of 5 MiB. *)
Definition with_exe : FsView :=
  mkFs (fun _ => true)
       (fun p => (p =? exe_path) || (p =? data_path))
       (fun p => if (p =? exe_path) || (p =? data_path) then app_dir else p)
       (fun p => if p =? exe_path then Some 3145728%Z
                 else if p =? data_path then Some 5242880%Z else None)
       (fun p => if p =? app_dir
                 then Some [File (Some 3145728%Z); File (Some 5242880%Z)]
                 else None)
       (fun p => p) (fun _ => 0%Z).

End SizeExamples.

(** C7, as the code has it. The sizing loop always ends. It answers
    unavailable when more files are met than the file ceiling allows. When
    it answers a size, every reading of the clock made when a directory was
    taken from the stack was before the deadline, and the size is the sum
    of the files met, the directories deeper than the depth ceiling being
    left out rather than making the size unavailable. When the clock never
    passes the deadline and the file ceiling holds, that sum is the answer.
    With a ceiling of one file, a directory of two files is unavailable. *)
Theorem dir_size_outcome :
  forall (fs : SizeScan.FsView) (limits : option SizeScan.SizeScanLimits)
         (root : string),
    let listing := SizeScan.scandir fs root in
    let files := SizeFacts.listing_count limits 0 listing in
    let deadline := fst (SizeScan.start_deadline fs limits) in
    let t0 := snd (SizeScan.start_deadline fs limits) in
    exists r,
      SizeScan._dir_size_bytes fs limits root = Some r /\
      (SizeFacts.over_cap limits 0 files = true -> SizeScan.measured r = None) /\
      (forall n, SizeScan.measured r = Some n ->
                 n = SizeFacts.listing_sum limits 0 listing /\
                 forall i, i < SizeScan.opened r ->
                           SizeFacts.is_late fs deadline (t0 + i) = false) /\
      ((forall t, SizeFacts.is_late fs deadline t = false) ->
       SizeFacts.over_cap limits 0 files = false ->
       SizeScan.measured r = Some (SizeFacts.listing_sum limits 0 listing)) /\
      (forall l a b,
          limits = Some l -> SizeScan.max_files l = 1%Z ->
          listing = Some [SizeScan.File a; SizeScan.File b] ->
          SizeScan.measured r = None).
Proof.
  intros fs limits root listing files deadline t0.
  unfold SizeScan._dir_size_bytes. subst deadline t0.
  destruct (SizeScan.start_deadline fs limits) as [deadline t0]. cbn [fst snd].
  destruct (@SizeFacts.size_loop_spec limits fs
              (SizeScan.stack_weight [(SizeScan.scandir fs root, 0%Z)]) deadline
              (SizeScan.mkLoop [(SizeScan.scandir fs root, 0%Z)] 0 0 t0 0))
    as (r & Hr & Hcap & Hsome & Hfull); [apply Nat.le_refl|].
  cbn [SizeScan.stack SizeScan.file_count SizeScan.total SizeScan.ticks
       SizeScan.scans] in *.
  rewrite SizeFacts.stack_count_one, SizeFacts.stack_sum_one in *.
  fold listing in Hcap, Hsome, Hfull. fold files in Hcap, Hfull.
  exists r. split; [exact Hr|]. split; [exact Hcap|]. split; [|split].
  - intros n Hn. destruct (Hsome n Hn) as (-> & _ & Hearly).
    split; [lia|]. intros i Hi. apply Hearly. lia.
  - intros Hn Ho. rewrite (Hfull Hn Ho). reflexivity.
  - intros l a b -> Hmax Hlist. apply Hcap. subst files. rewrite Hlist.
    unfold SizeFacts.over_cap, SizeScan.cap_files. simpl. rewrite Hmax. reflexivity.
Qed.

(** C7, as stated, fails for the depth ceiling: with a ceiling of depth 0
    the sub-directory is left out and the size of the rest is answered;
    with a ceiling of depth 1 the whole is measured. *)
Lemma dir_size_outcome_counterexample :
  SizeScan._compute_install_size_mb SizeExamples.nested
    (Some (SizeScan.mkSizeLimits 10 0 2)) SizeExamples.app_dir =
    Some (SizeScan.mkSized (Some 1%Z) 1) /\
  SizeScan._compute_install_size_mb SizeExamples.nested
    (Some (SizeScan.mkSizeLimits 10 1 2)) SizeExamples.app_dir =
    Some (SizeScan.mkSized (Some 6%Z) 2) /\
  SizeScan._compute_install_size_mb SizeExamples.two_files
    (Some (SizeScan.mkSizeLimits 1 2 2)) SizeExamples.app_dir =
    Some (SizeScan.mkSized None 1) /\
  SizeScan._compute_install_size_mb SizeExamples.two_files
    (Some (SizeScan.mkSizeLimits 10 2 2)) SizeExamples.app_dir =
    Some (SizeScan.mkSized (Some 1%Z) 1).
Proof. repeat split; reflexivity. Qed.





(** ** C4: the ceilings of the deep scan *)

(** Induction on a directory tree, with the property for the
    sub-directories. *)
Fixpoint DirTree_forall_ind (P : DirTree -> Prop)
    (step : forall current files subs,
        Forall P subs -> P (DirNode current files subs))
    (t : DirTree) {struct t} : P t :=
  match t with
  | DirNode current files subs =>
      step current files subs
        ((fix all (l : list DirTree) : Forall P l :=
            match l with
            | [] => Forall_nil P
            | t' :: l' => Forall_cons t' (DirTree_forall_ind step t') (all l')
            end) subs)
  end.

(** A property of the state kept by the body is kept by the walk. *)
Lemma walk_fold_invariant {S R : Type} (P : S -> Prop) (Q : R -> Prop)
    (body : S -> string -> list string -> Flow (S * bool) R) :
  (forall s current files,
      P s -> match body s current files with
             | Go (s', _) => P s'
             | Halt r => Q r
             end) ->
  forall t s, P s -> match walk_fold body t s with
                     | Go s' => P s'
                     | Halt r => Q r
                     end.
Proof.
  intros Hbody t. induction t as [current files subs IH] using DirTree_forall_ind.
  intros s Hs. cbn [walk_fold]. specialize (Hbody s current files Hs).
  destruct (body s current files) as [[s1 prune]|r]; [|exact Hbody].
  destruct prune; [exact Hbody|].
  revert s1 Hbody. induction IH as [|t' subs Ht' _ IHsubs]; intros s1 Hs1;
    [exact Hs1|].
  specialize (Ht' s1 Hs1).
  destruct (walk_fold body t' s1) as [s2|r]; [|exact Ht'].
  apply IHsubs. exact Ht'.
Qed.

Section DeepFacts.

Variable host : Host.
Variable fuzzy_score : string -> string -> list string -> string -> list string -> Z.
Variable limits : DeepScanLimits.
Variables (cleaned_name cleaned_pub : string) (tokens_name tokens_pub : list string).
Variable ignored_set : list string.
Variable deadline : option Z.

Definition is_file (r : RelatedFile) : bool := kind r =? "file".
Definition is_dir (r : RelatedFile) : bool := kind r =? "dir".

Definition file_entries (l : list RelatedFile) : nat := List.length (filter is_file l).
Definition dir_entries (l : list RelatedFile) : nat := List.length (filter is_dir l).

(** What the results of a deep scan satisfy at every moment: the files
    recorded are fewer than the file ceiling, because the directory that
    holds them is counted with them. *)
Definition files_below_cap (l : list RelatedFile) : Prop :=
  file_entries l = 0 \/ (Z.of_nat (file_entries l) < dl_max_files limits)%Z.

Definition deep_inv (st : DeepState) : Prop :=
  files_below_cap (results st) /\
  (seen st = [] \/ 1 <= dir_entries (results st)).

Lemma entries_le_len l : (Z.of_nat (file_entries l + dir_entries l) <= len l)%Z.
Proof.
  unfold file_entries, dir_entries, len. apply Nat2Z.inj_le.
  induction l as [|r l IH]; [apply Nat.le_refl|].
  cbn [filter]. unfold is_file at 1, is_dir at 1.
  destruct (kind r =? "file") eqn:Ef.
  - apply String.eqb_eq in Ef. rewrite Ef. cbn [String.eqb Ascii.eqb Bool.eqb length].
    simpl. lia.
  - destruct (kind r =? "dir"); simpl; lia.
Qed.

Lemma file_entries_app l r :
  file_entries (l ++ [r]) = file_entries l + (if is_file r then 1 else 0).
Proof.
  unfold file_entries. rewrite filter_app, length_app. simpl.
  now destruct (is_file r).
Qed.

Lemma dir_entries_app l r :
  dir_entries (l ++ [r]) = dir_entries l + (if is_dir r then 1 else 0).
Proof.
  unfold dir_entries. rewrite filter_app, length_app. simpl.
  now destruct (is_dir r).
Qed.

Lemma deep_files_loop_inv current files st :
  deep_inv st -> 1 <= dir_entries (results st) ->
  match deep_files_loop host fuzzy_score limits cleaned_name cleaned_pub
          tokens_name tokens_pub ignored_set current st files with
  | Go st' => deep_inv st'
  | Halt r => files_below_cap r
  end.
Proof.
  revert st. induction files as [|filename files IH]; intros st Hinv Hdir;
    cbn [deep_files_loop]; [exact Hinv|].
  destruct (dl_max_files limits <=? len (results st))%Z eqn:Efull;
    [exact (proj1 Hinv)|].
  destruct (negb _ && negb _); [now apply IH|].
  destruct (_ <? file_threshold limits)%Z; [now apply IH|].
  destruct (PyStr.mem _ ignored_set || PyStr.mem _ (seen st)); [now apply IH|].
  apply IH.
  - apply Z.leb_gt in Efull. pose proof (@entries_le_len (results st)).
    split; cbn [results seen].
    + right. rewrite file_entries_app. cbn. lia.
    + right. rewrite dir_entries_app. cbn. lia.
  - cbn [results]. rewrite dir_entries_app. cbn. lia.
Qed.

Lemma past_deadline_inv st :
  deep_inv st -> deep_inv (snd (past_deadline host deadline st)).
Proof.
  unfold past_deadline. destruct deadline as [d|]; [|auto].
  destruct (d =? 0)%Z; auto.
Qed.

Lemma past_deadline_results st :
  results (snd (past_deadline host deadline st)) = results st.
Proof.
  unfold past_deadline. destruct deadline as [d|]; [|auto].
  destruct (d =? 0)%Z; auto.
Qed.

Lemma deep_body_inv root_depth st current files :
  deep_inv st ->
  match deep_body host fuzzy_score limits cleaned_name cleaned_pub tokens_name
          tokens_pub ignored_set deadline root_depth st current files with
  | Go (st', _) => deep_inv st'
  | Halt r => files_below_cap r
  end.
Proof.
  intros Hinv. unfold deep_body.
  pose proof (past_deadline_inv Hinv) as Hinv1.
  destruct (past_deadline host deadline st) as [late st1]. cbn [snd] in Hinv1.
  destruct late; [exact (proj1 Hinv1)|].
  destruct (PyStr.mem (_normalize_path host current) ignored_set); [exact Hinv1|].
  destruct (dir_threshold limits <=? _)%Z; [|exact Hinv1].
  destruct (PyStr.mem (_normalize_path host current) (seen st1)) eqn:Eseen.
  - assert (Hdir : 1 <= dir_entries (results st1)).
    { destruct Hinv1 as [_ [Hs|Hd]]; [|exact Hd].
      rewrite Hs in Eseen. discriminate. }
    pose proof (@deep_files_loop_inv current files st1 Hinv1 Hdir) as H.
    destruct (deep_files_loop _ _ _ _ _ _ _ _ _ _ _); assumption.
  - match goal with
    | |- context [mkDeep ?r ?s ?t] => set (st2 := mkDeep r s t)
    end.
    assert (Hfiles : file_entries (results st2) = file_entries (results st1)).
    { unfold st2. cbn [results]. rewrite file_entries_app. cbn. lia. }
    assert (Hdir : 1 <= dir_entries (results st2)).
    { unfold st2. cbn [results]. rewrite dir_entries_app. cbn. lia. }
    assert (Hinv2 : deep_inv st2).
    { split; [|now right]. unfold files_below_cap. rewrite Hfiles.
      exact (proj1 Hinv1). }
    destruct (dl_max_dirs limits <=? len (results st2))%Z; [exact (proj1 Hinv2)|].
    pose proof (@deep_files_loop_inv current files st2 Hinv2 Hdir) as H.
    destruct (deep_files_loop _ _ _ _ _ _ _ _ _ _ _); assumption.
Qed.

Lemma deep_roots_inv st roots :
  deep_inv st ->
  files_below_cap
    (deep_roots host fuzzy_score limits cleaned_name cleaned_pub tokens_name
                tokens_pub ignored_set deadline st roots).
Proof.
  revert st. induction roots as [|root roots IH]; intros st Hinv;
    cbn [deep_roots]; [exact (proj1 Hinv)|].
  destruct ((root =? "") || negb (isdir host root)); [now apply IH|].
  assert (Hwalk :
    match match walk host root with
          | None => Go st
          | Some t =>
              walk_fold (deep_body host fuzzy_score limits cleaned_name cleaned_pub
                           tokens_name tokens_pub ignored_set deadline
                           (OsPath.depth_of (_normalize_path host root))) t st
          end with
    | Go st' => deep_inv st'
    | Halt r => files_below_cap r
    end).
  { destruct (walk host root) as [t|]; [|exact Hinv].
    apply (walk_fold_invariant (P := deep_inv) (Q := files_below_cap));
      [|exact Hinv].
    intros s current files Hs. now apply deep_body_inv. }
  destruct (match walk host root with None => _ | Some _ => _ end) as [st1|r];
    [|exact Hwalk].
  pose proof (past_deadline_inv Hwalk) as Hinv2.
  destruct (past_deadline host deadline st1) as [late st2]. cbn [snd] in Hinv2.
  destruct late; [exact (proj1 Hinv2) | now apply IH].
Qed.

End DeepFacts.

Module DeepExamples.

Definition root : string := "c:\foo ini".

(** The names [foo.ini], [foo_.ini], [foo__.ini], ... : [n] files, all
    cleaned to [foo ini]. *)
Fixpoint ini_files (n : nat) : list string :=
  match n with
  | O => []
  | S k =>
      ini_files k ++
      [String.append "foo" (String.append (String.concat "" (repeat "_" k)) ".ini")]
  end.

Definition hundred_files : Host :=
  mkHost (fun p => p) (fun p => p) (fun p => p =? root) (fun _ => false)
         (fun p => p) (fun p => p) [] (fun _ => [])
         (fun r => if r =? root then Some (DirNode root (ini_files 100) []) else None)
         (fun _ => 0%Z).

Definition foo_ini : AppEntry := mkApp "Foo Ini" "1.0" "" "" [].

(** The score of a candidate equal to the cleaned name of the application
    is 100 (its ratio is 1.0); the example has no other candidate. *)
Definition exact_score (candidate name_full : string) (_ : list string)
    (_ : string) (_ : list string) : Z :=
  if candidate =? name_full then 100 else 0.

Definition five_files : DeepScanLimits := mkDeepLimits 2000 5 5 8 68 72.

End DeepExamples.

(** C4, on the code: the file ceiling is compared with the length of the
    whole result list, which holds the directory entries too. So the file
    entries of a deep scan are always fewer than [max_files]; and with
    [max_files = 5], a matching directory of 100 matching files gives the
    directory and 4 files. *)
Theorem deep_scan_file_ceiling :
  (forall (host : Host)
          (fuzzy_score : string -> string -> list string -> string -> list string -> Z)
          (app : AppEntry) (roots : list string) (limits : DeepScanLimits)
          (ignored : list string),
      let found := deep_scan_for_app host fuzzy_score app roots limits ignored in
      file_entries found = 0 \/
      (Z.of_nat (file_entries found) < dl_max_files limits)%Z) /\
  (let found :=
     deep_scan_for_app DeepExamples.hundred_files DeepExamples.exact_score
       DeepExamples.foo_ini [DeepExamples.root] DeepExamples.five_files [] in
   List.length (DeepExamples.ini_files 100) = 100 /\
   map (fun r => (path r, kind r)) found =
     [("c:\foo ini", "dir");
      ("c:\foo ini\foo.ini", "file");
      ("c:\foo ini\foo_.ini", "file");
      ("c:\foo ini\foo__.ini", "file");
      ("c:\foo ini\foo___.ini", "file")]).
Proof.
  split.
  - intros host fuzzy_score app roots limits ignored found. subst found.
    unfold deep_scan_for_app.
    assert (Hnil : file_entries [] = 0 \/
                   (Z.of_nat (file_entries []) < dl_max_files limits)%Z)
      by (left; reflexivity).
    destruct roots as [|root roots]; [exact Hnil|].
    assert (Hscan : forall t,
      files_below_cap limits
        (deep_roots host fuzzy_score limits (_cleaned (name app))
           (_cleaned (publisher app)) (_tokens (name app))
           (_tokens (publisher app))
           (map (_normalize_path host) (filter PyStr.nonempty ignored))
           (if (dl_max_seconds limits =? 0)%Z then None
            else Some (clock host 0 + dl_max_seconds limits)%Z)
           (mkDeep [] [] t) (root :: roots))).
    { intros t. apply deep_roots_inv. split; [left; reflexivity | now left]. }
    destruct (_tokens (name app)), (_tokens (publisher app)),
      (_cleaned (name app) =? ""), (_cleaned (publisher app) =? "");
      try exact Hnil; apply Hscan.
  - cbv zeta. split; [reflexivity|]. vm_compute. reflexivity.
Qed.

(** * Further properties of the code *)

(** ** The override layers, path by path

    What each layer of the controller does to the list of one application,
    read at one normalized path. *)

Section LayerFacts.

Variable os_norm : string -> string.

Local Abbreviation nrp := (_normalize_related_path os_norm).
Local Abbreviation nf := (norm_of os_norm).

(** The list [files] has an entry at the normalized path [n]. *)
Definition holds (files : list RelatedFile) (n : string) : Prop :=
  exists r, In r files /\ nf r = n.

(** *** The manual layer *)

Lemma manual_files_holds known mbp a n :
  mbp_sound os_norm known mbp -> n <> "" ->
  (holds (manual_files os_norm mbp a) n <->
   match PyDict.get mbp n with
   | Some (k, _, _) => k = key a
   | None => holds (related_files a) n
   end).
Proof.
  intros Hs Hn. split.
  - intros (r & Hr & Er). unfold manual_files in Hr.
    apply manual_steps_In in Hr. destruct Hr as [Hr|(n' & kd & p & Hi & -> & _)].
    + apply collect_In in Hr. destruct Hr as (Hr & Hok & _).
      destruct (PyDict.get mbp n) as [[[k kd] p]|] eqn:Hg.
      * rewrite <- Er in Hg. now destruct (manual_ok_owner Hok Hg).
      * now exists r.
    + rewrite (manual_entry_norm Hs Hi) in Er. subst n'.
      destruct Hs as [Hwf _]. now rewrite (In_get Hwf Hi).
  - intros H. destruct (PyDict.get mbp n) as [[[k kd] p]|] eqn:Hg.
    + subst k. apply get_In in Hg.
      destruct (manual_steps_cover
                  (collect (manual_ok os_norm mbp (key a)) nf [] (related_files a))
                  Hs Hg) as (r & Hr & Er).
      now exists r.
    + destruct H as (r & Hr & Er).
      assert (Hok : manual_ok os_norm mbp (key a) r = true).
      { unfold manual_ok. rewrite Er, Hg, andb_true_r. now apply nonempty_true. }
      destruct (@collect_covers (manual_ok os_norm mbp (key a)) nf [] _ r Hr Hok
                                (fun x => x)) as (r' & Hr' & Er').
      exists r'. split; [|congruence].
      unfold manual_files. now apply manual_steps_prefix.
Qed.

Lemma manual_files_source known mbp a r :
  mbp_sound os_norm known mbp ->
  In r (manual_files os_norm mbp a) -> PyDict.get mbp (nf r) <> None ->
  source r = "manual".
Proof.
  intros Hs Hr Hg. unfold manual_files in Hr.
  apply manual_steps_In in Hr. destruct Hr as [Hr|(n' & kd & p & _ & -> & _)];
    [|reflexivity].
  apply collect_In in Hr. destruct Hr as (_ & Hok & _).
  destruct (PyDict.get mbp (nf r)) as [[[k kd] p]|] eqn:E; [|congruence].
  now destruct (manual_ok_owner Hok E).
Qed.

(** *** The ignore and unassigned layers *)

(** The paths recorded for the application [k]. *)
Definition recorded (records : PyDict.dict (list string)) (k : string) : list string :=
  match PyDict.get records k with Some items => items | None => [] end.

Lemma norm_sets_fold_get records acc k :
  PyDict.wf records ->
  PyDict.get
    (fold_left
       (fun acc (rec : string * list string) =>
          match norm_set os_norm (snd rec) with
          | [] => acc
          | norms => PyDict.set acc (fst rec) norms
          end) records acc) k =
  match PyDict.get records k with
  | Some items =>
      match norm_set os_norm items with
      | [] => PyDict.get acc k
      | norms => Some norms
      end
  | None => PyDict.get acc k
  end.
Proof.
  revert acc. induction records as [|[k0 it0] rest IH]; intros acc Hwf; [reflexivity|].
  inversion Hwf as [|? ? Hnotin Hwf']; subst.
  cbn [fold_left fst snd]. rewrite (IH _ Hwf'). cbn [PyDict.get].
  destruct (k0 =? k) eqn:E.
  - apply String.eqb_eq in E. subst k0.
    assert (Hnone : PyDict.get rest k = None) by now apply get_None_keys.
    rewrite Hnone. destruct (norm_set os_norm it0); [reflexivity|].
    apply get_set_same.
  - apply String.eqb_neq in E.
    assert (Hacc : PyDict.get
                     match norm_set os_norm it0 with
                     | [] => acc
                     | s :: l => PyDict.set acc k0 (s :: l)
                     end k = PyDict.get acc k).
    { destruct (norm_set os_norm it0); [reflexivity|].
      apply get_set_other. congruence. }
    now rewrite Hacc.
Qed.

Lemma build_norm_sets_get records k :
  PyDict.wf records ->
  PyDict.get (build_norm_sets os_norm records) k =
  match PyDict.get records k with
  | Some items =>
      match norm_set os_norm items with [] => None | norms => Some norms end
  | None => None
  end.
Proof.
  intros Hwf. unfold build_norm_sets. rewrite (norm_sets_fold_get [] k Hwf).
  destruct (PyDict.get records k) as [items|]; [|reflexivity].
  now destruct (norm_set os_norm items).
Qed.

Lemma norm_set_In items n :
  In n (norm_set os_norm items) <-> exists p, In p items /\ p <> "" /\ nrp p = n.
Proof.
  unfold norm_set. rewrite in_map_iff. split.
  - intros (p & E & Hp). apply filter_In in Hp. destruct Hp as [Hp Hne].
    exists p. repeat split; try assumption. now apply nonempty_true.
  - intros (p & Hp & Hne & E). exists p. split; [assumption|].
    apply filter_In. split; [assumption|]. now apply nonempty_true.
Qed.

Lemma suppress_keep_iff records k r :
  PyDict.wf records ->
  (suppress_keep os_norm records k r = true <->
   source r = "manual" \/ nf r = "" \/
   ~ exists p, In p (recorded records k) /\ p <> "" /\ nrp p = nf r).
Proof.
  intros Hwf. unfold suppress_keep, recorded.
  destruct records as [|rec0 rest] eqn:Erec.
  { split; [|reflexivity]. intros _. right. right. intros (p & [] & _). }
  rewrite <- Erec in *. rewrite (build_norm_sets_get k Hwf).
  destruct (PyDict.get records k) as [items|].
  2:{ split; [|reflexivity]. intros _. right. right. intros (p & [] & _). }
  destruct (norm_set os_norm items) as [|n0 ns] eqn:En.
  { split; [|reflexivity]. intros _. right. right. intros H.
    apply norm_set_In in H. now rewrite En in H. }
  rewrite <- En. unfold suppressed.
  destruct (source r =? "manual") eqn:Es.
  { apply String.eqb_eq in Es. rewrite andb_false_r. simpl. tauto. }
  apply String.eqb_neq in Es.
  destruct (PyStr.nonempty (nf r)) eqn:Ee.
  2:{ simpl. split; [|reflexivity]. intros _. right. left.
      destruct (string_dec (nf r) ""); [assumption|].
      apply nonempty_true in n. congruence. }
  apply nonempty_true in Ee.
  destruct (PyStr.mem (nf r) (norm_set os_norm items)) eqn:Em; simpl.
  - apply mem_In, norm_set_In in Em. split; [discriminate|].
    intros [H|[H|H]]; [congruence | congruence | now elim H].
  - apply mem_false in Em. split; [|reflexivity]. intros _. right. right.
    intros H. apply Em. now apply norm_set_In.
Qed.

(** *** The reassignment layer *)

Lemma lookup_visits_keep files d n r :
  PyDict.get d n = Some r ->
  PyDict.get (fold_left (lookup_visit os_norm) files d) n = Some r.
Proof.
  revert d. induction files as [|r0 files IH]; intros d Hg; [assumption|].
  simpl. apply IH. unfold lookup_visit.
  destruct (nf r0 =? ""); [assumption|].
  destruct (PyDict.get d (nf r0)) eqn:E; [assumption|].
  rewrite get_set_other; [assumption|]. intros ->. congruence.
Qed.

Lemma lookup_visits_complete files d r :
  In r files -> nf r <> "" ->
  PyDict.get (fold_left (lookup_visit os_norm) files d) (nf r) <> None.
Proof.
  revert d. induction files as [|r0 files IH]; intros d Hin Hn; [destruct Hin|].
  destruct Hin as [->|Hin]; [|now apply IH].
  simpl. unfold lookup_visit at 2.
  apply String.eqb_neq in Hn. rewrite Hn.
  destruct (PyDict.get d (nf r)) as [x|] eqn:E.
  - now rewrite (lookup_visits_keep files E).
  - erewrite lookup_visits_keep; [discriminate|]. apply get_set_same.
Qed.

Lemma path_lookup_complete apps a r :
  In a apps -> In r (related_files a) -> nf r <> "" ->
  PyDict.get (build_path_lookup os_norm apps) (nf r) <> None.
Proof.
  unfold build_path_lookup. generalize (@nil (string * RelatedFile)).
  induction apps as [|a0 apps IH]; intros d Ha Hr Hn; [destruct Ha|].
  simpl. destruct Ha as [->|Ha]; [|now apply IH].
  destruct (PyDict.get (fold_left (lookup_visit os_norm) (related_files a) d) (nf r))
    as [x|] eqn:E; [|now elim (@lookup_visits_complete _ d _ Hr Hn)].
  clear IH Hr. revert E. generalize (fold_left (lookup_visit os_norm) (related_files a) d).
  induction apps as [|b apps IH]; intros d' E; simpl; [congruence|].
  apply IH. now apply lookup_visits_keep.
Qed.

Lemma attach_tracked known pl k ls item :
  pl_sound os_norm pl -> tracked os_norm ls ->
  tracked os_norm (attach_pure known pl k ls item).
Proof.
  intros Hpl Htr. unfold attach_pure.
  destruct ((snd item =? k) && PyStr.mem (snd item) known); [|assumption].
  destruct (PyDict.get pl (fst item)) as [r|] eqn:Hg; [|assumption].
  destruct (PyStr.mem (fst item) (snd ls)); [assumption|].
  destruct (Hpl _ _ Hg) as [Hn _].
  intros x. simpl. rewrite map_app, in_app_iff. simpl. rewrite Hn, (Htr x). tauto.
Qed.

Lemma attaches_cover known pl k ov ls n r :
  pl_sound os_norm pl -> tracked os_norm ls ->
  In (n, k) ov -> In k known -> PyDict.get pl n = Some r ->
  holds (fst (fold_left (attach_pure known pl k) ov ls)) n.
Proof.
  intros Hpl Htr Hin Hk Hg. revert ls Htr.
  induction ov as [|item ov IH]; intros ls Htr; [destruct Hin|].
  destruct Hin as [->|Hin]; [|simpl; apply IH; [assumption | now apply attach_tracked]].
  simpl. unfold attach_pure at 2. cbn [fst snd].
  apply mem_In in Hk. rewrite String.eqb_refl, Hk, Hg. simpl.
  destruct (Hpl _ _ Hg) as [Hn _].
  destruct (PyStr.mem n (snd ls)) eqn:Hm.
  - apply mem_In, Htr, in_map_iff in Hm. destruct Hm as (r' & Er' & Hr').
    exists r'. split; [now apply attaches_prefix | assumption].
  - exists r. split; [|assumption]. apply attaches_prefix. simpl.
    apply in_or_app. right. now left.
Qed.

Lemma path_lookup_pl_sound apps : pl_sound os_norm (build_path_lookup os_norm apps).
Proof. intros n r Hg. destruct (path_lookup_sound Hg) as (H1 & H2 & _). now split. Qed.

Lemma reassign_files_holds ov apps a n :
  NoDup (app_keys apps) -> PyDict.wf ov -> In a apps -> n <> "" ->
  (holds (reassign_files os_norm ov (app_keys apps) (build_path_lookup os_norm apps)
                         (key a) (related_files a)) n <->
   match PyDict.get ov n with
   | Some t =>
       if t =? "" then holds (related_files a) n
       else t = key a /\ exists b, In b apps /\ holds (related_files b) n
   | None => holds (related_files a) n
   end).
Proof.
  intros Hnd Hwf Ha Hn. rewrite reassign_files_collect.
  assert (Hkept : holds (related_files a) n ->
                  (forall t, PyDict.get ov n = Some t -> t = "") ->
                  holds (fst (fold_left
                     (attach_pure (app_keys apps) (build_path_lookup os_norm apps) (key a)) ov
                     (collect (reassign_ok os_norm ov (key a)) nf [] (related_files a),
                      rev (map nf (collect (reassign_ok os_norm ov (key a)) nf []
                                     (related_files a))) ++ []))) n).
  { intros (r & Hr & Er) Ht.
    assert (Hok : reassign_ok os_norm ov (key a) r = true).
    { unfold reassign_ok, redirected. rewrite Er.
      apply andb_true_iff. split; [now apply nonempty_true|].
      destruct (PyDict.get ov n) as [t|]; [|reflexivity].
      now rewrite (Ht t eq_refl). }
    destruct (@collect_covers (reassign_ok os_norm ov (key a)) nf [] _ r Hr Hok
                              (fun x => x)) as (r' & Hr' & Er').
    exists r'. split; [|congruence]. now apply attaches_prefix. }
  split.
  - intros (r & Hr & Er). apply attaches_In in Hr.
    destruct Hr as [Hr|(n' & Hi & Hk & Hg)].
    + simpl in Hr. apply collect_In in Hr. destruct Hr as (Hr & Hok & _).
      destruct (PyDict.get ov n) as [t|] eqn:Hg; [|now exists r].
      rewrite <- Er in Hg. destruct (reassign_ok_target Hok Hg) as [->| ->].
      * simpl. now exists r.
      * assert (E : (key a =? "") = false) by apply String.eqb_neq, key_nonempty.
        rewrite E. split; [reflexivity|]. exists a. split; [assumption|]. now exists r.
    + destruct (path_lookup_sound Hg) as (En & _ & b & Hb & Hrb).
      rewrite Er in En. subst n'. rewrite (In_get Hwf Hi).
      assert (E : (key a =? "") = false) by apply String.eqb_neq, key_nonempty.
      rewrite E. split; [reflexivity|]. exists b. split; [assumption|]. now exists r.
  - destruct (PyDict.get ov n) as [t|] eqn:Hg.
    + destruct (t =? "") eqn:Et.
      * apply String.eqb_eq in Et. intros H. apply Hkept; [assumption|]. congruence.
      * intros (-> & b & Hb & r & Hr & Er).
        assert (Hne : nf r <> "") by congruence.
        destruct (PyDict.get (build_path_lookup os_norm apps) (nf r)) as [r'|] eqn:Hpl;
          [|now elim (path_lookup_complete Hb Hr Hne)].
        rewrite Er in Hpl. apply get_In in Hg.
        refine (attaches_cover (@path_lookup_pl_sound apps) _ Hg (in_map key _ _ Ha) Hpl).
        apply tracked_collect.
    + intros H. apply Hkept; [assumption|]. discriminate.
Qed.

End LayerFacts.

(** After the manual layer, the list of an application has an entry at a
    normalized path exactly when the application is the manual owner of
    the path or, for a path without a manual owner, when it had one
    before; an entry left at a manually owned path is a manual entry. The
    other fields of the application are untouched. *)
Theorem manual_layer_exact os_norm m apps i a0 :
  NoDup (app_keys apps) -> nth_error apps i = Some a0 ->
  exists files,
    nth_error (_apply_manual_related os_norm m apps) i = Some (set_related a0 files) /\
    (forall n, n <> "" ->
       (holds os_norm files n <->
        match PyDict.get (build_manual_by_path os_norm m (app_keys apps)) n with
        | Some (k, _, _) => k = key a0
        | None => holds os_norm (related_files a0) n
        end)) /\
    (forall r, In r files ->
       PyDict.get (build_manual_by_path os_norm m (app_keys apps)) (norm_of os_norm r)
         <> None ->
       source r = "manual").
Proof.
  intros Hnd Hi.
  destruct (apply_manual_cases os_norm m Hnd) as [[E Htriv]|[Hne E]].
  - assert (Hmbp : build_manual_by_path os_norm m (app_keys apps) = []).
    { destruct Htriv as [->|[->|H]]; [reflexivity | | assumption].
      now destruct i. }
    exists (related_files a0). rewrite E, set_related_same, Hmbp. simpl.
    repeat split; try assumption; try tauto.
  - exists (manual_files os_norm (build_manual_by_path os_norm m (app_keys apps)) a0).
    rewrite E, nth_error_map, Hi. split; [reflexivity|]. split.
    + intros n Hn. apply (manual_files_holds a0 (build_manual_sound os_norm m _) Hn).
    + intros r. apply (manual_files_source (build_manual_sound os_norm m _)).
Qed.

Lemma manual_layer_exact_witness :
  NoDup (app_keys Examples.contested) /\
  exists files,
    nth_error (_apply_manual_related Examples.plain_norm
                 (related_manual Examples.manual_note) Examples.contested) 0
      = Some (set_related (set_related Examples.app_a [Examples.found Examples.conf])
                          files) /\
    holds Examples.plain_norm files Examples.note.
Proof.
  assert (Hnd : NoDup (app_keys Examples.contested)).
  { vm_compute. repeat constructor; simpl; intuition discriminate. }
  split; [exact Hnd|].
  destruct (@manual_layer_exact Examples.plain_norm
              (related_manual Examples.manual_note) Examples.contested 0
              (set_related Examples.app_a [Examples.found Examples.conf])
              Hnd eq_refl)
    as (files & H & Hholds & _).
  exists files. split; [exact H|].
  apply (Hholds Examples.note); [discriminate | reflexivity].
Defined.

(** An ignore (or unassigned) layer removes from the list of an
    application exactly the non-manual entries whose non-empty normalized
    path is the normalized form of a non-empty path recorded for that
    application; every other entry stays, and nothing is added. *)
Theorem suppress_layer_exact os_norm records apps i a0 :
  PyDict.wf records -> nth_error apps i = Some a0 ->
  exists files,
    nth_error (_apply_related_ignores os_norm records apps) i
      = Some (set_related a0 files) /\
    _apply_related_unassigned os_norm records apps
      = _apply_related_ignores os_norm records apps /\
    forall r,
      In r files <->
      In r (related_files a0) /\
      (source r = "manual" \/ norm_of os_norm r = "" \/
       ~ exists p, In p (recorded records (key a0)) /\ p <> "" /\
                   _normalize_related_path os_norm p = norm_of os_norm r).
Proof.
  intros Hwf Hi. unfold _apply_related_ignores, _apply_related_unassigned.
  rewrite suppress_spec, nth_error_map, Hi. simpl.
  eexists. split; [reflexivity|]. split; [reflexivity|].
  intros r. rewrite filter_In, (suppress_keep_iff os_norm (key a0) r Hwf). tauto.
Qed.

Lemma suppress_layer_exact_witness :
  PyDict.wf (related_ignore Examples.reassigned_then_ignored) /\
  exists files,
    nth_error (_apply_related_ignores Examples.plain_norm
                 (related_ignore Examples.reassigned_then_ignored)
                 [set_related Examples.app_b [Examples.found Examples.conf]]) 0
      = Some (set_related (set_related Examples.app_b [Examples.found Examples.conf])
                          files) /\
    ~ In (Examples.found Examples.conf) files.
Proof.
  assert (Hwf : PyDict.wf (related_ignore Examples.reassigned_then_ignored)).
  { vm_compute. repeat constructor. intros []. }
  split; [exact Hwf|].
  destruct (@suppress_layer_exact Examples.plain_norm
              (related_ignore Examples.reassigned_then_ignored)
              [set_related Examples.app_b [Examples.found Examples.conf]] 0
              (set_related Examples.app_b [Examples.found Examples.conf])
              Hwf eq_refl)
    as (files & H & _ & Hin).
  exists files. split; [exact H|].
  intros Hr. apply Hin in Hr. destruct Hr as [_ [Hs|[He|Hno]]];
    [discriminate | discriminate |].
  apply Hno. exists Examples.conf. split; [now left|]. split; [discriminate|reflexivity].
Defined.

(** After the reassignment layer, the list of an application has an entry
    at a normalized path that is reassigned to a non-empty key exactly
    when that key is its own and some listed application had an entry at
    the path; at a path that is not reassigned (or reassigned to the empty
    key) it has one exactly when it had one before. *)
Theorem reassign_layer_exact os_norm ov apps i a0 :
  NoDup (app_keys apps) -> PyDict.wf ov -> nth_error apps i = Some a0 ->
  exists files,
    nth_error (_apply_related_overrides os_norm ov apps) i
      = Some (set_related a0 files) /\
    forall n, n <> "" ->
      (holds os_norm files n <->
       match PyDict.get ov n with
       | Some t =>
           if t =? "" then holds os_norm (related_files a0) n
           else t = key a0 /\
                exists b, In b apps /\ holds os_norm (related_files b) n
       | None => holds os_norm (related_files a0) n
       end).
Proof.
  intros Hnd Hwf Hi.
  destruct (apply_overrides_cases os_norm ov Hnd) as [[E Htriv]|(Hov & Hne & E)].
  - exists (related_files a0). rewrite E, set_related_same.
    split; [assumption|]. intros n _.
    destruct Htriv as [->| ->]; [reflexivity | now destruct i].
  - eexists. rewrite E, nth_error_map, Hi. split; [reflexivity|].
    intros n Hn. apply reassign_files_holds; try assumption.
    eapply nth_error_In; eassumption.
Qed.

Lemma reassign_layer_exact_witness :
  NoDup (app_keys Examples.moved_manual_apps) /\
  PyDict.wf (related_overrides Examples.moved_manual) /\
  exists files,
    nth_error (_apply_related_overrides Examples.plain_norm
                 (related_overrides Examples.moved_manual)
                 Examples.moved_manual_apps) 1
      = Some (set_related Examples.app_b files) /\
    holds Examples.plain_norm files Examples.conf.
Proof.
  assert (Hnd : NoDup (app_keys Examples.moved_manual_apps)).
  { vm_compute. repeat constructor; simpl; intuition discriminate. }
  assert (Hwf : PyDict.wf (related_overrides Examples.moved_manual)).
  { vm_compute. repeat constructor; simpl; intuition discriminate. }
  split; [exact Hnd|]. split; [exact Hwf|].
  destruct (@reassign_layer_exact Examples.plain_norm
              (related_overrides Examples.moved_manual)
              Examples.moved_manual_apps 1 Examples.app_b Hnd Hwf eq_refl)
    as (files & H & Hholds).
  exists files. split; [exact H|].
  apply (Hholds Examples.conf); [discriminate|].
  split; [reflexivity|].
  exists (set_related Examples.app_c [Examples.found Examples.conf]).
  split; [right; right; now left|].
  exists (Examples.found Examples.conf). split; [now left | reflexivity].
Defined.

(** A path reassigned to a key that no listed application has is dropped
    by the reassignment layer from every list: no application keeps an
    entry at it. *)
Theorem reassign_unlisted_target_drops os_norm ov apps n t a :
  NoDup (app_keys apps) -> PyDict.wf ov ->
  PyDict.get ov n = Some t -> t <> "" -> ~ In t (app_keys apps) ->
  In a (_apply_related_overrides os_norm ov apps) ->
  ~ holds os_norm (related_files a) n.
Proof.
  intros Hnd Hwf Hg Ht Hnot Ha (r & Hr & En).
  destruct (apply_overrides_cases os_norm ov Hnd) as [[E Htriv]|(Hov & Hne & E)].
  - destruct Htriv as [->| ->]; [discriminate|].
    rewrite E in Ha. destruct Ha.
  - rewrite E in Ha. apply in_map_iff in Ha. destruct Ha as (a0 & <- & Ha0).
    rewrite related_set_related in Hr.
    assert (Hn : n <> "").
    { intros ->. rewrite reassign_files_collect in Hr. apply attaches_In in Hr.
      destruct Hr as [Hr|(n' & Hi & Hk & Hpl)].
      - simpl in Hr. apply collect_In in Hr. destruct Hr as (_ & Hok & _).
        unfold reassign_ok in Hok. rewrite En in Hok. discriminate.
      - destruct (path_lookup_sound Hpl) as (E1 & E2 & _). congruence. }
    assert (H : holds os_norm
                  (reassign_files os_norm ov (app_keys apps)
                     (build_path_lookup os_norm apps) (key a0) (related_files a0)) n)
      by now exists r.
    apply (@reassign_files_holds os_norm _ _ _ _ Hnd Hwf Ha0 Hn) in H. rewrite Hg in H.
    apply String.eqb_neq in Ht. rewrite Ht in H. destruct H as [-> _].
    apply Hnot. now apply in_map.
Qed.

Lemma reassign_unlisted_target_drops_witness :
  let ov := [(Examples.conf, key Examples.app_c)] in
  let apps := [set_related Examples.app_a [Examples.found Examples.conf]; Examples.app_b] in
  In Examples.app_a (_apply_related_overrides Examples.plain_norm ov apps) /\
  ~ holds Examples.plain_norm (related_files Examples.app_a) Examples.conf.
Proof.
  intros ov apps.
  assert (Hin : In Examples.app_a (_apply_related_overrides Examples.plain_norm ov apps)).
  { vm_compute. now left. }
  split; [exact Hin|].
  apply (@reassign_unlisted_target_drops Examples.plain_norm ov apps
           Examples.conf (key Examples.app_c) Examples.app_a).
  - vm_compute. repeat constructor; simpl; intuition discriminate.
  - vm_compute. repeat constructor. intros [].
  - reflexivity.
  - discriminate.
  - vm_compute. intros [H|[H|[]]]; discriminate.
  - exact Hin.
Defined.
(** ** The de-duplication of the scan, claim by claim *)

Section BestClaimFacts.

Variable host : Host.

Local Abbreviation snorm := (scan_norm host).

(** The claims in the order in which [_dedupe_related_files] visits them:
    the key of the claiming application with the entry. *)
Definition flat_claims (apps : list AppEntry) : list (string * RelatedFile) :=
  flat_map (fun a => map (fun r => (key a, r)) (related_files a)) apps.

Lemma flat_claims_In apps k r :
  In (k, r) (flat_claims apps) <->
  exists a, In a apps /\ key a = k /\ In r (related_files a).
Proof.
  unfold flat_claims. rewrite in_flat_map. split.
  - intros (a & Ha & H). apply in_map_iff in H. destruct H as (r' & E & Hr).
    inversion E; subst. now exists a.
  - intros (a & Ha & <- & Hr). exists a. split; [assumption|].
    apply in_map_iff. now exists r.
Qed.

Lemma build_best_flat apps :
  build_best_by_path host apps =
  fold_left (fun best kr => best_visit host (fst kr) best (snd kr)) (flat_claims apps) [].
Proof.
  unfold build_best_by_path, flat_claims. generalize (@nil (string * (Z * string))).
  induction apps as [|a apps IH]; intros best; [reflexivity|].
  simpl. rewrite fold_left_app, IH. f_equal.
  generalize best. induction (related_files a) as [|r l IHl]; intros b; [reflexivity|].
  simpl. apply IHl.
Qed.

(** What [best_by_path] knows after the claims [visited]. *)
Definition best_inv (visited : list (string * RelatedFile))
    (best : PyDict.dict (Z * string)) : Prop :=
  (forall n s k, PyDict.get best n = Some (s, k) ->
     (exists r, In (k, r) visited /\ path r <> "" /\ snorm r = n /\ claim_score r = s) /\
     (forall k' r', In (k', r') visited -> path r' <> "" -> snorm r' = n ->
                    (claim_score r' <= s)%Z)) /\
  (forall k r, In (k, r) visited -> path r <> "" -> PyDict.get best (snorm r) <> None).

Lemma best_inv_step visited best k r :
  best_inv visited best -> best_inv (visited ++ [(k, r)]) (best_visit host k best r).
Proof.
  intros [Hown Hall]. unfold best_visit.
  destruct (path r =? "") eqn:Ep.
  { apply String.eqb_eq in Ep. split.
    - intros n s k0 Hg. destruct (Hown _ _ _ Hg) as [(r0 & Hr0 & H0) Hmax]. split.
      + exists r0. split; [apply in_or_app; now left | assumption].
      + intros k' r' Hin Hp En. apply in_app_or in Hin.
        destruct Hin as [Hin|[E|[]]]; [now apply (Hmax k' r')|].
        inversion E; subst. contradiction.
    - intros k0 r0 Hin Hp. apply in_app_or in Hin.
      destruct Hin as [Hin|[E|[]]]; [now apply (Hall k0 r0)|].
      inversion E; subst. contradiction. }
  apply String.eqb_neq in Ep. fold (snorm r).
  assert (Hnew : forall s0,
            (match PyDict.get best (snorm r) with
             | Some (s1, _) => (s1 < claim_score r)%Z /\ s0 = s1
             | None => True
             end) ->
            best_inv (visited ++ [(k, r)])
                     (PyDict.set best (snorm r) (claim_score r, k))).
  { intros s0 Hs0. split.
    - intros n s k0 Hg. destruct (string_dec n (snorm r)) as [->|Hne].
      + rewrite get_set_same in Hg. inversion Hg; subst. split.
        * exists r. split; [apply in_or_app; right; now left | auto].
        * intros k' r' Hin Hp En. apply in_app_or in Hin.
          destruct Hin as [Hin|[E|[]]]; [|inversion E; subst; lia].
          pose proof (Hall _ _ Hin Hp) as Hsome. rewrite En in Hsome.
          destruct (PyDict.get best (snorm r)) as [[s1 k1]|] eqn:Hg1; [|congruence].
          destruct (Hown _ _ _ Hg1) as [_ Hmax].
          specialize (Hmax _ _ Hin Hp En). lia.
      + rewrite get_set_other in Hg by assumption.
        destruct (Hown _ _ _ Hg) as [(r0 & Hr0 & H0) Hmax]. split.
        * exists r0. split; [apply in_or_app; now left | assumption].
        * intros k' r' Hin Hp En. apply in_app_or in Hin.
          destruct Hin as [Hin|[E|[]]]; [now apply (Hmax k' r')|].
          inversion E; subst. congruence.
    - intros k0 r0 Hin Hp. destruct (string_dec (snorm r0) (snorm r)) as [->|Hne].
      + rewrite get_set_same. discriminate.
      + rewrite get_set_other by assumption. apply in_app_or in Hin.
        destruct Hin as [Hin|[E|[]]]; [now apply (Hall k0 r0)|].
        inversion E; subst. congruence. }
  destruct (PyDict.get best (snorm r)) as [[s1 k1]|] eqn:Hg1.
  2:{ apply (Hnew 0%Z). exact I. }
  destruct (s1 <? claim_score r)%Z eqn:Elt.
  { apply (Hnew s1). split; [now apply Z.ltb_lt | reflexivity]. }
  apply Z.ltb_ge in Elt. split.
  - intros n s k0 Hg. destruct (Hown _ _ _ Hg) as [(r0 & Hr0 & H0) Hmax]. split.
    + exists r0. split; [apply in_or_app; now left | assumption].
    + intros k' r' Hin Hp En. apply in_app_or in Hin.
      destruct Hin as [Hin|[E|[]]]; [now apply (Hmax k' r')|].
      inversion E; subst. rewrite Hg1 in Hg. inversion Hg; subst. assumption.
  - intros k0 r0 Hin Hp. apply in_app_or in Hin.
    destruct Hin as [Hin|[E|[]]]; [now apply (Hall k0 r0)|].
    inversion E; subst. congruence.
Qed.

Lemma best_inv_fold claims visited best :
  best_inv visited best ->
  best_inv (visited ++ claims)
           (fold_left (fun best kr => best_visit host (fst kr) best (snd kr)) claims best).
Proof.
  revert visited best. induction claims as [|[k r] claims IH]; intros visited best H.
  - now rewrite app_nil_r.
  - simpl. replace (visited ++ (k, r) :: claims) with ((visited ++ [(k, r)]) ++ claims)
      by now rewrite <- app_assoc.
    apply IH. now apply best_inv_step.
Qed.

Lemma build_best_inv apps : best_inv (flat_claims apps) (build_best_by_path host apps).
Proof.
  rewrite build_best_flat. apply (@best_inv_fold (flat_claims apps) [] []).
  split; [intros n s k Hg; discriminate | intros k r []].
Qed.

Lemma dedupe_ok_owner best k r :
  dedupe_ok host best k r = true <->
  path r <> "" /\ exists s, PyDict.get best (snorm r) = Some (s, k).
Proof.
  unfold dedupe_ok, scan_norm. rewrite andb_true_iff, nonempty_true.
  destruct (PyDict.get best (_normalize_path host (path r))) as [[s o]|].
  - rewrite String.eqb_eq. split.
    + intros [Hp ->]. eauto.
    + intros [Hp (s' & E)]. split; [assumption|congruence].
  - split; [intros [_ H]; discriminate | intros [_ (s' & E)]; discriminate].
Qed.

End BestClaimFacts.

(** A path claimed by some application (with a non-empty path) is kept by
    the de-duplication, and exactly by the application that made a
    highest-scoring claim on it: every other claim on the path scores no
    more than one of the claims of the keeper. *)
Theorem dedupe_highest_claim_wins host apps a0 r0 :
  NoDup (app_keys apps) ->
  In a0 apps -> In r0 (related_files a0) -> path r0 <> "" ->
  exists a1 r1,
    In a1 apps /\ In r1 (related_files a1) /\ path r1 <> "" /\
    scan_norm host r1 = scan_norm host r0 /\
    (forall a2 r2, In a2 apps -> In r2 (related_files a2) -> path r2 <> "" ->
       scan_norm host r2 = scan_norm host r0 ->
       (claim_score r2 <= claim_score r1)%Z) /\
    (forall a, In a (_dedupe_related_files host apps) ->
       ((exists r, In r (related_files a) /\ scan_norm host r = scan_norm host r0) <->
        key a = key a1)).
Proof.
  intros Hnd Ha0 Hr0 Hp0.
  destruct (build_best_inv host apps) as [Hown Hall].
  assert (Hflat0 : In (key a0, r0) (flat_claims apps)).
  { apply flat_claims_In. now exists a0. }
  destruct (PyDict.get (build_best_by_path host apps) (scan_norm host r0))
    as [[s k]|] eqn:Hg; [|now elim (Hall _ _ Hflat0 Hp0)].
  destruct (Hown _ _ _ Hg) as [(r1 & Hin1 & Hp1 & En1 & Es1) Hmax].
  apply flat_claims_In in Hin1. destruct Hin1 as (a1 & Ha1 & Hk1 & Hr1).
  exists a1, r1. repeat split; try assumption.
  - intros a2 r2 Ha2 Hr2 Hp2 En2. rewrite Es1.
    apply (Hmax (key a2) r2); try assumption. apply flat_claims_In. now exists a2.
  - intros (r & Hr & En). unfold _dedupe_related_files in H.
    destruct (build_best_by_path host apps) as [|e best] eqn:Eb; [discriminate|].
    apply in_map_iff in H. destruct H as (a' & <- & Ha').
    rewrite related_set_related in Hr. rewrite key_set_related.
    apply collect_In in Hr. destruct Hr as (_ & Hok & _).
    unfold dedupe_ok in Hok. apply andb_true_iff in Hok. destruct Hok as [_ Hok].
    unfold scan_norm in En, Hg. rewrite En, Hg in Hok.
    apply String.eqb_eq in Hok. congruence.
  - intros Hk. unfold _dedupe_related_files in H.
    destruct (build_best_by_path host apps) as [|e best] eqn:Eb; [discriminate|].
    apply in_map_iff in H. destruct H as (a' & <- & Ha').
    rewrite key_set_related in Hk. rewrite related_set_related.
    assert (a' = a1) by now apply (same_key_same_app Hnd). subst a'.
    assert (Hok : dedupe_ok host (e :: best) (key a1) r1 = true).
    { unfold dedupe_ok. apply andb_true_iff. split; [now apply nonempty_true|].
      unfold scan_norm in En1, Hg. rewrite En1, Hg. subst k. apply String.eqb_refl. }
    destruct (@collect_covers (dedupe_ok host (e :: best) (key a1))
                (fun r => _normalize_path host (path r)) [] _ r1 Hr1 Hok (fun x => x))
      as (r' & Hr' & Er').
    exists r'. split; [assumption|]. unfold scan_norm in *. congruence.
Qed.

Lemma dedupe_highest_claim_wins_witness :
  NoDup (app_keys Examples.contested) /\
  exists a1 r1,
    In a1 Examples.contested /\ In r1 (related_files a1) /\ path r1 <> "" /\
    scan_norm Examples.plain_host r1
      = scan_norm Examples.plain_host (Examples.found Examples.conf) /\
    (forall a2 r2, In a2 Examples.contested -> In r2 (related_files a2) ->
       path r2 <> "" ->
       scan_norm Examples.plain_host r2
         = scan_norm Examples.plain_host (Examples.found Examples.conf) ->
       (claim_score r2 <= claim_score r1)%Z) /\
    (forall a, In a (_dedupe_related_files Examples.plain_host Examples.contested) ->
       ((exists r, In r (related_files a) /\
                   scan_norm Examples.plain_host r
                     = scan_norm Examples.plain_host (Examples.found Examples.conf)) <->
        key a = key a1)).
Proof.
  assert (Hnd : NoDup (app_keys Examples.contested)).
  { vm_compute. repeat constructor; simpl; intuition discriminate. }
  split; [exact Hnd|].
  apply (@dedupe_highest_claim_wins Examples.plain_host Examples.contested
           (set_related Examples.app_a [Examples.found Examples.conf])
           (Examples.found Examples.conf) Hnd).
  - now left.
  - now left.
  - discriminate.
Defined.

(** De-duplicating a de-duplicated result changes nothing. *)
Theorem dedupe_idempotent host apps :
  _dedupe_related_files host (_dedupe_related_files host apps) =
  _dedupe_related_files host apps.
Proof.
  destruct (build_best_by_path host apps) as [|e best] eqn:Eb.
  { assert (E : _dedupe_related_files host apps = apps).
    { unfold _dedupe_related_files. now rewrite Eb. }
    now rewrite !E. }
  assert (E : _dedupe_related_files host apps =
              map (fun a => set_related a
                     (collect (dedupe_ok host (e :: best) (key a))
                              (fun r => _normalize_path host (path r)) []
                              (related_files a))) apps).
  { unfold _dedupe_related_files. now rewrite Eb. }
  rewrite E. set (out := map _ apps).
  unfold _dedupe_related_files.
  destruct (build_best_by_path host out) as [|e' best'] eqn:Eb'; [reflexivity|].
  apply refile_same. intros a Ha.
  destruct (build_best_inv host out) as [Hown Hall]. rewrite Eb' in Hown, Hall.
  assert (Hout : forall b r, In b out -> In r (related_files b) ->
                 dedupe_ok host (e :: best) (key b) r = true).
  { intros b r Hb Hr. apply in_map_iff in Hb. destruct Hb as (b0 & <- & _).
    rewrite related_set_related in Hr. rewrite key_set_related.
    now apply collect_In in Hr. }
  apply collect_fixed.
  - intros r Hr.
    destruct (proj1 (dedupe_ok_owner _ _ _ _) (Hout _ _ Ha Hr)) as [Hp (s0 & Hg0)].
    apply dedupe_ok_owner. split; [assumption|].
    assert (Hflat : In (key a, r) (flat_claims out)).
    { apply flat_claims_In. now exists a. }
    destruct (PyDict.get (e' :: best') (scan_norm host r))
      as [[s' k']|] eqn:Hg'; [|now elim (Hall _ _ Hflat Hp)].
    destruct (Hown _ _ _ Hg') as [(r1 & Hin1 & Hp1 & En1 & _) _].
    apply flat_claims_In in Hin1. destruct Hin1 as (a1 & Ha1 & Hk1 & Hr1).
    destruct (proj1 (dedupe_ok_owner _ _ _ _) (Hout _ _ Ha1 Hr1)) as [_ (s1 & Hg1)].
    rewrite En1 in Hg1. exists s'. congruence.
  - intros r _ [].
  - apply in_map_iff in Ha. destruct Ha as (a0 & <- & _).
    rewrite related_set_related. apply collect_NoDup.
Qed.

(** ** The deep scan, entry by entry *)

Section DeepInvariant.

Variable host : Host.
Variable fuzzy_score : string -> string -> list string -> string -> list string -> Z.
Variable limits : DeepScanLimits.
Variables (cleaned_name cleaned_pub : string) (tokens_name tokens_pub : list string).
Variable ignored_set : list string.
Variable deadline : option Z.

Local Abbreviation fz :=
  (fuzzy fuzzy_score cleaned_name cleaned_pub tokens_name tokens_pub).

(** The two entries that the walk appends. *)
Definition deep_file (current filename : string) : RelatedFile :=
  mkRelated (OsPath.join current filename) "file" "deep_scan"
            (_confidence_from_score (fz (_cleaned filename))) ""
            (fz (_cleaned filename)).

Definition deep_dir (current : string) : RelatedFile :=
  mkRelated current "dir" "deep_scan"
            (_confidence_from_score (fz (_cleaned (OsPath.basename current)))) ""
            (fz (_cleaned (OsPath.basename current))).

(** [P] holds of the results and of the set [seen] whenever the walk goes
    on, [Q] of the results whenever it may return them. *)
Variable P : list RelatedFile -> list string -> Prop.
Variable Q : list RelatedFile -> Prop.

Hypothesis P_file : forall res sn current filename,
  P res sn ->
  (len res < dl_max_files limits)%Z ->
  (file_threshold limits <= fz (_cleaned filename))%Z ->
  ~ In (_normalize_path host (OsPath.join current filename)) ignored_set ->
  ~ In (_normalize_path host (OsPath.join current filename)) sn ->
  P (res ++ [deep_file current filename])
    (_normalize_path host (OsPath.join current filename) :: sn).

Hypothesis P_dir : forall res sn current,
  P res sn ->
  (dir_threshold limits <= fz (_cleaned (OsPath.basename current)))%Z ->
  ~ In (_normalize_path host current) ignored_set ->
  ~ In (_normalize_path host current) sn ->
  Q (res ++ [deep_dir current]) /\
  ((len (res ++ [deep_dir current]) < dl_max_dirs limits)%Z ->
   P (res ++ [deep_dir current]) (_normalize_path host current :: sn)).

Hypothesis P_Q : forall res sn, P res sn -> Q res.

Definition deep_P (st : DeepState) : Prop := P (results st) (seen st).

Lemma deep_files_loop_keeps current files st :
  deep_P st ->
  match deep_files_loop host fuzzy_score limits cleaned_name cleaned_pub
          tokens_name tokens_pub ignored_set current st files with
  | Go st' => deep_P st'
  | Halt r => Q r
  end.
Proof.
  revert st. induction files as [|filename files IH]; intros st HP;
    cbn [deep_files_loop]; [exact HP|].
  destruct (dl_max_files limits <=? len (results st))%Z eqn:Efull;
    [exact (P_Q HP)|].
  destruct (negb _ && negb _); [now apply IH|].
  destruct (_ <? file_threshold limits)%Z eqn:Elow; [now apply IH|].
  destruct (PyStr.mem _ ignored_set || PyStr.mem _ (seen st)) eqn:Eseen;
    [now apply IH|].
  apply orb_false_iff in Eseen. destruct Eseen as [Ei Es].
  apply mem_false in Ei. apply mem_false in Es.
  apply Z.leb_gt in Efull. apply Z.ltb_ge in Elow.
  apply IH. unfold deep_P. cbn [results seen]. now apply (@P_file _ _ current filename).
Qed.

Lemma past_deadline_keeps st :
  deep_P st -> deep_P (snd (past_deadline host deadline st)).
Proof.
  unfold past_deadline. destruct deadline as [d|]; [|auto].
  destruct (d =? 0)%Z; auto.
Qed.

Lemma deep_body_keeps root_depth st current files :
  deep_P st ->
  match deep_body host fuzzy_score limits cleaned_name cleaned_pub tokens_name
          tokens_pub ignored_set deadline root_depth st current files with
  | Go (st', _) => deep_P st'
  | Halt r => Q r
  end.
Proof.
  intros HP. unfold deep_body.
  pose proof (past_deadline_keeps HP) as HP1.
  destruct (past_deadline host deadline st) as [late st1]. cbn [snd] in HP1.
  destruct late; [exact (P_Q HP1)|].
  destruct (PyStr.mem (_normalize_path host current) ignored_set) eqn:Ei;
    [exact HP1|].
  destruct (dir_threshold limits <=? _)%Z eqn:Eth; [|exact HP1].
  destruct (PyStr.mem (_normalize_path host current) (seen st1)) eqn:Eseen.
  - pose proof (@deep_files_loop_keeps current files st1 HP1) as H.
    destruct (deep_files_loop _ _ _ _ _ _ _ _ _ _ _); assumption.
  - apply mem_false in Ei. apply mem_false in Eseen. apply Z.leb_le in Eth.
    destruct (@P_dir _ _ current HP1 Eth Ei Eseen) as [HQ HP2].
    cbn [results].
    fold (deep_dir current).
    destruct (dl_max_dirs limits <=? len (results st1 ++ [deep_dir current]))%Z
      eqn:Efull; [exact HQ|].
    apply Z.leb_gt in Efull.
    match goal with
    | |- context [deep_files_loop _ _ _ _ _ _ _ _ _ ?s _] =>
        pose proof (@deep_files_loop_keeps current files s (HP2 Efull)) as H
    end.
    destruct (deep_files_loop _ _ _ _ _ _ _ _ _ _ _); assumption.
Qed.

Lemma deep_roots_keeps st roots :
  deep_P st ->
  Q (deep_roots host fuzzy_score limits cleaned_name cleaned_pub tokens_name
                tokens_pub ignored_set deadline st roots).
Proof.
  revert st. induction roots as [|root roots IH]; intros st HP;
    cbn [deep_roots]; [exact (P_Q HP)|].
  destruct ((root =? "") || negb (isdir host root)); [now apply IH|].
  assert (Hwalk :
    match match walk host root with
          | None => Go st
          | Some t =>
              walk_fold (deep_body host fuzzy_score limits cleaned_name cleaned_pub
                           tokens_name tokens_pub ignored_set deadline
                           (OsPath.depth_of (_normalize_path host root))) t st
          end with
    | Go st' => deep_P st'
    | Halt r => Q r
    end).
  { destruct (walk host root) as [t|]; [|exact HP].
    apply (walk_fold_invariant (P := deep_P) (Q := Q)); [|exact HP].
    intros s current files Hs. now apply deep_body_keeps. }
  destruct (match walk host root with None => _ | Some _ => _ end) as [st1|r];
    [|exact Hwalk].
  pose proof (past_deadline_keeps Hwalk) as HP2.
  destruct (past_deadline host deadline st1) as [late st2]. cbn [snd] in HP2.
  destruct late; [exact (P_Q HP2) | now apply IH].
Qed.

End DeepInvariant.

(** A property kept by the two appends of the walk holds of the result of
    [deep_scan_for_app]. *)
Lemma deep_scan_keeps host fuzzy_score app roots limits ignored
    (P : list RelatedFile -> list string -> Prop) (Q : list RelatedFile -> Prop) :
  let fz := fuzzy fuzzy_score (_cleaned (name app)) (_cleaned (publisher app))
                  (_tokens (name app)) (_tokens (publisher app)) in
  let ignored_set := map (_normalize_path host) (filter PyStr.nonempty ignored) in
  let file_of := deep_file fuzzy_score (_cleaned (name app)) (_cleaned (publisher app))
                           (_tokens (name app)) (_tokens (publisher app)) in
  let dir_of := deep_dir fuzzy_score (_cleaned (name app)) (_cleaned (publisher app))
                         (_tokens (name app)) (_tokens (publisher app)) in
  (forall res sn current filename,
      P res sn ->
      (len res < dl_max_files limits)%Z ->
      (file_threshold limits <= fz (_cleaned filename))%Z ->
      ~ In (_normalize_path host (OsPath.join current filename)) ignored_set ->
      ~ In (_normalize_path host (OsPath.join current filename)) sn ->
      P (res ++ [file_of current filename])
        (_normalize_path host (OsPath.join current filename) :: sn)) ->
  (forall res sn current,
      P res sn ->
      (dir_threshold limits <= fz (_cleaned (OsPath.basename current)))%Z ->
      ~ In (_normalize_path host current) ignored_set ->
      ~ In (_normalize_path host current) sn ->
      Q (res ++ [dir_of current]) /\
      ((len (res ++ [dir_of current]) < dl_max_dirs limits)%Z ->
       P (res ++ [dir_of current]) (_normalize_path host current :: sn))) ->
  (forall res sn, P res sn -> Q res) ->
  P [] [] ->
  Q (deep_scan_for_app host fuzzy_score app roots limits ignored).
Proof.
  intros fz ignored_set file_of dir_of Hfile Hdir HPQ H0.
  unfold deep_scan_for_app.
  destruct roots as [|root roots]; [exact (HPQ _ _ H0)|].
  assert (Hscan : forall t,
    Q (deep_roots host fuzzy_score limits (_cleaned (name app))
         (_cleaned (publisher app)) (_tokens (name app)) (_tokens (publisher app))
         ignored_set
         (if (dl_max_seconds limits =? 0)%Z then None
          else Some (clock host 0 + dl_max_seconds limits)%Z)
         (mkDeep [] [] t) (root :: roots))).
  { intros t.
    apply (@deep_roots_keeps host fuzzy_score limits _ _ _ _ ignored_set _ P Q
             Hfile Hdir HPQ). exact H0. }
  destruct (_tokens (name app)), (_tokens (publisher app)),
    (_cleaned (name app) =? ""), (_cleaned (publisher app) =? "");
    try exact (HPQ _ _ H0); apply Hscan.
Qed.

(** The entries of a deep scan have pairwise distinct normalized paths,
    and none of them is at the normalized form of an ignored path. *)
Theorem deep_scan_distinct_not_ignored host fuzzy_score app roots limits ignored :
  let found := deep_scan_for_app host fuzzy_score app roots limits ignored in
  NoDup (map (scan_norm host) found) /\
  Forall (fun r => Forall (fun p => p = "" \/ scan_norm host r <> _normalize_path host p)
                          ignored) found.
Proof.
  cbv zeta.
  set (ignored_set := map (_normalize_path host) (filter PyStr.nonempty ignored)).
  set (P := fun (res : list RelatedFile) (sn : list string) =>
              NoDup (map (scan_norm host) res) /\
              (forall r, In r res -> In (scan_norm host r) sn) /\
              (forall r, In r res -> ~ In (scan_norm host r) ignored_set)).
  set (Q := fun (res : list RelatedFile) =>
              NoDup (map (scan_norm host) res) /\
              (forall r, In r res -> ~ In (scan_norm host r) ignored_set)).
  assert (Hadd : forall res sn e,
             P res sn -> ~ In (scan_norm host e) ignored_set ->
             ~ In (scan_norm host e) sn ->
             P (res ++ [e]) (scan_norm host e :: sn)).
  { intros res sn e (Hnd & Hsn & Hig) Hi Hs. repeat split.
    - rewrite map_app. simpl. apply NoDup_app; [assumption | repeat constructor; intros [] |].
      intros x Hx [<-|[]]. apply in_map_iff in Hx. destruct Hx as (r & E & Hr).
      apply Hs. rewrite <- E. now apply Hsn.
    - intros r Hr. apply in_app_or in Hr. destruct Hr as [Hr|[<-|[]]];
        [right; now apply Hsn | now left].
    - intros r Hr. apply in_app_or in Hr. destruct Hr as [Hr|[<-|[]]];
        [now apply Hig | assumption]. }
  assert (HPQ : forall res sn, P res sn -> Q res).
  { intros res sn (Hnd & _ & Hig). now split. }
  assert (HQ : Q (deep_scan_for_app host fuzzy_score app roots limits ignored)).
  { apply (@deep_scan_keeps host fuzzy_score app roots limits ignored P Q).
    - intros res sn current filename HP _ _ Hi Hs. now apply (Hadd res sn).
    - intros res sn current HP _ Hi Hs.
      assert (HP' : P (res ++ [deep_dir fuzzy_score (_cleaned (name app))
                                 (_cleaned (publisher app)) (_tokens (name app))
                                 (_tokens (publisher app)) current])
                      (_normalize_path host current :: sn))
        by now apply (Hadd res sn).
      split; [exact (HPQ _ _ HP') | intros _; exact HP'].
    - exact HPQ.
    - repeat split; [constructor | intros r [] | intros r []]. }
  destruct HQ as [Hnd Hig]. split; [assumption|].
  apply Forall_forall. intros r Hr. apply Forall_forall. intros p Hp.
  destruct (string_dec p "") as [->|Hne]; [now left|]. right.
  intros E. apply (Hig r Hr). rewrite E. unfold ignored_set.
  apply in_map. apply filter_In. split; [assumption|]. now apply nonempty_true.
Qed.

(** Every entry of a deep scan has source [deep_scan], no mark, a score
    that meets the threshold of its kind, and the confidence tier of that
    score. *)
Theorem deep_scan_entries_scored host fuzzy_score app roots limits ignored :
  Forall
    (fun r =>
       source r = "deep_scan" /\ marked r = "" /\
       confidence r = _confidence_from_score (score r) /\
       ((kind r = "dir" /\ (dir_threshold limits <= score r)%Z) \/
        (kind r = "file" /\ (file_threshold limits <= score r)%Z)))
    (deep_scan_for_app host fuzzy_score app roots limits ignored).
Proof.
  set (ok := fun r =>
       source r = "deep_scan" /\ marked r = "" /\
       confidence r = _confidence_from_score (score r) /\
       ((kind r = "dir" /\ (dir_threshold limits <= score r)%Z) \/
        (kind r = "file" /\ (file_threshold limits <= score r)%Z))).
  apply (@deep_scan_keeps host fuzzy_score app roots limits ignored
           (fun res _ => Forall ok res) (Forall ok)).
  - intros res sn current filename HP _ Hth _ _.
    apply Forall_app. split; [assumption|]. constructor; [|constructor].
    unfold ok, deep_file. cbn. repeat split. right. now split.
  - intros res sn current HP Hth _ _.
    assert (H : Forall ok
                  (res ++ [deep_dir fuzzy_score (_cleaned (name app))
                             (_cleaned (publisher app)) (_tokens (name app))
                             (_tokens (publisher app)) current])).
    { apply Forall_app. split; [assumption|]. constructor; [|constructor].
      unfold ok, deep_dir. cbn. repeat split. left. now split. }
    split; [exact H | intros _; exact H].
  - auto.
  - constructor.
Qed.

(** A deep scan returns at most one entry more than the larger of its
    file ceiling and of its directory ceiling less one. *)
Theorem deep_scan_total_bound host fuzzy_score app roots limits ignored :
  (len (deep_scan_for_app host fuzzy_score app roots limits ignored) <=
   Z.max (dl_max_files limits) (Z.max (dl_max_dirs limits - 1) 0) + 1)%Z.
Proof.
  set (M := Z.max (dl_max_files limits) (Z.max (dl_max_dirs limits - 1) 0)).
  assert (Hlen : forall (res : list RelatedFile) e, len (res ++ [e]) = (len res + 1)%Z).
  { intros res e. unfold len. rewrite length_app. simpl. lia. }
  apply (@deep_scan_keeps host fuzzy_score app roots limits ignored
           (fun res _ => (len res <= M)%Z) (fun res => (len res <= M + 1)%Z)).
  - intros res sn current filename HP Hlt _ _ _. rewrite Hlen. unfold M. lia.
  - intros res sn current HP _ _ _. rewrite Hlen. split; [lia | unfold M; lia].
  - intros res sn HP. lia.
  - unfold len, M. simpl. lia.
Qed.

(** With [max_seconds = 0] the deep scan has no time budget: it never
    reads the clock, and returns the same entries whatever the clock
    says. *)
Theorem deep_scan_zero_seconds_unlimited host fuzzy_score app roots limits ignored
    (clock' : nat -> Z) :
  dl_max_seconds limits = 0%Z ->
  deep_scan_for_app
    (mkHost (os_norm host) (abspath host) (isdir host) (isfile host) (dirname host)
            (expandvars host) (default_roots host) (list_dirs host) (walk host) clock')
    fuzzy_score app roots limits ignored =
  deep_scan_for_app host fuzzy_score app roots limits ignored.
Proof.
  intros Hz. unfold deep_scan_for_app. rewrite Hz. simpl (0 =? 0)%Z. cbv iota.
  reflexivity.
Qed.

Lemma deep_scan_zero_seconds_unlimited_witness :
  let limits := mkDeepLimits 2000 5000 5 0 68 72 in
  let host := DeepExamples.hundred_files in
  dl_max_seconds limits = 0%Z /\
  deep_scan_for_app
    (mkHost (os_norm host) (abspath host) (isdir host) (isfile host) (dirname host)
            (expandvars host) (default_roots host) (list_dirs host) (walk host)
            (fun n => Z.of_nat n))
    DeepExamples.exact_score DeepExamples.foo_ini [DeepExamples.root] limits [] =
  deep_scan_for_app host DeepExamples.exact_score DeepExamples.foo_ini
    [DeepExamples.root] limits [].
Proof.
  intros limits host. split; [reflexivity|].
  exact (@deep_scan_zero_seconds_unlimited host DeepExamples.exact_score
           DeepExamples.foo_ini [DeepExamples.root] limits [] (fun n => Z.of_nat n)
           eq_refl).
Defined.

(** ** The heuristic scan of one application *)

Section ScanBounds.

Variable host : Host.

Local Abbreviation snorm := (scan_norm host).

Definition candidate_norm (c : Candidate) : string := _normalize_path host (fst (fst c)).

(** *** The candidate directories *)

Lemma root_candidates_spec md classify index candidates seen_dirs :
  NoDup (map candidate_norm candidates) ->
  (forall c, In c candidates -> In (candidate_norm c) seen_dirs) ->
  let out := root_candidates host md classify index candidates seen_dirs in
  NoDup (map candidate_norm out) /\
  (len out <= Z.max md (len candidates + 1))%Z.
Proof.
  revert candidates seen_dirs.
  induction index as [|[[p src] name_cf] index IH]; intros candidates seen_dirs Hnd Hseen;
    cbn [root_candidates].
  - split; [assumption | lia].
  - destruct (classify name_cf) as [conf|]; [|now apply IH].
    destruct (PyStr.mem (_normalize_path host p) seen_dirs) eqn:Em; [now apply IH|].
    apply mem_false in Em.
    assert (Hnd' : NoDup (map candidate_norm (candidates ++ [(p, src, conf)]))).
    { rewrite map_app. apply NoDup_app; [assumption | repeat constructor; intros [] |].
      intros x Hx [<-|[]]. apply in_map_iff in Hx. destruct Hx as (c & E & Hc).
      apply Em. unfold candidate_norm in E. cbn [fst] in E. rewrite <- E.
      now apply Hseen. }
    assert (Hlen : len (candidates ++ [(p, src, conf)]) = (len candidates + 1)%Z).
    { unfold len. rewrite length_app. simpl. lia. }
    destruct (md <=? len (candidates ++ [(p, src, conf)]))%Z eqn:Efull.
    + cbv zeta. split; [assumption | lia].
    + apply Z.leb_gt in Efull.
      destruct (IH (candidates ++ [(p, src, conf)]) (_normalize_path host p :: seen_dirs))
        as [H1 H2]; [assumption | |].
      * intros c Hc. apply in_app_or in Hc. destruct Hc as [Hc|[<-|[]]];
          [right; now apply Hseen | now left].
      * cbv zeta in *. split; [assumption | lia].
Qed.

(** *** The entries made of the candidates *)

Lemma candidate_files_spec mf src conf seen_files files :
  let out := candidate_files host mf src conf seen_files files in
  Forall (fun r => kind r = "file") (fst out) /\
  NoDup (map snorm (fst out)) /\
  (forall r, In r (fst out) -> ~ In (snorm r) seen_files) /\
  (forall n, In n (snd out) <-> In n seen_files \/ In n (map snorm (fst out))) /\
  len (snd out) = (len seen_files + len (fst out))%Z /\
  (len (snd out) <= Z.max mf (len seen_files))%Z.
Proof.
  cbv zeta. revert seen_files.
  induction files as [|fp files IH]; intros seen_files; cbn [candidate_files].
  - cbn [fst snd]. repeat split; try constructor; try (intros r []); unfold len; simpl;
      try lia; tauto.
  - destruct (mf <=? len seen_files)%Z eqn:Efull.
    { cbn [fst snd]. repeat split; try constructor; try (intros r []); unfold len; simpl;
        try lia; tauto. }
    destruct (PyStr.mem (_normalize_path host fp) seen_files) eqn:Em; [apply IH|].
    apply mem_false in Em. apply Z.leb_gt in Efull.
    specialize (IH (_normalize_path host fp :: seen_files)).
    destruct (candidate_files host mf src conf (_normalize_path host fp :: seen_files) files)
      as [more seen'].
    cbn [fst snd] in *. destruct IH as (Hk & Hnd & Hnew & Hseen & Hlen & Hcap).
    assert (Hl : len (_normalize_path host fp :: seen_files) = (len seen_files + 1)%Z).
    { unfold len. cbn [List.length]. lia. }
    match goal with
    | |- context [?e0 :: more] => set (e := e0)
    end.
    assert (He : snorm e = _normalize_path host fp) by reflexivity.
    repeat split.
    + constructor; [reflexivity | assumption].
    + cbn [map]. rewrite He. constructor; [|assumption]. intros Hin.
      apply in_map_iff in Hin. destruct Hin as (r & E & Hr).
      apply (Hnew r Hr). left. now rewrite E.
    + intros r [<-|Hr]; [now rewrite He|]. intros Hin. apply (Hnew r Hr). now right.
    + intros Hn. apply Hseen in Hn. cbn [map In] in *. rewrite He. tauto.
    + intros Hn. apply Hseen. cbn [map In] in *. rewrite He in Hn. tauto.
    + rewrite Hlen, Hl. unfold len. cbn [List.length]. lia.
    + lia.
Qed.

Lemma expand_candidates_spec include_files sc seen_files candidates :
  NoDup (map candidate_norm candidates) ->
  let out := fst (expand_candidates host include_files sc seen_files candidates) in
  NoDup (map snorm (filter is_dir out)) /\
  (forall r, In r (filter is_dir out) ->
             exists c, In c candidates /\ snorm r = candidate_norm c) /\
  (dir_entries out <= List.length candidates)%nat /\
  NoDup (map snorm (filter is_file out)) /\
  (forall r, In r (filter is_file out) -> ~ In (snorm r) seen_files) /\
  (len seen_files + Z.of_nat (file_entries out) <= Z.max (max_files sc) (len seen_files))%Z.
Proof.
  cbv zeta. revert sc seen_files.
  induction candidates as [|[[p src] conf] rest IH]; intros sc seen_files Hnd.
  { cbn. repeat split; try constructor; try (intros r []); lia. }
  cbn [map] in Hnd. inversion Hnd as [|? ? Hhead Hrest]; subst.
  cbn [expand_candidates].
  set (d := mkRelated p "dir" src conf "" (_score_related src conf false)).
  assert (Hd : snorm d = candidate_norm (p, src, conf)) by reflexivity.
  assert (Hdirs : forall more,
            (forall r, In r (filter is_dir more) ->
                       exists c, In c rest /\ snorm r = candidate_norm c) ->
            NoDup (map snorm (filter is_dir more)) ->
            NoDup (map snorm (d :: filter is_dir more)) /\
            (forall r, In r (d :: filter is_dir more) ->
                       exists c, In c ((p, src, conf) :: rest) /\
                                 snorm r = candidate_norm c)).
  { intros more Hfrom Hndm. split.
    - cbn [map]. constructor; [|assumption]. intros Hin.
      apply in_map_iff in Hin. destruct Hin as (r & E & Hr).
      destruct (Hfrom r Hr) as (c & Hc & Ec). apply Hhead.
      apply in_map_iff. exists c. split; [congruence | assumption].
    - intros r [<-|Hr]; [exists (p, src, conf); split; [now left | assumption]|].
      destruct (Hfrom r Hr) as (c & Hc & Ec). exists c. split; [now right | assumption]. }
  destruct include_files; cbn [negb].
  - destruct (_config_files_for_root host sc p) as [files sc1] eqn:Ecf.
    assert (Hmf : max_files sc1 = max_files sc).
    { unfold _config_files_for_root in Ecf.
      destruct (PyDict.get (_config_cache sc) (_normalize_path host p));
        inversion Ecf; reflexivity. }
    pose proof (candidate_files_spec (max_files sc) src conf seen_files files) as Hcf.
    destruct (candidate_files host (max_files sc) src conf seen_files files)
      as [found seen']. cbv zeta in Hcf. cbn [fst snd] in Hcf.
    destruct Hcf as (Hk & Hndf & Hnew & Hseen & Hlen & Hcap).
    assert (Hfd : filter is_dir found = []).
    { clear -Hk. induction Hk as [|r l Hr _ IHl]; [reflexivity|].
      cbn [filter]. unfold is_dir at 1. now rewrite Hr. }
    assert (Hff : filter is_file found = found).
    { clear -Hk. induction Hk as [|r l Hr _ IHl]; [reflexivity|].
      cbn [filter]. unfold is_file at 1. rewrite Hr. cbn. now rewrite IHl. }
    assert (Hfl : Z.of_nat (List.length found) = len found) by reflexivity.
    destruct (max_files sc <=? len seen')%Z.
    + cbn [fst]. cbn [filter]. change (is_dir d) with true. change (is_file d) with false.
      cbv iota. rewrite Hfd, Hff.
      destruct (Hdirs [] (fun r (H : In r []) => match H with end) (NoDup_nil _))
        as [H1 H2].
      unfold dir_entries, file_entries. cbn [filter]. change (is_dir d) with true.
      change (is_file d) with false. cbv iota. rewrite Hfd, Hff.
      repeat split; try assumption. { cbn. lia. } { rewrite Hfl. lia. }
    + specialize (IH sc1 seen' Hrest).
      destruct (expand_candidates host true sc1 seen' rest) as [more sc2].
      cbn [fst] in *.
      destruct IH as (Hnd1 & Hfrom & Hcount & Hnd2 & Hnew2 & Hcap2).
      rewrite Hmf in Hcap2.
      assert (Efd : filter is_dir (d :: found ++ more) = d :: filter is_dir more).
      { cbn [filter]. change (is_dir d) with true. cbv iota.
        now rewrite filter_app, Hfd. }
      assert (Eff : filter is_file (d :: found ++ more) = found ++ filter is_file more).
      { cbn [filter]. change (is_file d) with false. cbv iota.
        now rewrite filter_app, Hff. }
      unfold dir_entries, file_entries in *. rewrite Efd, Eff.
      destruct (Hdirs more Hfrom Hnd1) as [H1 H2].
      repeat split; try assumption.
      * cbn [List.length]. lia.
      * rewrite map_app. apply NoDup_app; try assumption.
        intros x Hx Hy. apply in_map_iff in Hy. destruct Hy as (r & E & Hr).
        apply (Hnew2 r Hr). apply Hseen. right. now rewrite E.
      * intros r Hr. apply in_app_or in Hr. destruct Hr as [Hr|Hr]; [now apply Hnew|].
        intros Hin. apply (Hnew2 r Hr). apply Hseen. now left.
      * rewrite length_app, Nat2Z.inj_add, Hfl. lia.
  - specialize (IH sc seen_files Hrest).
    destruct (expand_candidates host false sc seen_files rest) as [more sc2].
    cbn [fst] in *.
    destruct IH as (Hnd1 & Hfrom & Hcount & Hnd2 & Hnew2 & Hcap2).
    assert (Efd : filter is_dir (d :: more) = d :: filter is_dir more).
    { cbn [filter]. now change (is_dir d) with true. }
    assert (Eff : filter is_file (d :: more) = filter is_file more).
    { cbn [filter]. now change (is_file d) with false. }
    unfold dir_entries, file_entries in *. rewrite Efd, Eff.
    destruct (Hdirs more Hfrom Hnd1) as [H1 H2].
    repeat split; try assumption. cbn [List.length]. lia.
Qed.

Lemma build_root_index_limits sc deep_scan extra_roots :
  max_files (snd (build_root_index host sc deep_scan extra_roots)) = max_files sc /\
  max_dirs (snd (build_root_index host sc deep_scan extra_roots)) = max_dirs sc.
Proof.
  unfold build_root_index.
  destruct (match _root_index sc with [] => _ | _ :: _ => _ end); split; reflexivity.
Qed.

(** The candidates of [scan_for_app], with the scanner that expands them. *)
Lemma scan_for_app_candidates sc app deep_scan include_files root_index extra_roots :
  fst (scan_for_app host sc app deep_scan include_files root_index extra_roots) = [] \/
  exists sc1 candidates,
    fst (scan_for_app host sc app deep_scan include_files root_index extra_roots) =
    fst (expand_candidates host include_files sc1 [] candidates) /\
    max_files sc1 = max_files sc /\
    NoDup (map candidate_norm candidates) /\
    (len candidates <= Z.max (max_dirs sc) 2)%Z.
Proof.
  unfold scan_for_app.
  set (loc0 := _clean_path host (install_location app)).
  set (loc1 := if PyStr.nonempty loc0 && isfile host loc0 then dirname host loc0 else loc0).
  set (declared := PyStr.nonempty loc1 && isdir host loc1).
  set (candidates0 := if declared then [(loc1, "install_location", "High")] else []).
  set (seen_dirs0 := if declared then [_normalize_path host loc1] else []).
  assert (H0 : NoDup (map candidate_norm candidates0) /\
               (forall c, In c candidates0 -> In (candidate_norm c) seen_dirs0) /\
               (len candidates0 <= 1)%Z).
  { unfold candidates0, seen_dirs0. destruct declared; cbn.
    - repeat split; [repeat constructor; intros [] | | lia].
      intros c [<-|[]]. now left.
    - repeat split; [constructor | intros c [] | lia]. }
  destruct H0 as (Hnd0 & Hseen0 & Hlen0).
  assert (Hmain :
    exists sc1 candidates,
      (let '(candidates, sc1) :=
         if deep_scan || negb (match extra_roots with [] => true | _ :: _ => false end)
         then
           let '(index, sc') :=
             match root_index with
             | Some index => (index, sc)
             | None => build_root_index host sc deep_scan extra_roots
             end in
           (root_candidates host (max_dirs sc)
              (classify_root (_cleaned (name app)) (_cleaned (publisher app))
                 (_tokens (name app)) (_tokens (publisher app)))
              index candidates0 seen_dirs0, sc')
         else (candidates0, sc) in
       expand_candidates host include_files sc1 [] candidates) =
      expand_candidates host include_files sc1 [] candidates /\
      max_files sc1 = max_files sc /\
      NoDup (map candidate_norm candidates) /\
      (len candidates <= Z.max (max_dirs sc) 2)%Z).
  { destruct (deep_scan || negb _).
    - assert (Hidx : exists index sc',
                match root_index with
                | Some index => (index, sc)
                | None => build_root_index host sc deep_scan extra_roots
                end = (index, sc') /\ max_files sc' = max_files sc).
      { destruct root_index as [index|]; [now exists index, sc|].
        destruct (build_root_index host sc deep_scan extra_roots) as [index sc'] eqn:E.
        exists index, sc'. split; [reflexivity|].
        pose proof (build_root_index_limits sc deep_scan extra_roots) as [H _].
        now rewrite E in H. }
      destruct Hidx as (index & sc' & -> & Hmf).
      destruct (root_candidates_spec (max_dirs sc)
                  (classify_root (_cleaned (name app)) (_cleaned (publisher app))
                     (_tokens (name app)) (_tokens (publisher app)))
                  index Hnd0 Hseen0) as [H1 H2].
      eexists sc', _. split; [reflexivity|]. repeat split; try assumption.
      cbv zeta in H2. unfold Candidate in *. lia.
    - exists sc, candidates0. split; [reflexivity|]. repeat split; try assumption.
      unfold Candidate in *. lia. }
  destruct Hmain as (sc1 & candidates & E & Hmf & Hnd & Hlen).
  destruct (_tokens (name app)) eqn:Et1, (_tokens (publisher app)) eqn:Et2;
    [now left| | |]; right; exists sc1, candidates; rewrite E; auto.
Qed.

End ScanBounds.

(** [scan_for_app] returns at most [max_dirs] directory entries (at most
    two when [max_dirs] is smaller: the declared install location and the
    first match of the root index) and at most [max_files] file entries. *)
Theorem scan_for_app_bounds host sc app deep_scan include_files root_index extra_roots :
  let found :=
    fst (scan_for_app host sc app deep_scan include_files root_index extra_roots) in
  (Z.of_nat (dir_entries found) <= Z.max (max_dirs sc) 2)%Z /\
  (Z.of_nat (file_entries found) <= Z.max (max_files sc) 0)%Z.
Proof.
  cbv zeta.
  destruct (scan_for_app_candidates host sc app deep_scan include_files root_index
              extra_roots) as [->|(sc1 & candidates & -> & Hmf & Hnd & Hlen)].
  { cbn. lia. }
  destruct (expand_candidates_spec include_files sc1 [] Hnd)
    as (_ & _ & Hdirs & _ & _ & Hfiles).
  cbv zeta in *. rewrite Hmf in Hfiles. unfold len in *. cbn [List.length] in Hfiles.
  lia.
Qed.

(** The directory entries of [scan_for_app] have pairwise distinct
    normalized paths, and so have its file entries. *)
Theorem scan_for_app_distinct host sc app deep_scan include_files root_index extra_roots :
  let found :=
    fst (scan_for_app host sc app deep_scan include_files root_index extra_roots) in
  NoDup (map (scan_norm host) (filter is_dir found)) /\
  NoDup (map (scan_norm host) (filter is_file found)).
Proof.
  cbv zeta.
  destruct (scan_for_app_candidates host sc app deep_scan include_files root_index
              extra_roots) as [->|(sc1 & candidates & -> & Hmf & Hnd & Hlen)].
  { cbn. split; constructor. }
  destruct (expand_candidates_spec include_files sc1 [] Hnd)
    as (H1 & _ & _ & H2 & _).
  now split.
Qed.

(** ** The configuration files of a directory *)

(** A path made of a directory and of a file name with one of the
    configuration extensions. *)
Definition config_named (p : string) : Prop :=
  exists current filename,
    p = OsPath.join current filename /\
    PyStr.mem (PyStr.lower (OsPath.splitext_ext filename)) CONFIG_EXTENSIONS = true.

Section ConfigFilesFacts.

Variable host : Host.

Definition config_found (mf : Z) (results : list string) : Prop :=
  (len results <= Z.max mf 0)%Z /\
  NoDup (map (_normalize_path host) results) /\
  Forall config_named results.

Definition config_inv (mf : Z) (st : list string * list string) : Prop :=
  config_found mf (fst st) /\
  (forall p, In p (fst st) -> In (_normalize_path host p) (snd st)).

Lemma config_files_loop_inv mf current files st :
  config_inv mf st ->
  match config_files_loop host mf current st files with
  | Go st' => config_inv mf st'
  | Halt r => config_found mf r
  end.
Proof.
  revert st. induction files as [|filename files IH]; intros [results seen] Hinv;
    cbn [config_files_loop]; [exact Hinv|].
  destruct (mf <=? len results)%Z eqn:Efull; [exact (proj1 Hinv)|].
  destruct (negb _) eqn:Eext; [now apply IH|].
  destruct (PyStr.mem _ seen) eqn:Eseen; [now apply IH|].
  apply negb_false_iff in Eext. apply mem_false in Eseen. apply Z.leb_gt in Efull.
  apply IH. destruct Hinv as [(Hlen & Hnd & Hall) Hseen]. cbn [fst snd] in *.
  repeat split; cbn [fst snd].
  - unfold len in *. rewrite length_app. cbn [List.length]. lia.
  - rewrite map_app. apply NoDup_app; [assumption | repeat constructor; intros [] |].
    intros x Hx [<-|[]]. apply in_map_iff in Hx. destruct Hx as (q & E & Hq).
    apply Eseen. rewrite <- E. now apply Hseen.
  - apply Forall_app. split; [assumption|]. constructor; [|constructor].
    now exists current, filename.
  - intros q Hq. apply in_app_or in Hq. destruct Hq as [Hq|[<-|[]]];
      [right; now apply Hseen | now left].
Qed.

End ConfigFilesFacts.


(** The cache of [_config_files_for_root] answers for every root with the
    same normalized path what the first call answered, an empty list
    included, and is not changed by the answer. *)
Theorem config_cache_round_trip host sc root root' :
  _normalize_path host root' = _normalize_path host root ->
  _config_files_for_root host (snd (_config_files_for_root host sc root)) root' =
  _config_files_for_root host sc root.
Proof.
  intros E. unfold _config_files_for_root at 2 3.
  destruct (PyDict.get (_config_cache sc) (_normalize_path host root)) as [cached|] eqn:Hg.
  - cbn [snd]. unfold _config_files_for_root. now rewrite E, Hg.
  - cbn [snd]. unfold _config_files_for_root. rewrite E. cbn [_config_cache set_config_cache].
    now rewrite get_set_same.
Qed.

Module CacheExamples.

(** A host that folds the case of paths and has no directory to walk. *)
Definition folding_host : Host :=
  mkHost PyStr.lower (fun p => p) (fun _ => false) (fun _ => false)
         (fun p => p) (fun p => p) [] (fun _ => []) (fun _ => None) (fun _ => 0%Z).

End CacheExamples.

Lemma config_cache_round_trip_witness :
  let sc := new_scanner 25 200 3 in
  _normalize_path CacheExamples.folding_host "c:\app"
    = _normalize_path CacheExamples.folding_host "C:\App" /\
  _config_files_for_root CacheExamples.folding_host
    (snd (_config_files_for_root CacheExamples.folding_host sc "C:\App")) "c:\app" =
  _config_files_for_root CacheExamples.folding_host sc "C:\App".
Proof.
  intros sc.
  assert (E : _normalize_path CacheExamples.folding_host "c:\app"
              = _normalize_path CacheExamples.folding_host "C:\App") by reflexivity.
  split; [exact E|].
  exact (@config_cache_round_trip CacheExamples.folding_host sc "C:\App" "c:\app" E).
Defined.

(** ** Stripping a string *)

Section StripFacts.

Variable p : ascii -> bool.

Lemma rstrip_by_idem s : PyStr.rstrip_by p (PyStr.rstrip_by p s) = PyStr.rstrip_by p s.
Proof.
  induction s as [|c s IH]; [reflexivity|].
  cbn [PyStr.rstrip_by]. cbv zeta.
  destruct (p c && (PyStr.rstrip_by p s =? "")) eqn:E; [reflexivity|].
  cbn [PyStr.rstrip_by]. cbv zeta. now rewrite IH, E.
Qed.

Lemma lstrip_by_head s :
  PyStr.lstrip_by p s = "" \/
  exists c t, PyStr.lstrip_by p s = String c t /\ p c = false.
Proof.
  induction s as [|c s IH]; [now left|].
  cbn [PyStr.lstrip_by]. destruct (p c) eqn:E; [exact IH|].
  right. now exists c, s.
Qed.

Lemma lstrip_by_fixed c t : p c = false -> PyStr.lstrip_by p (String c t) = String c t.
Proof. intros E. cbn [PyStr.lstrip_by]. now rewrite E. Qed.

Lemma strip_by_idem s : PyStr.strip_by p (PyStr.strip_by p s) = PyStr.strip_by p s.
Proof.
  unfold PyStr.strip_by.
  assert (H : PyStr.lstrip_by p (PyStr.rstrip_by p (PyStr.lstrip_by p s)) =
              PyStr.rstrip_by p (PyStr.lstrip_by p s)).
  { destruct (lstrip_by_head s) as [->|(c & t & -> & E)]; [reflexivity|].
    cbn [PyStr.rstrip_by]. cbv zeta. rewrite E. cbn [andb].
    now apply lstrip_by_fixed. }
  rewrite H. apply rstrip_by_idem.
Qed.

End StripFacts.

Lemma strip_idem s : PyStr.strip (PyStr.strip s) = PyStr.strip s.
Proof. apply strip_by_idem. Qed.

Lemma normalize_related_strip os_norm s :
  _normalize_related_path os_norm (PyStr.strip s) = _normalize_related_path os_norm s.
Proof. unfold _normalize_related_path. now rewrite strip_idem. Qed.

Lemma normalize_related_empty os_norm : _normalize_related_path os_norm "" = "".
Proof. reflexivity. Qed.

(** ** The handlers of the related-files view ([main_controller.py])

    A handler receives the rows selected in the view; below it is given
    the entries that [related_row_map] holds for them (a row that is not
    in the map is skipped by the code). *)

Section ManualRecords.

Variable os_norm : string -> string.

(** [os.path.isdir]. *)
Variable path_isdir : string -> bool.

Local Abbreviation nrp := (_normalize_related_path os_norm).

(** The records of the application [k] in [related_manual]. *)
Definition manual_items (m : PyDict.dict (list ManualItem)) (k : string)
    : list ManualItem :=
  match PyDict.get m k with Some items => items | None => [] end.

Definition item_norm (item : ManualItem) : string := nrp (m_path item).

(** The text of a path given to the handler, stripped of blanks and then
    of double quotes. *)
Definition record_clean (p : string) : string := PyStr.strip_quotes (PyStr.strip p).

(** One turn of the loop of [_record_manual_related]: the records, their
    normalized paths, and the number of records added. *)
Definition record_path (kind folder_norm : string)
    (st : list ManualItem * list string * nat) (p : string)
    : list ManualItem * list string * nat :=
  let '(existing, existing_norms, added) := st in
  let raw := record_clean p in
  if raw =? "" then st
  else
    let norm := nrp raw in
    if (norm =? "") || PyStr.mem norm existing_norms then st
    else
      let entry_kind :=
        if PyStr.nonempty folder_norm && (norm =? folder_norm) then "dir"
        else if path_isdir raw then "dir"
        else kind in
      (existing ++ [mkManual raw entry_kind], norm :: existing_norms, S added).

Definition _record_manual_related (m : PyDict.dict (list ManualItem))
    (app : AppEntry) (paths : list string) (kind folder_path : string)
    : nat * PyDict.dict (list ManualItem) :=
  let app_key := key app in
  let existing := manual_items m app_key in
  let existing_norms := map item_norm existing in
  let folder_norm := if folder_path =? "" then "" else nrp folder_path in
  let '(existing', _, added) :=
    fold_left (record_path kind folder_norm) paths (existing, existing_norms, 0) in
  (added, match added with
          | O => m
          | S _ => PyDict.set m app_key existing'
          end).

(** What the loop keeps: the set of norms is that of the records, the
    records added are new and distinct. *)
Definition record_inv (before : list ManualItem) (n0 : nat)
    (st : list ManualItem * list string * nat) : Prop :=
  let '(existing, norms, added) := st in
  (forall n, In n norms <-> In n (map item_norm existing)) /\
  exists new,
    existing = before ++ new /\ added = n0 + List.length new /\
    NoDup (map item_norm new) /\
    (forall item, In item new ->
       item_norm item <> "" /\ ~ In (item_norm item) (map item_norm before)).

Lemma record_path_inv kind folder_norm before n0 st p :
  record_inv before n0 st -> record_inv before n0 (record_path kind folder_norm st p).
Proof.
  destruct st as [[existing norms] added]. intros Hinv. unfold record_path.
  destruct (record_clean p =? ""); [assumption|].
  destruct ((nrp (record_clean p) =? "") || PyStr.mem (nrp (record_clean p)) norms)
    eqn:E; [assumption|].
  apply orb_false_iff in E. destruct E as [Ene Emem].
  apply String.eqb_neq in Ene. apply mem_false in Emem.
  destruct Hinv as [Hn (new & -> & -> & Hnd & Hnew)].
  match goal with
  | |- context [mkManual ?r ?k] => set (item := mkManual r k)
  end.
  assert (Hi : item_norm item = nrp (record_clean p)) by reflexivity.
  split.
  - intros n. rewrite map_app, in_app_iff. cbn [map In]. rewrite Hi, (Hn n). tauto.
  - exists (new ++ [item]). repeat split.
    + now rewrite app_assoc.
    + rewrite length_app. cbn [List.length]. lia.
    + rewrite map_app. apply NoDup_app; [assumption | repeat constructor; intros [] |].
      intros x Hx [<-|[]]. apply Emem, Hn. rewrite map_app, in_app_iff.
      right. now rewrite <- Hi.
    + apply in_app_or in H. destruct H as [H|[<-|[]]]; [now apply Hnew | now rewrite Hi].
    + apply in_app_or in H. destruct H as [H|[<-|[]]]; [now apply Hnew|].
      rewrite Hi. intros Hin. apply Emem, Hn. rewrite map_app, in_app_iff. now left.
Qed.

Lemma record_paths_inv kind folder_norm before n0 paths st :
  record_inv before n0 st ->
  record_inv before n0 (fold_left (record_path kind folder_norm) paths st).
Proof.
  revert st. induction paths as [|p paths IH]; intros st H; [assumption|].
  simpl. apply IH. now apply record_path_inv.
Qed.

(** The norms only grow, and a path met by the loop is covered. *)
Lemma record_path_grows kind folder_norm st p n :
  In n (snd (fst st)) -> In n (snd (fst (record_path kind folder_norm st p))).
Proof.
  destruct st as [[existing norms] added]. unfold record_path. cbn [fst snd].
  destruct (record_clean p =? ""); [auto|].
  destruct ((nrp (record_clean p) =? "") || PyStr.mem (nrp (record_clean p)) norms);
    cbn [fst snd]; [auto|]. intros H. now right.
Qed.

Lemma record_paths_grow kind folder_norm paths st n :
  In n (snd (fst st)) ->
  In n (snd (fst (fold_left (record_path kind folder_norm) paths st))).
Proof.
  revert st. induction paths as [|p paths IH]; intros st H; [assumption|].
  simpl. apply IH. now apply record_path_grows.
Qed.

Lemma record_paths_cover kind folder_norm paths st p :
  In p paths -> nrp (record_clean p) <> "" ->
  In (nrp (record_clean p))
     (snd (fst (fold_left (record_path kind folder_norm) paths st))).
Proof.
  revert st. induction paths as [|q paths IH]; intros st Hin Hne; [destruct Hin|].
  destruct Hin as [->|Hin]; [|now apply IH].
  simpl. apply record_paths_grow.
  destruct st as [[existing norms] added]. unfold record_path.
  assert (Hraw : (record_clean p =? "") = false).
  { apply String.eqb_neq. intros E. apply Hne. now rewrite E. }
  rewrite Hraw. apply String.eqb_neq in Hne. rewrite Hne. cbn [orb].
  destruct (PyStr.mem (nrp (record_clean p)) norms) eqn:Em; cbn [fst snd].
  - now apply mem_In.
  - now left.
Qed.

(** When every path is already covered the loop changes nothing. *)
Lemma record_paths_fixed kind folder_norm paths st :
  (forall p, In p paths ->
     nrp (record_clean p) <> "" -> In (nrp (record_clean p)) (snd (fst st))) ->
  fold_left (record_path kind folder_norm) paths st = st.
Proof.
  induction paths as [|p paths IH]; intros H; [reflexivity|].
  simpl.
  assert (E : record_path kind folder_norm st p = st).
  { destruct st as [[existing norms] added]. unfold record_path.
    destruct (record_clean p =? ""); [reflexivity|].
    destruct (nrp (record_clean p) =? "") eqn:Ene; [reflexivity|].
    apply String.eqb_neq in Ene. cbn [orb].
    assert (Hm : PyStr.mem (nrp (record_clean p)) norms = true).
    { apply mem_In. apply (H p); [now left | assumption]. }
    now rewrite Hm. }
  rewrite E. apply IH. intros q Hq. apply H. now right.
Qed.

End ManualRecords.

Lemma record_manual_related_covers os_norm path_isdir m app paths kind folder_path :
  let m' := snd (_record_manual_related os_norm path_isdir m app paths kind folder_path) in
  Forall (fun p =>
            _normalize_related_path os_norm (record_clean p) = "" \/
            In (_normalize_related_path os_norm (record_clean p))
               (map (item_norm os_norm) (manual_items m' (key app)))) paths /\
  (forall k, k <> key app -> PyDict.get m' k = PyDict.get m k).
Proof.
  cbv zeta. unfold _record_manual_related.
  set (folder_norm := if folder_path =? "" then "" else _ folder_path).
  set (before := manual_items m (key app)).
  set (st0 := (before, map (item_norm os_norm) before, 0)).
  assert (Hinv0 : record_inv os_norm before 0 st0).
  { split; [tauto|]. exists []. rewrite app_nil_r. repeat split; try constructor.
    - destruct H. - destruct H. }
  pose proof (record_paths_inv path_isdir kind folder_norm paths Hinv0) as Hinv.
  pose proof (fun p Hp Hne =>
                @record_paths_cover os_norm path_isdir kind folder_norm paths st0 p Hp Hne)
    as Hcover.
  destruct (fold_left (record_path os_norm path_isdir kind folder_norm) paths st0)
    as [[existing' norms'] added].
  cbn [fst snd] in *. destruct Hinv as [Hn (new & -> & Hadded & _)]. simpl in Hadded.
  split.
  - apply Forall_forall. intros p Hp.
    destruct (string_dec (_normalize_related_path os_norm (record_clean p)) "")
      as [E|Hne]; [now left|]. right.
    assert (Hafter : manual_items
                       match added with
                       | 0 => m
                       | S _ => PyDict.set m (key app) (before ++ new)
                       end (key app) = before ++ new).
    { destruct added as [|k].
      - destruct new; [|discriminate]. now rewrite app_nil_r.
      - unfold manual_items. now rewrite get_set_same. }
    rewrite Hafter. apply Hn. now apply Hcover.
  - intros k Hk. destruct added; [reflexivity|]. now apply get_set_other.
Qed.

(** [_record_manual_related] only appends to the records of the
    application: the records added are as many as the count returned, have
    non-empty normalized paths that are new and pairwise distinct, and cover
    every path given; the records of the other applications are untouched,
    and recording the same paths again adds nothing. *)
Theorem record_manual_related_spec os_norm path_isdir m app paths kind folder_path :
  let '(added, m') :=
    _record_manual_related os_norm path_isdir m app paths kind folder_path in
  (exists new,
     manual_items m' (key app) = manual_items m (key app) ++ new /\
     List.length new = added /\
     NoDup (map (item_norm os_norm) new) /\
     Forall (fun item =>
               item_norm os_norm item <> "" /\
               ~ In (item_norm os_norm item)
                    (map (item_norm os_norm) (manual_items m (key app)))) new) /\
  Forall (fun p =>
            _normalize_related_path os_norm (record_clean p) = "" \/
            In (_normalize_related_path os_norm (record_clean p))
               (map (item_norm os_norm) (manual_items m' (key app)))) paths /\
  (forall k, k <> key app -> PyDict.get m' k = PyDict.get m k) /\
  (forall kind' folder_path',
     _record_manual_related os_norm path_isdir m' app paths kind' folder_path'
       = (0, m')).
Proof.
  unfold _record_manual_related.
  set (folder_norm := if folder_path =? "" then "" else _ folder_path).
  set (before := manual_items m (key app)).
  set (st0 := (before, map (item_norm os_norm) before, 0)).
  assert (Hinv0 : record_inv os_norm before 0 st0).
  { split; [tauto|]. exists []. rewrite app_nil_r. repeat split; try constructor.
    - destruct H. - destruct H. }
  pose proof (record_paths_inv path_isdir kind folder_norm paths Hinv0) as Hinv.
  pose proof (fun p Hp Hne =>
                @record_paths_cover os_norm path_isdir kind folder_norm paths st0 p Hp Hne)
    as Hcover.
  destruct (fold_left (record_path os_norm path_isdir kind folder_norm) paths st0)
    as [[existing' norms'] added] eqn:Efold.
  cbn [fst snd] in Hcover.
  destruct Hinv as [Hn (new & -> & Hadded & Hnd & Hnew)]. simpl in Hadded.
  assert (Hafter : manual_items
                     match added with
                     | 0 => m
                     | S _ => PyDict.set m (key app) (before ++ new)
                     end (key app) = before ++ new).
  { destruct added as [|k].
    - destruct new; [|discriminate]. now rewrite app_nil_r.
    - unfold manual_items. now rewrite get_set_same. }
  repeat split.
  - exists new. rewrite Hafter. repeat split; try assumption; [congruence|].
    apply Forall_forall. intros item Hitem. now apply Hnew.
  - apply Forall_forall. intros p Hp. rewrite Hafter.
    destruct (string_dec (_normalize_related_path os_norm (record_clean p)) "")
      as [E|Hne]; [now left|]. right. apply Hn. now apply Hcover.
  - intros k Hk. destruct added; [reflexivity|]. now apply get_set_other.
  - intros kind' folder_path'. rewrite Hafter.
    rewrite record_paths_fixed; [reflexivity|].
    intros p Hp Hne. cbn [fst snd]. apply Hn. now apply Hcover.
Qed.

(** *** From a manual record to the manual entry *)

Section ManualOwner.

Variable os_norm : string -> string.

Local Abbreviation nrp := (_normalize_related_path os_norm).
Local Abbreviation nf := (norm_of os_norm).

Lemma manual_record_get k acc e n :
  PyDict.get (manual_record os_norm k acc e) n =
  if (negb (item_norm os_norm e =? "")) && (item_norm os_norm e =? n)
  then Some (k, manual_kind e, PyStr.strip (m_path e))
  else PyDict.get acc n.
Proof.
  unfold manual_record, item_norm. rewrite normalize_related_strip.
  destruct (PyStr.strip (m_path e) =? "") eqn:Ep.
  { apply String.eqb_eq in Ep.
    assert (E : nrp (m_path e) = "").
    { rewrite <- normalize_related_strip, Ep. reflexivity. }
    rewrite E. reflexivity. }
  destruct (nrp (m_path e) =? "") eqn:En; [reflexivity|]. cbn [negb andb].
  destruct (nrp (m_path e) =? n) eqn:E.
  - apply String.eqb_eq in E. subst n. apply get_set_same.
  - apply String.eqb_neq in E. apply get_set_other. congruence.
Qed.

Lemma manual_records_get k items acc n :
  match PyDict.get (fold_left (manual_record os_norm k) items acc) n with
  | Some (k', kd, p) =>
      PyDict.get acc n = Some (k', kd, p) \/
      (k' = k /\ exists item, In item items /\ item_norm os_norm item = n)
  | None =>
      PyDict.get acc n = None /\
      forall item, In item items -> item_norm os_norm item = n -> n = ""
  end.
Proof.
  revert acc. induction items as [|e items IH]; intros acc.
  - simpl. destruct (PyDict.get acc n) as [[[k' kd] p]|]; [now left|].
    split; [reflexivity | intros item []].
  - simpl. specialize (IH (manual_record os_norm k acc e)).
    rewrite manual_record_get in IH.
    destruct (PyDict.get (fold_left (manual_record os_norm k) items
                            (manual_record os_norm k acc e)) n) as [[[k' kd] p]|].
    + destruct IH as [IH|(-> & item & Hi & E)].
      * destruct (negb (item_norm os_norm e =? "") && (item_norm os_norm e =? n)) eqn:Ec;
          [|now left].
        apply andb_true_iff in Ec. destruct Ec as [_ Ec]. apply String.eqb_eq in Ec.
        inversion IH; subst. right. split; [reflexivity|]. exists e. split; [now left|reflexivity].
      * right. split; [reflexivity|]. exists item. split; [now right|assumption].
    + destruct IH as [IH Hnone].
      destruct (negb (item_norm os_norm e =? "") && (item_norm os_norm e =? n)) eqn:Ec;
        [discriminate|].
      split; [assumption|]. intros item [<-|Hi] E; [|now apply (Hnone item)].
      rewrite E, String.eqb_refl, andb_true_r in Ec.
      apply negb_false_iff, String.eqb_eq in Ec. exact Ec.
Qed.

(** The owner of a path in [manual_by_path] has a record at the path, and
    a path with a record of a listed application has an owner. *)
Lemma build_manual_get m known n :
  match PyDict.get (build_manual_by_path os_norm m known) n with
  | Some (k, _, _) =>
      In k known /\
      exists items item, In (k, items) m /\ In item items /\ item_norm os_norm item = n
  | None =>
      forall k items item, In (k, items) m -> In k known -> In item items ->
                           item_norm os_norm item = n -> n = ""
  end.
Proof.
  unfold build_manual_by_path.
  assert (H : forall acc,
    match PyDict.get
            (fold_left
               (fun acc (rec : string * list ManualItem) =>
                  if PyStr.mem (fst rec) known
                  then fold_left (manual_record os_norm (fst rec)) (snd rec) acc
                  else acc) m acc) n with
    | Some (k, kd, p) =>
        PyDict.get acc n = Some (k, kd, p) \/
        (In k known /\
         exists items item, In (k, items) m /\ In item items /\
                            item_norm os_norm item = n)
    | None =>
        PyDict.get acc n = None /\
        forall k items item, In (k, items) m -> In k known -> In item items ->
                             item_norm os_norm item = n -> n = ""
    end).
  { induction m as [|[k0 items0] m IH]; intros acc.
    - simpl. destruct (PyDict.get acc n) as [[[k kd] p]|]; [now left|].
      split; [reflexivity | intros k items item []].
    - cbn [fold_left fst snd].
      specialize (IH (if PyStr.mem k0 known
                      then fold_left (manual_record os_norm k0) items0 acc else acc)).
      destruct (PyDict.get (fold_left _ m _) n) as [[[k kd] p]|].
      + destruct IH as [IH|(Hk & items & item & Hin & Hi & E)].
        * destruct (PyStr.mem k0 known) eqn:Ek; [|now left].
          pose proof (manual_records_get k0 items0 acc n) as Hrec. rewrite IH in Hrec.
          destruct Hrec as [Hrec|(-> & item & Hi & E)]; [now left|].
          right. split; [now apply mem_In|]. exists items0, item.
          split; [now left | now split].
        * right. split; [assumption|]. exists items, item. split; [now right | now split].
      + destruct IH as [IH Hnone].
        assert (Hacc : PyDict.get acc n = None /\
                       (In k0 known -> forall item, In item items0 ->
                                       item_norm os_norm item = n -> n = "")).
        { destruct (PyStr.mem k0 known) eqn:Ek.
          - pose proof (manual_records_get k0 items0 acc n) as Hrec. rewrite IH in Hrec.
            destruct Hrec as [H1 H2]. split; [assumption|]. intros _. exact H2.
          - split; [assumption|]. intros Hk. apply mem_false in Ek. contradiction. }
        destruct Hacc as [Hacc Hhere]. split; [assumption|].
        intros k items item [E|Hin] Hk Hi En.
        * inversion E; subst. now apply (Hhere Hk item).
        * now apply (Hnone k items item). }
  specialize (H []).
  match type of H with
  | match ?g with _ => _ end => destruct g as [[[k kd] p]|]
  end.
  - destruct H as [H|H]; [discriminate | exact H].
  - exact (proj2 H).
Qed.

End ManualOwner.

(** A path recorded for a listed application, when no other application
    has a manual record at it, is held by that application as a manual
    entry after the manual layer. *)
Theorem manual_add_round_trip os_norm path_isdir m apps i a paths kind folder_path p :
  NoDup (app_keys apps) -> PyDict.wf m -> nth_error apps i = Some a ->
  In p paths -> _normalize_related_path os_norm (record_clean p) <> "" ->
  (forall k items item, In (k, items) m -> k <> key a -> In item items ->
       item_norm os_norm item <> _normalize_related_path os_norm (record_clean p)) ->
  let m' := snd (_record_manual_related os_norm path_isdir m a paths kind folder_path) in
  exists files r,
    nth_error (_apply_manual_related os_norm m' apps) i = Some (set_related a files) /\
    In r files /\
    norm_of os_norm r = _normalize_related_path os_norm (record_clean p) /\
    source r = "manual".
Proof.
  intros Hnd Hwf Hi Hp Hne Hothers m'.
  set (n := _normalize_related_path os_norm (record_clean p)) in *.
  pose proof (record_manual_related_covers os_norm path_isdir m a paths kind folder_path)
    as Hrec.
  unfold m'. cbv zeta in Hrec.
  destruct (_record_manual_related os_norm path_isdir m a paths kind folder_path)
    as [added m1] eqn:Erec. cbn [snd] in *.
  destruct Hrec as (Hcover & Hother).
  assert (Hwf1 : PyDict.wf m1).
  { unfold _record_manual_related in Erec.
    destruct (fold_left _ paths _) as [[existing' norms'] added'].
    inversion Erec; subst. destruct added; [assumption | now apply wf_set]. }
  assert (Hin : In n (map (item_norm os_norm) (manual_items m1 (key a)))).
  { rewrite Forall_forall in Hcover. destruct (Hcover p Hp) as [E|H]; [contradiction|exact H]. }
  apply in_map_iff in Hin. destruct Hin as (item & Eitem & Hitem).
  assert (Ha : In (key a) (app_keys apps)).
  { apply in_map. eapply nth_error_In; eassumption. }
  assert (Hrecord : In (key a, manual_items m1 (key a)) m1).
  { unfold manual_items in *. destruct (PyDict.get m1 (key a)) as [items|] eqn:Hg;
      [now apply get_In | destruct Hitem]. }
  pose proof (build_manual_get os_norm m1 (app_keys apps) n) as Hown.
  destruct (PyDict.get (build_manual_by_path os_norm m1 (app_keys apps)) n)
    as [[[k kd] p0]|] eqn:Hg.
  2:{ elim Hne. apply (Hown _ _ item Hrecord Ha Hitem Eitem). }
  destruct Hown as (Hk & items & item' & Hin' & Hitem' & Eitem').
  assert (Ek : k = key a).
  { destruct (string_dec k (key a)) as [E|Hneq]; [assumption|].
    exfalso. apply (Hothers k items item'); try assumption.
    apply get_In. rewrite <- (Hother k Hneq). now apply In_get. }
  subst k.
  destruct (apply_manual_cases os_norm m1 Hnd) as [[E Htriv]|[Hmbp E]].
  - exfalso. destruct Htriv as [->|[->|H]].
    + destruct Hrecord.
    + now destruct i.
    + rewrite H in Hg. discriminate.
  - assert (Hholds : holds os_norm
                       (manual_files os_norm
                          (build_manual_by_path os_norm m1 (app_keys apps)) a) n).
    { apply (manual_files_holds a (build_manual_sound os_norm m1 _) Hne).
      now rewrite Hg. }
    destruct Hholds as (r & Hr & Er).
    exists (manual_files os_norm (build_manual_by_path os_norm m1 (app_keys apps)) a), r.
    rewrite E, nth_error_map, Hi. repeat split; try assumption.
    apply (manual_files_source (build_manual_sound os_norm m1 _) Hr).
    rewrite Er, Hg. discriminate.
Qed.

Module HandlerExamples.

(** No path is a directory. *)
Definition no_dir (p : string) : bool := false.

(** Alpha and Beta, with [conf] found by Beta. *)
Definition two_apps : list AppEntry :=
  [Examples.app_a; set_related Examples.app_b [Examples.found Examples.conf]].

End HandlerExamples.

Lemma manual_add_round_trip_witness :
  let m' := snd (_record_manual_related Examples.plain_norm HandlerExamples.no_dir []
                   Examples.app_a [Examples.conf] "file" "") in
  NoDup (app_keys HandlerExamples.two_apps) /\
  exists files r,
    nth_error (_apply_manual_related Examples.plain_norm m' HandlerExamples.two_apps) 0
      = Some (set_related Examples.app_a files) /\
    In r files /\
    norm_of Examples.plain_norm r
      = _normalize_related_path Examples.plain_norm (record_clean Examples.conf) /\
    source r = "manual".
Proof.
  intros m'.
  assert (Hnd : NoDup (app_keys HandlerExamples.two_apps)).
  { vm_compute. repeat constructor; simpl; intuition discriminate. }
  split; [exact Hnd|].
  apply (@manual_add_round_trip Examples.plain_norm HandlerExamples.no_dir []
           HandlerExamples.two_apps 0 Examples.app_a [Examples.conf] "file" ""
           Examples.conf Hnd).
  - constructor.
  - reflexivity.
  - now left.
  - vm_compute. discriminate.
  - intros k items item [].
Defined.

(** *** [on_deep_scan_ignore] *)

Section IgnoreHandler.

Variable os_norm : string -> string.

Local Abbreviation nrp := (_normalize_related_path os_norm).
Local Abbreviation nf := (norm_of os_norm).

(** One selected row: the paths ignored, their normalized forms, and the
    flag [changed]. *)
Definition ignore_row (st : list string * list string * bool) (r : RelatedFile)
    : list string * list string * bool :=
  let '(ignored, ignored_norms, changed) := st in
  let norm := nf r in
  if (norm =? "") || PyStr.mem norm ignored_norms then st
  else (ignored ++ [path r], norm :: ignored_norms, true).

Definition on_deep_scan_ignore (o : Overrides) (all_apps : list AppEntry)
    (_deep_scan_app_key : string) (rows : list RelatedFile)
    : Overrides * list AppEntry :=
  match rows with
  | [] => (o, all_apps)
  | _ =>
      if _deep_scan_app_key =? "" then (o, all_apps)
      else
        let ignored := recorded (related_ignore o) _deep_scan_app_key in
        let '(ignored', _, changed) :=
          fold_left ignore_row rows (ignored, map nrp ignored, false) in
        if changed then
          let o' :=
            mkOverrides (related_manual o)
                        (PyDict.set (related_ignore o) _deep_scan_app_key ignored')
                        (related_unassigned o) (related_overrides o) in
          (o',
           _apply_related_unassigned os_norm (related_unassigned o')
             (_apply_related_ignores os_norm (related_ignore o') all_apps))
        else (o, all_apps)
  end.

Definition ignore_inv (ignored0 : list string)
    (st : list string * list string * bool) : Prop :=
  let '(ignored, norms, changed) := st in
  (forall n, In n norms <-> In n (map nrp ignored)) /\
  (exists more, ignored = ignored0 ++ more) /\
  (changed = false -> ignored = ignored0).

Lemma ignore_rows_inv ignored0 rows st :
  ignore_inv ignored0 st -> ignore_inv ignored0 (fold_left ignore_row rows st).
Proof.
  revert st. induction rows as [|r rows IH]; intros st Hinv; [assumption|].
  simpl. apply IH. destruct st as [[ignored norms] changed]. unfold ignore_row.
  destruct ((nf r =? "") || PyStr.mem (nf r) norms); [assumption|].
  destruct Hinv as (Hn & (more & ->) & _). repeat split.
  - intros [<-|H]; rewrite map_app, in_app_iff.
    + right. now left.
    + left. now apply Hn.
  - rewrite map_app, in_app_iff. intros [H|[<-|[]]]; [right; now apply Hn | now left].
  - exists (more ++ [path r]). now rewrite app_assoc.
  - discriminate.
Qed.

Lemma ignore_rows_cover rows st r :
  In r rows -> nf r <> "" ->
  In (nf r) (snd (fst (fold_left ignore_row rows st))).
Proof.
  assert (Hgrow : forall rows st n,
            In n (snd (fst st)) -> In n (snd (fst (fold_left ignore_row rows st)))).
  { clear. induction rows as [|r rows IH]; intros st n H; [assumption|].
    simpl. apply IH. destruct st as [[ignored norms] changed]. unfold ignore_row.
    destruct ((nf r =? "") || PyStr.mem (nf r) norms); cbn [fst snd] in *;
      [assumption | now right]. }
  revert st. induction rows as [|r0 rows IH]; intros st Hin Hne; [destruct Hin|].
  destruct Hin as [->|Hin]; [|now apply IH].
  simpl. apply Hgrow. destruct st as [[ignored norms] changed]. unfold ignore_row.
  apply String.eqb_neq in Hne. rewrite Hne. cbn [orb].
  destruct (PyStr.mem (nf r) norms) eqn:Em; cbn [fst snd];
    [now apply mem_In | now left].
Qed.

End IgnoreHandler.

(** After [on_deep_scan_ignore], each selected result with a non-empty
    normalized path is covered by the ignore record of the application; and
    when the path was not ignored before, the list of the application
    keeps no entry at it other than a manual one. *)
Theorem deep_scan_ignore_effect os_norm o all_apps app_key rows r :
  PyDict.wf (related_ignore o) -> app_key <> "" ->
  In r rows -> norm_of os_norm r <> "" ->
  let '(o', apps') := on_deep_scan_ignore os_norm o all_apps app_key rows in
  (exists p, In p (recorded (related_ignore o') app_key) /\ p <> "" /\
             _normalize_related_path os_norm p = norm_of os_norm r) /\
  (~ In (norm_of os_norm r)
        (map (_normalize_related_path os_norm) (recorded (related_ignore o) app_key)) ->
   forall a x, In a apps' -> key a = app_key -> In x (related_files a) ->
               norm_of os_norm x = norm_of os_norm r -> source x = "manual").
Proof.
  intros Hwf Hkey Hr Hne. unfold on_deep_scan_ignore.
  destruct rows as [|r0 rows0] eqn:Erows; [destruct Hr|]. rewrite <- Erows in *.
  apply String.eqb_neq in Hkey. rewrite Hkey. apply String.eqb_neq in Hkey.
  set (ignored := recorded (related_ignore o) app_key).
  assert (Hinv0 : ignore_inv os_norm ignored
                    (ignored, map (_normalize_related_path os_norm) ignored, false)).
  { repeat split; try tauto. exists []. now rewrite app_nil_r. }
  pose proof (ignore_rows_inv rows Hinv0) as Hinv.
  pose proof (@ignore_rows_cover os_norm rows
                (ignored, map (_normalize_related_path os_norm) ignored, false) r Hr Hne)
    as Hcover.
  destruct (fold_left (ignore_row os_norm) rows _) as [[ignored' norms'] changed].
  cbn [fst snd] in Hcover. destruct Hinv as (Hn & (more & Hmore) & Hsame).
  assert (Hrec : exists p, In p ignored' /\ p <> "" /\
                           _normalize_related_path os_norm p = norm_of os_norm r).
  { apply Hn, in_map_iff in Hcover. destruct Hcover as (p & E & Hp).
    exists p. repeat split; try assumption. intros ->. now apply Hne. }
  destruct changed.
  - cbn [related_ignore related_unassigned]. split.
    + unfold recorded. now rewrite get_set_same.
    + intros _ a x Ha Hk Hx Ex.
      unfold _apply_related_unassigned, _apply_related_ignores in Ha.
      rewrite !suppress_spec in Ha. apply in_map_iff in Ha. destruct Ha as (a1 & <- & Ha1).
      apply in_map_iff in Ha1. destruct Ha1 as (a0 & <- & Ha0).
      rewrite related_set_related in Hx. apply filter_In in Hx. destruct Hx as [Hx _].
      rewrite related_set_related in Hx. apply filter_In in Hx. destruct Hx as [_ Hkeep].
      rewrite !key_set_related in Hk.
      apply (suppress_keep_iff os_norm (key a0) x (wf_set _ _ Hwf)) in Hkeep.
      destruct Hkeep as [Hs|[He|Hno]]; [assumption | congruence|].
      exfalso. apply Hno. rewrite Hk. unfold recorded at 1. rewrite get_set_same.
      destruct Hrec as (p & Hp & Hpe & En). exists p. repeat split; congruence.
  - rewrite (Hsame eq_refl) in *. split; [exact Hrec|].
    intros Hfresh. exfalso. apply Hfresh. now apply Hn.
Qed.

Lemma deep_scan_ignore_effect_witness :
  let o := mkOverrides [] [] [] [] in
  let r := Examples.found Examples.conf in
  let '(o', apps') :=
    on_deep_scan_ignore Examples.plain_norm o HandlerExamples.two_apps
                        (key Examples.app_b) [r] in
  (exists p, In p (recorded (related_ignore o') (key Examples.app_b)) /\ p <> "" /\
             _normalize_related_path Examples.plain_norm p
               = norm_of Examples.plain_norm r) /\
  (~ In (norm_of Examples.plain_norm r)
        (map (_normalize_related_path Examples.plain_norm)
             (recorded (related_ignore o) (key Examples.app_b))) ->
   forall a x, In a apps' -> key a = key Examples.app_b -> In x (related_files a) ->
               norm_of Examples.plain_norm x = norm_of Examples.plain_norm r ->
               source x = "manual").
Proof.
  intros o r.
  apply (@deep_scan_ignore_effect Examples.plain_norm o HandlerExamples.two_apps
           (key Examples.app_b) [r] r).
  - constructor.
  - apply key_nonempty.
  - now left.
  - vm_compute. discriminate.
Defined.

(** *** [on_related_unassign] *)

(** [del d[k]]. *)
Definition dict_del {V} (d : PyDict.dict V) (k : string) : PyDict.dict V :=
  filter (fun kv => negb (fst kv =? k)) d.

Lemma get_dict_del {V} (d : PyDict.dict V) k k' :
  PyDict.get (dict_del d k) k' = if k =? k' then None else PyDict.get d k'.
Proof.
  induction d as [|[k0 v] d IH]; simpl.
  - now destruct (k =? k').
  - destruct (k0 =? k) eqn:E0; simpl.
    + apply String.eqb_eq in E0. subst k0. rewrite IH.
      now destruct (k =? k').
    + rewrite IH. destruct (k0 =? k') eqn:E1; [|reflexivity].
      apply String.eqb_eq in E1. subst k0. now rewrite String.eqb_sym, E0.
Qed.

(** [updates.setdefault(k, set()).add(norm)]: the set is kept as the list
    of its elements in the order of their first insertion. *)
Definition add_update (updates : PyDict.dict (list string)) (k norm : string)
    : PyDict.dict (list string) :=
  match PyDict.get updates k with
  | Some norms =>
      if PyStr.mem norm norms then updates else PyDict.set updates k (norms ++ [norm])
  | None => PyDict.set updates k [norm]
  end.

Lemma add_update_wf updates k n : PyDict.wf updates -> PyDict.wf (add_update updates k n).
Proof.
  intros H. unfold add_update. destruct (PyDict.get updates k) as [norms|].
  - destruct (PyStr.mem n norms); [assumption | now apply wf_set].
  - now apply wf_set.
Qed.

Lemma add_update_has updates k n :
  exists norms, PyDict.get (add_update updates k n) k = Some norms /\ In n norms.
Proof.
  unfold add_update. destruct (PyDict.get updates k) as [norms|] eqn:Hg.
  - destruct (PyStr.mem n norms) eqn:Em.
    + exists norms. split; [assumption | now apply mem_In].
    + exists (norms ++ [n]). rewrite get_set_same. split; [reflexivity|].
      apply in_or_app. right. now left.
  - exists [n]. rewrite get_set_same. split; [reflexivity | now left].
Qed.

Lemma add_update_keeps updates k n k' n' norms :
  PyDict.get updates k' = Some norms -> In n' norms ->
  exists norms', PyDict.get (add_update updates k n) k' = Some norms' /\ In n' norms'.
Proof.
  intros Hg Hin. unfold add_update.
  destruct (string_dec k k') as [->|Hne].
  - rewrite Hg. destruct (PyStr.mem n norms); [eauto|].
    exists (norms ++ [n]). rewrite get_set_same. split; [reflexivity|].
    apply in_or_app. now left.
  - destruct (PyDict.get updates k) as [norms0|].
    + destruct (PyStr.mem n norms0); [eauto|].
      rewrite get_set_other by congruence. eauto.
    + rewrite get_set_other by congruence. eauto.
Qed.

Section UnassignHandler.

Variable os_norm : string -> string.

Local Abbreviation nrp := (_normalize_related_path os_norm).
Local Abbreviation nf := (norm_of os_norm).

(** The rows that count, by application: those that are not manual and
    have a non-empty normalized path. *)
Definition unassign_select (updates : PyDict.dict (list string))
    (row : AppEntry * RelatedFile) : PyDict.dict (list string) :=
  if source (snd row) =? "manual" then updates
  else if nf (snd row) =? "" then updates
  else add_update updates (key (fst row)) (nf (snd row)).

Definition unassign_updates (rows : list (AppEntry * RelatedFile))
    : PyDict.dict (list string) :=
  fold_left unassign_select rows [].

(** The state of the second loop: [related_unassigned], [related_overrides]
    and the flag [changed]. *)
Definition UnassignState : Type :=
  PyDict.dict (list string) * PyDict.dict string * bool.

(** One normalized path of the application [app_key]; [items] and
    [item_norms] are the local variables of the loop. *)
Definition unassign_norm (app_key : string)
    (st : list string * list string * (PyDict.dict string * bool)) (norm : string)
    : list string * list string * (PyDict.dict string * bool) :=
  let '(items, item_norms, (ov, changed)) := st in
  let '(ov1, changed1) :=
    match PyDict.get ov norm with
    | Some target => if target =? app_key then (dict_del ov norm, true) else (ov, changed)
    | None => (ov, changed)
    end in
  if PyStr.mem norm item_norms then (items, item_norms, (ov1, changed1))
  else (items ++ [norm], norm :: item_norms, (ov1, true)).

Definition unassign_app (st : UnassignState) (upd : string * list string)
    : UnassignState :=
  let '(un, ov, changed) := st in
  let '(app_key, norms) := upd in
  let items := recorded un app_key in
  let '(items', _, (ov', changed')) :=
    fold_left (unassign_norm app_key) norms (items, map nrp items, (ov, changed)) in
  (match items' with
   | [] => un
   | _ => PyDict.set un app_key items'
   end, ov', changed').

Definition on_related_unassign (o : Overrides) (all_apps : list AppEntry)
    (rows : list (AppEntry * RelatedFile)) : Overrides * list AppEntry :=
  match unassign_updates rows with
  | [] => (o, all_apps)
  | updates =>
      let '(un, ov, changed) :=
        fold_left unassign_app updates
                  (related_unassigned o, related_overrides o, false) in
      if changed then
        (mkOverrides (related_manual o) (related_ignore o) un ov,
         _apply_related_unassigned os_norm un all_apps)
      else (o, all_apps)
  end.

(** **** The selection *)

Lemma unassign_updates_wf rows : PyDict.wf (unassign_updates rows).
Proof.
  unfold unassign_updates.
  assert (H : forall acc, PyDict.wf acc -> PyDict.wf (fold_left unassign_select rows acc)).
  { induction rows as [|row rows IH]; intros acc Hacc; [assumption|].
    simpl. apply IH. unfold unassign_select.
    destruct (source (snd row) =? "manual"); [assumption|].
    destruct (nf (snd row) =? ""); [assumption | now apply add_update_wf]. }
  apply H. constructor.
Qed.

Lemma unassign_updates_has rows a r :
  In (a, r) rows -> source r <> "manual" -> nf r <> "" ->
  exists norms, PyDict.get (unassign_updates rows) (key a) = Some norms /\ In (nf r) norms.
Proof.
  unfold unassign_updates. generalize (@nil (string * list string)).
  assert (Hkeep : forall rows acc k n,
            (exists norms, PyDict.get acc k = Some norms /\ In n norms) ->
            exists norms, PyDict.get (fold_left unassign_select rows acc) k = Some norms /\
                          In n norms).
  { clear. induction rows as [|row rows IH]; intros acc k n H; [assumption|].
    simpl. apply IH. unfold unassign_select.
    destruct (source (snd row) =? "manual"); [assumption|].
    destruct (nf (snd row) =? ""); [assumption|].
    destruct H as (norms & Hg & Hin). eapply add_update_keeps; eassumption. }
  induction rows as [|row rows IH]; intros acc Hin Hs Hn; [destruct Hin|].
  destruct Hin as [->|Hin]; [|now apply IH].
  simpl. apply Hkeep. unfold unassign_select. cbn [fst snd].
  apply String.eqb_neq in Hs. apply String.eqb_neq in Hn. rewrite Hs, Hn.
  apply add_update_has.
Qed.

(** **** One application *)

Lemma set_same {V} (d : PyDict.dict V) k v : PyDict.get d k = Some v -> PyDict.set d k v = d.
Proof.
  induction d as [|[k0 v0] d IH]; simpl; [discriminate|].
  destruct (k0 =? k) eqn:E.
  - intros H. inversion H. reflexivity.
  - intros H. now rewrite IH.
Qed.

(** What the inner loop has done after the norms [done]. *)
Definition unassign_norms_inv (app_key : string) (items0 : list string)
    (ov0 : PyDict.dict string) (changed0 : bool) (done : list string)
    (st : list string * list string * (PyDict.dict string * bool)) : Prop :=
  let '(items, item_norms, (ov, changed)) := st in
  (exists more, items = items0 ++ more /\
     forall n, In n item_norms <-> In n (map nrp items0) \/ In n more) /\
  (forall n, In n done -> In n item_norms) /\
  (forall n, In n done -> PyDict.get ov n <> Some app_key) /\
  (forall n t, PyDict.get ov n = Some t -> PyDict.get ov0 n = Some t) /\
  (changed = false -> changed0 = false /\ items = items0 /\ ov = ov0) /\
  (changed0 = true -> changed = true).

Lemma unassign_norm_step app_key items0 ov0 changed0 done st norm :
  unassign_norms_inv app_key items0 ov0 changed0 done st ->
  unassign_norms_inv app_key items0 ov0 changed0 (done ++ [norm])
                     (unassign_norm app_key st norm).
Proof.
  destruct st as [[items item_norms] [ov changed]].
  intros ((more & -> & Hn) & Hdone & Hov & Hsub & Hsame & Hmono).
  unfold unassign_norm.
  assert (Hstep : exists ov1 changed1,
            match PyDict.get ov norm with
            | Some target =>
                if target =? app_key then (dict_del ov norm, true) else (ov, changed)
            | None => (ov, changed)
            end = (ov1, changed1) /\
            PyDict.get ov1 norm <> Some app_key /\
            (forall n, PyDict.get ov n <> Some app_key -> PyDict.get ov1 n <> Some app_key) /\
            (forall n t, PyDict.get ov1 n = Some t -> PyDict.get ov n = Some t) /\
            (changed1 = false -> changed = false /\ ov1 = ov) /\
            (changed = true -> changed1 = true)).
  { destruct (PyDict.get ov norm) as [target|] eqn:Hg.
    - destruct (target =? app_key) eqn:Et.
      + exists (dict_del ov norm), true. split; [reflexivity|]. repeat split.
        * rewrite get_dict_del, String.eqb_refl. discriminate.
        * intros n H. rewrite get_dict_del. destruct (norm =? n); [discriminate|assumption].
        * intros n t. rewrite get_dict_del. destruct (norm =? n); [discriminate|auto].
        * discriminate.
        * discriminate.
      + exists ov, changed. split; [reflexivity|]. repeat split; auto.
        rewrite Hg. intros E. inversion E; subst. now rewrite String.eqb_refl in Et.
    - exists ov, changed. split; [reflexivity|]. repeat split; auto.
      rewrite Hg. discriminate. }
  destruct Hstep as (ov1 & changed1 & -> & Hnot & Hkeep & Hsub1 & Hsame1 & Hmono1).
  destruct (PyStr.mem norm item_norms) eqn:Em.
  - apply mem_In in Em. repeat split.
    + exists more. split; [reflexivity | exact Hn].
    + intros n Hin. apply in_app_or in Hin. destruct Hin as [Hin|[<-|[]]]; auto.
    + intros n Hin. apply in_app_or in Hin. destruct Hin as [Hin|[<-|[]]]; auto.
    + intros n t H. auto.
    + destruct (Hsame1 H) as [Hc _]. now destruct (Hsame Hc).
    + destruct (Hsame1 H) as [Hc _]. now destruct (Hsame Hc).
    + destruct (Hsame1 H) as [Hc ->]. now destruct (Hsame Hc) as (_ & _ & ->).
    + intros H. auto.
  - repeat split; try discriminate.
    + exists (more ++ [norm]). split; [now rewrite app_assoc|].
      intros n. cbn [In]. rewrite in_app_iff, (Hn n). cbn [In]. tauto.
    + intros n Hin. apply in_app_or in Hin. destruct Hin as [Hin|[<-|[]]];
        [right; auto | now left].
    + intros n Hin. apply in_app_or in Hin. destruct Hin as [Hin|[<-|[]]]; auto.
    + intros n t H. auto.
Qed.

Lemma unassign_norms_fold app_key items0 ov0 changed0 norms done st :
  unassign_norms_inv app_key items0 ov0 changed0 done st ->
  unassign_norms_inv app_key items0 ov0 changed0 (done ++ norms)
                     (fold_left (unassign_norm app_key) norms st).
Proof.
  revert done st. induction norms as [|norm norms IH]; intros done st H.
  - now rewrite app_nil_r.
  - simpl. replace (done ++ norm :: norms) with ((done ++ [norm]) ++ norms)
      by now rewrite <- app_assoc.
    apply IH. now apply unassign_norm_step.
Qed.

(** One turn of the outer loop. *)
Lemma unassign_app_spec un ov changed app_key norms :
  let '(un', ov', changed') := unassign_app (un, ov, changed) (app_key, norms) in
  (forall k, k <> app_key -> recorded un' k = recorded un k) /\
  (exists more, recorded un' app_key = recorded un app_key ++ more) /\
  (forall n, In n norms -> nrp n = n -> In n (map nrp (recorded un' app_key))) /\
  (forall n, In n norms -> PyDict.get ov' n <> Some app_key) /\
  (forall n t, PyDict.get ov' n = Some t -> PyDict.get ov n = Some t) /\
  (changed' = false -> changed = false /\ un' = un /\ ov' = ov) /\
  (changed = true -> changed' = true) /\
  (PyDict.wf un -> PyDict.wf un').
Proof.
  unfold unassign_app.
  set (items0 := recorded un app_key).
  assert (H0 : unassign_norms_inv app_key items0 ov changed []
                 (items0, map nrp items0, (ov, changed))).
  { repeat split; auto; try (intros n []).
    exists []. rewrite app_nil_r. split; [reflexivity|]. intros n. cbn [In]. tauto. }
  pose proof (unassign_norms_fold norms H0) as H. cbn [app] in H.
  destruct (fold_left (unassign_norm app_key) norms _) as [[items' norms'] [ov' changed']].
  destruct H as ((more & -> & Hn) & Hdone & Hov & Hsub & Hsame & Hmono).
  assert (Hrec : recorded
                   match items0 ++ more with
                   | [] => un
                   | _ :: _ => PyDict.set un app_key (items0 ++ more)
                   end app_key = items0 ++ more).
  { destruct (items0 ++ more) as [|x l] eqn:E.
    - apply app_eq_nil in E. destruct E as [E _]. exact E.
    - unfold recorded. now rewrite get_set_same. }
  repeat split.
  - intros k Hk. destruct (items0 ++ more); [reflexivity|].
    unfold recorded. now rewrite get_set_other.
  - exists more. exact Hrec.
  - intros n Hin Hidem. rewrite Hrec, map_app, in_app_iff.
    apply Hdone, Hn in Hin. destruct Hin as [Hin|Hin]; [now left|].
    right. rewrite <- Hidem. now apply in_map.
  - exact Hov.
  - exact Hsub.
  - now destruct (Hsame H).
  - destruct (Hsame H) as (_ & E & _).
    assert (Hm : more = []).
    { apply (app_inv_head items0). now rewrite app_nil_r. }
    subst more. rewrite app_nil_r. destruct items0 as [|x l] eqn:E0; [reflexivity|].
    apply set_same. unfold items0, recorded in E0.
    destruct (PyDict.get un app_key); [now rewrite E0 | discriminate].
  - now destruct (Hsame H).
  - exact Hmono.
  - intros Hwf. destruct (items0 ++ more); [assumption | now apply wf_set].
Qed.

(** **** The applications of the selection *)

Lemma unassign_apps_keep updates st k :
  ~ In k (PyDict.keys updates) ->
  let '(un, ov, changed) := st in
  let '(un', ov', changed') := fold_left unassign_app updates st in
  recorded un' k = recorded un k /\
  (forall n t, PyDict.get ov' n = Some t -> PyDict.get ov n = Some t) /\
  (changed' = false -> changed = false /\ un' = un /\ ov' = ov) /\
  (changed = true -> changed' = true) /\
  (PyDict.wf un -> PyDict.wf un').
Proof.
  revert st. induction updates as [|[k0 norms] updates IH]; intros [[un ov] changed] Hk.
  - simpl. repeat split; auto.
  - cbn [fold_left]. pose proof (unassign_app_spec un ov changed k0 norms) as Hstep.
    destruct (unassign_app (un, ov, changed) (k0, norms)) as [[un1 ov1] changed1].
    specialize (IH (un1, ov1, changed1)).
    assert (Hk' : ~ In k (PyDict.keys updates)).
    { intros H. apply Hk. now right. }
    specialize (IH Hk'). cbv beta iota in IH.
    destruct (fold_left unassign_app updates (un1, ov1, changed1)) as [[un' ov'] changed'].
    destruct Hstep as (Hother & _ & _ & _ & Hsub & Hsame & Hmono & Hwf).
    destruct IH as (Hrec & Hsub' & Hsame' & Hmono' & Hwf').
    repeat split.
    + rewrite Hrec. apply Hother. intros ->. apply Hk. now left.
    + intros n t H. auto.
    + destruct (Hsame' H) as (Hc & _ & _). now destruct (Hsame Hc).
    + destruct (Hsame' H) as (Hc & -> & _). now destruct (Hsame Hc) as (_ & -> & _).
    + destruct (Hsame' H) as (Hc & _ & ->). now destruct (Hsame Hc) as (_ & _ & ->).
    + auto.
    + auto.
Qed.

Lemma unassign_apps_spec updates st k norms :
  PyDict.wf updates -> In (k, norms) updates ->
  let '(un, ov, changed) := st in
  let '(un', ov', changed') := fold_left unassign_app updates st in
  (forall n, In n norms -> nrp n = n -> In n (map nrp (recorded un' k))) /\
  (forall n, In n norms -> PyDict.get ov' n <> Some k) /\
  (changed' = false -> changed = false /\ un' = un /\ ov' = ov) /\
  (PyDict.wf un -> PyDict.wf un').
Proof.
  revert st. induction updates as [|[k0 norms0] updates IH]; intros [[un ov] changed] Hwf Hin;
    [destruct Hin|].
  inversion Hwf as [|? ? Hnotin Hwf']; subst.
  cbn [fold_left]. pose proof (unassign_app_spec un ov changed k0 norms0) as Hstep.
  destruct (unassign_app (un, ov, changed) (k0, norms0)) as [[un1 ov1] changed1] eqn:E1.
  destruct Hstep as (Hother & Hmore & Hcov & Hov & Hsub & Hsame & Hmono & Hwf1).
  destruct Hin as [E|Hin].
  - inversion E; subst k0 norms0.
    pose proof (@unassign_apps_keep updates (un1, ov1, changed1) k Hnotin) as Hrest.
    cbv beta iota in Hrest.
    destruct (fold_left unassign_app updates (un1, ov1, changed1)) as [[un' ov'] changed'].
    destruct Hrest as (Hrec & Hsub' & Hsame' & Hmono' & Hwf2).
    repeat split.
    + intros n Hn Hidem. rewrite Hrec. now apply Hcov.
    + intros n Hn H. apply (Hov n Hn). now apply Hsub'.
    + destruct (Hsame' H) as (Hc & _ & _). now destruct (Hsame Hc).
    + destruct (Hsame' H) as (Hc & -> & _). now destruct (Hsame Hc) as (_ & -> & _).
    + destruct (Hsame' H) as (Hc & _ & ->). now destruct (Hsame Hc) as (_ & _ & ->).
    + auto.
  - specialize (IH (un1, ov1, changed1) Hwf' Hin). cbv beta iota in IH.
    destruct (fold_left unassign_app updates (un1, ov1, changed1)) as [[un' ov'] changed'].
    destruct IH as (Hcov' & Hov' & Hsame' & Hwf2).
    repeat split; auto.
    + destruct (Hsame' H) as (Hc & _ & _). now destruct (Hsame Hc).
    + destruct (Hsame' H) as (Hc & -> & _). now destruct (Hsame Hc) as (_ & -> & _).
    + destruct (Hsame' H) as (Hc & _ & ->). now destruct (Hsame Hc) as (_ & _ & ->).
Qed.

End UnassignHandler.

(** After [on_related_unassign] on a row that is not manual, whose
    normalized path is non-empty and is its own normalized form, the path
    is covered by the unassigned record of the application and no
    reassignment sends it to that application; and when it was not
    unassigned before, the list of the application keeps no entry at it
    other than a manual one. *)
Theorem related_unassign_effect os_norm o all_apps rows a r :
  PyDict.wf (related_unassigned o) ->
  In (a, r) rows -> source r <> "manual" -> norm_of os_norm r <> "" ->
  _normalize_related_path os_norm (norm_of os_norm r) = norm_of os_norm r ->
  let '(o', apps') := on_related_unassign os_norm o all_apps rows in
  In (norm_of os_norm r)
     (map (_normalize_related_path os_norm) (recorded (related_unassigned o') (key a))) /\
  PyDict.get (related_overrides o') (norm_of os_norm r) <> Some (key a) /\
  (~ In (norm_of os_norm r)
        (map (_normalize_related_path os_norm)
             (recorded (related_unassigned o) (key a))) ->
   forall b x, In b apps' -> key b = key a -> In x (related_files b) ->
               norm_of os_norm x = norm_of os_norm r -> source x = "manual").
Proof.
  intros Hwf Hrow Hs Hne Hidem.
  destruct (@unassign_updates_has os_norm rows a r Hrow Hs Hne) as (norms & Hg & Hin).
  pose proof (unassign_updates_wf os_norm rows) as Hwfu.
  unfold on_related_unassign.
  destruct (unassign_updates os_norm rows) as [|u updates] eqn:Eu; [discriminate|].
  rewrite <- Eu in *. apply get_In in Hg.
  pose proof (@unassign_apps_spec os_norm (unassign_updates os_norm rows)
                (related_unassigned o, related_overrides o, false) (key a) norms
                Hwfu Hg) as Hspec.
  cbv beta iota in Hspec.
  destruct (fold_left (unassign_app os_norm) (unassign_updates os_norm rows) _)
    as [[un' ov'] changed].
  destruct Hspec as (Hcov & Hov & Hsame & Hwf').
  destruct changed.
  - cbn [related_unassigned related_overrides]. repeat split.
    + now apply Hcov.
    + now apply Hov.
    + intros _ b x Hb Hk Hx Ex.
      unfold _apply_related_unassigned in Hb. rewrite suppress_spec in Hb.
      apply in_map_iff in Hb. destruct Hb as (b0 & <- & Hb0).
      rewrite related_set_related in Hx. apply filter_In in Hx. destruct Hx as [_ Hkeep].
      rewrite key_set_related in Hk.
      apply (suppress_keep_iff os_norm (key b0) x (Hwf' Hwf)) in Hkeep.
      destruct Hkeep as [Hm|[He|Hno]]; [assumption | congruence|].
      exfalso. apply Hno. rewrite Hk.
      pose proof (Hcov _ Hin Hidem) as Hc. apply in_map_iff in Hc.
      destruct Hc as (p & Ep & Hp). exists p. repeat split; try congruence.
      intros ->. now apply Hne.
  - destruct (Hsame eq_refl) as (_ & -> & ->). repeat split.
    + now apply Hcov.
    + now apply Hov.
    + intros Hfresh. exfalso. apply Hfresh. now apply Hcov.
Qed.

Lemma related_unassign_effect_witness :
  let o := mkOverrides [] [] [] [(Examples.conf, key Examples.app_b)] in
  let a := set_related Examples.app_b [Examples.found Examples.conf] in
  let r := Examples.found Examples.conf in
  let '(o', apps') :=
    on_related_unassign Examples.plain_norm o HandlerExamples.two_apps [(a, r)] in
  In (norm_of Examples.plain_norm r)
     (map (_normalize_related_path Examples.plain_norm)
          (recorded (related_unassigned o') (key a))) /\
  PyDict.get (related_overrides o') (norm_of Examples.plain_norm r) <> Some (key a) /\
  (~ In (norm_of Examples.plain_norm r)
        (map (_normalize_related_path Examples.plain_norm)
             (recorded (related_unassigned o) (key a))) ->
   forall b x, In b apps' -> key b = key a -> In x (related_files b) ->
               norm_of Examples.plain_norm x = norm_of Examples.plain_norm r ->
               source x = "manual").
Proof.
  intros o a r.
  apply (@related_unassign_effect Examples.plain_norm o HandlerExamples.two_apps
           [(a, r)] a r).
  - constructor.
  - now left.
  - vm_compute. discriminate.
  - vm_compute. discriminate.
  - reflexivity.
Defined.

(** *** [on_related_remove_manual] *)

Section RemoveManualHandler.

Variable os_norm : string -> string.

Local Abbreviation nrp := (_normalize_related_path os_norm).
Local Abbreviation nf := (norm_of os_norm).

(** The rows that count, by application: the manual ones with a non-empty
    normalized path. *)
Definition removal_select (removals : PyDict.dict (list string))
    (row : AppEntry * RelatedFile) : PyDict.dict (list string) :=
  if negb (source (snd row) =? "manual") then removals
  else if nf (snd row) =? "" then removals
  else add_update removals (key (fst row)) (nf (snd row)).

Definition removal_updates (rows : list (AppEntry * RelatedFile))
    : PyDict.dict (list string) :=
  fold_left removal_select rows [].

(** [norm and norm in norms], for the record [item]. *)
Definition removed_by (norms : list string) (item : ManualItem) : bool :=
  PyStr.nonempty (item_norm os_norm item) && PyStr.mem (item_norm os_norm item) norms.

Definition remove_app (st : PyDict.dict (list ManualItem) * bool)
    (rem : string * list string) : PyDict.dict (list ManualItem) * bool :=
  let '(m, changed) := st in
  let '(app_key, norms) := rem in
  match manual_items m app_key with
  | [] => st
  | items =>
      let kept := filter (fun item => negb (removed_by norms item)) items in
      (match kept with
       | [] => dict_del m app_key
       | _ => PyDict.set m app_key kept
       end,
       changed || existsb (removed_by norms) items)
  end.

(** The layers applied by this handler are the manual, reassignment and
    ignore layers. *)
Definition on_related_remove_manual (o : Overrides) (all_apps : list AppEntry)
    (rows : list (AppEntry * RelatedFile)) : Overrides * list AppEntry :=
  match removal_updates rows with
  | [] => (o, all_apps)
  | removals =>
      let '(m, changed) := fold_left remove_app removals (related_manual o, false) in
      let o' :=
        mkOverrides m (related_ignore o) (related_unassigned o) (related_overrides o) in
      if changed then
        (o',
         _apply_related_ignores os_norm (related_ignore o')
           (_apply_related_overrides os_norm (related_overrides o')
              (_apply_manual_related os_norm m all_apps)))
      else (o', all_apps)
  end.

(** **** The records left *)

Lemma removal_updates_has rows a r :
  In (a, r) rows -> source r = "manual" -> nf r <> "" ->
  exists norms, PyDict.get (removal_updates rows) (key a) = Some norms /\ In (nf r) norms.
Proof.
  unfold removal_updates. generalize (@nil (string * list string)).
  assert (Hkeep : forall rows acc k n,
            (exists norms, PyDict.get acc k = Some norms /\ In n norms) ->
            exists norms, PyDict.get (fold_left removal_select rows acc) k = Some norms /\
                          In n norms).
  { clear. induction rows as [|row rows IH]; intros acc k n H; [assumption|].
    simpl. apply IH. unfold removal_select.
    destruct (negb (source (snd row) =? "manual")); [assumption|].
    destruct (nf (snd row) =? ""); [assumption|].
    destruct H as (norms & Hg & Hin). eapply add_update_keeps; eassumption. }
  induction rows as [|row rows IH]; intros acc Hin Hs Hn; [destruct Hin|].
  destruct Hin as [->|Hin]; [|now apply IH].
  simpl. apply Hkeep. unfold removal_select. cbn [fst snd].
  apply String.eqb_eq in Hs. rewrite Hs. cbn [negb].
  apply String.eqb_neq in Hn. rewrite Hn. apply add_update_has.
Qed.

Lemma dict_del_wf {V} (d : PyDict.dict V) k : PyDict.wf d -> PyDict.wf (dict_del d k).
Proof. unfold PyDict.wf, PyDict.keys, dict_del. apply NoDup_map_filter. Qed.

Lemma remove_app_spec m changed app_key norms :
  let '(m', _) := remove_app (m, changed) (app_key, norms) in
  (forall k, k <> app_key -> manual_items m' k = manual_items m k) /\
  manual_items m' app_key =
    filter (fun item => negb (removed_by norms item)) (manual_items m app_key) /\
  (PyDict.wf m -> PyDict.wf m').
Proof.
  unfold remove_app. destruct (manual_items m app_key) as [|item items] eqn:E.
  { rewrite E. repeat split; auto. }
  set (kept := filter _ (item :: items)).
  destruct kept as [|x l] eqn:Ek.
  - repeat split.
    + intros k Hk. unfold manual_items. rewrite get_dict_del.
      apply String.eqb_neq in Hk. now rewrite String.eqb_sym, Hk.
    + unfold manual_items. now rewrite get_dict_del, String.eqb_refl.
    + apply dict_del_wf.
  - repeat split.
    + intros k Hk. unfold manual_items. now rewrite get_set_other.
    + unfold manual_items. now rewrite get_set_same.
    + apply wf_set.
Qed.

Lemma remove_apps_subset removals st k item :
  In item (manual_items (fst (fold_left remove_app removals st)) k) ->
  In item (manual_items (fst st) k).
Proof.
  revert st. induction removals as [|[k0 norms] removals IH]; intros [m changed] H;
    [assumption|].
  cbn [fold_left] in H. apply IH in H.
  pose proof (remove_app_spec m changed k0 norms) as Hstep.
  destruct (remove_app (m, changed) (k0, norms)) as [m1 changed1].
  cbn [fst] in *. destruct Hstep as (Hother & Hsame & _).
  destruct (string_dec k k0) as [->|Hne].
  - rewrite Hsame in H. now apply filter_In in H.
  - now rewrite (Hother k Hne) in H.
Qed.

Lemma remove_apps_wf removals st :
  PyDict.wf (fst st) -> PyDict.wf (fst (fold_left remove_app removals st)).
Proof.
  revert st. induction removals as [|[k0 norms] removals IH]; intros [m changed] H;
    [assumption|].
  cbn [fold_left]. apply IH.
  pose proof (remove_app_spec m changed k0 norms) as Hstep.
  destruct (remove_app (m, changed) (k0, norms)) as [m1 changed1].
  cbn [fst] in *. now apply Hstep.
Qed.

Lemma remove_apps_removed removals st k norms n item :
  In (k, norms) removals -> In n norms -> n <> "" ->
  In item (manual_items (fst (fold_left remove_app removals st)) k) ->
  item_norm os_norm item <> n.
Proof.
  revert st. induction removals as [|[k0 norms0] removals IH]; intros [m changed] Hin Hn Hne H;
    [destruct Hin|].
  destruct Hin as [E|Hin]; [|now apply (IH _ Hin Hn Hne H)].
  inversion E; subst k0 norms0. cbn [fold_left] in H.
  apply remove_apps_subset in H.
  pose proof (remove_app_spec m changed k norms) as Hstep.
  destruct (remove_app (m, changed) (k, norms)) as [m1 changed1].
  cbn [fst] in *. destruct Hstep as (_ & Hsame & _).
  rewrite Hsame in H. apply filter_In in H. destruct H as [_ Hkeep].
  intros En. unfold removed_by in Hkeep. rewrite En in Hkeep.
  apply nonempty_true in Hne. apply mem_In in Hn. now rewrite Hne, Hn in Hkeep.
Qed.

(** **** An entry that the layers leave in place *)

Lemma collect_keeps (ok : RelatedFile -> bool) (nrm : RelatedFile -> string) seen l r :
  NoDup (map nrm l) -> In r l -> ok r = true -> ~ In (nrm r) seen ->
  In r (collect ok nrm seen l).
Proof.
  revert seen. induction l as [|x l IH]; intros seen Hnd Hin Hok Hseen; [destruct Hin|].
  cbn [map] in Hnd. inversion Hnd as [|? ? Hx Hnd']; subst.
  cbn [collect]. destruct Hin as [->|Hin].
  - rewrite Hok. apply mem_false in Hseen. rewrite Hseen. now left.
  - assert (Hne : nrm x <> nrm r).
    { intros E. apply Hx. rewrite E. now apply in_map. }
    destruct (ok x); [|now apply IH].
    destruct (PyStr.mem (nrm x) seen); [now apply IH|].
    right. apply IH; try assumption. intros [E|H]; [now apply Hne | now apply Hseen].
Qed.

Lemma manual_layer_keeps m apps i a r :
  NoDup (app_keys apps) -> nth_error apps i = Some a ->
  In r (related_files a) -> NoDup (map nf (related_files a)) -> nf r <> "" ->
  PyDict.get (build_manual_by_path os_norm m (app_keys apps)) (nf r) = None ->
  exists files,
    nth_error (_apply_manual_related os_norm m apps) i = Some (set_related a files) /\
    In r files /\ NoDup (map nf files).
Proof.
  intros Hnd Hi Hr Hndf Hne Hg.
  destruct (apply_manual_cases os_norm m Hnd) as [[E _]|[_ E]].
  - exists (related_files a). rewrite E, set_related_same. auto.
  - exists (manual_files os_norm (build_manual_by_path os_norm m (app_keys apps)) a).
    rewrite E, nth_error_map, Hi. split; [reflexivity|]. unfold manual_files. split.
    + apply manual_steps_prefix. apply collect_keeps; try assumption; [|intros []].
      unfold manual_ok. rewrite Hg, andb_true_r. now apply nonempty_true.
    + eapply manual_steps_NoDup; [apply build_manual_sound | apply collect_NoDup].
Qed.

Lemma reassign_layer_keeps ov apps i a r :
  NoDup (app_keys apps) -> nth_error apps i = Some a ->
  In r (related_files a) -> NoDup (map nf (related_files a)) -> nf r <> "" ->
  (forall t, PyDict.get ov (nf r) = Some t -> t = "" \/ t = key a) ->
  exists files,
    nth_error (_apply_related_overrides os_norm ov apps) i = Some (set_related a files) /\
    In r files.
Proof.
  intros Hnd Hi Hr Hndf Hne Hov.
  destruct (apply_overrides_cases os_norm ov Hnd) as [[E _]|(_ & _ & E)].
  - exists (related_files a). rewrite E, set_related_same. auto.
  - eexists. rewrite E, nth_error_map, Hi. split; [reflexivity|].
    rewrite reassign_files_collect. apply attaches_prefix. cbn [fst].
    apply collect_keeps; try assumption; [|intros []].
    unfold reassign_ok, redirected. apply andb_true_iff. split; [now apply nonempty_true|].
    destruct (PyDict.get ov (nf r)) as [t|]; [|reflexivity].
    destruct (Hov t eq_refl) as [->| ->]; [reflexivity|].
    now rewrite String.eqb_refl, andb_false_r.
Qed.

Lemma suppress_layer_keeps records apps i a r :
  nth_error apps i = Some a -> In r (related_files a) -> source r = "manual" ->
  exists files,
    nth_error (suppress os_norm records apps) i = Some (set_related a files) /\
    In r files.
Proof.
  intros Hi Hr Hs. rewrite suppress_spec, nth_error_map, Hi. eexists.
  split; [reflexivity|]. apply filter_In. split; [assumption|].
  now apply suppress_keep_manual.
Qed.

End RemoveManualHandler.

(** [on_related_remove_manual] removes the manual records of the selected
    row, but not the entry: when no other application has a manual record
    at the path and no reassignment sends the path elsewhere, the manual
    entry is still in the list of its application after the handler. *)
Theorem remove_manual_keeps_entry os_norm o all_apps rows i a r :
  NoDup (app_keys all_apps) -> PyDict.wf (related_manual o) ->
  nth_error all_apps i = Some a ->
  In r (related_files a) -> NoDup (map (norm_of os_norm) (related_files a)) ->
  source r = "manual" -> norm_of os_norm r <> "" ->
  In (a, r) rows ->
  (forall k items item, In (k, items) (related_manual o) -> k <> key a ->
       In item items -> item_norm os_norm item <> norm_of os_norm r) ->
  (forall t, PyDict.get (related_overrides o) (norm_of os_norm r) = Some t ->
             t = "" \/ t = key a) ->
  let '(o', apps') := on_related_remove_manual os_norm o all_apps rows in
  Forall (fun item => item_norm os_norm item <> norm_of os_norm r)
         (manual_items (related_manual o') (key a)) /\
  exists files, nth_error apps' i = Some (set_related a files) /\ In r files.
Proof.
  intros Hnd Hwf Hi Hr Hndf Hs Hne Hrow Hothers Hov.
  destruct (@removal_updates_has os_norm rows a r Hrow Hs Hne) as (norms & Hg & Hin).
  unfold on_related_remove_manual.
  destruct (removal_updates os_norm rows) as [|u removals] eqn:Eu; [discriminate|].
  rewrite <- Eu in *. apply get_In in Hg.
  pose proof (fun item =>
                @remove_apps_removed os_norm (removal_updates os_norm rows)
                  (related_manual o, false) (key a) norms (norm_of os_norm r) item
                  Hg Hin Hne) as Hgone.
  pose proof (@remove_apps_subset os_norm (removal_updates os_norm rows)
                (related_manual o, false)) as Hsub.
  pose proof (@remove_apps_wf os_norm (removal_updates os_norm rows)
                (related_manual o, false) Hwf) as Hwf'.
  destruct (fold_left (remove_app os_norm) (removal_updates os_norm rows) _)
    as [m' changed].
  cbn [fst] in *.
  assert (Hrec : Forall (fun item => item_norm os_norm item <> norm_of os_norm r)
                        (manual_items m' (key a))).
  { apply Forall_forall. intros item Hitem. now apply Hgone. }
  destruct changed; cbn [related_manual related_ignore related_overrides];
    (split; [exact Hrec|]).
  2:{ exists (related_files a). now rewrite set_related_same. }
  assert (Hnone : PyDict.get (build_manual_by_path os_norm m' (app_keys all_apps))
                             (norm_of os_norm r) = None).
  { pose proof (build_manual_get os_norm m' (app_keys all_apps) (norm_of os_norm r))
      as Hown.
    destruct (PyDict.get (build_manual_by_path os_norm m' (app_keys all_apps))
                         (norm_of os_norm r)) as [[[k kd] p]|]; [|reflexivity].
    exfalso. destruct Hown as (_ & items & item & Hin' & Hitem & En).
    assert (Hitems : manual_items m' k = items).
    { unfold manual_items. now rewrite (In_get Hwf' Hin'). }
    destruct (string_dec k (key a)) as [->|Hk].
    - rewrite Forall_forall in Hrec. apply (Hrec item); [|assumption].
      now rewrite Hitems.
    - assert (Hold : In item (manual_items (related_manual o) k)).
      { apply Hsub. now rewrite Hitems. }
      unfold manual_items in Hold.
      destruct (PyDict.get (related_manual o) k) as [items0|] eqn:Hg0; [|destruct Hold].
      apply (Hothers k items0 item); try assumption. now apply get_In. }
  destruct (@manual_layer_keeps os_norm m' all_apps i a r Hnd Hi Hr Hndf Hne Hnone)
    as (files1 & Hi1 & Hr1 & Hnd1).
  assert (Hkeys1 : NoDup (app_keys (_apply_manual_related os_norm m' all_apps))).
  { now rewrite apply_manual_keys. }
  destruct (@reassign_layer_keeps os_norm (related_overrides o)
              (_apply_manual_related os_norm m' all_apps) i (set_related a files1) r
              Hkeys1 Hi1) as (files2 & Hi2 & Hr2).
  { now rewrite related_set_related. }
  { now rewrite related_set_related. }
  { assumption. }
  { now rewrite key_set_related. }
  rewrite set_related_twice in Hi2.
  destruct (@suppress_layer_keeps os_norm (related_ignore o)
              (_apply_related_overrides os_norm (related_overrides o)
                 (_apply_manual_related os_norm m' all_apps)) i (set_related a files2) r
              Hi2) as (files3 & Hi3 & Hr3).
  { now rewrite related_set_related. }
  { assumption. }
  rewrite set_related_twice in Hi3.
  exists files3. now split.
Qed.

Module RemoveExamples.

(** Alpha holds the manual entry of [note], recorded as such. *)
Definition manual_entry_of_note : RelatedFile :=
  mkRelated Examples.note "file" "manual" "High" "keep" 0.

Definition alpha : AppEntry := set_related Examples.app_a [manual_entry_of_note].

Definition apps : list AppEntry := [alpha; Examples.app_b].

End RemoveExamples.

Lemma remove_manual_keeps_entry_witness :
  let o := Examples.manual_note in
  let r := RemoveExamples.manual_entry_of_note in
  let '(o', apps') :=
    on_related_remove_manual Examples.plain_norm o RemoveExamples.apps
                             [(RemoveExamples.alpha, r)] in
  Forall (fun item => item_norm Examples.plain_norm item <> norm_of Examples.plain_norm r)
         (manual_items (related_manual o') (key RemoveExamples.alpha)) /\
  exists files,
    nth_error apps' 0 = Some (set_related RemoveExamples.alpha files) /\ In r files.
Proof.
  intros o r.
  apply (@remove_manual_keeps_entry Examples.plain_norm o RemoveExamples.apps
           [(RemoveExamples.alpha, r)] 0 RemoveExamples.alpha r).
  - vm_compute. repeat constructor; simpl; intuition discriminate.
  - vm_compute. repeat constructor. intros [].
  - reflexivity.
  - now left.
  - vm_compute. repeat constructor. intros [].
  - reflexivity.
  - vm_compute. discriminate.
  - now left.
  - intros k items item [E|[]]. inversion E; subst. intros Hk. now elim Hk.
  - intros t Ht. vm_compute in Ht. discriminate.
Defined.

(** ** The key of an application ([models.py]) *)

From Stdlib Require Import DecimalNat.

Section KeyFacts.

Definition bar : ascii := "|"%char.

Fixpoint bar_free (s : string) : bool :=
  match s with
  | EmptyString => true
  | String c s' => negb (Ascii.eqb c bar) && bar_free s'
  end.

Lemma string_of_uint_bar_free d : bar_free (NilEmpty.string_of_uint d) = true.
Proof. induction d; simpl; auto. Qed.

Lemma str_of_nat_bar_free n : bar_free (PyStr.str_of_nat n) = true.
Proof. apply string_of_uint_bar_free. Qed.

Lemma str_of_nat_inj n m : PyStr.str_of_nat n = PyStr.str_of_nat m -> n = m.
Proof.
  unfold PyStr.str_of_nat. intros E.
  apply (f_equal NilEmpty.uint_of_string) in E. rewrite !NilEmpty.usu in E.
  inversion E as [E']. apply (f_equal Nat.of_uint) in E'.
  now rewrite !Unsigned.of_to in E'.
Qed.

(** Two texts that agree after a first bar agree before it. *)
Lemma split_at_bar s1 s2 r1 r2 :
  bar_free s1 = true -> bar_free s2 = true ->
  (s1 ++ String bar r1)%string = (s2 ++ String bar r2)%string -> s1 = s2 /\ r1 = r2.
Proof.
  revert s2. induction s1 as [|c s1 IH]; intros [|c2 s2] H1 H2 E; simpl in *.
  - inversion E. auto.
  - inversion E; subst. unfold bar in H2. rewrite Ascii.eqb_refl in H2. discriminate.
  - inversion E; subst. unfold bar in H1. rewrite Ascii.eqb_refl in H1. discriminate.
  - inversion E; subst. apply andb_true_iff in H1. apply andb_true_iff in H2.
    destruct (IH s2 (proj2 H1) (proj2 H2) H3) as [-> ->]. auto.
Qed.

Lemma split_at_length s1 s2 r1 r2 :
  String.length s1 = String.length s2 ->
  (s1 ++ r1)%string = (s2 ++ r2)%string -> s1 = s2 /\ r1 = r2.
Proof.
  revert s2. induction s1 as [|c s1 IH]; intros [|c2 s2] Hl E; simpl in *;
    try discriminate; [auto|].
  inversion E; subst. inversion Hl as [Hl'].
  destruct (IH s2 Hl' H1) as [-> ->]. auto.
Qed.

End KeyFacts.

Lemma key_parts a b : key a = key b -> name a = name b /\ version a = version b.
Proof.
  unfold key. intros E.
  change ("|" ++ ?x)%string with (String bar x) in E.
  apply split_at_bar in E; try apply str_of_nat_bar_free.
  destruct E as [El E]. apply str_of_nat_inj in El.
  change (String bar ?x) with ("|" ++ x)%string in E.
  apply (split_at_length El) in E. destruct E as [En E].
  split; [assumption|].
  change ("|" ++ ?x)%string with (String bar x) in E. inversion E as [E'].
  apply split_at_bar in E'; try apply str_of_nat_bar_free.
  now destruct E'.
Qed.


(** ** The registry scan ([scanner.py]) *)

From Stdlib Require Import Sorting.Permutation Sorting.Sorted.

(** ** Python's stable sort

    [sorted(l, key=...)], for a total comparison [leb] of the keys: an
    element goes before the first element that it does not follow, so that
    elements with equal keys keep their order. *)

Section StableSort.

Variable A : Type.
Variable leb : A -> A -> bool.

Fixpoint insert_by (a : A) (l : list A) : list A :=
  match l with
  | [] => [a]
  | b :: l' => if leb a b then a :: b :: l' else b :: insert_by a l'
  end.

Definition sort_by (l : list A) : list A := fold_right insert_by [] l.

Lemma insert_by_perm a l : Permutation (a :: l) (insert_by a l).
Proof.
  induction l as [|b l IH]; simpl; [apply Permutation_refl|].
  destruct (leb a b); [apply Permutation_refl|].
  eapply perm_trans; [apply perm_swap|]. now apply perm_skip.
Qed.

Lemma sort_by_perm l : Permutation l (sort_by l).
Proof.
  induction l as [|a l IH]; simpl; [constructor|].
  eapply perm_trans; [apply perm_skip, IH | apply insert_by_perm].
Qed.

Hypothesis leb_total : forall a b, leb a b = true \/ leb b a = true.

Lemma insert_by_sorted a l :
  Sorted (fun x y => leb x y = true) l ->
  Sorted (fun x y => leb x y = true) (insert_by a l).
Proof.
  induction l as [|b l IH]; intros Hs; simpl; [repeat constructor|].
  destruct (leb a b) eqn:E.
  - constructor; [assumption|]. now constructor.
  - inversion Hs as [|? ? Hs' Hhd]; subst. constructor; [now apply IH|].
    assert (Hba : leb b a = true).
    { destruct (leb_total a b); [congruence | assumption]. }
    destruct l as [|c l]; simpl; [now constructor|].
    destruct (leb a c); constructor; [assumption|].
    now inversion Hhd.
Qed.

Lemma sort_by_sorted l : Sorted (fun x y => leb x y = true) (sort_by l).
Proof.
  induction l as [|a l IH]; simpl; [constructor | now apply insert_by_sorted].
Qed.

End StableSort.

Module RegistryScan.

(** What the registry gives for one of [REG_PATHS]: whether the view is
    the 64-bit one, and the entries that [_read_entry] builds for the
    sub-keys that can be opened, in the order of their enumeration (a base
    key that cannot be opened gives none). *)
Definition RegView : Type := bool * list AppEntry.

(** The key of [raw_entries]. *)
Definition entry_id (a : AppEntry) : string * string := (name a, version a).

Definition id_eqb (i j : string * string) : bool :=
  (fst i =? fst j) && (snd i =? snd j).

(** [raw_entries], in insertion order, each entry with its [_64bit]
    attribute. *)
Definition Raw : Type := list (AppEntry * bool).

Fixpoint raw_get (raw : Raw) (i : string * string) : option (AppEntry * bool) :=
  match raw with
  | [] => None
  | e :: raw' => if id_eqb (entry_id (fst e)) i then Some e else raw_get raw' i
  end.

(** [raw_entries[key] = app]: an existing key keeps its position. *)
Fixpoint raw_set (raw : Raw) (app : AppEntry) (is_64 : bool) : Raw :=
  match raw with
  | [] => [(app, is_64)]
  | e :: raw' =>
      if id_eqb (entry_id (fst e)) (entry_id app) then (app, is_64) :: raw'
      else e :: raw_set raw' app is_64
  end.

(** One sub-key of a view. *)
Definition scan_entry (is_64 : bool) (raw : Raw) (app : AppEntry) : Raw :=
  if name app =? "" then raw
  else
    match raw_get raw (entry_id app) with
    | Some (_, existing_is_64) =>
        if existing_is_64 && negb is_64 then raw else raw_set raw app is_64
    | None => raw_set raw app is_64
    end.

Definition scan_view (raw : Raw) (v : RegView) : Raw :=
  fold_left (scan_entry (fst v)) (snd v) raw.

(** [sorted(..., key=lambda x: (x.name or "").lower())]: the stable sort
    by the lower-cased name. *)
Definition name_leb (a b : AppEntry) : bool :=
  String.leb (PyStr.lower (name a)) (PyStr.lower (name b)).

Definition sort_by_name (l : list AppEntry) : list AppEntry := sort_by name_leb l.

(** [AppScanner.scan] without the sizes. *)
Definition scan (views : list RegView) : list AppEntry :=
  sort_by_name (map fst (fold_left scan_view views [])).

(** *** The entries read, one after the other *)

Definition reads (views : list RegView) : list (AppEntry * bool) :=
  flat_map (fun v => map (fun a => (a, fst v)) (snd v)) views.

Definition scan_read (raw : Raw) (e : AppEntry * bool) : Raw :=
  scan_entry (snd e) raw (fst e).

Lemma scan_views_reads views raw :
  fold_left scan_view views raw = fold_left scan_read (reads views) raw.
Proof.
  revert raw. induction views as [|[is_64 apps] views IH]; intros raw; [reflexivity|].
  cbn [fold_left reads flat_map]. rewrite fold_left_app, <- IH. f_equal.
  unfold scan_view. cbn [fst snd]. revert raw.
  induction apps as [|a apps IHa]; intros raw; [reflexivity|].
  cbn [map fold_left]. now rewrite IHa.
Qed.

Lemma id_eqb_eq i j : id_eqb i j = true <-> i = j.
Proof.
  destruct i as [n1 v1], j as [n2 v2]. unfold id_eqb. cbn [fst snd].
  rewrite andb_true_iff, !String.eqb_eq. split; [intros [-> ->]; reflexivity|].
  intros E. inversion E. auto.
Qed.

Lemma raw_get_In raw i e : raw_get raw i = Some e -> In e raw /\ entry_id (fst e) = i.
Proof.
  induction raw as [|e0 raw IH]; simpl; [discriminate|].
  destruct (id_eqb (entry_id (fst e0)) i) eqn:E.
  - intros H. inversion H; subst. split; [now left | now apply id_eqb_eq].
  - intros H. destruct (IH H). auto.
Qed.

Lemma raw_get_None raw i :
  raw_get raw i = None <-> ~ In i (map (fun e => entry_id (fst e)) raw).
Proof.
  induction raw as [|e0 raw IH]; simpl; [tauto|].
  destruct (id_eqb (entry_id (fst e0)) i) eqn:E.
  - apply id_eqb_eq in E. split; [discriminate | intros H; elim H; now left].
  - rewrite IH. split; [intros H [H1|H1]; auto | tauto].
    apply id_eqb_eq in H1. congruence.
Qed.

Lemma raw_set_ids raw app is_64 :
  map (fun e => entry_id (fst e)) (raw_set raw app is_64) =
  match raw_get raw (entry_id app) with
  | Some _ => map (fun e => entry_id (fst e)) raw
  | None => map (fun e => entry_id (fst e)) raw ++ [entry_id app]
  end.
Proof.
  induction raw as [|e0 raw IH]; simpl; [reflexivity|].
  destruct (id_eqb (entry_id (fst e0)) (entry_id app)) eqn:E; simpl.
  - apply id_eqb_eq in E. now rewrite E.
  - rewrite IH. now destruct (raw_get raw (entry_id app)).
Qed.

Lemma raw_set_In raw app is_64 e :
  In e (raw_set raw app is_64) -> e = (app, is_64) \/ In e raw.
Proof.
  induction raw as [|e0 raw IH]; simpl; [intros [<-|[]]; now left|].
  destruct (id_eqb (entry_id (fst e0)) (entry_id app)); simpl.
  - intros [<-|H]; auto.
  - intros [<-|H]; auto. destruct (IH H); auto.
Qed.

Lemma raw_set_has raw app is_64 : In (app, is_64) (raw_set raw app is_64).
Proof.
  induction raw as [|e0 raw IH]; simpl; [now left|].
  destruct (id_eqb (entry_id (fst e0)) (entry_id app)); simpl; auto.
Qed.

Lemma raw_set_other raw app is_64 e :
  In e raw -> entry_id (fst e) <> entry_id app -> In e (raw_set raw app is_64).
Proof.
  induction raw as [|e0 raw IH]; simpl; [intros []|].
  intros [->|H] Hne.
  - destruct (id_eqb (entry_id (fst e)) (entry_id app)) eqn:E.
    + apply id_eqb_eq in E. contradiction.
    + now left.
  - destruct (id_eqb (entry_id (fst e0)) (entry_id app)); simpl; auto.
Qed.

(** What [raw_entries] holds after the entries [done]. *)
Definition raw_inv (done : list (AppEntry * bool)) (raw : Raw) : Prop :=
  NoDup (map (fun e => entry_id (fst e)) raw) /\
  (forall e, In e raw -> In e done /\ name (fst e) <> "") /\
  (forall b g, In (b, g) done -> name b <> "" ->
     exists a f, In (a, f) raw /\ entry_id a = entry_id b /\ (g = true -> f = true)).

Lemma raw_unique (raw : Raw) e1 e2 :
  NoDup (map (fun e => entry_id (fst e)) raw) -> In e1 raw -> In e2 raw ->
  entry_id (fst e1) = entry_id (fst e2) -> e1 = e2.
Proof.
  induction raw as [|x raw IH]; intros Hnd H1 H2 E; [destruct H1|].
  cbn [map] in Hnd. inversion Hnd as [|? ? Hx Hnd']; subst.
  destruct H1 as [->|H1], H2 as [->|H2].
  - reflexivity.
  - exfalso. apply Hx. rewrite E. now apply (in_map (fun e => entry_id (fst e))).
  - exfalso. apply Hx. rewrite <- E. now apply (in_map (fun e => entry_id (fst e))).
  - now apply IH.
Qed.

Lemma raw_inv_skip done raw app is_64 :
  raw_inv done raw ->
  (name app = "" \/
   exists a0, raw_get raw (entry_id app) = Some (a0, true) /\ is_64 = false) ->
  raw_inv (done ++ [(app, is_64)]) raw.
Proof.
  intros (Hnd & Hfrom & Hall) Hskip. repeat split.
  - assumption.
  - apply in_or_app. left. now apply Hfrom.
  - now apply Hfrom.
  - intros b g Hin Hb. apply in_app_or in Hin. destruct Hin as [Hin|[E|[]]];
      [now apply Hall|].
    inversion E; subst. destruct Hskip as [Hn|(a0 & Hg & ->)]; [contradiction|].
    destruct (raw_get_In Hg) as [Ha0 Eid0]. cbn [fst] in Eid0.
    exists a0, true. split; [assumption|]. split; [assumption | discriminate].
Qed.

Lemma raw_inv_set done raw app is_64 :
  raw_inv done raw -> name app <> "" ->
  (forall a0, raw_get raw (entry_id app) = Some (a0, true) -> is_64 = true) ->
  raw_inv (done ++ [(app, is_64)]) (raw_set raw app is_64).
Proof.
  intros (Hnd & Hfrom & Hall) Hname Hpref. repeat split.
  - rewrite raw_set_ids. destruct (raw_get raw (entry_id app)) eqn:Hg; [assumption|].
    apply raw_get_None in Hg.
    apply NoDup_app; [assumption | repeat constructor; intros [] |].
    intros x Hx [<-|[]]. contradiction.
  - apply raw_set_In in H. destruct H as [->|H];
      [apply in_or_app; right; now left | apply in_or_app; left; now apply Hfrom].
  - apply raw_set_In in H. destruct H as [->|H]; [assumption | now apply Hfrom].
  - intros b g Hin Hb. apply in_app_or in Hin. destruct Hin as [Hin|[E|[]]].
    2:{ inversion E; subst. eexists _, _. split; [apply raw_set_has | now split]. }
    destruct (Hall b g Hin Hb) as (a & f & Ha & Eid & Hf).
    destruct (id_eqb (entry_id a) (entry_id app)) eqn:E.
    + apply id_eqb_eq in E. exists app, is_64.
      split; [apply raw_set_has|]. split; [congruence|].
      intros Hg1. specialize (Hf Hg1). subst f. apply (Hpref a).
      destruct (raw_get raw (entry_id app)) as [e0|] eqn:Hg.
      * destruct (raw_get_In Hg) as [He0 Eid0].
        assert (E0 : e0 = (a, true)).
        { apply (raw_unique Hnd He0 Ha). cbn [fst]. congruence. }
        now rewrite E0.
      * apply raw_get_None in Hg. elim Hg. rewrite <- E.
        now apply (in_map (fun e => entry_id (fst e)) raw (a, true)).
    + exists a, f. split; [|now split]. apply raw_set_other; [assumption|].
      cbn [fst]. intros H. apply id_eqb_eq in H. congruence.
Qed.

Lemma raw_inv_step done raw e :
  raw_inv done raw -> raw_inv (done ++ [e]) (scan_read raw e).
Proof.
  destruct e as [app is_64]. intros Hinv.
  unfold scan_read, scan_entry. cbn [fst snd].
  destruct (name app =? "") eqn:Ename.
  { apply String.eqb_eq in Ename. apply raw_inv_skip; auto. }
  apply String.eqb_neq in Ename.
  destruct (raw_get raw (entry_id app)) as [[a0 f0]|] eqn:Hg.
  - destruct (f0 && negb is_64) eqn:Ef.
    + apply andb_true_iff in Ef. destruct Ef as [-> Ef]. apply negb_true_iff in Ef.
      apply raw_inv_skip; [assumption|]. right. rewrite Hg. eauto.
    + apply raw_inv_set; try assumption. intros a1 Hg1. rewrite Hg in Hg1.
      inversion Hg1; subst. cbn [andb] in Ef. now apply negb_false_iff in Ef.
  - apply raw_inv_set; try assumption. intros a1 Hg1. rewrite Hg in Hg1. discriminate.
Qed.

Lemma raw_inv_fold rest done raw :
  raw_inv done raw -> raw_inv (done ++ rest) (fold_left scan_read rest raw).
Proof.
  revert done raw. induction rest as [|e rest IH]; intros done raw H.
  - now rewrite app_nil_r.
  - simpl. replace (done ++ e :: rest) with ((done ++ [e]) ++ rest)
      by now rewrite <- app_assoc.
    apply IH. now apply raw_inv_step.
Qed.

Lemma raw_inv_views views : raw_inv (reads views) (fold_left scan_view views []).
Proof.
  rewrite scan_views_reads. apply (@raw_inv_fold (reads views) [] []).
  repeat split; [constructor | destruct H | destruct H | intros b g []].
Qed.

Lemma reads_In views a f :
  In (a, f) (reads views) <-> exists v, In v views /\ fst v = f /\ In a (snd v).
Proof.
  unfold reads. rewrite in_flat_map. split.
  - intros (v & Hv & H). apply in_map_iff in H. destruct H as (a' & E & Ha).
    inversion E; subst. now exists v.
  - intros (v & Hv & <- & Ha). exists v. split; [assumption|].
    apply in_map_iff. now exists a.
Qed.

(** *** The sort *)

Definition name_le (a b : AppEntry) : Prop := name_leb a b = true.

Lemma sort_by_name_perm l : Permutation l (sort_by_name l).
Proof. apply sort_by_perm. Qed.

Lemma sort_by_name_sorted l : Sorted name_le (sort_by_name l).
Proof.
  apply sort_by_sorted. intros a b. unfold name_leb. apply String.leb_total.
Qed.

End RegistryScan.

(** [AppScanner.scan] returns applications with non-empty names and
    pairwise distinct keys, sorted by lower-cased name; each is an entry
    read from the registry, from a 64-bit view whenever a 64-bit view has
    an entry of that name and version; and every named entry read has its
    key in the result. *)
Theorem registry_scan_distinct_sorted views :
  let apps := RegistryScan.scan views in
  NoDup (app_keys apps) /\
  Sorted RegistryScan.name_le apps /\
  Forall (fun a =>
            name a <> "" /\
            exists v, In v views /\ In a (snd v) /\
              (fst v = true \/
               forall v' b, In v' views -> fst v' = true -> In b (snd v') ->
                            RegistryScan.entry_id b <> RegistryScan.entry_id a)) apps /\
  Forall (fun v => Forall (fun b => name b = "" \/ In (key b) (app_keys apps)) (snd v))
         views.
Proof.
  cbv zeta. unfold RegistryScan.scan.
  destruct (RegistryScan.raw_inv_views views) as (Hnd & Hfrom & Hall).
  set (raw := fold_left RegistryScan.scan_view views []) in *.
  pose proof (RegistryScan.sort_by_name_perm (map fst raw)) as Hperm.
  assert (Hin : forall a, In a (RegistryScan.sort_by_name (map fst raw)) <->
                          exists f, In (a, f) raw).
  { intros a. split.
    - intros H. apply (Permutation_in _ (Permutation_sym Hperm)) in H.
      apply in_map_iff in H. destruct H as ([a' f] & E & H). cbn in E. subst a'.
      now exists f.
    - intros (f & H). apply (Permutation_in _ Hperm). apply in_map_iff.
      now exists (a, f). }
  repeat split.
  - apply (Permutation_NoDup (Permutation_map key Hperm)).
    rewrite map_map.
    clear -Hnd. induction raw as [|e raw IH]; [constructor|].
    cbn [map] in *. inversion Hnd as [|? ? Hx Hnd']; subst.
    constructor; [|now apply IH]. intros H. apply Hx.
    apply in_map_iff in H. destruct H as (e' & E & He').
    apply in_map_iff. exists e'. split; [|assumption].
    apply key_parts in E. unfold RegistryScan.entry_id. destruct E as [-> ->].
    reflexivity.
  - apply RegistryScan.sort_by_name_sorted.
  - apply Forall_forall. intros a Ha. apply Hin in Ha. destruct Ha as (f & Ha).
    destruct (Hfrom _ Ha) as [Hdone Hname]. cbn [fst] in Hname.
    split; [assumption|].
    apply RegistryScan.reads_In in Hdone. destruct Hdone as (v & Hv & Ef & Hav).
    exists v. split; [assumption|]. split; [assumption|].
    destruct f; [now left|]. right. intros v' b Hv' E' Hb Eid.
    assert (Hread : In (b, true) (RegistryScan.reads views)).
    { apply RegistryScan.reads_In. now exists v'. }
    assert (Hbn : name b <> "").
    { unfold RegistryScan.entry_id in Eid. inversion Eid. congruence. }
    destruct (Hall b true Hread Hbn) as (a' & f' & Ha' & Eid' & Hf').
    assert (E : (a', f') = (a, false)).
    { apply (RegistryScan.raw_unique Hnd Ha' Ha). cbn [fst]. congruence. }
    inversion E; subst. now specialize (Hf' eq_refl).
  - apply Forall_forall. intros v Hv. apply Forall_forall. intros b Hb.
    destruct (string_dec (name b) "") as [E|Hne]; [now left|]. right.
    assert (Hread : In (b, fst v) (RegistryScan.reads views)).
    { apply RegistryScan.reads_In. now exists v. }
    destruct (Hall b (fst v) Hread Hne) as (a & f & Ha & Eid & _).
    apply in_map_iff. exists a. split; [|apply Hin; now exists f].
    unfold RegistryScan.entry_id in Eid. inversion Eid as [[En Ev]].
    unfold key. now rewrite En, Ev.
Qed.

(** ** The install size without limits ([scanner.py]) *)

Module UnlimitedSize.

Import SizeScan.

(** The bytes below an entry: a link, an entry that cannot be examined, a
    directory that cannot be opened and a file whose size cannot be read
    count for nothing. *)
Fixpoint entry_bytes (e : DirEntry) : Z :=
  match e with
  | File (Some n) => n
  | SubDir (Some l) => fold_right Z.add 0%Z (map entry_bytes l)
  | _ => 0%Z
  end.

Definition listing_bytes (l : option (list DirEntry)) : Z :=
  match l with
  | Some es => fold_right Z.add 0%Z (map entry_bytes es)
  | None => 0%Z
  end.

Fixpoint entry_sum_unlimited (e : DirEntry) :
  forall depth, SizeFacts.entry_sum None depth e = entry_bytes e :=
  match e with
  | SubDir (Some l) =>
      fun depth =>
        f_equal (fold_right Z.add 0%Z)
          ((fix all (l : list DirEntry) :
              map (SizeFacts.entry_sum None (depth + 1)) l = map entry_bytes l :=
              match l with
              | [] => eq_refl
              | e' :: l' =>
                  f_equal2 cons (entry_sum_unlimited e' (depth + 1)%Z) (all l')
              end) l)
  | _ => fun depth => eq_refl
  end.

Lemma listing_sum_unlimited depth l : SizeFacts.listing_sum None depth l = listing_bytes l.
Proof.
  destruct l as [es|]; [|reflexivity]. simpl. f_equal.
  induction es as [|e es IH]; [reflexivity|].
  simpl. now rewrite entry_sum_unlimited, IH.
Qed.

End UnlimitedSize.

(** Without limits the sizing of a directory always ends with a size: the
    sum of the sizes of all the files of the tree, in whole MiB when asked
    through [_compute_install_size_mb]. *)
Theorem install_size_unlimited fs root :
  (exists r,
     SizeScan._dir_size_bytes fs None root = Some r /\
     SizeScan.measured r = Some (UnlimitedSize.listing_bytes (SizeScan.scandir fs root))) /\
  (SizeScan._normalize_install_location fs root <> "" ->
   SizeScan.path_exists fs (SizeScan._normalize_install_location fs root) = true ->
   SizeScan.isfile fs (SizeScan._normalize_install_location fs root) = false ->
   exists r,
     SizeScan._compute_install_size_mb fs None root = Some r /\
     SizeScan.measured r =
       Some (SizeScan.to_mb
               (UnlimitedSize.listing_bytes
                  (SizeScan.scandir fs (SizeScan._normalize_install_location fs root))))).
Proof.
  assert (Hdir : forall d, exists r,
            SizeScan._dir_size_bytes fs None d = Some r /\
            SizeScan.measured r = Some (UnlimitedSize.listing_bytes (SizeScan.scandir fs d))).
  { intros d. unfold SizeScan._dir_size_bytes. cbn [SizeScan.start_deadline].
    destruct (@SizeFacts.size_loop_spec None fs
                (SizeScan.stack_weight [(SizeScan.scandir fs d, 0%Z)]) None
                (SizeScan.mkLoop [(SizeScan.scandir fs d, 0%Z)] 0 0 0 0))
      as (r & Hr & _ & _ & Hfull); [apply Nat.le_refl|].
    cbn [SizeScan.stack SizeScan.file_count SizeScan.total SizeScan.ticks
         SizeScan.scans] in *.
    rewrite SizeFacts.stack_sum_one in Hfull.
    exists r. split; [exact Hr|]. rewrite Hfull; [|reflexivity|reflexivity].
    now rewrite UnlimitedSize.listing_sum_unlimited. }
  split; [apply Hdir|].
  intros Hne Hex Hfile. unfold SizeScan._compute_install_size_mb.
  apply String.eqb_neq in Hne. rewrite Hne, Hex, Hfile. cbn [orb negb].
  destruct (Hdir (SizeScan._normalize_install_location fs root)) as (r & Hr & Hm).
  rewrite Hr. eexists. split; [reflexivity|]. cbn [SizeScan.measured]. now rewrite Hm.
Qed.

Lemma install_size_unlimited_witness :
  let fs := SizeExamples.nested in
  let root := SizeExamples.app_dir in
  SizeScan._normalize_install_location fs root <> "" /\
  exists r,
    SizeScan._compute_install_size_mb fs None root = Some r /\
    SizeScan.measured r =
      Some (SizeScan.to_mb
              (UnlimitedSize.listing_bytes
                 (SizeScan.scandir fs (SizeScan._normalize_install_location fs root)))).
Proof.
  intros fs root.
  assert (H1 : SizeScan._normalize_install_location fs root <> "")
    by (vm_compute; discriminate).
  split; [exact H1|].
  exact (proj2 (@install_size_unlimited fs root) H1 eq_refl eq_refl).
Defined.

(** ** The path of a command line ([scanner.py]) *)

Module CommandPath.

Definition dquote : ascii := ascii_of_nat 34.

(** [s.split(sep)[0]]: what comes before the first [sep]. *)
Fixpoint before_char (sep : ascii) (s : string) : string :=
  match s with
  | EmptyString => EmptyString
  | String c s' =>
      if Ascii.eqb c sep then EmptyString else String c (before_char sep s')
  end.

(** [s.find(c)], with [None] for -1. *)
Fixpoint index_of (c : ascii) (s : string) : option nat :=
  match s with
  | EmptyString => None
  | String a s' => if Ascii.eqb a c then Some 0 else option_map S (index_of c s')
  end.

Definition BLOCKED_EXE_NAMES : list string :=
  ["msiexec.exe"; "rundll32.exe"; "regsvr32.exe"; "cmd.exe"; "powershell.exe";
   "pwsh.exe"].

Section Extract.

(** [os.path.basename], which also splits a drive or a share off. *)
Variable basename : string -> string.

Definition _is_blocked_exe (p : string) : bool :=
  PyStr.mem (PyStr.lower (basename (PyStr.strip_quotes (PyStr.strip p))))
            BLOCKED_EXE_NAMES.

Definition _extract_path_from_command (raw : string) : string :=
  let text := PyStr.strip raw in
  if text =? "" then ""
  else
    let quoted :=
      match text with
      | String c rest =>
          if Ascii.eqb c dquote then
            match index_of dquote rest with
            | Some k => if (0 <? k)%nat then Some (String.substring 0 k rest) else None
            | None => None
            end
          else None
      | EmptyString => None
      end in
    match quoted with
    | Some candidate => candidate
    | None =>
        match PyStr.find ".exe" (PyStr.lower text) with
        | Some idx =>
            let candidate :=
              PyStr.strip (before_char ","%char (String.substring 0 (idx + 4) text)) in
            if _is_blocked_exe candidate then "" else candidate
        | None =>
            if (2 <=? String.length text)%nat &&
               match String.get 1 text with
               | Some c => Ascii.eqb c ":"%char
               | None => false
               end
            then
              let token :=
                PyStr.strip (before_char ","%char (before_char " "%char text)) in
              if _is_blocked_exe token then "" else token
            else ""
        end
    end.

Definition _extract_exe_name (raw : string) : string :=
  let candidate := _extract_path_from_command raw in
  if candidate =? "" then ""
  else
    let name := basename candidate in
    if PyStr.mem (PyStr.lower name) BLOCKED_EXE_NAMES then ""
    else if negb (PyStr.endswith ".exe" (PyStr.lower name)) then ""
    else name.

End Extract.

(** *** Facts on the string functions *)

Fixpoint free_of (c : ascii) (s : string) : bool :=
  match s with
  | EmptyString => true
  | String a s' => negb (Ascii.eqb a c) && free_of c s'
  end.

Lemma rstrip_by_after p s1 c s2 :
  p c = false ->
  PyStr.rstrip_by p (s1 ++ String c s2)%string =
  (s1 ++ String c (PyStr.rstrip_by p s2))%string.
Proof.
  intros Hc. induction s1 as [|a s1 IH]; cbn [String.append PyStr.rstrip_by]; cbv zeta.
  - now rewrite Hc.
  - rewrite IH.
    assert (E : ((s1 ++ String c (PyStr.rstrip_by p s2))%string =? "") = false)
      by now destruct s1.
    now rewrite E, andb_false_r.
Qed.

Lemma index_of_after c s r :
  free_of c s = true -> index_of c (s ++ String c r)%string = Some (String.length s).
Proof.
  induction s as [|a s IH]; cbn [String.append index_of free_of String.length].
  - now rewrite Ascii.eqb_refl.
  - intros H. apply andb_true_iff in H. destruct H as [Ha Hs].
    apply negb_true_iff in Ha. now rewrite Ha, (IH Hs).
Qed.

Lemma substring_prefix s r :
  String.substring 0 (String.length s) (s ++ r)%string = s.
Proof.
  induction s as [|a s IH]; cbn [String.append String.length String.substring].
  - now destruct r.
  - now rewrite IH.
Qed.

End CommandPath.

(** A command that starts with a quoted, non-empty text gives that text,
    whatever follows the closing quote and whatever the text is: the test
    of the blocked executables is not applied to it. *)
Theorem extract_quoted_path basename p rest :
  p <> "" -> CommandPath.free_of CommandPath.dquote p = true ->
  CommandPath._extract_path_from_command basename
    (String CommandPath.dquote (p ++ String CommandPath.dquote rest)) = p.
Proof.
  intros Hp Hfree. unfold CommandPath._extract_path_from_command.
  assert (Hq : PyStr.is_space CommandPath.dquote = false) by reflexivity.
  assert (Htext : PyStr.strip
                    (String CommandPath.dquote (p ++ String CommandPath.dquote rest)) =
                  String CommandPath.dquote
                    (p ++ String CommandPath.dquote (PyStr.rstrip_by PyStr.is_space rest))).
  { unfold PyStr.strip, PyStr.strip_by. rewrite (lstrip_by_fixed _ Hq).
    apply (@CommandPath.rstrip_by_after PyStr.is_space
             (String CommandPath.dquote p) CommandPath.dquote rest Hq). }
  rewrite Htext. cbn [String.eqb]. cbv zeta.
  rewrite Ascii.eqb_refl, (CommandPath.index_of_after _ Hfree).
  destruct p as [|a p]; [now elim Hp|].
  change (0 <? String.length (String a p))%nat with true. cbv iota.
  apply CommandPath.substring_prefix.
Qed.

Lemma extract_quoted_path_witness :
  "C:\Windows\System32\msiexec.exe" <> "" /\
  CommandPath._extract_path_from_command OsPath.basename
    (String CommandPath.dquote
       ("C:\Windows\System32\msiexec.exe" ++ String CommandPath.dquote " /X{0}"))
    = "C:\Windows\System32\msiexec.exe" /\
  CommandPath._is_blocked_exe OsPath.basename "C:\Windows\System32\msiexec.exe" = true /\
  CommandPath._extract_path_from_command OsPath.basename
    "C:\Windows\System32\msiexec.exe /X{0}" = "".
Proof.
  split; [discriminate|]. split; [|split; reflexivity].
  apply (@extract_quoted_path OsPath.basename "C:\Windows\System32\msiexec.exe" " /X{0}").
  - discriminate.
  - reflexivity.
Defined.

(** ** The cleaned text and its tokens ([related_scanner.py]) *)

Section CleanedFacts.

Lemma is_alnum_lower c : PyStr.is_alnum (PyStr.lower_char c) = PyStr.is_alnum c.
Proof. destruct c as [[] [] [] [] [] [] [] []]; reflexivity. Qed.

Lemma is_space_lower c : PyStr.is_space (PyStr.lower_char c) = PyStr.is_space c.
Proof. destruct c as [[] [] [] [] [] [] [] []]; reflexivity. Qed.

Lemma lower_char_idem c : PyStr.lower_char (PyStr.lower_char c) = PyStr.lower_char c.
Proof. destruct c as [[] [] [] [] [] [] [] []]; reflexivity. Qed.

Lemma alnum_not_space c : PyStr.is_alnum c = true -> PyStr.is_space c = false.
Proof. destruct c as [[] [] [] [] [] [] [] []]; vm_compute; congruence. Qed.

Lemma lower_idem s : PyStr.lower (PyStr.lower s) = PyStr.lower s.
Proof. induction s as [|c s IH]; simpl; [reflexivity|]. now rewrite lower_char_idem, IH. Qed.

Lemma lower_empty s : (PyStr.lower s =? "") = (s =? "").
Proof. now destruct s. Qed.

Lemma squeeze_lower b s : squeeze b (PyStr.lower s) = PyStr.lower (squeeze b s).
Proof.
  revert b. induction s as [|c s IH]; intros b; [reflexivity|].
  cbn [PyStr.lower squeeze]. rewrite is_alnum_lower.
  destruct (PyStr.is_alnum c).
  - cbn [PyStr.lower]. now rewrite IH.
  - destruct b; [apply IH|]. cbn [PyStr.lower]. now rewrite IH.
Qed.

Lemma lstrip_lower s :
  PyStr.lstrip_by PyStr.is_space (PyStr.lower s) =
  PyStr.lower (PyStr.lstrip_by PyStr.is_space s).
Proof.
  induction s as [|c s IH]; [reflexivity|].
  cbn [PyStr.lower PyStr.lstrip_by]. rewrite is_space_lower.
  now destruct (PyStr.is_space c).
Qed.

Lemma rstrip_lower s :
  PyStr.rstrip_by PyStr.is_space (PyStr.lower s) =
  PyStr.lower (PyStr.rstrip_by PyStr.is_space s).
Proof.
  induction s as [|c s IH]; [reflexivity|].
  cbn [PyStr.lower PyStr.rstrip_by]. cbv zeta.
  rewrite is_space_lower, IH, lower_empty.
  now destruct (PyStr.is_space c && (PyStr.rstrip_by PyStr.is_space s =? "")).
Qed.

Lemma strip_lower s : PyStr.strip (PyStr.lower s) = PyStr.lower (PyStr.strip s).
Proof.
  unfold PyStr.strip, PyStr.strip_by. now rewrite lstrip_lower, rstrip_lower.
Qed.

(** A text of letters, digits and single spaces; [prev_space] says that a
    space may not come first. *)
Fixpoint spaced (prev_space : bool) (s : string) : bool :=
  match s with
  | EmptyString => true
  | String c s' =>
      if PyStr.is_alnum c then spaced false s'
      else Ascii.eqb c " "%char && negb prev_space && spaced true s'
  end.

Lemma squeeze_spaced b s : spaced b (squeeze b s) = true.
Proof.
  revert b. induction s as [|c s IH]; intros b; [reflexivity|].
  cbn [squeeze]. destruct (PyStr.is_alnum c) eqn:E.
  - cbn [spaced]. rewrite E. apply IH.
  - destruct b; [apply IH|]. cbn [spaced].
    change (PyStr.is_alnum " "%char) with false. cbv iota.
    now rewrite Ascii.eqb_refl, IH.
Qed.

Lemma squeeze_fixed b s : spaced b s = true -> squeeze b s = s.
Proof.
  revert b. induction s as [|c s IH]; intros b H; [reflexivity|].
  cbn [spaced squeeze] in *. destruct (PyStr.is_alnum c).
  - now rewrite (IH false H).
  - apply andb_true_iff in H. destruct H as [H Hs].
    apply andb_true_iff in H. destruct H as [Hc Hb].
    apply Ascii.eqb_eq in Hc. apply negb_true_iff in Hb. subst b c.
    now rewrite (IH true Hs).
Qed.

Lemma lstrip_spaced b s :
  spaced b s = true -> forall b', spaced b' (PyStr.lstrip_by PyStr.is_space s) = true.
Proof.
  revert b. induction s as [|c s IH]; intros b H b'; [reflexivity|].
  cbn [spaced] in H. cbn [PyStr.lstrip_by].
  destruct (PyStr.is_alnum c) eqn:E.
  - rewrite (alnum_not_space E). cbn [spaced]. now rewrite E.
  - apply andb_true_iff in H. destruct H as [H Hs].
    apply andb_true_iff in H. destruct H as [Hc _].
    apply Ascii.eqb_eq in Hc. subst c.
    change (PyStr.is_space " "%char) with true. cbv iota. now apply (IH true).
Qed.

Lemma rstrip_spaced b s :
  spaced b s = true -> spaced b (PyStr.rstrip_by PyStr.is_space s) = true.
Proof.
  revert b. induction s as [|c s IH]; intros b H; [reflexivity|].
  cbn [spaced] in H. cbn [PyStr.rstrip_by]. cbv zeta.
  destruct (PyStr.is_space c && (PyStr.rstrip_by PyStr.is_space s =? ""));
    [reflexivity|].
  cbn [spaced]. destruct (PyStr.is_alnum c); [now apply IH|].
  apply andb_true_iff in H. destruct H as [H Hs]. rewrite H. now apply IH.
Qed.

Lemma strip_squeeze_spaced s : spaced false (PyStr.strip (squeeze false s)) = true.
Proof.
  unfold PyStr.strip, PyStr.strip_by. apply rstrip_spaced.
  apply (lstrip_spaced (squeeze_spaced false s)).
Qed.

Lemma cleaned_fixed t : _cleaned (_cleaned t) = _cleaned t.
Proof.
  unfold _cleaned. rewrite squeeze_lower, strip_lower.
  rewrite (squeeze_fixed (strip_squeeze_spaced t)).
  now rewrite strip_idem, lower_idem.
Qed.

(** *** [list(dict.fromkeys(l))] *)

Lemma unique_In seen l x :
  In x (PyStr.unique seen l) <-> In x l /\ ~ In x seen.
Proof.
  revert seen. induction l as [|y l IH]; intros seen; simpl; [tauto|].
  destruct (PyStr.mem y seen) eqn:E.
  - apply mem_In in E. rewrite IH. split; [tauto|].
    intros [[->|H] Hn]; [contradiction | tauto].
  - apply mem_false in E. simpl. rewrite IH. simpl. split.
    + intros [->|[H Hn]]; [tauto|]. split; [tauto|]. intros Hs. apply Hn. now right.
    + intros [[->|H] Hn]; [now left|].
      destruct (string_dec y x) as [->|Hne]; [now left|].
      right. split; [assumption|]. intros [E'|Hs]; [contradiction | contradiction].
Qed.

Lemma unique_NoDup seen l : NoDup (PyStr.unique seen l).
Proof.
  revert seen. induction l as [|y l IH]; intros seen; simpl; [constructor|].
  destruct (PyStr.mem y seen); [apply IH|].
  constructor; [|apply IH]. intros H. apply unique_In in H. destruct H as [_ H].
  apply H. now left.
Qed.

End CleanedFacts.

(** [_cleaned] gives a normal form: cleaning a cleaned text changes
    nothing, and the tokens of a text are those of its cleaned form. The
    tokens are pairwise distinct, the first of them is the cleaned text, and
    the others are words of it of three characters or more; there is none
    exactly when the cleaned text is empty. *)
Theorem cleaned_tokens_normal_form text :
  _cleaned (_cleaned text) = _cleaned text /\
  _tokens (_cleaned text) = _tokens text /\
  NoDup (_tokens text) /\
  (_tokens text = [] <-> _cleaned text = "") /\
  (_cleaned text <> "" -> hd_error (_tokens text) = Some (_cleaned text)) /\
  Forall (fun token =>
            token = _cleaned text \/
            (3 <= String.length token /\ In token (PyStr.split_spaces (_cleaned text))))
         (_tokens text).
Proof.
  split; [apply cleaned_fixed|]. split.
  { unfold _tokens. now rewrite cleaned_fixed. }
  unfold _tokens. destruct (_cleaned text =? "") eqn:E.
  - apply String.eqb_eq in E. repeat split; try constructor; auto.
    intros H. now elim H.
  - apply String.eqb_neq in E. split; [apply unique_NoDup|]. split; [|split].
    + cbn [PyStr.unique PyStr.mem existsb]. split; [discriminate | contradiction].
    + intros _. reflexivity.
    + apply Forall_forall. intros token H. apply unique_In in H. destruct H as [H _].
      destruct H as [<-|H]; [now left|]. right. apply filter_In in H.
      destruct H as [H Hlen]. split; [now apply Nat.leb_le | assumption].
Qed.

(** ** Names without case duplicates ([utils.py]) *)

Fixpoint unique_casefold_from (seen : list string) (values : list string)
    : list string :=
  match values with
  | [] => []
  | value :: rest =>
      let name := PyStr.strip value in
      if name =? "" then unique_casefold_from seen rest
      else
        let folded := PyStr.lower name in
        if PyStr.mem folded seen then unique_casefold_from seen rest
        else name :: unique_casefold_from (folded :: seen) rest
  end.

Definition unique_casefold (values : list string) : list string :=
  unique_casefold_from [] values.

(** [_merge_groups] of the controller. *)
Definition _merge_groups (groups incoming : list string) : list string :=
  unique_casefold (groups ++ incoming).

Section UniqueCasefoldFacts.

Lemma unique_casefold_In seen values n :
  In n (unique_casefold_from seen values) ->
  n <> "" /\ PyStr.strip n = n /\ ~ In (PyStr.lower n) seen /\
  exists v, In v values /\ PyStr.strip v = n.
Proof.
  revert seen. induction values as [|v values IH]; intros seen; simpl; [intros []|].
  destruct (PyStr.strip v =? "") eqn:E.
  { intros H. destruct (IH _ H) as (H1 & H2 & H3 & v' & Hv' & E'). eauto 8. }
  destruct (PyStr.mem (PyStr.lower (PyStr.strip v)) seen) eqn:Em.
  { intros H. destruct (IH _ H) as (H1 & H2 & H3 & v' & Hv' & E'). eauto 8. }
  apply String.eqb_neq in E. apply mem_false in Em. intros [<-|H].
  - repeat split; try assumption; [apply strip_idem|]. exists v. auto.
  - destruct (IH _ H) as (H1 & H2 & H3 & v' & Hv' & E').
    repeat split; try assumption; [|eauto]. intros Hs. apply H3. now right.
Qed.

Lemma unique_casefold_NoDup seen values :
  NoDup (map PyStr.lower (unique_casefold_from seen values)).
Proof.
  revert seen. induction values as [|v values IH]; intros seen; simpl; [constructor|].
  destruct (PyStr.strip v =? ""); [apply IH|].
  destruct (PyStr.mem (PyStr.lower (PyStr.strip v)) seen); [apply IH|].
  cbn [map]. constructor; [|apply IH]. intros H.
  apply in_map_iff in H. destruct H as (n & En & Hn).
  apply unique_casefold_In in Hn. destruct Hn as (_ & _ & Hs & _).
  apply Hs. left. now rewrite En.
Qed.

Lemma unique_casefold_covers seen values v :
  In v values -> PyStr.strip v <> "" ->
  In (PyStr.lower (PyStr.strip v)) seen \/
  In (PyStr.lower (PyStr.strip v)) (map PyStr.lower (unique_casefold_from seen values)).
Proof.
  revert seen. induction values as [|v0 values IH]; intros seen Hin Hne; [destruct Hin|].
  simpl. destruct Hin as [->|Hin].
  - apply String.eqb_neq in Hne. rewrite Hne.
    destruct (PyStr.mem (PyStr.lower (PyStr.strip v)) seen) eqn:Em.
    + left. now apply mem_In.
    + right. now left.
  - destruct (PyStr.strip v0 =? ""); [now apply IH|].
    destruct (PyStr.mem (PyStr.lower (PyStr.strip v0)) seen); [now apply IH|].
    destruct (IH (PyStr.lower (PyStr.strip v0) :: seen) Hin Hne) as [[E|H]|H].
    + right. left. exact E.
    + now left.
    + right. now right.
Qed.

Lemma unique_casefold_fixed seen l :
  (forall n, In n l -> n <> "" /\ PyStr.strip n = n /\ ~ In (PyStr.lower n) seen) ->
  NoDup (map PyStr.lower l) ->
  unique_casefold_from seen l = l.
Proof.
  revert seen. induction l as [|n l IH]; intros seen Hall Hnd; [reflexivity|].
  cbn [map] in Hnd. inversion Hnd as [|? ? Hx Hnd']; subst.
  destruct (Hall n (or_introl eq_refl)) as (Hne & Hs & Hseen).
  simpl. rewrite Hs. apply String.eqb_neq in Hne. rewrite Hne.
  apply mem_false in Hseen. rewrite Hseen. f_equal. apply IH; [|assumption].
  intros m Hm. destruct (Hall m (or_intror Hm)) as (H1 & H2 & H3).
  repeat split; try assumption. intros [E|H]; [|contradiction].
  apply Hx. rewrite E. now apply in_map.
Qed.

End UniqueCasefoldFacts.

(** [unique_casefold] returns stripped, non-empty names that are pairwise
    distinct whatever the case, each the stripped form of a value given;
    every value that is not blank is represented up to case, and the
    result is left unchanged by [unique_casefold]. *)
Theorem unique_casefold_spec values :
  let result := unique_casefold values in
  NoDup (map PyStr.lower result) /\
  Forall (fun n => n <> "" /\ PyStr.strip n = n /\
                   exists v, In v values /\ PyStr.strip v = n) result /\
  Forall (fun v => PyStr.strip v = "" \/
                   In (PyStr.lower (PyStr.strip v)) (map PyStr.lower result)) values /\
  unique_casefold result = result.
Proof.
  cbv zeta. unfold unique_casefold. repeat split.
  - apply unique_casefold_NoDup.
  - apply Forall_forall. intros n Hn. apply unique_casefold_In in Hn. tauto.
  - apply Forall_forall. intros v Hv.
    destruct (string_dec (PyStr.strip v) "") as [E|Hne]; [now left|]. right.
    destruct (unique_casefold_covers [] Hv Hne) as [[]|H]. exact H.
  - apply unique_casefold_fixed; [|apply unique_casefold_NoDup].
    intros n Hn. apply unique_casefold_In in Hn.
    destruct Hn as (H1 & H2 & _ & _). repeat split; auto.
Qed.

(** ** The token of the related-files scan ([main_controller.py]) *)

(** [_related_scan_token], from the setting [deep_scan] and the drives
    selected. *)
Definition _related_scan_token (deep_scan : bool) (scan_drives : list string) : string :=
  String.append "deep="
    (String.append (if deep_scan then "1" else "0")
       (String.append "|drives=" (String.concat "," scan_drives))).

Section TokenFacts.

Definition comma : ascii := ","%char.

(** A drive is a non-empty text without a comma. *)
Definition drive_text (d : string) : Prop :=
  d <> "" /\ CommandPath.free_of comma d = true.

Lemma split_at_char c s1 s2 r1 r2 :
  CommandPath.free_of c s1 = true -> CommandPath.free_of c s2 = true ->
  String.append s1 (String c r1) = String.append s2 (String c r2) ->
  s1 = s2 /\ r1 = r2.
Proof.
  revert s2. induction s1 as [|a s1 IH]; intros [|a2 s2] H1 H2 E; simpl in *.
  - inversion E. auto.
  - inversion E; subst. rewrite Ascii.eqb_refl in H2. discriminate.
  - inversion E; subst. rewrite Ascii.eqb_refl in H1. discriminate.
  - inversion E; subst. apply andb_true_iff in H1. apply andb_true_iff in H2.
    destruct (IH s2 (proj2 H1) (proj2 H2) H3) as [-> ->]. auto.
Qed.

Lemma free_of_append c s r :
  CommandPath.free_of c (String.append s (String c r)) = false.
Proof.
  induction s as [|a s IH]; simpl.
  - now rewrite Ascii.eqb_refl.
  - rewrite IH. apply andb_false_r.
Qed.

Lemma concat_cons x y l :
  String.concat "," (x :: y :: l) =
  String.append x (String comma (String.concat "," (y :: l))).
Proof. reflexivity. Qed.

Lemma concat_commas_inj l1 l2 :
  Forall drive_text l1 -> Forall drive_text l2 ->
  String.concat "," l1 = String.concat "," l2 -> l1 = l2.
Proof.
  revert l2. induction l1 as [|x l1 IH]; intros l2 H1 H2 E.
  - destruct l2 as [|y l2]; [reflexivity|]. exfalso.
    inversion H2 as [|? ? [Hy _] _]; subst. apply Hy.
    destruct l2; simpl in E; [now symmetry|].
    destruct y; [reflexivity | discriminate].
  - inversion H1 as [|? ? [Hx Hfx] H1']; subst.
    destruct l2 as [|y l2].
    { exfalso. apply Hx. destruct l1; simpl in E; [assumption|].
      destruct x; [reflexivity | discriminate]. }
    inversion H2 as [|? ? [Hy Hfy] H2']; subst.
    destruct l1 as [|x' l1], l2 as [|y' l2].
    + simpl in E. now subst.
    + exfalso. rewrite concat_cons in E. cbn [String.concat] in E. subst x.
      now rewrite free_of_append in Hfx.
    + exfalso. rewrite concat_cons in E. cbn [String.concat] in E. subst y.
      now rewrite free_of_append in Hfy.
    + rewrite !concat_cons in E. apply split_at_char in E; try assumption.
      destruct E as [-> E]. f_equal. now apply IH.
Qed.

End TokenFacts.

(** Two configurations of the related-files scan have the same token
    exactly when they have the same deep-scan setting and the same drives,
    in the same order. *)
Theorem related_scan_token_injective deep1 drives1 deep2 drives2 :
  Forall drive_text drives1 -> Forall drive_text drives2 ->
  (_related_scan_token deep1 drives1 = _related_scan_token deep2 drives2 <->
   deep1 = deep2 /\ drives1 = drives2).
Proof.
  intros H1 H2. split; [|intros [-> ->]; reflexivity].
  unfold _related_scan_token. intros E.
  destruct deep1, deep2; cbn in E; inversion E as [E'];
    (split; [reflexivity|]); now apply concat_commas_inj.
Qed.

Lemma related_scan_token_injective_witness :
  Forall drive_text ["C:"; "D:"] /\ Forall drive_text ["C:"] /\
  (_related_scan_token true ["C:"; "D:"] = _related_scan_token true ["C:"] <->
   true = true /\ ["C:"; "D:"] = ["C:"]).
Proof.
  assert (H1 : Forall drive_text ["C:"; "D:"]).
  { repeat constructor; discriminate. }
  assert (H2 : Forall drive_text ["C:"]).
  { repeat constructor; discriminate. }
  split; [exact H1|]. split; [exact H2|].
  exact (@related_scan_token_injective true ["C:"; "D:"] true ["C:"] H1 H2).
Defined.

(** *** [_show_deep_scan_results] *)

Section DeepResults.

Variable os_norm : string -> string.

Local Abbreviation nrp := (_normalize_related_path os_norm).
Local Abbreviation nf := (norm_of os_norm).

(** The normalized paths that the application has already: those of its
    entries with a path, and those of its manual records. *)
Definition deep_existing (app : AppEntry) (items : list ManualItem) : list string :=
  map nf (filter (fun r => PyStr.nonempty (path r)) (related_files app)) ++
  map (item_norm os_norm) items.

Definition deep_proposed (existing ignored : list string) (r : RelatedFile) : bool :=
  negb ((nf r =? "") || PyStr.mem (nf r) existing || PyStr.mem (nf r) ignored).

(** The order of the rows: by decreasing score, then by case-folded
    path. *)
Definition result_leb (a b : RelatedFile) : bool :=
  ((- score a) <? (- score b))%Z ||
  (((- score a) =? (- score b))%Z &&
   String.leb (PyStr.lower (path a)) (PyStr.lower (path b))).

(** The results shown for the application, in the order of the rows. *)
Definition _show_deep_scan_results (o : Overrides) (app : AppEntry)
    (results : list RelatedFile) : list RelatedFile :=
  let existing := deep_existing app (manual_items (related_manual o) (key app)) in
  let ignored := map nrp (recorded (related_ignore o) (key app)) in
  sort_by result_leb (filter (deep_proposed existing ignored) results).

Lemma result_leb_total a b : result_leb a b = true \/ result_leb b a = true.
Proof.
  unfold result_leb.
  destruct (Z.lt_trichotomy (- score a) (- score b)) as [H|[H|H]].
  - left. apply Z.ltb_lt in H. now rewrite H.
  - rewrite H, Z.eqb_refl, Z.ltb_irrefl. cbn [orb andb]. apply String.leb_total.
  - right. apply Z.ltb_lt in H. now rewrite H.
Qed.

End DeepResults.

(** The rows of the deep-scan window are the results whose normalized path
    is non-empty, is not that of an entry or of a manual record of the
    application and is not ignored for it; none of these is left out, and
    they are shown by decreasing score, then by case-folded path. *)
Theorem deep_scan_results_shown os_norm o app results :
  let rows := _show_deep_scan_results os_norm o app results in
  Sorted (fun a b => result_leb a b = true) rows /\
  forall r,
    In r rows <->
    In r results /\ norm_of os_norm r <> "" /\
    ~ holds os_norm (related_files app) (norm_of os_norm r) /\
    ~ In (norm_of os_norm r)
         (map (item_norm os_norm) (manual_items (related_manual o) (key app))) /\
    ~ In (norm_of os_norm r)
         (map (_normalize_related_path os_norm) (recorded (related_ignore o) (key app))).
Proof.
  cbv zeta. unfold _show_deep_scan_results. split.
  { apply sort_by_sorted. apply result_leb_total. }
  intros r.
  set (existing := deep_existing os_norm app _).
  set (ignored := map _ (recorded _ _)).
  assert (Hperm : In r (sort_by result_leb
                          (filter (deep_proposed os_norm existing ignored) results)) <->
                  In r (filter (deep_proposed os_norm existing ignored) results)).
  { split; apply Permutation_in;
      [apply Permutation_sym|]; apply sort_by_perm. }
  rewrite Hperm, filter_In. unfold deep_proposed.
  rewrite negb_true_iff, !orb_false_iff, String.eqb_neq, !mem_false.
  assert (Hex : norm_of os_norm r <> "" ->
                (In (norm_of os_norm r) existing <->
                 holds os_norm (related_files app) (norm_of os_norm r) \/
                 In (norm_of os_norm r)
                    (map (item_norm os_norm)
                         (manual_items (related_manual o) (key app))))).
  { intros Hne. unfold existing, deep_existing. rewrite in_app_iff, in_map_iff.
    split; (intros [H|H]; [left | now right]).
    - destruct H as (x & Ex & Hx). apply filter_In in Hx. exists x. tauto.
    - destruct H as (x & Hx & Ex). exists x. split; [assumption|].
      apply filter_In. split; [assumption|]. apply nonempty_true. intros Ep.
      apply Hne. rewrite <- Ex. unfold norm_of. now rewrite Ep. }
  split.
  - intros (Hr & (Hne & He) & Hi). specialize (Hex Hne). tauto.
  - intros (Hr & Hne & Hh & Hm & Hi). specialize (Hex Hne). tauto.
Qed.

(** *** [_collect_folder_files] *)

Section FolderFiles.

Variable host : Host.

(** The [for filename in files] loop: [Halt] is the return with
    [hit_limit] set. *)
Fixpoint folder_files_loop (max_files : Z) (current : string)
    (results : list string) (files : list string)
    : Flow (list string) (list string * bool) :=
  match files with
  | [] => Go results
  | filename :: rest =>
      if (max_files <=? len results)%Z then Halt (results, true)
      else
        folder_files_loop max_files current
          (results ++ [OsPath.join current filename]) rest
  end.

Definition folder_body (max_files max_depth root_depth : Z)
    (results : list string) (current : string) (files : list string)
    : Flow (list string * bool) (list string * bool) :=
  let depth := (OsPath.depth_of (os_norm host current) - root_depth)%Z in
  match folder_files_loop max_files current results files with
  | Halt r => Halt r
  | Go results' => Go (results', (max_depth <=? depth)%Z)
  end.

Definition _collect_folder_files (root : string) (max_files max_depth : Z)
    : option (list string * bool) :=
  if (root =? "") || negb (isdir host root) then None
  else
    let root_depth := OsPath.depth_of (os_norm host root) in
    match walk host root with
    | None => Some ([], false)
    | Some t =>
        match walk_fold (folder_body max_files max_depth root_depth) t [] with
        | Halt r => Some r
        | Go results => Some (results, false)
        end
    end.

(** The files of a tree down to the depth ceiling, in the order of the
    walk. *)
Fixpoint folder_listing (max_depth root_depth : Z) (t : DirTree) : list string :=
  match t with
  | DirNode current files subs =>
      map (OsPath.join current) files ++
      (if (max_depth <=? OsPath.depth_of (os_norm host current) - root_depth)%Z then []
       else flat_map (folder_listing max_depth root_depth) subs)
  end.

(** What a walk that stops at [m] files makes of the listing [total]. *)
Definition capped (m : nat) (total : list string)
    : Flow (list string) (list string * bool) :=
  if (List.length total <=? m)%nat then Go total else Halt (firstn m total, true).

Lemma capped_more m a b r : capped m a = Halt r -> capped m (a ++ b) = Halt r.
Proof.
  unfold capped. destruct (List.length a <=? m)%nat eqn:E; [discriminate|].
  apply Nat.leb_gt in E. intros H.
  assert (E' : (List.length (a ++ b) <=? m)%nat = false).
  { apply Nat.leb_gt. rewrite length_app. lia. }
  rewrite E', <- H. f_equal. f_equal. rewrite firstn_app.
  replace (m - List.length a) with 0 by lia. simpl. apply app_nil_r.
Qed.

Lemma capped_go m a s : capped m a = Go s -> s = a /\ List.length a <= m.
Proof.
  unfold capped. destruct (List.length a <=? m)%nat eqn:E; [|discriminate].
  apply Nat.leb_le in E. intros [= <-]. split; [reflexivity | exact E].
Qed.

Lemma folder_files_loop_spec max_files current files results :
  List.length results <= Z.to_nat max_files ->
  folder_files_loop max_files current results files =
  capped (Z.to_nat max_files) (results ++ map (OsPath.join current) files).
Proof.
  revert results. induction files as [|filename files IH]; intros results Hlen.
  - cbn [folder_files_loop map]. rewrite app_nil_r. unfold capped.
    apply Nat.leb_le in Hlen. now rewrite Hlen.
  - cbn [folder_files_loop map]. unfold len.
    destruct (max_files <=? Z.of_nat (List.length results))%Z eqn:E.
    + apply Z.leb_le in E.
      assert (Hm : List.length results = Z.to_nat max_files) by lia.
      unfold capped.
      assert (E' : (List.length (results ++ OsPath.join current filename ::
                                   map (OsPath.join current) files)
                    <=? Z.to_nat max_files)%nat = false).
      { apply Nat.leb_gt. rewrite length_app. cbn [List.length]. lia. }
      rewrite E'. f_equal. f_equal. rewrite firstn_app, <- Hm, Nat.sub_diag.
      rewrite firstn_all. simpl. now rewrite app_nil_r.
    + apply Z.leb_gt in E. rewrite IH.
      * now rewrite <- app_assoc.
      * rewrite length_app. cbn [List.length]. lia.
Qed.

Lemma folder_walk_spec max_files max_depth root_depth t results :
  List.length results <= Z.to_nat max_files ->
  walk_fold (folder_body max_files max_depth root_depth) t results =
  capped (Z.to_nat max_files) (results ++ folder_listing max_depth root_depth t).
Proof.
  revert results.
  induction t as [current files subs IH] using DirTree_forall_ind.
  intros results Hlen. cbn [walk_fold folder_listing]. unfold folder_body at 1.
  rewrite (folder_files_loop_spec current files Hlen).
  rewrite app_assoc.
  destruct (capped (Z.to_nat max_files) (results ++ map (OsPath.join current) files))
    as [s1|r] eqn:E1.
  2:{ symmetry. now apply capped_more. }
  apply capped_go in E1. destruct E1 as [-> Hlen1].
  destruct (max_depth <=? OsPath.depth_of (os_norm host current) - root_depth)%Z.
  { rewrite app_nil_r. unfold capped. apply Nat.leb_le in Hlen1. now rewrite Hlen1. }
  revert Hlen1. generalize (results ++ map (OsPath.join current) files).
  induction IH as [|t' subs Ht' _ IHsubs]; intros s Hs.
  - cbn [flat_map]. rewrite app_nil_r. unfold capped. apply Nat.leb_le in Hs.
    now rewrite Hs.
  - cbn [flat_map]. rewrite app_assoc, (Ht' s Hs).
    destruct (capped (Z.to_nat max_files) (s ++ folder_listing max_depth root_depth t'))
      as [s2|r] eqn:E2.
    + apply capped_go in E2. destruct E2 as [-> Hlen2]. now apply IHsubs.
    + symmetry. now apply capped_more.
Qed.

End FolderFiles.

(** [_collect_folder_files] answers nothing for a root that is not a
    directory; otherwise it returns the first [max_files] files of the
    tree down to the depth ceiling, in the order of the walk, and sets
    [hit_limit] exactly when the tree has more of them. *)
Theorem collect_folder_files_truncates host root max_files max_depth :
  _collect_folder_files host root max_files max_depth =
  if (root =? "") || negb (isdir host root) then None
  else
    let all :=
      match walk host root with
      | Some t =>
          folder_listing host max_depth (OsPath.depth_of (os_norm host root)) t
      | None => []
      end in
    Some (firstn (Z.to_nat max_files) all,
          (Z.to_nat max_files <? List.length all)%nat).
Proof.
  unfold _collect_folder_files.
  destruct ((root =? "") || negb (isdir host root)); [reflexivity|].
  cbv zeta. destruct (walk host root) as [t|].
  2:{ now rewrite firstn_nil. }
  rewrite folder_walk_spec by (simpl; lia). cbn [app]. unfold capped.
  destruct (List.length _ <=? Z.to_nat max_files)%nat eqn:E.
  - apply Nat.leb_le in E. rewrite firstn_all2 by assumption.
    assert (E' : (Z.to_nat max_files <? List.length
                    (folder_listing host max_depth
                       (OsPath.depth_of (os_norm host root)) t))%nat = false)
      by (apply Nat.ltb_ge; assumption).
    now rewrite E'.
  - apply Nat.leb_gt in E. apply Nat.ltb_lt in E. now rewrite E.
Qed.

(** ** The time budget of the deep scan *)

(** The walk of the sub-directories, as a function of its own. *)
Fixpoint walk_list {S R : Type}
    (body : S -> string -> list string -> Flow (S * bool) R)
    (l : list DirTree) (s : S) : Flow S R :=
  match l with
  | [] => Go s
  | t :: l' =>
      match walk_fold body t s with
      | Halt r => Halt r
      | Go s2 => walk_list body l' s2
      end
  end.

Lemma walk_fold_node {S R : Type}
    (body : S -> string -> list string -> Flow (S * bool) R) current files subs s :
  walk_fold body (DirNode current files subs) s =
  match body s current files with
  | Halt r => Halt r
  | Go (s1, prune) => if prune then Go s1 else walk_list body subs s1
  end.
Proof.
  cbn [walk_fold]. destruct (body s current files) as [[s1 prune]|r]; [|reflexivity].
  destruct prune; [reflexivity|]. revert s1.
  induction subs as [|t subs IH]; intros s1; [reflexivity|].
  cbn [walk_list]. destruct (walk_fold body t s1); [apply IH | reflexivity].
Qed.

Lemma walk_list_invariant {S R : Type} (P : S -> Prop) (Q : R -> Prop)
    (body : S -> string -> list string -> Flow (S * bool) R) :
  (forall s current files,
      P s -> match body s current files with
             | Go (s', _) => P s'
             | Halt r => Q r
             end) ->
  forall l s, P s -> match walk_list body l s with
                     | Go s' => P s'
                     | Halt r => Q r
                     end.
Proof.
  intros Hbody l. induction l as [|t l IH]; intros s Hs; [exact Hs|].
  cbn [walk_list]. pose proof (walk_fold_invariant Hbody t Hs) as Ht.
  destruct (walk_fold body t s) as [s2|r]; [now apply IH | exact Ht].
Qed.

(** Two walks of the same tree, the second of which goes on where the
    first one stops: [rel] relates their states while both go on, [ahead r]
    holds of the second one once the first has stopped with [r]. *)
Section TwoWalks.

Variables S1 S2 R1 R2 : Type.
Variable body1 : S1 -> string -> list string -> Flow (S1 * bool) R1.
Variable body2 : S2 -> string -> list string -> Flow (S2 * bool) R2.
Variable rel : S1 -> S2 -> Prop.
Variable ahead : R1 -> S2 -> Prop.
Variable ahead_end : R1 -> R2 -> Prop.

Definition outcomes (o1 : Flow S1 R1) (o2 : Flow S2 R2) : Prop :=
  match o1, o2 with
  | Go s1, Go s2 => rel s1 s2
  | Halt r1, Go s2 => ahead r1 s2
  | Halt r1, Halt r2 => ahead_end r1 r2
  | Go _, Halt _ => False
  end.

Hypothesis body_sim : forall s1 s2 current files,
  rel s1 s2 ->
  match body1 s1 current files, body2 s2 current files with
  | Go (s1', p1), Go (s2', p2) => rel s1' s2' /\ p1 = p2
  | Halt r1, Go (s2', _) => ahead r1 s2'
  | Halt r1, Halt r2 => ahead_end r1 r2
  | Go _, Halt _ => False
  end.

Hypothesis body_ahead : forall r1 s2 current files,
  ahead r1 s2 ->
  match body2 s2 current files with
  | Go (s2', _) => ahead r1 s2'
  | Halt r2 => ahead_end r1 r2
  end.

Lemma walk_fold_two t :
  forall s1 s2, rel s1 s2 -> outcomes (walk_fold body1 t s1) (walk_fold body2 t s2).
Proof.
  induction t as [current files subs IH] using DirTree_forall_ind.
  intros s1 s2 Hrel. rewrite !walk_fold_node.
  pose proof (body_sim current files Hrel) as Hstep.
  destruct (body1 s1 current files) as [[s1' p1]|r1],
           (body2 s2 current files) as [[s2' p2]|r2].
  - destruct Hstep as [Hrel' <-]. destruct p1; [exact Hrel'|].
    revert s1' s2' Hrel'. induction IH as [|t' subs Ht' _ IHsubs]; intros s1' s2' Hrel';
      [exact Hrel'|].
    cbn [walk_list]. specialize (Ht' s1' s2' Hrel').
    destruct (walk_fold body1 t' s1') as [a1|r1], (walk_fold body2 t' s2') as [a2|r2];
      cbn [outcomes] in Ht'; try contradiction.
    + now apply IHsubs.
    + exact (walk_list_invariant (P := ahead r1) (Q := ahead_end r1)
               (body := body2) (body_ahead (r1 := r1)) subs Ht').
    + exact Ht'.
  - contradiction.
  - destruct p2; [exact Hstep|].
    exact (walk_list_invariant (P := ahead r1) (Q := ahead_end r1)
             (body := body2) (body_ahead (r1 := r1)) subs Hstep).
  - exact Hstep.
Qed.

End TwoWalks.

(** [a] is an initial segment of [b]. *)
Definition initial_of {A : Type} (a b : list A) : Prop := exists rest, b = a ++ rest.

Lemma initial_of_refl {A : Type} (a : list A) : initial_of a a.
Proof. exists []. now rewrite app_nil_r. Qed.

Lemma initial_of_app {A : Type} (a b c : list A) :
  initial_of a b -> initial_of a (b ++ c).
Proof. intros [rest ->]. exists (rest ++ c). now rewrite app_assoc. Qed.

Lemma initial_of_trans {A : Type} (a b c : list A) :
  initial_of a b -> initial_of b c -> initial_of a c.
Proof. intros [r1 ->] [r2 ->]. exists (r1 ++ r2). now rewrite app_assoc. Qed.

(** A run with a deadline beside a run without one, under limits that
    agree on everything but the seconds. *)
Section BudgetRuns.

Variable host : Host.
Variable fuzzy_score : string -> string -> list string -> string -> list string -> Z.
Variables limits1 limits2 : DeepScanLimits.
Variables (cleaned_name cleaned_pub : string) (tokens_name tokens_pub : list string).
Variable ignored_set : list string.
Variable deadline : option Z.

Hypothesis same_dirs : dl_max_dirs limits1 = dl_max_dirs limits2.
Hypothesis same_files : dl_max_files limits1 = dl_max_files limits2.
Hypothesis same_depth : dl_max_depth limits1 = dl_max_depth limits2.
Hypothesis same_dir_threshold : dir_threshold limits1 = dir_threshold limits2.
Hypothesis same_file_threshold : file_threshold limits1 = file_threshold limits2.

Local Abbreviation loop1 :=
  (deep_files_loop host fuzzy_score limits1 cleaned_name cleaned_pub tokens_name
     tokens_pub ignored_set).
Local Abbreviation loop2 :=
  (deep_files_loop host fuzzy_score limits2 cleaned_name cleaned_pub tokens_name
     tokens_pub ignored_set).
Local Abbreviation body1 :=
  (deep_body host fuzzy_score limits1 cleaned_name cleaned_pub tokens_name
     tokens_pub ignored_set deadline).
Local Abbreviation body2 :=
  (deep_body host fuzzy_score limits2 cleaned_name cleaned_pub tokens_name
     tokens_pub ignored_set None).
Local Abbreviation roots1 :=
  (deep_roots host fuzzy_score limits1 cleaned_name cleaned_pub tokens_name
     tokens_pub ignored_set deadline).
Local Abbreviation roots2 :=
  (deep_roots host fuzzy_score limits2 cleaned_name cleaned_pub tokens_name
     tokens_pub ignored_set None).

(** The two runs agree on all but the clock readings. *)
Definition same_found (st1 st2 : DeepState) : Prop :=
  results st1 = results st2 /\ seen st1 = seen st2.

Lemma deep_files_loop_two current files :
  forall st1 st2, same_found st1 st2 ->
  match loop1 current st1 files, loop2 current st2 files with
  | Go a, Go b => same_found a b
  | Halt r1, Halt r2 => r1 = r2
  | _, _ => False
  end.
Proof.
  induction files as [|filename files IH]; intros st1 st2 [Hr Hs];
    cbn [deep_files_loop]; [now split|].
  rewrite same_files, same_file_threshold, Hr, Hs.
  destruct (dl_max_files limits2 <=? len (results st2))%Z; [reflexivity|].
  destruct (negb _ && negb _); [now apply IH|].
  destruct (_ <? file_threshold limits2)%Z; [now apply IH|].
  destruct (PyStr.mem _ ignored_set || PyStr.mem _ (seen st2)); [now apply IH|].
  apply IH. split; reflexivity.
Qed.

(** The run without a deadline only appends to what it has. *)
Lemma deep_body_extends r root_depth st current files :
  initial_of r (results st) ->
  match body2 root_depth st current files with
  | Go (st', _) => initial_of r (results st')
  | Halt r' => initial_of r r'
  end.
Proof.
  intros H.
  apply (@deep_body_keeps host fuzzy_score limits2 cleaned_name cleaned_pub
           tokens_name tokens_pub ignored_set None
           (fun res _ => initial_of r res) (initial_of r)); [| | |exact H].
  - intros res sn c f Hres _ _ _ _. now apply initial_of_app.
  - intros res sn c Hres _ _ _. split; [|intros _]; now apply initial_of_app.
  - auto.
Qed.

Lemma deep_roots_extends r st roots :
  initial_of r (results st) -> initial_of r (roots2 st roots).
Proof.
  intros H.
  apply (@deep_roots_keeps host fuzzy_score limits2 cleaned_name cleaned_pub
           tokens_name tokens_pub ignored_set None
           (fun res _ => initial_of r res) (initial_of r)); [| | |exact H].
  - intros res sn c f Hres _ _ _ _. now apply initial_of_app.
  - intros res sn c Hres _ _ _. split; [|intros _]; now apply initial_of_app.
  - auto.
Qed.

Lemma past_deadline_same st1 st2 :
  same_found st1 st2 -> same_found (snd (past_deadline host deadline st1)) st2.
Proof.
  intros H. unfold past_deadline. destruct deadline as [d|]; [|exact H].
  destruct (d =? 0)%Z; exact H.
Qed.

Lemma deep_body_two root_depth st1 st2 current files :
  same_found st1 st2 ->
  match body1 root_depth st1 current files, body2 root_depth st2 current files with
  | Go (a, p1), Go (b, p2) => same_found a b /\ p1 = p2
  | Halt r1, Go (b, _) => initial_of r1 (results b)
  | Halt r1, Halt r2 => initial_of r1 r2
  | Go _, Halt _ => False
  end.
Proof.
  intros Hsame. pose proof (past_deadline_same Hsame) as Hsame1.
  unfold deep_body at 1.
  destruct (past_deadline host deadline st1) as [late st1']. cbn [snd] in Hsame1.
  destruct Hsame1 as [Hr Hs].
  destruct late.
  - rewrite Hr.
    pose proof (@deep_body_extends (results st2) root_depth st2 current files
                  (initial_of_refl _)) as H.
    destruct (body2 root_depth st2 current files) as [[b p2]|r2]; exact H.
  - unfold deep_body, past_deadline.
    rewrite same_depth, same_dir_threshold, same_dirs, Hr, Hs.
    destruct (PyStr.mem (_normalize_path host current) ignored_set);
      [split; [now split | reflexivity]|].
    destruct (dir_threshold limits2 <=? _)%Z; [|split; [now split | reflexivity]].
    destruct (PyStr.mem (_normalize_path host current) (seen st2)).
    + assert (Hst : same_found st1' st2) by now split.
      pose proof (@deep_files_loop_two current files st1' st2 Hst) as H.
      destruct (loop1 current st1' files), (loop2 current st2 files);
        try contradiction; [now split | subst; apply initial_of_refl].
    + destruct (dl_max_dirs limits2 <=? _)%Z; [apply initial_of_refl|].
      match goal with
      | |- context [loop1 current ?s1 files] =>
          match goal with
          | |- context [loop2 current ?s2 files] =>
              assert (Hst : same_found s1 s2) by (split; reflexivity);
              pose proof (@deep_files_loop_two current files s1 s2 Hst) as H;
              destruct (loop1 current s1 files), (loop2 current s2 files)
          end
      end; try contradiction; [now split | subst; apply initial_of_refl].
Qed.

Lemma deep_roots_two roots :
  forall st1 st2, same_found st1 st2 ->
  initial_of (roots1 st1 roots) (roots2 st2 roots).
Proof.
  induction roots as [|root roots IH]; intros st1 st2 Hsame; cbn [deep_roots].
  { rewrite (proj1 Hsame). apply initial_of_refl. }
  destruct ((root =? "") || negb (isdir host root)); [now apply IH|].
  set (depth := OsPath.depth_of (_normalize_path host root)).
  assert (Hwalk :
    outcomes same_found (fun r1 s2 => initial_of r1 (results s2))
             (fun r1 r2 => initial_of r1 r2)
      (match walk host root with
       | None => Go st1
       | Some t => walk_fold (body1 depth) t st1
       end)
      (match walk host root with
       | None => Go st2
       | Some t => walk_fold (body2 depth) t st2
       end)).
  { destruct (walk host root) as [t|]; [|exact Hsame].
    apply walk_fold_two; [| |exact Hsame].
    - intros s1 s2 c f Hs. now apply deep_body_two.
    - intros r1 s2 c f Hs. now apply deep_body_extends. }
  destruct (match walk host root with None => Go st1 | Some _ => _ end) as [a|r1],
           (match walk host root with None => Go st2 | Some _ => _ end) as [b|r2];
    cbn [outcomes] in Hwalk.
  - pose proof (past_deadline_same Hwalk) as Hsame2.
    destruct (past_deadline host deadline a) as [late a']. cbn [snd] in Hsame2.
    cbn [past_deadline].
    destruct late; [|now apply IH].
    rewrite (proj1 Hsame2). apply deep_roots_extends, initial_of_refl.
  - contradiction.
  - cbn [past_deadline]. now apply deep_roots_extends.
  - exact Hwalk.
Qed.

End BudgetRuns.

(** The same limits with no time budget. *)
Definition without_seconds (limits : DeepScanLimits) : DeepScanLimits :=
  mkDeepLimits (dl_max_dirs limits) (dl_max_files limits) (dl_max_depth limits) 0
               (dir_threshold limits) (file_threshold limits).

(** The time budget of a deep scan only cuts the scan short: what a scan
    with a budget returns is an initial segment, in the same order, of what
    the scan with the same other limits and no budget returns. *)
Theorem deep_scan_budget_truncates host fuzzy_score app roots limits ignored :
  exists rest,
    deep_scan_for_app host fuzzy_score app roots (without_seconds limits) ignored =
    deep_scan_for_app host fuzzy_score app roots limits ignored ++ rest.
Proof.
  change (initial_of (deep_scan_for_app host fuzzy_score app roots limits ignored)
            (deep_scan_for_app host fuzzy_score app roots (without_seconds limits)
               ignored)).
  unfold deep_scan_for_app.
  destruct roots as [|root roots]; [apply initial_of_refl|].
  assert (Hruns : forall deadline t,
    initial_of
      (deep_roots host fuzzy_score limits (_cleaned (name app))
         (_cleaned (publisher app)) (_tokens (name app)) (_tokens (publisher app))
         (map (_normalize_path host) (filter PyStr.nonempty ignored))
         deadline (mkDeep [] [] t) (root :: roots))
      (deep_roots host fuzzy_score (without_seconds limits) (_cleaned (name app))
         (_cleaned (publisher app)) (_tokens (name app)) (_tokens (publisher app))
         (map (_normalize_path host) (filter PyStr.nonempty ignored))
         None (mkDeep [] [] 0) (root :: roots))).
  { intros deadline t. apply deep_roots_two; try reflexivity. now split. }
  cbn [without_seconds dl_max_seconds]. change (0 =? 0)%Z with true. cbv iota.
  destruct (_tokens (name app)), (_tokens (publisher app)),
    (_cleaned (name app) =? ""), (_cleaned (publisher app) =? "");
    try apply initial_of_refl; apply Hruns.
Qed.

(** ** Install dates ([utils.py])

    [normalize_date] accepts two shapes of a stripped string, eight digits
    and a four-digit year with one- or two-digit month and day between
    hyphens or slashes; the three numbers must make a date of the
    calendar, which is then written in ISO form. *)

Module InstallDate.

(** The class [\d] (its ASCII part). *)
Definition is_digit (c : ascii) : bool :=
  let n := nat_of_ascii c in (48 <=? n)%nat && (n <=? 57)%nat.

(** The class [[-/]]. *)
Definition is_sep (c : ascii) : bool := Ascii.eqb c "-" || Ascii.eqb c "/".

(** [int] of a string of digits. *)
Definition int_of (digits : list ascii) : Z :=
  fold_left (fun acc c => (10 * acc + (Z.of_nat (nat_of_ascii c) - 48))%Z) digits 0%Z.

(** [^(\d{4})(\d{2})(\d{2})$] on a stripped string. *)
Definition match_compact (s : string) : option (Z * Z * Z) :=
  match s with
  | String y1 (String y2 (String y3 (String y4
      (String m1 (String m2 (String d1 (String d2 EmptyString))))))) =>
      if forallb is_digit [y1; y2; y3; y4; m1; m2; d1; d2]
      then Some (int_of [y1; y2; y3; y4], int_of [m1; m2], int_of [d1; d2])
      else None
  | _ => None
  end.

(** [\d{1,2}]: two digits where there are two; what follows it in the
    pattern is never a digit, so that the shorter match cannot succeed
    where the longer one fails. *)
Definition digits12 (s : string) : option (list ascii * string) :=
  match s with
  | String a rest =>
      if is_digit a then
        match rest with
        | String b rest' =>
            if is_digit b then Some ([a; b], rest') else Some ([a], rest)
        | EmptyString => Some ([a], rest)
        end
      else None
  | EmptyString => None
  end.

(** [^(\d{4})[-/](\d{1,2})[-/](\d{1,2})$] on a stripped string. *)
Definition match_dashed (s : string) : option (Z * Z * Z) :=
  match s with
  | String y1 (String y2 (String y3 (String y4 (String sep1 rest)))) =>
      if forallb is_digit [y1; y2; y3; y4] && is_sep sep1 then
        match digits12 rest with
        | Some (m, String sep2 rest2) =>
            if is_sep sep2 then
              match digits12 rest2 with
              | Some (d, EmptyString) => Some (int_of [y1; y2; y3; y4], int_of m, int_of d)
              | _ => None
              end
            else None
        | _ => None
        end
      else None
  | _ => None
  end.

(** [datetime.date(y, m, d)] raises [ValueError] outside the calendar. *)
Definition is_leap (y : Z) : bool :=
  (y mod 4 =? 0)%Z && (negb (y mod 100 =? 0)%Z || (y mod 400 =? 0)%Z).

Definition days_in_month (y m : Z) : Z :=
  match m with
  | 2 => if is_leap y then 29 else 28
  | 4 | 6 | 9 | 11 => 30
  | _ => 31
  end%Z.

Definition date_valid (y m d : Z) : bool :=
  (1 <=? y)%Z && (y <=? 9999)%Z && (1 <=? m)%Z && (m <=? 12)%Z &&
  (1 <=? d)%Z && (d <=? days_in_month y m)%Z.

(** [isoformat]: [%04d-%02d-%02d]. *)
Fixpoint zeros (n : nat) : string :=
  match n with
  | O => ""
  | S k => String "0" (zeros k)
  end.

Definition pad (width : nat) (n : Z) : string :=
  let digits := PyStr.str_of_nat (Z.to_nat n) in
  zeros (width - String.length digits) ++ digits.

Definition isoformat (y m d : Z) : string :=
  pad 4 y ++ "-" ++ pad 2 m ++ "-" ++ pad 2 d.

Definition to_date (ymd : Z * Z * Z) : string :=
  let '(y, m, d) := ymd in
  if date_valid y m d then isoformat y m d else "".

Definition normalize_date (raw : string) : string :=
  if raw =? "" then ""
  else
    let raw := PyStr.strip raw in
    match match_compact raw with
    | Some ymd => to_date ymd
    | None =>
        match match_dashed raw with
        | Some ymd => to_date ymd
        | None => ""
        end
    end.

Example leap_day : normalize_date " 20240229 " = "2024-02-29".
Proof. reflexivity. Qed.

Example no_leap_day : normalize_date "2023/2/29" = "".
Proof. reflexivity. Qed.

Example short_fields : normalize_date "2021-3-7" = "2021-03-07".
Proof. reflexivity. Qed.

(** The shape of a padded number, checked on every number of the width. *)
Definition pad4_ok (y : Z) : bool :=
  match pad 4 y with
  | String a (String b (String c (String d EmptyString))) =>
      forallb is_digit [a; b; c; d] && (int_of [a; b; c; d] =? y)%Z
  | _ => false
  end.

Definition pad2_ok (n : Z) : bool :=
  match pad 2 n with
  | String a (String b EmptyString) =>
      forallb is_digit [a; b] && (int_of [a; b] =? n)%Z
  | _ => false
  end.

Lemma checked_below (ok : Z -> bool) (k : nat) (n : Z) :
  forallb (fun i => ok (Z.of_nat i)) (seq 0 k) = true ->
  (0 <= n < Z.of_nat k)%Z -> ok n = true.
Proof.
  intros E H. rewrite forallb_forall in E.
  rewrite <- (Z2Nat.id n) by lia. apply E, in_seq. lia.
Qed.

Lemma pad4_shape y : (0 <= y < 10000)%Z -> pad4_ok y = true.
Proof.
  intros H. apply (@checked_below pad4_ok (100 * 100)); [|lia].
  vm_compute. reflexivity.
Qed.

Lemma pad2_shape n : (0 <= n < 100)%Z -> pad2_ok n = true.
Proof.
  intros H. apply (@checked_below pad2_ok 100); [|lia].
  vm_compute. reflexivity.
Qed.

Lemma date_valid_bounds y m d :
  date_valid y m d = true ->
  (0 <= y < 10000 /\ 0 <= m < 100 /\ 0 <= d < 100)%Z.
Proof.
  unfold date_valid. rewrite !andb_true_iff, !Z.leb_le.
  intros [[[[[Hy0 Hy] Hm0] Hm] Hd0] Hd].
  assert (days_in_month y m <= 31)%Z.
  { unfold days_in_month.
    destruct m as [|[[[|[]|]|[[]|[]|]|]|[[[]|[]|]|[[]|[]|]|]|]|];
      try destruct (is_leap y); lia. }
  lia.
Qed.

Lemma digit_not_space c : is_digit c = true -> PyStr.is_space c = false.
Proof.
  unfold is_digit, PyStr.is_space. cbv zeta.
  rewrite andb_true_iff, !Nat.leb_le. intros [H1 H2].
  apply orb_false_iff. split; apply andb_false_iff.
  - right. apply Nat.leb_gt. lia.
  - right. apply Nat.leb_gt. lia.
Qed.

Lemma digit_not_sep c : is_digit c = true -> is_sep c = false.
Proof.
  intros H. unfold is_sep.
  destruct (Ascii.eqb c "-") eqn:E1; [apply Ascii.eqb_eq in E1; subst; discriminate|].
  destruct (Ascii.eqb c "/") eqn:E2; [apply Ascii.eqb_eq in E2; subst; discriminate|].
  reflexivity.
Qed.

(** A date in ISO form is read back as itself. *)
Lemma iso_fixed y m d :
  date_valid y m d = true -> normalize_date (isoformat y m d) = isoformat y m d.
Proof.
  intros Hv. destruct (date_valid_bounds Hv) as (Hy & Hm & Hd).
  pose proof (pad4_shape Hy) as Py. pose proof (pad2_shape Hm) as Pm.
  pose proof (pad2_shape Hd) as Pd.
  unfold isoformat, pad4_ok, pad2_ok in *.
  destruct (pad 4 y) as [|y1 [|y2 [|y3 [|y4 [|? ?]]]]] eqn:Fy; try discriminate.
  destruct (pad 2 m) as [|m1 [|m2 [|? ?]]] eqn:Fm; try discriminate.
  destruct (pad 2 d) as [|d1 [|d2 [|? ?]]] eqn:Fd; try discriminate.
  apply andb_true_iff in Py, Pm, Pd.
  destruct Py as [Dy Ey], Pm as [Dm Em], Pd as [Dd Ed].
  apply Z.eqb_eq in Ey, Em, Ed.
  cbn [forallb] in Dy, Dm, Dd.
  rewrite !andb_true_iff in Dy. rewrite !andb_true_iff in Dm.
  rewrite !andb_true_iff in Dd.
  destruct Dy as (Y1 & Y2 & Y3 & Y4 & _), Dm as (M1 & M2 & _), Dd as (D1 & D2 & _).
  cbn [String.append]. unfold normalize_date. cbn [String.eqb].
  assert (Es : PyStr.strip
                 (String y1 (String y2 (String y3 (String y4 (String "-"
                   (String m1 (String m2 (String "-" (String d1 (String d2 "")))))))))) =
               String y1 (String y2 (String y3 (String y4 (String "-"
                 (String m1 (String m2 (String "-" (String d1 (String d2 "")))))))))).
  { unfold PyStr.strip, PyStr.strip_by.
    rewrite (lstrip_by_fixed (p := PyStr.is_space) _ (digit_not_space Y1)).
    cbn [PyStr.rstrip_by String.eqb]. cbv zeta.
    rewrite (digit_not_space D2). cbn [andb String.eqb].
    rewrite !andb_false_r. reflexivity. }
  rewrite Es. cbn [match_compact match_dashed forallb digits12].
  rewrite Y1, Y2, Y3, Y4, M1, M2. change (is_sep "-") with true.
  cbn [andb digits12]. rewrite D1, D2.
  unfold to_date. rewrite Ey, Em, Ed, Hv. unfold isoformat.
  rewrite Fy, Fm, Fd. reflexivity.
Qed.

End InstallDate.

(** [normalize_date] returns the blank string or a date of the calendar in
    ISO form, and leaves its own results as they are. *)
Theorem normalize_date_normal_form raw :
  let out := InstallDate.normalize_date raw in
  (out = "" \/
   exists y m d, InstallDate.date_valid y m d = true /\
                 out = InstallDate.isoformat y m d) /\
  InstallDate.normalize_date out = out.
Proof.
  cbv zeta.
  assert (Hto : forall ymd,
    let out := InstallDate.to_date ymd in
    (out = "" \/
     exists y m d, InstallDate.date_valid y m d = true /\
                   out = InstallDate.isoformat y m d) /\
    InstallDate.normalize_date out = out).
  { intros [[y m] d]. cbv zeta. unfold InstallDate.to_date.
    destruct (InstallDate.date_valid y m d) eqn:Hv.
    - split; [right; now exists y, m, d | now apply InstallDate.iso_fixed].
    - split; [now left | reflexivity]. }
  assert (E : InstallDate.normalize_date raw = "" \/
              exists ymd, InstallDate.normalize_date raw = InstallDate.to_date ymd).
  { unfold InstallDate.normalize_date.
    destruct (raw =? ""); [now left|].
    destruct (InstallDate.match_compact (PyStr.strip raw)) as [ymd|];
      [right; now exists ymd|].
    destruct (InstallDate.match_dashed (PyStr.strip raw)) as [ymd|];
      [right; now exists ymd | now left]. }
  destruct E as [->|[ymd ->]]; [split; [now left | reflexivity] | apply Hto].
Qed.

(** ** Web addresses ([utils.py]) *)

Module WebAddress.

Definition is_alpha (c : ascii) : bool :=
  let n := nat_of_ascii c in
  ((65 <=? n)%nat && (n <=? 90)%nat) || ((97 <=? n)%nat && (n <=? 122)%nat).

(** The class [[a-zA-Z0-9+.-]]. *)
Definition is_scheme_char (c : ascii) : bool :=
  PyStr.is_alnum c || Ascii.eqb c "+" || Ascii.eqb c "." || Ascii.eqb c "-".

Fixpoint skip_scheme (s : string) : string :=
  match s with
  | EmptyString => EmptyString
  | String c s' => if is_scheme_char c then skip_scheme s' else s
  end.

(** [re.match(r"^[a-zA-Z][a-zA-Z0-9+.-]*://", url)]: the colon is not of
    the class, so that the star takes all the characters of the class. *)
Definition has_scheme (url : string) : bool :=
  match url with
  | EmptyString => false
  | String c rest => is_alpha c && PyStr.startswith "://" (skip_scheme rest)
  end.

Definition normalize_url (raw : string) : string :=
  let url := PyStr.strip raw in
  if url =? "" then ""
  else if has_scheme url then url
  else if PyStr.startswith "www." url then "https://" ++ url
  else if PyStr.contains "." url && negb (PyStr.contains " " url)
       then "https://" ++ url
  else "".

Example bare_host : normalize_url " example.org " = "https://example.org".
Proof. reflexivity. Qed.

Example two_words : normalize_url "see example.org" = "".
Proof. reflexivity. Qed.

Lemma rstrip_by_app p a b :
  b <> "" -> PyStr.rstrip_by p b = b -> PyStr.rstrip_by p (a ++ b) = (a ++ b)%string.
Proof.
  intros Hb E. induction a as [|c a IH]; [exact E|].
  cbn [String.append PyStr.rstrip_by]. cbv zeta. rewrite IH.
  destruct (a ++ b)%string eqn:Eab.
  - destruct a; [now subst | discriminate].
  - cbn [String.eqb]. now rewrite andb_false_r.
Qed.

Lemma https_fixed url :
  url <> "" -> PyStr.strip url = url ->
  normalize_url ("https://" ++ url) = ("https://" ++ url)%string.
Proof.
  intros Hne Hs. unfold normalize_url.
  assert (E : PyStr.strip ("https://" ++ url) = ("https://" ++ url)%string).
  { unfold PyStr.strip, PyStr.strip_by. cbn [String.append].
    rewrite lstrip_by_fixed by reflexivity.
    change (String "h" (String "t" (String "t" (String "p" (String "s"
              (String ":" (String "/" (String "/" url))))))))
      with ("https://" ++ url)%string.
    apply rstrip_by_app; [exact Hne|].
    unfold PyStr.strip, PyStr.strip_by in Hs. rewrite <- Hs. apply rstrip_by_idem. }
  rewrite E. reflexivity.
Qed.

End WebAddress.

(** [normalize_url] returns the blank string or an address with a scheme,
    and leaves its own results as they are. *)
Theorem normalize_url_normal_form raw :
  let out := WebAddress.normalize_url raw in
  (out = "" \/ WebAddress.has_scheme out = true) /\
  WebAddress.normalize_url out = out.
Proof.
  cbv zeta.
  assert (Hhttps : forall url,
    url <> "" -> PyStr.strip url = url ->
    (("https://" ++ url)%string = "" \/
     WebAddress.has_scheme ("https://" ++ url) = true) /\
    WebAddress.normalize_url ("https://" ++ url) = ("https://" ++ url)%string).
  { intros url Hne Hs. split; [right; reflexivity | now apply WebAddress.https_fixed]. }
  pose proof (strip_idem raw) as Hs.
  assert (E : WebAddress.normalize_url raw = "" \/
              (PyStr.strip raw <> "" /\
               ((WebAddress.has_scheme (PyStr.strip raw) = true /\
                 WebAddress.normalize_url raw = PyStr.strip raw) \/
                WebAddress.normalize_url raw = ("https://" ++ PyStr.strip raw)%string))).
  { unfold WebAddress.normalize_url. cbv zeta.
    destruct (PyStr.strip raw =? "") eqn:Ee; [now left|].
    apply String.eqb_neq in Ee.
    destruct (WebAddress.has_scheme (PyStr.strip raw)); [right; split; auto|].
    destruct (PyStr.startswith "www." (PyStr.strip raw)); [right; split; auto|].
    destruct (PyStr.contains "." (PyStr.strip raw) &&
              negb (PyStr.contains " " (PyStr.strip raw))); [right; split; auto|].
    now left. }
  destruct E as [->|[Hne [[Esch ->]| ->]]].
  - split; [now left | reflexivity].
  - split; [now right|]. unfold WebAddress.normalize_url. cbv zeta.
    rewrite Hs, Esch. apply String.eqb_neq in Hne. now rewrite Hne.
  - now apply Hhttps.
Qed.
